(* ===== verification/_CoqProject ===== *)
-Q . S2P
Prelude.v
ByteStream.v
RingBuffer.v
RingBufferDma.v
KFifo.v
CommonList.v
DrvModel.v
RoleLaunch.v
DhcpServer.v
Base64.v
Flash.v
NetParam.v
MultiButton.v
Intc.v
FakeClock.v
BigHex.v
EccPrime.v
EccCurve.v
EccField.v
EccPoint.v
Ecc.v
Tftp.v
CmdLine.v
Video.v
