(* ===== verification/Prelude.v ===== *)
(** * A verification of the BK7251 firmware's own components

    The repository is the firmware of a Wi-Fi and Bluetooth audio chip: device
    drivers and functions written for it (src/beken378/driver,
    src/beken378/func, src/beken378/app) on top of third-party stacks (lwIP,
    hostapd, FatFs, FreeRTOS) and of radio libraries that come as binaries.
    This library models components of the first kind, as pure functions on
    explicit state, and proves what makes them correct.

    ** How the code is modelled

    - A C function is a Rocq function to an [outcome]: [Done] with a result,
      [Hang] (a failed [ASSERT] of the debug firmware), [Wild] (an access
      outside the object it names, or through a pointer that names none) or
      [Spin] (a loop that does not end).  A theorem that says [Done] thus
      includes memory safety, the assertions and termination.
    - A word of w bits is a [Z]; every place where the C type wraps is written
      [u8], [u16] or [u32].  A byte region is a [list Z] and [os_memcpy] and
      its relatives are bounds-checked.  Objects that point to each other live
      on a [gmap] heap or keep their [next] and [prev] words.
    - Hardware and third-party code appear as interfaces, type classes whose
      laws say what the data sheet or the library's documentation promises:
      [Flash.Nor] (a NOR flash chip), [DhcpServer.Net] (the lwIP sockets and
      routines), [RoleLaunch.Malloc] (the allocator), [Video.CoLists] (the
      lists of the radio library), and the contracts [RingBufferDma.dma_burst]
      and [dma_drain] (the DMA engine).  Each has a concrete instance on which
      the theorems' witnesses run.  What a library call answers (an allocation,
      the checksum [co_crc32], a socket) is an argument.
    - An operation's state is passed explicitly; a handler that changes many
      globals is a [prog] and is written with the monad's notation.

    ** The files

    - [Prelude] (this file): outcomes, words, byte regions, byte order, the
      hint databases [cmodel], [words] and [prog] and the tactics.
    - [ByteStream]: the class that states what a byte FIFO promises, and the
      theorem about any schedule of reads and writes, proved once.
    - [RingBuffer] (driver/audio/ring_buffer.c) and [RingBufferDma]
      (ring_buffer_dma_write.c, ring_buffer_dma_read.c and the commands of
      driver/general_dma/general_dma.c they use): instances of [ByteStream].
      Bytes come out as they went in, none lost or repeated, also when the
      far end is a DMA engine that moves its pointer between two calls; the
      guard arithmetic is shown to overflow only past the stated sizes.
    - [KFifo] (common/fifo.h and its users in driver/uart/uart.c): the byte FIFO
      of the serial ports, whose indices run freely modulo 2^32, the third
      instance of [ByteStream]; the loops between it and the hardware; the
      FIFOs of a port through failed starts and stops, with the one that is
      used after it was freed.
    - [CommonList] (driver/ble/ble_pub/modules/common/src/common_list.c): the
      BLE stack's linked list refines operations on sequences.
    - [DrvModel] (driver/common/drv_model.c, dd.c): the driver registry
      refines a finite map of names; open and close reach the driver once.
    - [RoleLaunch] (func/joint_up/role_launch.c): the queue of station and
      access-point requests with its retry timers, as a transition system.
      No reachable state faults; launch and enter refine an abstract queue; a
      waiting station is started.
    - [DhcpServer] (func/lwip_intf/dhcpd/dhcp-server.c, dhcp-server-main.c):
      the soft access point's DHCP server and its DNS responder.  One theorem
      carries the invariant on the binding table through any sequence of
      packets; others give the decision on a request, the bytes of a response,
      the search for a free address and the failures of the start.
    - [Base64] (func/base64/base_64.c): encoder and decoder equal a reference,
      and the round trip.
    - [Flash] (driver/flash/flash.c, func/user_driver/BkDriverFlash.c): the
      32-byte page loops read and write exactly the bytes asked for, the
      protection calls set exactly the configured bits, the partition calls
      stay in their partition and erase whole sectors.
    - [NetParam] (func/net_param_intf/net_param.c), a client of [Flash]: the
      parameter table refines a list of items; what is saved is read back.
    - [MultiButton] (func/key/multi_button.c): debouncing and the gesture
      machine, whole presses as sequences of ticks, and the work list.
    - [Intc] (driver/intc/intc.c on common/doubly_list.h): the pointers of
      the service table always spell the list of registered sources in
      priority order, and an interrupt runs exactly the handlers of its set
      bits, in that order.
    - [FakeClock] (func/misc/fake_clock.c): ticks, seconds and the
      correction after a sleep.
    - [Tftp] (app/tftp/tftpclient.c, tftpclient.h), a client of [Flash]: the
      over-the-air update.  Packets, timer and thread as events; an update from
      a well-behaved server leaves exactly the image and the boot loader's
      header on the chip, through repeated, stray and lost datagrams, and
      blocks of other lengths are shown to leave the buffers.
    - [CmdLine] (func/uart_debug/command_line.c): the command interpreter of
      the debug port.  Cutting, macro processing, arguments and lookup each
      equal a definition on texts, and a line runs exactly its commands.
    - [Video] (func/video_transfer/video_transfer.c and the interrupts of
      func/camera_intf/camera_intf.c): camera interrupts and the sending thread
      share 25 packets; every interleaving whose interrupts stay out of the
      calls of the list library implements a queue, so the packets go out in
      order and, when none met a full line, their payloads are the camera's
      bytes.  An interrupt inside such a call, which the code does not shut
      out, is shown to be a fault.

    - [BigHex], [EccField], [EccPoint], [Ecc]
      (driver/ble/ble_pub/modules/ecc_p256/src/ecc_p256.c): the P-256 key
      agreement of the BLE stack, for words of 16 and of 32 bits.  [BigHex]
      are the word loops on 256-bit numbers; [EccField] the product modulo the
      prime with its word-by-word reduction, exact but for narrow ranges, one of
      which is shown to be always wrong, and the inversion, which ends for
      every element but 0; [EccPoint] shows that addition and doubling compute
      the chord-and-tangent law where the products are exact; [Ecc] is the
      queue of multiplications, advanced by a bit per kernel event: under the
      same condition every result is delivered once and is the double and add
      of the point, and the key 0 hangs.
    - [EccPrime] and [EccCurve] are the mathematics behind them: a certificate
      that the modulus is prime, and the curve with its law.

    The components meet at four places: the audio rings and the serial FIFO
    share the [ByteStream] contract, [RingBufferDma] reuses the geometry of
    [RingBuffer], [NetParam] and [Tftp] run on the driver of [Flash] with its
    real definitions, so their theorems go down to the chip's cells, and [Ecc]
    queues its elements on the linked list of [CommonList].

    ** Fuel

    Loops with no structural measure take fuel; every theorem that returns a
    result gives the amount that is enough, and running out is [Spin], a
    value no such theorem allows.
    - [CommonList]: [turns h], one more than the objects on the heap; a chain
      that ends visits each object once.
    - [Flash]: [read_loop] and [write_loop] take [len] turns; each turn moves
      at least one byte.
    - [NetParam]: any fuel above the number of items in the table; a table in
      the code's own format holds at most one item of each type.
    - [Intc]: 33 turns, one more than the 32 sources.
    - [MultiButton]: the number of handles in the work list.
    - [FakeClock]: [tick / 500] turns, one second each.
    - [DhcpServer]: the address search takes 12 turns, because at most eleven
      addresses can be refused (our own, the network's, the broadcast one and
      eight bindings), so twelve failures in a row repeat for ever
      ([search_fuel_exact]); the option scan and the send loop take a turn
      per byte.
    - [EccField]: the inversion takes 514 turns of its outer loop, since each
      but the first two removes a bit from one of two numbers of 256 bits, and
      256 of each inner loop, which halves such a number; [Ecc]'s list loops
      take [turns], and drawing a key one turn per draw.
    - [Base64]: a turn per three bytes of input, or per character.
    - [KFifo]: the transmit loop takes a turn per byte of the memory and one
      more, since each turn takes a byte out.
    - [Tftp]: the string scans take one turn per byte of the 1600-byte receive
      buffer and one more; past its end they are [Wild], as in the code.
    - [CmdLine]: scans take one turn per byte of their buffer and one more; the
      loop over the commands of a line one per character.
    - [Video] has no fuel: the thread is a step function.

    ** Not modelled

    - Third-party sources kept in the tree: hostapd, lwIP, FatFs, FreeRTOS,
      paho-mqtt, EasyFlash's core, the MP3 decoder, the USB stack's headers.
    - The link-layer interface to the radio library (func/rwnx_intf,
      ip/, driver/ble but for its list and P-256 modules) and the calibration of the RF front end
      (func/bk7011_cal, driver/phy): what they mean is defined by the
      binaries and by analogue hardware.
    - Register drivers (gpio, the register half of uart, spi, i2c, pwm, saradc,
      sys_ctrl and the like, the sensor tables of camera_intf.c), which are sequences of register writes with no contract the
      source states, and the register headers.
    - Of the modelled files: printing, statistics, task and timer creation
      where the operating system does all the work, the quad-line and
      power-up commands of [flash_ctrl], and the reset and dump handlers of
      intc.c, the register commands of the other build of command_line.c, the
      sockets and threads themselves of tftpclient.c, and the 4-bit window
      variant of ecc_p256.c, which the build switches off.  [kernel_malloc], kernel messages and the event
      dispatcher, which are in a binary library, are arguments and state of
      [Ecc].  Interrupt locks around one assignment leave no trace;
      [RoleLaunch] keeps them, because a path of that file forgets one.
    - Concurrency inside an operation: handlers run to their end.  The order
      of operations is free, and the DMA engine moves between any two.  [Video]
      goes further: the thread is cut into its accesses to shared state, list
      calls into their beginning and end, and interrupts come between any two
      of these. *)

(** Shared ground of the library:

    - [outcome]: the result of running a C function;
    - machine words as [Z] with their wrap-around written out;
    - byte regions as [list Z], with bounds-checked [os_memcpy];
    - byte order of 16/32-bit words;
    - the hint databases and tactics the component files share. *)

From Stdlib Require Export ZArith Lia.
From stdpp Require Export base list list_numbers gmap fin_maps relations.

#[global] Open Scope Z_scope.

(* ------------------------------------------------------------------ *)
(** ** Outcomes of C code *)

(** A value, a failed [ASSERT] (which prints and spins,
    beken378/common/generic.h), an access outside the object it names, a loop
    that never ends. *)
Inductive outcome (A : Type) : Type :=
  | Done (a : A)
  | Hang
  | Wild
  | Spin.

Arguments Done {A} a.
Arguments Hang {A}.
Arguments Wild {A}.
Arguments Spin {A}.

#[export] Instance outcome_ret : MRet outcome := fun _ a => Done a.
#[export] Instance outcome_bind : MBind outcome := fun _ _ f m =>
  match m with
  | Done a => f a
  | Hang => Hang
  | Wild => Wild
  | Spin => Spin
  end.

(** [ASSERT(exp)] of the debug firmware. *)
Definition ASSERT (b : bool) : outcome unit := if b then Done tt else Hang.

(** Dereferencing a pointer that names no object is [Wild]. *)
Definition deref {A} (o : option A) : outcome A :=
  match o with Some a => Done a | None => Wild end.

(** Programs over a state: handlers that update many globals. *)
Definition prog (S A : Type) : Type := S -> outcome (A * S).

#[export] Instance prog_ret {S} : MRet (prog S) := fun _ a s => Done (a, s).
#[export] Instance prog_bind {S} : MBind (prog S) := fun _ _ f m s =>
  match m s with
  | Done (a, s') => f a s'
  | Hang => Hang
  | Wild => Wild
  | Spin => Spin
  end.

Definition gets {S A} (f : S -> A) : prog S A := fun s => Done (f s, s).
Definition modify {S} (f : S -> S) : prog S unit := fun s => Done (tt, f s).
Definition lift {S A} (m : outcome A) : prog S A := fun s =>
  match m with
  | Done a => Done (a, s)
  | Hang => Hang
  | Wild => Wild
  | Spin => Spin
  end.

(** [if(b) m]. *)
Definition when {S} (b : bool) (m : prog S unit) : prog S unit := if b then m else mret tt.

(* ------------------------------------------------------------------ *)
(** ** Machine words *)

Definition u8 (z : Z) : Z := z mod 2 ^ 8.
Definition u16 (z : Z) : Z := z mod 2 ^ 16.
Definition u32 (z : Z) : Z := z mod 2 ^ 32.
Definition u64 (z : Z) : Z := z mod 2 ^ 64.

(** [char] values are kept unsigned: a byte is a [Z] in [0, 256). *)
Definition is_byte (z : Z) : Prop := 0 <= z < 256.
Definition is_u16 (z : Z) : Prop := 0 <= z < 2 ^ 16.
Definition is_u32 (z : Z) : Prop := 0 <= z < 2 ^ 32.

(** [BIT(i)] of generic.h. *)
Definition BIT (i : Z) : Z := Z.shiftl 1 i.

(** [__bswap16] and [__bswap32] of generic.h, which are its [htons],
    [ntohs], [htonl] and [ntohl] on this little-endian core. *)
Definition bswap16 (x : Z) : Z :=
  u16 (Z.lor (Z.shiftr x 8) (Z.land (Z.shiftl x 8) 0xff00)).

Definition bswap32 (x : Z) : Z :=
  u32 (Z.lor (Z.lor (Z.shiftr x 24) (Z.land (Z.shiftr x 8) 0xff00))
             (Z.lor (Z.land (Z.shiftl x 8) 0xff0000)
                    (Z.land (Z.shiftl x 24) 0xff000000))).

(** Little-endian image of a word, and back. *)
Definition le16 (x : Z) : list Z := [u8 x; u8 (Z.shiftr x 8)].
Definition le32 (x : Z) : list Z :=
  [u8 x; u8 (Z.shiftr x 8); u8 (Z.shiftr x 16); u8 (Z.shiftr x 24)].

Definition of_le (bs : list Z) : Z := foldr (fun b acc => b + 256 * acc) 0 bs.

(* ------------------------------------------------------------------ *)
(** ** Byte regions *)

Definition zlen {A} (l : list A) : Z := Z.of_nat (length l).

(** The [n] bytes from offset [off], no bounds check. *)
Definition slice {A} (l : list A) (off n : Z) : list A :=
  take (Z.to_nat n) (drop (Z.to_nat off) l).

(** [l] with the bytes from offset [off] replaced by [src]. *)
Definition splice {A} (l : list A) (off : Z) (src : list A) : list A :=
  take (Z.to_nat off) l ++ src ++ drop (Z.to_nat off + length src) l.

Definition in_range {A} (l : list A) (off n : Z) : bool :=
  (0 <=? off) && (0 <=? n) && (off + n <=? zlen l).

(** [memcpy] out of and into a region: outside the region it is [Wild]. *)
Definition mem_read {A} (l : list A) (off n : Z) : outcome (list A) :=
  if in_range l off n then Done (slice l off n) else Wild.

Definition mem_write {A} (l : list A) (off : Z) (src : list A) : outcome (list A) :=
  if in_range l off (zlen src) then Done (splice l off src) else Wild.

(** Array element access, [a[i]] and [a[i] = x]. *)
Definition aget {A} (l : list A) (i : Z) : outcome A :=
  if 0 <=? i then deref (l !! Z.to_nat i) else Wild.

Definition aset {A} (l : list A) (i : Z) (x : A) : outcome (list A) :=
  if (0 <=? i) && (i <? zlen l) then Done (<[Z.to_nat i := x]> l) else Wild.

(* ------------------------------------------------------------------ *)
(** ** Automation *)

Create HintDb cmodel discriminated.
Create Rewrite HintDb cmodel.
Create HintDb words discriminated.
Create Rewrite HintDb words.
Create Rewrite HintDb prog.

(** Split a chain of [&&] and reflect integer comparisons into [Prop]. *)
Ltac zbool :=
  repeat match goal with
  | H : andb _ _ = true |- _ => apply andb_true_iff in H; destruct H
  | H : orb _ _ = false |- _ => apply orb_false_iff in H; destruct H
  | H : negb _ = true |- _ => apply negb_true_iff in H
  | H : negb _ = false |- _ => apply negb_false_iff in H
  | H : (_ <? _) = true |- _ => apply Z.ltb_lt in H
  | H : (_ <? _) = false |- _ => apply Z.ltb_ge in H
  | H : (_ <=? _) = true |- _ => apply Z.leb_le in H
  | H : (_ <=? _) = false |- _ => apply Z.leb_gt in H
  | H : (_ =? _) = true |- _ => apply Z.eqb_eq in H
  | H : (_ =? _) = false |- _ => apply Z.eqb_neq in H
  | H : (_ >=? _) = _ |- _ => rewrite Z.geb_leb in H
  | H : (_ >? _) = _ |- _ => rewrite Z.gtb_ltb in H
  end.

(** Case split on the first [if] of the goal, on an integer comparison. *)
Ltac zcase :=
  match goal with
  | |- context [if ?b then _ else _] =>
      let E := fresh "E" in destruct b eqn:E; zbool; try lia
  end.

(** Invert the monadic prefix of a hypothesis [m = Done _]. *)
Ltac inv_done :=
  repeat match goal with
  | H : Done _ = Done _ |- _ => injection H as H; subst
  | H : mret _ = Done _ |- _ => injection H as H; subst
  | H : Hang = Done _ |- _ => discriminate H
  | H : Wild = Done _ |- _ => discriminate H
  | H : Spin = Done _ |- _ => discriminate H
  end.

(** Run the primitives at the head of a program. *)
Ltac prog_run := autorewrite with prog; cbn beta iota.

(** Closed arithmetic and equations, by computation. *)
Ltac decide_closed :=
  repeat match goal with |- _ /\ _ => split end; vm_compute;
  first [reflexivity | split; discriminate | discriminate | intuition discriminate].

(* ------------------------------------------------------------------ *)
(** ** Lemmas on outcomes *)

Lemma bind_done {A B} (m : outcome A) (f : A -> outcome B) b :
  m ≫= f = Done b <-> exists a, m = Done a /\ f a = Done b.
Proof.
  destruct m; cbn; split; try discriminate.
  - eauto.
  - intros (a' & Ha & Hf). by injection Ha as ->.
  - by intros (? & ? & _).
  - by intros (? & ? & _).
  - by intros (? & ? & _).
Qed.

(** Running a program: one equation per primitive, for [prog_run]. *)

Lemma run_bind {S A B} (m : prog S A) (f : A -> prog S B) s a s' :
  m s = Done (a, s') -> (m ≫= f) s = f a s'.
Proof. unfold mbind, prog_bind. by intros ->. Qed.

Lemma run_assoc {S A B C} (m : prog S A) (f : A -> prog S B) (g : B -> prog S C) s :
  ((m ≫= f) ≫= g) s = (m ≫= (fun a => f a ≫= g)) s.
Proof. unfold mbind, prog_bind. by destruct (m s) as [[]| | |]. Qed.

Lemma run_ret_bind {S A B} (a : A) (f : A -> prog S B) s : (mret a ≫= f) s = f a s.
Proof. reflexivity. Qed.

Lemma run_gets_bind {S A B} (h : S -> A) (f : A -> prog S B) s : (gets h ≫= f) s = f (h s) s.
Proof. reflexivity. Qed.

Lemma run_modify_bind {S B} (h : S -> S) (f : unit -> prog S B) s :
  (modify h ≫= f) s = f tt (h s).
Proof. reflexivity. Qed.

Lemma run_lift_bind {S A B} (a : A) (f : A -> prog S B) s : (lift (Done a) ≫= f) s = f a s.
Proof. reflexivity. Qed.

Lemma run_when_true {S B} (m : prog S unit) (f : unit -> prog S B) s :
  (when true m ≫= f) s = (m ≫= f) s.
Proof. reflexivity. Qed.

Lemma run_when_false {S B} (m : prog S unit) (f : unit -> prog S B) s :
  (when false m ≫= f) s = f tt s.
Proof. reflexivity. Qed.

Lemma run_ret {S A} (a : A) (s : S) : (mret a : prog S A) s = Done (a, s).
Proof. reflexivity. Qed.

Lemma run_gets {S A} (h : S -> A) s : gets h s = Done (h s, s).
Proof. reflexivity. Qed.

Lemma run_modify {S} (h : S -> S) s : modify h s = Done (tt, h s).
Proof. reflexivity. Qed.

#[export] Hint Rewrite @run_assoc @run_ret_bind @run_gets_bind @run_modify_bind
  @run_lift_bind @run_when_true @run_when_false @run_ret @run_gets @run_modify : prog.

(** Total correctness of a program from a state: it finishes, with [Q]. *)
Definition wp {S A} (m : prog S A) (Q : A -> S -> Prop) (s : S) : Prop :=
  exists a s', m s = Done (a, s') /\ Q a s'.

Lemma wp_bind {S A B} (m : prog S A) (f : A -> prog S B) Q s :
  wp m (fun a s' => wp (f a) Q s') s -> wp (m ≫= f) Q s.
Proof.
  intros (a & s' & E & b & s'' & E' & Hq). exists b, s''. split; [|done].
  by rewrite (run_bind _ _ _ _ _ E).
Qed.

Lemma wp_ret {S A} (a : A) (Q : A -> S -> Prop) s : Q a s -> wp (mret a) Q s.
Proof. intros Hq. by exists a, s. Qed.

Lemma wp_gets {S A} (f : S -> A) (Q : A -> S -> Prop) s : Q (f s) s -> wp (gets f) Q s.
Proof. intros Hq. by exists (f s), s. Qed.

Lemma wp_modify {S} (f : S -> S) (Q : unit -> S -> Prop) s : Q tt (f s) -> wp (modify f) Q s.
Proof. intros Hq. by exists tt, (f s). Qed.

Lemma wp_lift {S A} (m : outcome A) a (Q : A -> S -> Prop) s :
  m = Done a -> Q a s -> wp (lift m) Q s.
Proof. intros -> Hq. by exists a, s. Qed.

Lemma wp_when {S} (b : bool) (m : prog S unit) (Q : unit -> S -> Prop) s :
  (b = true -> wp m Q s) -> (b = false -> Q tt s) -> wp (when b m) Q s.
Proof. destruct b; intros H1 H2; [by apply H1|]. apply wp_ret. by apply H2. Qed.

Lemma wp_mono {S A} (m : prog S A) (P Q : A -> S -> Prop) s :
  wp m P s -> (forall a s', P a s' -> Q a s') -> wp m Q s.
Proof. intros (a & s' & E & Hp) Hq. exists a, s'. auto. Qed.

Lemma ASSERT_true b : b = true -> ASSERT b = Done tt.
Proof. by intros ->. Qed.

Lemma deref_done {A} (o : option A) a : deref o = Done a <-> o = Some a.
Proof. destruct o; cbn; split; congruence. Qed.

(* ------------------------------------------------------------------ *)
(** ** Lemmas on words *)

Lemma u32_small z : 0 <= z < 2 ^ 32 -> u32 z = z.
Proof. apply Z.mod_small. Qed.

Lemma u16_small z : 0 <= z < 2 ^ 16 -> u16 z = z.
Proof. apply Z.mod_small. Qed.

Lemma u8_small z : 0 <= z < 256 -> u8 z = z.
Proof. apply Z.mod_small. Qed.

Lemma u32_range z : 0 <= u32 z < 2 ^ 32.
Proof. apply Z.mod_pos_bound. lia. Qed.

Lemma u16_range z : 0 <= u16 z < 2 ^ 16.
Proof. apply Z.mod_pos_bound. lia. Qed.

Lemma u8_range z : 0 <= u8 z < 256.
Proof. apply Z.mod_pos_bound. lia. Qed.

Lemma u32_u32 z : u32 (u32 z) = u32 z.
Proof. apply Z.mod_mod. lia. Qed.

#[export] Hint Resolve u32_range u16_range u8_range : words.
#[export] Hint Rewrite u32_u32 : words.
(** Remove the wrap-around of words whose value is known to be in range,
    innermost first. *)
Ltac words :=
  autorewrite with words in *;
  repeat match goal with
  | |- context [u32 ?z] => rewrite (u32_small z) by lia
  | |- context [u16 ?z] => rewrite (u16_small z) by lia
  | |- context [u8 ?z] => rewrite (u8_small z) by lia
  | H : context [u32 ?z] |- _ => rewrite (u32_small z) in H by lia
  | H : context [u16 ?z] |- _ => rewrite (u16_small z) in H by lia
  | H : context [u8 ?z] |- _ => rewrite (u8_small z) in H by lia
  end.

(** Bit [n] of a word, as an implication-free rewriting set. *)
Lemma u32_testbit z n : 0 <= n -> Z.testbit (u32 z) n = (n <? 32) && Z.testbit z n.
Proof.
  intros Hn. unfold u32. rewrite <- Z.land_ones by lia.
  rewrite Z.land_spec. rewrite Z.testbit_ones_nonneg by lia. by rewrite andb_comm.
Qed.

Lemma u16_testbit z n : 0 <= n -> Z.testbit (u16 z) n = (n <? 16) && Z.testbit z n.
Proof.
  intros Hn. unfold u16. rewrite <- Z.land_ones by lia.
  rewrite Z.land_spec. rewrite Z.testbit_ones_nonneg by lia. by rewrite andb_comm.
Qed.

(** Two words of at most [w] bits agree when their bits below [w] do. *)
Lemma bits_below_eq w a b :
  0 <= w -> 0 <= a < 2 ^ w -> 0 <= b < 2 ^ w ->
  (forall n, 0 <= n < w -> Z.testbit a n = Z.testbit b n) -> a = b.
Proof.
  intros Hw Ha Hb Hbits. apply Z.bits_inj'. intros n Hn.
  destruct (decide (n < w)) as [Hlt|Hge]; [by apply Hbits|].
  assert (Hhigh : forall c, 0 <= c < 2 ^ w -> Z.testbit c n = false).
  { intros c Hc. rewrite <- (Z.mod_small c (2 ^ w)) by lia.
    apply Z.mod_pow2_bits_high. lia. }
  by rewrite !Hhigh.
Qed.

(** Case split on an integer known to lie in a small concrete range. *)
Ltac enum_from n k w :=
  let b := eval vm_compute in (k <? w) in
  match b with
  | true =>
      let k' := eval vm_compute in (k + 1) in
      let E := fresh "E" in
      destruct (Z.eq_dec n k) as [E|E]; [subst n | enum_from n k' w]
  | false => exfalso; lia
  end.

Ltac eval_const_bits :=
  repeat match goal with
  | |- context [Z.testbit (Zpos ?p) ?k] =>
      let v := eval vm_compute in (Z.testbit (Zpos p) k) in
      change (Z.testbit (Zpos p) k) with v
  end.

Lemma bswap32_range x : 0 <= bswap32 x < 2 ^ 32.
Proof. apply u32_range. Qed.

Lemma bswap16_range x : 0 <= bswap16 x < 2 ^ 16.
Proof. apply u16_range. Qed.

#[export] Hint Resolve bswap32_range bswap16_range : words.

Lemma testbit_high w x n : 0 <= w -> 0 <= x < 2 ^ w -> w <= n -> Z.testbit x n = false.
Proof.
  intros Hw Hx Hn. rewrite <- (Z.mod_small x (2 ^ w)) by lia.
  by apply Z.mod_pow2_bits_high.
Qed.

(** Bit [n] of the swapped word is bit [n] of the mirrored byte. *)
Lemma bswap32_bits x n : 0 <= x < 2 ^ 32 -> 0 <= n < 32 ->
  Z.testbit (bswap32 x) n = Z.testbit x (n + 24 - 16 * (n / 8)).
Proof.
  intros Hx Hn.
  assert (Hhigh : forall k, 32 <= k -> Z.testbit x k = false)
    by (intros; by apply (testbit_high 32)).
  unfold bswap32. rewrite u32_testbit by lia.
  rewrite !Z.lor_spec, !Z.land_spec, !Z.shiftr_spec, !Z.shiftl_spec by lia.
  enum_from n 0 32; eval_const_bits; cbn -[Z.testbit];
    rewrite ?andb_false_r, ?andb_true_r, ?orb_false_r, ?orb_false_l; try reflexivity;
    rewrite Hhigh by lia; reflexivity.
Qed.

Lemma bswap16_bits x n : 0 <= x < 2 ^ 16 -> 0 <= n < 16 ->
  Z.testbit (bswap16 x) n = Z.testbit x (n + 8 - 16 * (n / 8)).
Proof.
  intros Hx Hn.
  assert (Hhigh : forall k, 16 <= k -> Z.testbit x k = false)
    by (intros; by apply (testbit_high 16)).
  unfold bswap16. rewrite u16_testbit by lia.
  rewrite !Z.lor_spec, !Z.land_spec, !Z.shiftr_spec, !Z.shiftl_spec by lia.
  enum_from n 0 16; eval_const_bits; cbn -[Z.testbit];
    rewrite ?andb_false_r, ?andb_true_r, ?orb_false_r, ?orb_false_l; try reflexivity;
    rewrite Hhigh by lia; reflexivity.
Qed.

Lemma land_word w x y : 0 <= w -> 0 <= x < 2 ^ w -> 0 <= y -> 0 <= Z.land x y < 2 ^ w.
Proof.
  intros Hw Hx Hy. split; [apply Z.land_nonneg; lia|].
  rewrite <- (Z.mod_small x (2 ^ w)) by lia. rewrite <- Z.land_ones by lia.
  rewrite <- Z.land_assoc, (Z.land_comm (Z.ones w)), Z.land_assoc, Z.land_ones by lia.
  apply Z.mod_pos_bound. lia.
Qed.

Lemma lor_word w x y :
  0 <= w -> 0 <= x < 2 ^ w -> 0 <= y < 2 ^ w -> 0 <= Z.lor x y < 2 ^ w.
Proof.
  intros Hw Hx Hy. split; [apply Z.lor_nonneg; lia|].
  destruct (Z.eq_dec (Z.lor x y) 0) as [->|Hne]; [lia|].
  assert (0 <= Z.lor x y) by (apply Z.lor_nonneg; lia).
  apply Z.log2_lt_pow2; [lia|]. rewrite Z.log2_lor by lia.
  assert (Hl : forall z, 0 <= z < 2 ^ w -> w <> 0 -> Z.log2 z < w).
  { intros z Hz Hw0. destruct (Z.eq_dec z 0) as [->|]; [cbn; lia|].
    apply Z.log2_lt_pow2; lia. }
  destruct (Z.eq_dec w 0) as [->|Hw0].
  - replace x with 0 in Hne by lia. replace y with 0 in Hne by lia. done.
  - apply Z.max_lub_lt; by apply Hl.
Qed.

Lemma lor_shift x y k : 0 <= k -> 0 <= x -> 0 <= y < 2 ^ k -> Z.lor (Z.shiftl x k) y = x * 2 ^ k + y.
Proof.
  intros Hk Hx Hy. rewrite <- Z.add_nocarry_lor; [by rewrite Z.shiftl_mul_pow2|].
  apply Z.bits_inj'. intros n Hn. rewrite Z.land_spec, Z.bits_0, Z.shiftl_spec by lia.
  destruct (Z.lt_ge_cases n k) as [Hlt|Hge].
  - by rewrite Z.testbit_neg_r by lia.
  - by rewrite (testbit_high k y n), andb_false_r by lia.
Qed.

(** The byte swap is an involution: [ntohl (htonl x) = x]. *)
Lemma bswap32_involutive x : 0 <= x < 2 ^ 32 -> bswap32 (bswap32 x) = x.
Proof.
  intros Hx. apply (bits_below_eq 32); auto with words; [lia|].
  intros n Hn. rewrite bswap32_bits by auto with words.
  enum_from n 0 32; rewrite bswap32_bits by first [assumption | vm_compute; split; congruence]; reflexivity.
Qed.

Lemma bswap16_involutive x : 0 <= x < 2 ^ 16 -> bswap16 (bswap16 x) = x.
Proof.
  intros Hx. apply (bits_below_eq 16); auto with words; [lia|].
  intros n Hn. rewrite bswap16_bits by auto with words.
  enum_from n 0 16; rewrite bswap16_bits by first [assumption | vm_compute; split; congruence]; reflexivity.
Qed.

Lemma bswap32_inj x y :
  0 <= x < 2 ^ 32 -> 0 <= y < 2 ^ 32 -> bswap32 x = bswap32 y -> x = y.
Proof.
  intros Hx Hy E. rewrite <- (bswap32_involutive x), E by done.
  by apply bswap32_involutive.
Qed.

(** The swap moves whole bytes, so it commutes with the bitwise operations. *)
Lemma bswap32_land x y : 0 <= x < 2 ^ 32 -> 0 <= y < 2 ^ 32 ->
  bswap32 (Z.land x y) = Z.land (bswap32 x) (bswap32 y).
Proof.
  intros Hx Hy.
  assert (Hxy : 0 <= Z.land x y < 2 ^ 32) by (apply land_word; lia).
  pose proof (bswap32_range x). pose proof (bswap32_range y).
  apply (bits_below_eq 32); auto with words; [lia|apply land_word; lia|].
  intros n Hn. rewrite Z.land_spec, !bswap32_bits by auto. apply Z.land_spec.
Qed.

Lemma bswap32_lor x y : 0 <= x < 2 ^ 32 -> 0 <= y < 2 ^ 32 ->
  bswap32 (Z.lor x y) = Z.lor (bswap32 x) (bswap32 y).
Proof.
  intros Hx Hy.
  assert (Hxy : 0 <= Z.lor x y < 2 ^ 32) by (apply lor_word; lia).
  pose proof (bswap32_range x). pose proof (bswap32_range y).
  apply (bits_below_eq 32); auto with words; [lia|apply lor_word; lia|].
  intros n Hn. rewrite Z.lor_spec, !bswap32_bits by auto. apply Z.lor_spec.
Qed.

(* ------------------------------------------------------------------ *)
(** ** Lemmas on byte regions *)

Lemma zlen_nonneg {A} (l : list A) : 0 <= zlen l.
Proof. unfold zlen. lia. Qed.

Lemma zlen_app {A} (l k : list A) : zlen (l ++ k) = zlen l + zlen k.
Proof. unfold zlen. rewrite length_app. lia. Qed.

Lemma zlen_nil {A} : zlen (@nil A) = 0.
Proof. done. Qed.

Lemma zlen_cons {A} (x : A) l : zlen (x :: l) = 1 + zlen l.
Proof. unfold zlen. cbn. lia. Qed.

Lemma zlen_snoc {A} (x : A) l : zlen (l ++ [x]) = zlen l + 1.
Proof. by rewrite zlen_app. Qed.

Lemma zlen_slice {A} (l : list A) off n :
  0 <= off -> 0 <= n -> off + n <= zlen l -> zlen (slice l off n) = n.
Proof. unfold zlen, slice. intros. rewrite length_take, length_drop. lia. Qed.

Lemma zlen_splice {A} (l : list A) off src :
  0 <= off -> off + zlen src <= zlen l -> zlen (splice l off src) = zlen l.
Proof.
  unfold zlen, splice. intros. rewrite !length_app, length_take, length_drop. lia.
Qed.

Lemma slice_0 {A} (l : list A) off : slice l off 0 = [].
Proof. reflexivity. Qed.

Lemma slice_all {A} (l : list A) n : zlen l <= n -> slice l 0 n = l.
Proof. unfold slice, zlen. intros. rewrite drop_0. apply take_ge. lia. Qed.

Lemma slice_glue {A} (l : list A) a n m :
  0 <= a -> 0 <= n -> 0 <= m -> slice l a n ++ slice l (a + n) m = slice l a (n + m).
Proof.
  intros. unfold slice. rewrite !Z2Nat.inj_add by lia.
  rewrite <- drop_drop. by rewrite take_take_drop.
Qed.

Lemma slice_split {A} (l : list A) a n m :
  0 <= a -> 0 <= n <= m -> slice l a m = slice l a n ++ slice l (a + n) (m - n).
Proof. intros. rewrite slice_glue by lia. f_equal. lia. Qed.

Lemma slice_slice {A} (l : list A) a n b m :
  0 <= a -> 0 <= b -> 0 <= m -> b + m <= n -> slice (slice l a n) b m = slice l (a + b) m.
Proof.
  intros. unfold slice. rewrite skipn_firstn_comm, take_take, drop_drop.
  f_equal; [lia|]. f_equal. lia.
Qed.

Lemma slice_app_l {A} (l k : list A) off n :
  0 <= off -> 0 <= n -> off + n <= zlen l -> slice (l ++ k) off n = slice l off n.
Proof.
  unfold zlen. intros. unfold slice. rewrite drop_app_le by lia.
  apply take_app_le. rewrite length_drop. lia.
Qed.

Lemma slice_app_over {A} (l k : list A) n :
  zlen l <= n -> slice (l ++ k) 0 n = l ++ slice k 0 (n - zlen l).
Proof.
  unfold zlen. intros. unfold slice. rewrite !drop_0.
  rewrite take_app_ge by lia. do 2 f_equal. lia.
Qed.

Lemma splice_nil {A} (l : list A) off : splice l off [] = l.
Proof. unfold splice. cbn. rewrite Nat.add_0_r. apply take_drop. Qed.

Lemma slice_splice_before {A} (l : list A) a src off n :
  0 <= off -> 0 <= n -> off + n <= a -> a <= zlen l ->
  slice (splice l a src) off n = slice l off n.
Proof.
  unfold zlen. intros. unfold splice, slice.
  rewrite drop_app_le by (rewrite length_take; lia).
  rewrite take_app_le by (rewrite length_drop, length_take; lia).
  rewrite skipn_firstn_comm, take_take. f_equal. lia.
Qed.

Lemma slice_splice_after {A} (l : list A) a src off n :
  0 <= a -> a + zlen src <= off -> a + zlen src <= zlen l ->
  slice (splice l a src) off n = slice l off n.
Proof.
  unfold zlen. intros. unfold splice, slice. f_equal.
  rewrite drop_app_ge by (rewrite length_take; lia).
  rewrite length_take, drop_app_ge by lia. rewrite drop_drop. f_equal. lia.
Qed.

Lemma slice_splice_same {A} (l : list A) a src n :
  0 <= a -> a + zlen src <= zlen l -> n = zlen src -> slice (splice l a src) a n = src.
Proof.
  unfold zlen. intros ? ? ->. unfold splice, slice.
  rewrite drop_app_ge by (rewrite length_take; lia).
  rewrite length_take.
  replace (Z.to_nat a - Z.to_nat a `min` length l)%nat with 0%nat by lia. rewrite drop_0.
  rewrite take_app_le by lia. apply take_ge. lia.
Qed.

Lemma mem_read_in {A} (l : list A) off n :
  0 <= off -> 0 <= n -> off + n <= zlen l -> mem_read l off n = Done (slice l off n).
Proof.
  intros. unfold mem_read, in_range.
  rewrite !(proj2 (Z.leb_le _ _)) by lia. done.
Qed.

Lemma mem_write_in {A} (l : list A) off src :
  0 <= off -> off + zlen src <= zlen l -> mem_write l off src = Done (splice l off src).
Proof.
  intros. unfold mem_write, in_range. pose proof (zlen_nonneg src).
  rewrite !(proj2 (Z.leb_le _ _)) by lia. done.
Qed.

Lemma mem_write_out {A} (l : list A) off src :
  zlen l < off + zlen src -> mem_write l off src = Wild.
Proof.
  intros. unfold mem_write, in_range.
  rewrite (proj2 (Z.leb_gt (off + zlen src) (zlen l))) by lia.
  by rewrite andb_false_r.
Qed.

Lemma zlen_take {A} (l : list A) n :
  0 <= n -> n <= zlen l -> zlen (take (Z.to_nat n) l) = n.
Proof. unfold zlen. intros. rewrite length_take. lia. Qed.

Lemma splice_bytes m off bs : Forall is_byte m -> Forall is_byte bs -> Forall is_byte (splice m off bs).
Proof.
  intros Hm Hbs. unfold splice. rewrite !Forall_app. split_and!; [by apply Forall_take|done|].
  by apply Forall_drop.
Qed.

Lemma of_le_range bs : Forall is_byte bs -> 0 <= of_le bs < 256 ^ zlen bs.
Proof.
  induction 1 as [|b bs Hb _ IH]; [by vm_compute|]. unfold is_byte in Hb.
  rewrite zlen_cons, Z.pow_add_r by (pose proof (zlen_nonneg bs); lia).
  change (of_le (b :: bs)) with (b + 256 * of_le bs). rewrite Z.pow_1_r. lia.
Qed.

Lemma le32_bytes x : Forall is_byte (le32 x).
Proof. unfold le32. repeat constructor; apply u8_range. Qed.

Lemma le16_bytes x : Forall is_byte (le16 x).
Proof. unfold le16. repeat constructor; apply u8_range. Qed.

Lemma of_le_le32 x : is_u32 x -> of_le (le32 x) = x.
Proof.
  unfold is_u32, of_le, le32, u8. intros Hx. cbn [foldr].
  rewrite !Z.shiftr_div_pow2 by lia. change (2 ^ 8) with 256.
  change (2 ^ 16) with (256 * 256). change (2 ^ 24) with (256 * 256 * 256).
  rewrite <- !Z.div_div by lia. change (2 ^ 32) with (256 * 256 * 256 * 256) in Hx.
  assert (x / 256 / 256 / 256 < 256) by (repeat apply Z.div_lt_upper_bound; lia).
  assert (0 <= x / 256 / 256 / 256) by (repeat apply Z.div_pos; lia).
  rewrite (Z.mod_small (x / 256 / 256 / 256)) by lia.
  pose proof (Z.div_mod x 256). pose proof (Z.div_mod (x / 256) 256).
  pose proof (Z.div_mod (x / 256 / 256) 256). lia.
Qed.

Lemma splice_splice_next {A} (m : list A) off a b :
  0 <= off -> off + zlen a <= zlen m ->
  splice (splice m off a) (off + zlen a) b = splice m off (a ++ b).
Proof.
  unfold zlen, splice. intros Ho Hle. rewrite !app_assoc.
  rewrite take_app_length' by (rewrite length_app, length_take; lia).
  rewrite !drop_app_ge by (rewrite ?length_app, ?length_take; lia). rewrite drop_drop.
  rewrite <- !app_assoc. do 4 f_equal. rewrite !length_app, length_take. lia.
Qed.

Lemma lookup_slice {A} (l : list A) off n i :
  0 <= off -> 0 <= i < n -> slice l off n !! Z.to_nat i = l !! Z.to_nat (off + i).
Proof.
  intros Ho Hi. unfold slice. rewrite lookup_take_lt, lookup_drop by lia. f_equal. lia.
Qed.

Lemma aget_in {A} (l : list A) i x : 0 <= i -> l !! Z.to_nat i = Some x -> aget l i = Done x.
Proof. intros Hi E. unfold aget. rewrite (proj2 (Z.leb_le 0 i)) by lia. by rewrite E. Qed.

Lemma aset_in {A} (l : list A) i x : 0 <= i < zlen l -> aset l i x = Done (<[Z.to_nat i := x]> l).
Proof. intros Hi. unfold aset. by rewrite (proj2 (Z.leb_le 0 i)), (proj2 (Z.ltb_lt i (zlen l))) by lia. Qed.

Lemma nth_splice (l : list Z) off src i :
  0 <= off -> off + zlen src <= zlen l -> 0 <= i ->
  nth (Z.to_nat i) (splice l off src) 0 =
    if (off <=? i) && (i <? off + zlen src) then nth (Z.to_nat (i - off)) src 0 else nth (Z.to_nat i) l 0.
Proof.
  unfold zlen, splice. intros Ho Hz Hi.
  destruct (decide (i < off)) as [Hlt|Hge].
  { rewrite (proj2 (Z.leb_gt off i)) by lia. cbn [andb]. rewrite app_nth1 by (rewrite length_take; lia).
    rewrite !nth_lookup, lookup_take_lt by lia. done. }
  rewrite (proj2 (Z.leb_le off i)) by lia. cbn [andb].
  rewrite app_nth2 by (rewrite length_take; lia). rewrite length_take.
  replace (Z.to_nat i - Z.to_nat off `min` length l)%nat with (Z.to_nat (i - off)) by lia.
  zcase.
  - by rewrite app_nth1 by lia.
  - rewrite app_nth2 by lia. rewrite !nth_lookup, lookup_drop. do 2 f_equal. lia.
Qed.

Lemma splice_glue (buffer a b : list Z) :
  zlen a + zlen b <= zlen buffer ->
  splice (splice buffer 0 a) (zlen a) b = splice buffer 0 (a ++ b).
Proof.
  unfold splice, zlen. intros. rewrite !take_0, !app_nil_l, !Nat2Z.id, Nat.add_0_l.
  rewrite take_app_length, drop_app_ge by lia. rewrite drop_drop, length_app, <- app_assoc.
  do 3 f_equal. lia.
Qed.

#[export] Hint Rewrite @zlen_app @slice_0 : cmodel.
