(* ===== verification/ByteStream.v ===== *)
(** The contract of a byte FIFO, as the audio ring buffers promise it to
    their clients: a producer end that accepts a prefix of the bytes offered,
    a consumer end that returns bytes in order.  [RingBuffer.v] and
    [RingBufferDma.v] discharge it; the schedule theorem below is proved
    against the contract only. *)

From S2P Require Import Prelude.

Class ByteStream (S : Type) := {
  bs_inv : S -> Prop;
  bs_content : S -> list Z;
  (** bytes the producer may offer at once *)
  bs_offer_ok : S -> list Z -> Prop;
  bs_push : S -> list Z -> outcome (Z * S);
  bs_pop : S -> Z -> outcome (list Z * S);
  bs_push_law : forall s bs, bs_inv s -> bs_offer_ok s bs ->
    exists n s', bs_push s bs = Done (n, s') /\ 0 <= n <= zlen bs /\ bs_inv s' /\
      bs_content s' = bs_content s ++ slice bs 0 n;
  bs_pop_law : forall s n, bs_inv s -> is_u32 n ->
    exists out s', bs_pop s n = Done (out, s') /\ bs_inv s' /\
      zlen out = n `min` zlen (bs_content s) /\
      bs_content s = out ++ bs_content s';
  (** what may be offered does not depend on the buffered bytes *)
  bs_offer_stable : forall s s' bs, bs_inv s -> bs_inv s' ->
    bs_offer_ok s bs -> bs_offer_ok s' bs
}.

(** One access by the producer or by the consumer. *)
Inductive access :=
  | Offer (bs : list Z)
  | Take (n : Z).

(** Runs a schedule; returns the bytes delivered to the consumer, the bytes
    accepted from the producer and the final state. *)
Fixpoint run_schedule {S} `{ByteStream S} (s : S) (l : list access)
    : outcome (list Z * list Z * S) :=
  match l with
  | [] => Done ([], [], s)
  | Offer bs :: l' =>
      '(n, s') ← bs_push s bs;
      '(out, acc, s'') ← run_schedule s' l';
      Done (out, slice bs 0 n ++ acc, s'')
  | Take n :: l' =>
      '(o, s') ← bs_pop s n;
      '(out, acc, s'') ← run_schedule s' l';
      Done (o ++ out, acc, s'')
  end.

Definition access_ok {S} `{ByteStream S} (s : S) (a : access) : Prop :=
  match a with Offer bs => bs_offer_ok s bs | Take n => is_u32 n end.

Section Schedule.
Context {S : Type} `{ByteStream S}.

(** Any interleaving of whole accesses delivers the accepted bytes in
    order, without loss or duplication, and never faults. *)
Lemma run_schedule_fifo (l : list access) : forall s : S,
  bs_inv s -> Forall (access_ok s) l ->
  exists out acc s', run_schedule s l = Done (out, acc, s') /\ bs_inv s' /\
    bs_content s ++ acc = out ++ bs_content s'.
Proof.
  induction l as [|[bs|n] l IH]; intros s Hinv Hok; inversion_clear Hok as [|?? Ha Hl].
  - exists [], [], s. by rewrite app_nil_r.
  - destruct (bs_push_law s bs Hinv Ha) as (n & s1 & E1 & _ & Hinv1 & Hc1).
    destruct (IH s1 Hinv1) as (out & acc & s2 & E2 & Hinv2 & Hc2).
    { eapply Forall_impl; [exact Hl|]. intros [b|k]; cbn; eauto using bs_offer_stable. }
    exists out, (slice bs 0 n ++ acc), s2. cbn. rewrite E1. cbn. rewrite E2. cbn.
    split_and!; [done..|]. by rewrite app_assoc, <- Hc1.
  - destruct (bs_pop_law s n Hinv Ha) as (o & s1 & E1 & Hinv1 & _ & Hc1).
    destruct (IH s1 Hinv1) as (out & acc & s2 & E2 & Hinv2 & Hc2).
    { eapply Forall_impl; [exact Hl|]. intros [b|k]; cbn; eauto using bs_offer_stable. }
    exists (o ++ out), acc, s2. cbn. rewrite E1. cbn. rewrite E2. cbn.
    split_and!; [done..|]. by rewrite Hc1, <- !app_assoc, Hc2.
Qed.
End Schedule.
