(* ===== verification/RingBuffer.v ===== *)
(** The audio ring buffer: beken378/driver/audio/ring_buffer.c.

    [rb_st] is the C structure together with the bytes [address] points to;
    every [RB_MEMCPY] is bounds-checked against that region and against the
    caller's buffer, so that a theorem that an operation is [Done] includes
    its memory safety.  The interrupt locks around the index updates are
    single-assignment critical sections and leave no trace in the model. *)

From S2P Require Import Prelude ByteStream.

Definition RWP_SAFE_INTERVAL : Z := 4.

(** [struct rb_st]; [rb_mem] is the memory [address] points to. *)
Record rb_st := mk_rb {
  rb_mem : list Z;
  rb_capacity : Z;
  rb_wp : Z;
  rb_rp : Z
}.

Definition set_rp (rb : rb_st) (rp : Z) : rb_st :=
  mk_rb (rb_mem rb) (rb_capacity rb) (rb_wp rb) rp.
Definition set_wp (rb : rb_st) (wp : Z) : rb_st :=
  mk_rb (rb_mem rb) (rb_capacity rb) wp (rb_rp rb).
Definition set_mem (rb : rb_st) (mem : list Z) : rb_st :=
  mk_rb mem (rb_capacity rb) (rb_wp rb) (rb_rp rb).

Definition rb_init (addr : list Z) (capacity : Z) : rb_st := mk_rb addr capacity 0 0.

Definition rb_clear (rb : rb_st) : rb_st := set_rp (set_wp rb 0) 0.

(** [RB_MEMCPY(buffer + boff, &rb->address[off], n)]. *)
Definition copy_out (rb : rb_st) (off n : Z) (buffer : list Z) (boff : Z)
    : outcome (list Z) :=
  bytes ← mem_read (rb_mem rb) off n;
  mem_write buffer boff bytes.

(** [RB_MEMCPY(&rb->address[off], &buffer[boff], n)]. *)
Definition copy_in (rb : rb_st) (off : Z) (buffer : list Z) (boff n : Z)
    : outcome rb_st :=
  bytes ← mem_read buffer boff n;
  mem ← mem_write (rb_mem rb) off bytes;
  Done (set_mem rb mem).

(** Returns the count of bytes read, the caller's buffer and the structure. *)
Definition rb_read (rb : rb_st) (buffer : list Z) (size count : Z)
    : outcome (Z * list Z * rb_st) :=
  let required_bytes := u32 (size * count) in
  let wp := rb_wp rb in
  if required_bytes =? 0 then Done (0, buffer, rb) else
  if rb_rp rb <=? wp then
    let remain_bytes := u32 (wp - rb_rp rb) in
    if remain_bytes <? required_bytes then
      let read_bytes := remain_bytes in
      buffer ← copy_out rb (rb_rp rb) read_bytes buffer 0;
      Done (read_bytes, buffer, set_rp rb (u32 (rb_rp rb + read_bytes)))
    else
      let read_bytes := required_bytes in
      buffer ← copy_out rb (rb_rp rb) read_bytes buffer 0;
      Done (read_bytes, buffer, set_rp rb (u32 (rb_rp rb + read_bytes)))
  else
    let remain_bytes := u32 (rb_capacity rb - rb_rp rb) in
    if remain_bytes <? required_bytes then
      let read_bytes := remain_bytes in
      buffer ← copy_out rb (rb_rp rb) read_bytes buffer 0;
      if wp <? u32 (required_bytes - read_bytes) then
        buffer ← copy_out rb 0 wp buffer read_bytes;
        Done (u32 (read_bytes + wp), buffer, set_rp rb wp)
      else
        let rest := u32 (required_bytes - read_bytes) in
        buffer ← copy_out rb 0 rest buffer read_bytes;
        Done (required_bytes, buffer, set_rp rb rest)
    else
      let read_bytes := required_bytes in
      buffer ← copy_out rb (rb_rp rb) read_bytes buffer 0;
      Done (read_bytes, buffer, set_rp rb (u32 (rb_rp rb + read_bytes))).

(** The closing step of [rb_write]: a full-to-the-end write pointer wraps,
    unless the read pointer still sits at the start. *)
Definition rb_write_wrap (rb : rb_st) : rb_st :=
  if (rb_capacity rb <=? rb_wp rb) && negb (rb_rp rb =? 0) then set_wp rb 0 else rb.

Definition rb_write (rb : rb_st) (buffer : list Z) (size count : Z)
    : outcome (Z * rb_st) :=
  let write_bytes := u32 (size * count) in
  if write_bytes =? 0 then Done (0, rb) else
  let rp := rb_rp rb in
  if rp <=? rb_wp rb then
    let remain_bytes := u32 (u32 (rb_capacity rb - rb_wp rb) + rp) in
    if u32 (write_bytes + RWP_SAFE_INTERVAL) <=? remain_bytes then
      let remain_bytes := u32 (rb_capacity rb - rb_wp rb) in
      if write_bytes <=? remain_bytes then
        rb ← copy_in rb (rb_wp rb) buffer 0 write_bytes;
        let rb := set_wp rb (u32 (rb_wp rb + write_bytes)) in
        Done (write_bytes, rb_write_wrap rb)
      else
        rb ← copy_in rb (rb_wp rb) buffer 0 remain_bytes;
        let rb := set_wp rb (u32 (write_bytes - remain_bytes)) in
        rb ← copy_in rb 0 buffer remain_bytes (rb_wp rb);
        Done (write_bytes, rb_write_wrap rb)
    else Done (0, rb)
  else
    let remain_bytes := u32 (rp - rb_wp rb) in
    if u32 (write_bytes + RWP_SAFE_INTERVAL) <=? remain_bytes then
      rb ← copy_in rb (rb_wp rb) buffer 0 write_bytes;
      let rb := set_wp rb (u32 (rb_wp rb + write_bytes)) in
      Done (write_bytes, rb_write_wrap rb)
    else Done (0, rb).

Definition rb_get_fill_size (rb : rb_st) : Z :=
  if rb_rp rb <=? rb_wp rb
  then u32 (rb_wp rb - rb_rp rb)
  else u32 (u32 (rb_capacity rb - rb_rp rb) + rb_wp rb).

Definition rb_get_free_size (rb : rb_st) : Z :=
  let free_size :=
    if rb_rp rb <=? rb_wp rb
    then u32 (u32 (rb_capacity rb - rb_wp rb) + rb_rp rb)
    else u32 (rb_rp rb - rb_wp rb) in
  if RWP_SAFE_INTERVAL <? free_size then u32 (free_size - RWP_SAFE_INTERVAL) else 0.

(* ------------------------------------------------------------------ *)
(** ** Abstraction and invariant *)

(** The buffered bytes, oldest first. *)
Definition rb_content (rb : rb_st) : list Z :=
  if rb_rp rb <=? rb_wp rb
  then slice (rb_mem rb) (rb_rp rb) (rb_wp rb - rb_rp rb)
  else slice (rb_mem rb) (rb_rp rb) (rb_capacity rb - rb_rp rb)
       ++ slice (rb_mem rb) 0 (rb_wp rb).

(** Number of buffered bytes, in unbounded arithmetic. *)
Definition rb_fill (rb : rb_st) : Z :=
  if rb_rp rb <=? rb_wp rb then rb_wp rb - rb_rp rb
  else rb_capacity rb - rb_rp rb + rb_wp rb.

Record rb_wf (rb : rb_st) : Prop := {
  wf_cap : RWP_SAFE_INTERVAL <= rb_capacity rb < 2 ^ 32;
  wf_mem : zlen (rb_mem rb) = rb_capacity rb;
  wf_wp : 0 <= rb_wp rb < rb_capacity rb;
  wf_rp : 0 <= rb_rp rb <= rb_capacity rb;
  wf_gap : rb_fill rb <= rb_capacity rb - RWP_SAFE_INTERVAL
}.

(** What [rb_write] accepts: everything or nothing, with the safety gap. *)
Definition rb_accepts (rb : rb_st) (n : Z) : Z :=
  if n + RWP_SAFE_INTERVAL <=? rb_capacity rb - rb_fill rb then n else 0.

(* ------------------------------------------------------------------ *)
(** ** Lemmas *)

Ltac rb_unfold :=
  unfold rb_content, rb_fill, rb_accepts, set_rp, set_wp, set_mem,
    rb_write_wrap, RWP_SAFE_INTERVAL in *; cbn [rb_mem rb_capacity rb_wp rb_rp] in *.

(** Open a well-formed buffer into its fields and bounds. *)
Ltac rb_open H :=
  destruct H as [Hcap Hmem Hwp Hrp Hgap];
  match goal with rb : rb_st |- _ => destruct rb as [mem cap wp rp] end;
  rb_unfold.

Lemma rb_fill_range rb : rb_wf rb -> 0 <= rb_fill rb < rb_capacity rb.
Proof. intros H. rb_open H. zcase. Qed.

Lemma rb_content_length rb : rb_wf rb -> zlen (rb_content rb) = rb_fill rb.
Proof.
  intros H. rb_open H. zcase.
  - by rewrite zlen_slice by lia.
  - rewrite zlen_app, !zlen_slice by lia. lia.
Qed.

Lemma rb_fill_size_exact rb : rb_wf rb -> rb_get_fill_size rb = rb_fill rb.
Proof. intros H. unfold rb_get_fill_size. rb_open H. zcase; words; lia. Qed.

Lemma copy_out_in rb off n buffer boff :
  0 <= off -> 0 <= n -> off + n <= zlen (rb_mem rb) ->
  0 <= boff -> boff + n <= zlen buffer ->
  copy_out rb off n buffer boff = Done (splice buffer boff (slice (rb_mem rb) off n)).
Proof.
  intros. unfold copy_out. rewrite mem_read_in by lia. cbn.
  apply mem_write_in; [lia|]. rewrite zlen_slice by lia. lia.
Qed.

Lemma copy_in_in rb off buffer boff n :
  0 <= off -> 0 <= n -> off + n <= zlen (rb_mem rb) ->
  0 <= boff -> boff + n <= zlen buffer ->
  copy_in rb off buffer boff n =
    Done (set_mem rb (splice (rb_mem rb) off (slice buffer boff n))).
Proof.
  intros. unfold copy_in. rewrite mem_read_in by lia. cbn.
  rewrite mem_write_in; [done|lia|]. rewrite zlen_slice by lia. lia.
Qed.

(** The invariant after a read: the write side and the memory are as before. *)
Lemma rb_read_wf mem cap wp rp rp' :
  rb_wf (mk_rb mem cap wp rp) -> 0 <= rp' <= cap ->
  rb_fill (mk_rb mem cap wp rp') <= rb_fill (mk_rb mem cap wp rp) ->
  rb_wf (mk_rb mem cap wp rp').
Proof. intros [????] ??. rb_unfold. split; rb_unfold; lia. Qed.

(** Reading [n] bytes in one piece, before the end of the memory. *)
Lemma rb_content_straight mem cap wp rp n :
  rb_wf (mk_rb mem cap wp rp) -> 0 <= n ->
  rp + n <= (if rp <=? wp then wp else cap) ->
  let rb := mk_rb mem cap wp rp in
  let rb' := mk_rb mem cap wp (rp + n) in
  slice (rb_content rb) 0 n = slice mem rp n /\
  rb_content rb = slice mem rp n ++ rb_content rb' /\ rb_wf rb'.
Proof.
  intros Hwf Hn. pose proof Hwf as [????]. cbn zeta. rb_unfold.
  destruct (rp <=? wp) eqn:E; zbool; intros Hle; split_and!.
  - rewrite slice_slice by lia. f_equal. lia.
  - rewrite (proj2 (Z.leb_le (rp + n) wp)) by lia. rewrite slice_glue by lia.
    f_equal. lia.
  - apply (rb_read_wf _ _ _ _ _ Hwf); rb_unfold; [lia|]. repeat zcase.
  - rewrite slice_app_l; [|lia..|rewrite zlen_slice; lia].
    rewrite slice_slice by lia. f_equal. lia.
  - rewrite (proj2 (Z.leb_gt (rp + n) wp)) by lia. rewrite app_assoc, slice_glue by lia.
    do 2 f_equal. lia.
  - apply (rb_read_wf _ _ _ _ _ Hwf); rb_unfold; [lia|]. repeat zcase.
Qed.

(** Reading to the end of the memory and [k] bytes from its start. *)
Lemma rb_content_wrapped mem cap wp rp k :
  rb_wf (mk_rb mem cap wp rp) -> wp < rp -> 0 <= k <= wp ->
  let rb := mk_rb mem cap wp rp in
  let rb' := mk_rb mem cap wp k in
  slice (rb_content rb) 0 (cap - rp + k) = slice mem rp (cap - rp) ++ slice mem 0 k /\
  rb_content rb = (slice mem rp (cap - rp) ++ slice mem 0 k) ++ rb_content rb' /\
  rb_wf rb'.
Proof.
  intros Hwf Hlt Hk. pose proof Hwf as [????]. cbn zeta. rb_unfold.
  rewrite (proj2 (Z.leb_gt rp wp)), (proj2 (Z.leb_le k wp)) by lia. split_and!.
  - rewrite slice_app_over; rewrite zlen_slice by lia; [|lia].
    rewrite slice_slice by lia. f_equal. f_equal. lia.
  - rewrite <- app_assoc. f_equal. by rewrite (slice_split mem 0 k wp) by lia.
  - apply (rb_read_wf _ _ _ _ _ Hwf); rb_unfold; [lia|]. repeat zcase.
Qed.

Lemma copy_in_wild rb off buffer boff n :
  0 <= n -> zlen (rb_mem rb) < off + n -> copy_in rb off buffer boff n = Wild.
Proof.
  intros Hn Hout. unfold copy_in, mem_read. destruct (in_range buffer boff n) eqn:E; [|done].
  unfold in_range in E. zbool. cbn. rewrite mem_write_out; [done|].
  rewrite zlen_slice by lia. lia.
Qed.

Lemma copy_in_done_or_wild rb off buffer boff n :
  copy_in rb off buffer boff n = Wild \/
  exists mem, zlen mem = zlen (rb_mem rb) /\ copy_in rb off buffer boff n = Done (set_mem rb mem).
Proof.
  unfold copy_in, mem_read, mem_write.
  destruct (in_range buffer boff n); cbn; [|auto].
  destruct (in_range (rb_mem rb) off _) eqn:E; cbn; [|auto].
  unfold in_range in E. zbool. right. eexists. split; [|done]. by apply zlen_splice.
Qed.

(** The two ways [rb_read] finishes, as the common shape of its result. *)
Definition rb_read_post (rb : rb_st) (buffer : list Z) (n : Z)
    (r : outcome (Z * list Z * rb_st)) : Prop :=
  exists rb', r = Done (n, splice buffer 0 (slice (rb_content rb) 0 n), rb') /\
    rb_wf rb' /\ rb_capacity rb' = rb_capacity rb /\
    rb_content rb = slice (rb_content rb) 0 n ++ rb_content rb'.

Lemma rb_read_straight_post mem cap wp rp buffer n :
  let rb := mk_rb mem cap wp rp in
  rb_wf rb -> 0 <= n -> rp + n <= (if rp <=? wp then wp else cap) -> n <= zlen buffer ->
  rb_read_post rb buffer n
    (buffer ← copy_out rb rp n buffer 0; Done (n, buffer, set_rp rb (rp + n))).
Proof.
  intros rb Hwf Hn Hle Hbuf.
  destruct (rb_content_straight mem cap wp rp n Hwf Hn Hle) as (H1 & H2 & H3).
  pose proof H3 as [? _ _ ? _]. pose proof Hwf as [? ? ? ? _]. rb_unfold.
  exists (mk_rb mem cap wp (rp + n)). subst rb. rb_unfold. rewrite H1.
  rewrite copy_out_in; cbn [rb_mem]; [cbn; words; by rewrite <- H2| |lia| |lia..]; [lia|].
  revert Hle. zcase.
Qed.

Lemma rb_read_wrapped_post mem cap wp rp buffer k :
  let rb := mk_rb mem cap wp rp in
  let part := cap - rp in
  rb_wf rb -> wp < rp -> 0 <= k <= wp -> part + k <= zlen buffer ->
  rb_read_post rb buffer (part + k)
    (buffer ← copy_out rb rp part buffer 0; buffer ← copy_out rb 0 k buffer part;
     Done (part + k, buffer, set_rp rb k)).
Proof.
  intros rb part Hwf Hlt Hk Hbuf.
  destruct (rb_content_wrapped mem cap wp rp k Hwf Hlt Hk) as (H1 & H2 & H3).
  pose proof Hwf as [? ? ? ? _]. exists (mk_rb mem cap wp k). subst rb part. rb_unfold.
  rewrite H1. rewrite copy_out_in by (cbn; lia). cbn.
  rewrite copy_out_in; [|rewrite ?zlen_splice; cbn; rewrite ?zlen_slice by lia; lia..].
  cbn. rewrite <- splice_glue by (rewrite !zlen_slice by lia; lia).
  by rewrite zlen_slice by lia.
Qed.

(** One [rb_read] takes the oldest [n] bytes, [n] the smaller of the request
    and the fill, and leaves the rest of the caller's buffer alone. *)
Lemma rb_read_spec rb buffer size count :
  rb_wf rb -> u32 (size * count) <= zlen buffer ->
  rb_read_post rb buffer (u32 (size * count) `min` rb_fill rb)
    (rb_read rb buffer size count).
Proof.
  intros Hwf Hbuf. pose proof (u32_range (size * count)) as Hreq.
  unfold rb_read. set (req := u32 (size * count)) in *. clearbody req.
  pose proof (rb_fill_range rb Hwf) as Hfill. cbn zeta.
  destruct (req =? 0) eqn:E0; zbool.
  { subst req. rewrite Z.min_l by lia. exists rb. by rewrite slice_0, splice_nil. }
  pose proof Hwf as [? ? ? ? _]. destruct rb as [mem cap wp rp]. unfold rb_fill in *.
  cbn [rb_mem rb_capacity rb_wp rb_rp] in *.
  destruct (rp <=? wp) eqn:E.
  - zbool. words. zcase; words; [rewrite Z.min_r by lia|rewrite Z.min_l by lia];
      apply rb_read_straight_post; rewrite ?(proj2 (Z.leb_le rp wp)) by lia; auto; lia.
  - zbool. words. destruct (cap - rp <? req) eqn:E1; zbool; words.
    + destruct (wp <? req - (cap - rp)) eqn:E2; zbool; words.
      * rewrite Z.min_r by lia. apply rb_read_wrapped_post; auto; lia.
      * rewrite Z.min_l by lia.
        set (k := req - (cap - rp)) in *. replace req with (cap - rp + k) by lia.
        apply rb_read_wrapped_post; auto; lia.
    + rewrite Z.min_l by lia. apply rb_read_straight_post; auto; [lia|].
      rewrite (proj2 (Z.leb_gt rp wp)) by lia. lia.
Qed.

(** What a successful [rb_write] of the bytes [src] leaves behind. *)
Definition rb_write_post (rb : rb_st) (src : list Z) (rb' : rb_st) : Prop :=
  rb_wf rb' /\ rb_capacity rb' = rb_capacity rb /\
  rb_content rb' = rb_content rb ++ src.

(** Writing in one piece at the write pointer, with the wrap to 0. *)
Lemma rb_write_straight_post mem cap wp rp src :
  let rb := mk_rb mem cap wp rp in
  rb_wf rb -> zlen src + RWP_SAFE_INTERVAL <= cap - rb_fill rb -> wp + zlen src <= cap ->
  rb_write_post rb src
    (rb_write_wrap (mk_rb (splice mem wp src) cap (wp + zlen src) rp)).
Proof.
  intros rb Hwf Hfree Hend. pose proof Hwf as [? ? ? ? ?]. subst rb.
  pose proof (zlen_nonneg src). unfold rb_write_post. rb_unfold.
  assert (Hlen : zlen (splice mem wp src) = cap) by (rewrite zlen_splice; lia).
  destruct (rp <=? wp) eqn:E; zbool.
  - destruct (cap <=? wp + zlen src) eqn:E1; zbool.
    + assert (rp <> 0) by lia. rewrite (proj2 (Z.eqb_neq rp 0)) by lia. cbn.
      split_and!; [|done|].
      * split; rb_unfold; try lia. zcase.
      * rewrite (proj2 (Z.leb_gt rp 0)), slice_0, app_nil_r by lia.
        rewrite (slice_split _ rp (wp - rp) (cap - rp)) by lia.
        rewrite slice_splice_before by lia. f_equal.
        replace (rp + (wp - rp)) with wp by lia. apply slice_splice_same; lia.
    + cbn. split_and!; [|done|].
      * split; rb_unfold; try lia. zcase.
      * rewrite (proj2 (Z.leb_le rp (wp + zlen src))) by lia.
        rewrite (slice_split _ rp (wp - rp) (wp + zlen src - rp)) by lia.
        rewrite slice_splice_before by lia. f_equal.
        replace (rp + (wp - rp)) with wp by lia. apply slice_splice_same; lia.
  - rewrite (proj2 (Z.leb_gt cap (wp + zlen src))) by lia. cbn. split_and!; [|done|].
    + split; rb_unfold; try lia. zcase.
    + rewrite (proj2 (Z.leb_gt rp (wp + zlen src))) by lia. rewrite <- app_assoc.
      rewrite slice_splice_after by lia. f_equal.
      rewrite (slice_split _ 0 wp (wp + zlen src)) by lia.
      rewrite slice_splice_before by lia. f_equal. apply slice_splice_same; lia.
Qed.

(** Writing [s1] up to the end of the memory and [s2] from its start. *)
Lemma rb_write_wrapped_post mem cap wp rp s1 s2 :
  let rb := mk_rb mem cap wp rp in
  rb_wf rb -> rp <= wp -> zlen s1 = cap - wp ->
  zlen s1 + zlen s2 + RWP_SAFE_INTERVAL <= cap - rb_fill rb ->
  rb_write_post rb (s1 ++ s2)
    (rb_write_wrap (mk_rb (splice (splice mem wp s1) 0 s2) cap (zlen s2) rp)).
Proof.
  intros rb Hwf Hle Hs1 Hfree. pose proof Hwf as [? ? ? ? ?]. subst rb.
  pose proof (zlen_nonneg s2). unfold rb_write_post. rb_unfold.
  rewrite (proj2 (Z.leb_le rp wp)) in * by lia.
  rewrite (proj2 (Z.leb_gt cap (zlen s2))) by lia. cbn.
  assert (Hlen : zlen (splice mem wp s1) = cap) by (rewrite zlen_splice; lia).
  rewrite (proj2 (Z.leb_gt rp (zlen s2))) by lia. split_and!; [|done|].
  - split; rb_unfold; try lia.
    + rewrite zlen_splice; lia.
    + rewrite (proj2 (Z.leb_gt rp (zlen s2))) by lia. lia.
  - rewrite slice_splice_after by lia. rewrite slice_splice_same by lia.
    rewrite app_assoc. f_equal. rewrite (slice_split _ rp (wp - rp) (cap - rp)) by lia.
    rewrite slice_splice_before by lia. f_equal.
    replace (rp + (wp - rp)) with wp by lia. apply slice_splice_same; lia.
Qed.

Lemma rb_write_spec rb buffer size count :
  let n := u32 (size * count) in
  rb_wf rb -> n + RWP_SAFE_INTERVAL < 2 ^ 32 -> n <= zlen buffer ->
  exists rb', rb_write rb buffer size count = Done (rb_accepts rb n, rb') /\
    rb_write_post rb (slice buffer 0 (rb_accepts rb n)) rb'.
Proof.
  intros n Hwf Hov Hbuf. pose proof (u32_range (size * count)) as Hn. subst n.
  unfold rb_write. set (n := u32 (size * count)) in *. clearbody n.
  pose proof (rb_fill_range rb Hwf) as Hfill. pose proof Hwf as [? ? ? ? Hgap].
  destruct rb as [mem cap wp rp]. unfold rb_accepts.
  assert (Hrefuse : rb_write_post (mk_rb mem cap wp rp) (slice buffer 0 0) (mk_rb mem cap wp rp)).
  { split_and!; [done..|]. by rewrite slice_0, app_nil_r. }
  destruct (n =? 0) eqn:E0; zbool; cbn [rb_mem rb_capacity rb_wp rb_rp] in *.
  { subst n. exists (mk_rb mem cap wp rp). destruct (_ <=? _); eauto. }
  assert (Hn' : zlen (slice buffer 0 n) = n) by (rewrite zlen_slice; lia).
  pose proof (rb_write_straight_post mem cap wp rp (slice buffer 0 n) Hwf) as Hstraight.
  unfold RWP_SAFE_INTERVAL, rb_fill in *. cbn [rb_mem rb_capacity rb_wp rb_rp] in *.
  destruct (rp <=? wp) eqn:E; zbool; words.
  - replace (cap - wp + rp) with (cap - (wp - rp)) in * by lia.
    destruct (n + 4 <=? cap - (wp - rp)) eqn:E1; zbool; [|eauto].
    destruct (n <=? cap - wp) eqn:E2; zbool; words.
    + rewrite copy_in_in by (cbn; lia). cbn. words. eexists. split; [done|].
      rewrite Hn' in Hstraight. apply Hstraight; lia.
    + rewrite copy_in_in by (cbn; lia). cbn. words.
      rewrite copy_in_in by (cbn; rewrite ?zlen_splice; rewrite ?zlen_slice; lia).
      cbn. eexists. split; [done|].
      rewrite (slice_split buffer 0 (cap - wp) n) by lia. rewrite Z.add_0_l.
      pose proof (rb_write_wrapped_post mem cap wp rp (slice buffer 0 (cap - wp))
        (slice buffer (cap - wp) (n - (cap - wp)))) as Hw.
      rewrite !zlen_slice in Hw by lia. apply Hw; auto; unfold rb_fill; cbn;
        rewrite ?(proj2 (Z.leb_le rp wp)) by lia; unfold RWP_SAFE_INTERVAL; lia.
  - replace (cap - (cap - rp + wp)) with (rp - wp) in * by lia.
    destruct (n + 4 <=? rp - wp) eqn:E1; zbool; [|eauto]. words.
    rewrite copy_in_in by (cbn; lia). cbn. words. eexists. split; [done|].
    rewrite Hn' in Hstraight. apply Hstraight; lia.
Qed.

Lemma rb_free_size_exact rb :
  rb_wf rb ->
  rb_get_free_size rb = Z.max 0 (rb_capacity rb - rb_fill rb - RWP_SAFE_INTERVAL).
Proof.
  intros H. unfold rb_get_free_size. rb_open H.
  destruct (rp <=? wp) eqn:E; zbool; words; zcase; words; lia.
Qed.

Lemma rb_accepts_range rb n :
  rb_wf rb -> 0 <= n -> 0 <= rb_accepts rb n <= n.
Proof. intros H Hn. unfold rb_accepts. zcase. Qed.

Lemma rb_init_wf addr capacity :
  zlen addr = capacity -> RWP_SAFE_INTERVAL <= capacity < 2 ^ 32 ->
  rb_wf (rb_init addr capacity).
Proof. intros. split; unfold rb_init; rb_unfold; cbn; lia. Qed.

(** The state an interrupt sees between the publication of the write pointer
    and the second [RB_MEMCPY] of a wrapped write. *)
Definition rb_write_window (rb : rb_st) (buffer : list Z) (write_bytes : Z)
    : outcome rb_st :=
  let remain_bytes := u32 (rb_capacity rb - rb_wp rb) in
  rb ← copy_in rb (rb_wp rb) buffer 0 remain_bytes;
  Done (set_wp rb (u32 (write_bytes - remain_bytes))).

(** ** The FIFO contract *)

(** Byte-wise use of the two ends, as the audio clients call them. *)
Definition rb_push (rb : rb_st) (bs : list Z) : outcome (Z * rb_st) :=
  rb_write rb bs 1 (zlen bs).

Definition rb_pop (rb : rb_st) (n : Z) : outcome (list Z * rb_st) :=
  '(k, buf, rb') ← rb_read rb (replicate (Z.to_nat n) 0) 1 n;
  Done (slice buf 0 k, rb').

Lemma rb_push_law rb bs :
  rb_wf rb -> zlen bs + RWP_SAFE_INTERVAL < 2 ^ 32 ->
  exists n rb', rb_push rb bs = Done (n, rb') /\ 0 <= n <= zlen bs /\ rb_wf rb' /\
    rb_content rb' = rb_content rb ++ slice bs 0 n.
Proof.
  intros Hwf Hov. pose proof (zlen_nonneg bs). unfold rb_push.
  pose proof (rb_write_spec rb bs 1 (zlen bs) Hwf) as Hs. cbn zeta in Hs.
  unfold RWP_SAFE_INTERVAL in *. rewrite Z.mul_1_l, u32_small in Hs by lia.
  destruct Hs as (rb' & E & ? & _ & ?); [lia..|].
  exists (rb_accepts rb (zlen bs)), rb'.
  split_and!; try done; by apply rb_accepts_range.
Qed.

Lemma rb_pop_law rb n :
  rb_wf rb -> is_u32 n ->
  exists out rb', rb_pop rb n = Done (out, rb') /\ rb_wf rb' /\
    zlen out = n `min` zlen (rb_content rb) /\ rb_content rb = out ++ rb_content rb'.
Proof.
  unfold is_u32, rb_pop. intros Hwf Hn.
  assert (Hlen : zlen (replicate (Z.to_nat n) 0) = n)
    by (unfold zlen; rewrite length_replicate; lia).
  pose proof (rb_read_spec rb (replicate (Z.to_nat n) 0) 1 n Hwf) as Hs.
  rewrite Z.mul_1_l, u32_small in Hs by lia. destruct Hs as (rb' & E & Hwf' & _ & Hc); [lia|].
  rewrite E. cbn. pose proof (rb_fill_range rb Hwf) as Hf.
  pose proof (rb_content_length rb Hwf) as Hl. set (k := n `min` rb_fill rb) in *.
  assert (Hk : zlen (slice (rb_content rb) 0 k) = k) by (rewrite zlen_slice; lia).
  rewrite slice_splice_same by lia. eexists _, rb'. split_and!; [done..| |done].
  by rewrite Hk, Hl.
Qed.

#[export] Instance rb_stream : ByteStream rb_st := {|
  bs_inv := rb_wf;
  bs_content := rb_content;
  bs_offer_ok _ bs := zlen bs + RWP_SAFE_INTERVAL < 2 ^ 32;
  bs_push := rb_push;
  bs_pop := rb_pop;
  bs_push_law := rb_push_law;
  bs_pop_law := rb_pop_law;
  bs_offer_stable _ _ _ _ _ H := H
|}.

(* ------------------------------------------------------------------ *)
(** ** Properties *)

(** [rb_write] is all-or-nothing and appends.  For any element size and
    count whose product does not come within 4 of 2^32, it is memory-safe,
    accepts the bytes exactly when they fit with the 4-byte safety gap,
    appends exactly them to the buffered content, and keeps the invariant;
    otherwise it returns 0 and the content is unchanged. *)
Theorem rb_write_appends (rb : rb_st) (buffer : list Z) (size count : Z) :
  let n := u32 (size * count) in
  rb_wf rb -> n + RWP_SAFE_INTERVAL < 2 ^ 32 -> n <= zlen buffer ->
  exists ret rb', rb_write rb buffer size count = Done (ret, rb') /\
    ret = (if n + RWP_SAFE_INTERVAL <=? rb_capacity rb - zlen (rb_content rb) then n else 0) /\
    rb_wf rb' /\ rb_capacity rb' = rb_capacity rb /\
    rb_content rb' = rb_content rb ++ slice buffer 0 ret.
Proof.
  intros n Hwf Hov Hbuf. rewrite (rb_content_length rb Hwf).
  destruct (rb_write_spec rb buffer size count Hwf Hov Hbuf) as (rb' & E & ? & ? & ?).
  eauto 10.
Qed.

(** [rb_read] is memory-safe, returns the oldest bytes in order, as many
    as requested or as are buffered, and removes exactly those; the rest of
    the caller's buffer is untouched. *)
Theorem rb_read_takes_oldest (rb : rb_st) (buffer : list Z) (size count : Z) :
  rb_wf rb -> u32 (size * count) <= zlen buffer ->
  exists ret buffer' rb', rb_read rb buffer size count = Done (ret, buffer', rb') /\
    ret = u32 (size * count) `min` zlen (rb_content rb) /\
    rb_content rb = slice buffer' 0 ret ++ rb_content rb' /\
    slice buffer' ret (zlen buffer - ret) = slice buffer ret (zlen buffer - ret) /\
    rb_wf rb' /\ rb_capacity rb' = rb_capacity rb.
Proof.
  intros Hwf Hbuf. pose proof (rb_fill_range rb Hwf). pose proof (u32_range (size * count)).
  destruct (rb_read_spec rb buffer size count Hwf Hbuf) as (rb' & E & ? & ? & Hc).
  rewrite (rb_content_length rb Hwf). set (n := _ `min` _) in *.
  assert (Hn : zlen (slice (rb_content rb) 0 n) = n)
    by (rewrite zlen_slice; rewrite ?rb_content_length; auto; lia).
  eexists _, _, rb'. split; [exact E|]. split_and!; auto.
  - rewrite slice_splice_same by lia. done.
  - apply slice_splice_after; lia.
Qed.

(** the size queries are exact: the fill size is the number of buffered
    bytes, and a nonempty write of [n] bytes is accepted exactly when [n] is
    at most the reported free size. *)
Theorem rb_sizes_predict_write (rb : rb_st) (buffer : list Z) (n : Z) :
  rb_wf rb -> 0 < n -> n + RWP_SAFE_INTERVAL < 2 ^ 32 -> n <= zlen buffer ->
  rb_get_fill_size rb = zlen (rb_content rb) /\
  exists ret rb', rb_write rb buffer 1 n = Done (ret, rb') /\
    (ret = n <-> n <= rb_get_free_size rb) /\ (ret = 0 <-> rb_get_free_size rb < n).
Proof.
  intros Hwf Hn Hov Hbuf. rewrite (rb_content_length rb Hwf), (rb_fill_size_exact rb Hwf).
  split; [done|]. unfold RWP_SAFE_INTERVAL in Hov.
  destruct (rb_write_spec rb buffer 1 n Hwf) as (rb' & E & _);
    rewrite Z.mul_1_l, u32_small in * by lia; unfold RWP_SAFE_INTERVAL in *; [lia..|].
  exists (rb_accepts rb n), rb'. split; [done|]. rewrite (rb_free_size_exact rb Hwf).
  unfold rb_accepts, RWP_SAFE_INTERVAL. zcase.
Qed.

(** C1: the ring buffer is a lossless FIFO under any interleaving of whole
    reads and writes, starting from [rb_init]: what the reader got, followed
    by what is still buffered, is exactly what the writer was told was
    accepted, in order. *)
Theorem rb_fifo (addr : list Z) (capacity : Z) (l : list access) :
  zlen addr = capacity -> RWP_SAFE_INTERVAL <= capacity < 2 ^ 32 ->
  Forall (access_ok (rb_init addr capacity)) l ->
  exists out acc rb', run_schedule (rb_init addr capacity) l = Done (out, acc, rb') /\
    rb_wf rb' /\ acc = out ++ rb_content rb'.
Proof.
  intros Hlen Hcap Hl.
  destruct (run_schedule_fifo l (rb_init addr capacity)) as (out & acc & rb' & E & Hwf & Hc);
    [by apply rb_init_wf|done|].
  exists out, acc, rb'. split; [done|]. by split.
Qed.

(** the guard [remain_bytes >= write_bytes + RWP_SAFE_INTERVAL] wraps: a
    write of [2^32 - 4 .. 2^32 - 1] bytes passes it on every well-formed
    buffer below 2^31 - 2 bytes and copies outside the memory. *)
Theorem rb_write_guard_overflow (rb : rb_st) (buffer : list Z) (size count : Z) :
  rb_wf rb -> rb_capacity rb < 2 ^ 31 - 2 ->
  2 ^ 32 - RWP_SAFE_INTERVAL <= u32 (size * count) ->
  rb_write rb buffer size count = Wild.
Proof.
  intros Hwf Hsmall Hbig. pose proof (u32_range (size * count)) as Hn.
  unfold rb_write. set (n := u32 (size * count)) in *. clearbody n.
  rb_open Hwf. rewrite (proj2 (Z.eqb_neq n 0)) by lia.
  assert (Hwrap : u32 (n + 4) = n + 4 - 2 ^ 32).
  { unfold u32. symmetry. apply (Z.mod_unique_pos _ _ 1); lia. }
  rewrite Hwrap. destruct (rp <=? wp) eqn:E; zbool; words.
  - rewrite (proj2 (Z.leb_le _ _)) by lia. rewrite (proj2 (Z.leb_gt _ _)) by lia.
    edestruct copy_in_done_or_wild as [->|(mem1 & Hlen & ->)]; [done|].
    cbn in *. words. by rewrite copy_in_wild by (cbn; lia).
  - rewrite (proj2 (Z.leb_le _ _)) by lia. by rewrite copy_in_wild by (cbn; lia).
Qed.

(** in a wrapped write the write pointer is published before the second
    copy: at that point the reader sees, after the accepted head, the stale
    bytes at the start of the memory instead of the rest of the data. *)
Theorem rb_write_window_stale (rb : rb_st) (buffer : list Z) (n : Z) :
  rb_wf rb -> rb_rp rb <= rb_wp rb -> rb_capacity rb - rb_wp rb < n -> n <= zlen buffer ->
  n + RWP_SAFE_INTERVAL <= rb_capacity rb - rb_fill rb ->
  let part := rb_capacity rb - rb_wp rb in
  exists rb1, rb_write_window rb buffer n = Done rb1 /\
    rb_content rb1 =
      rb_content rb ++ slice buffer 0 part ++ slice (rb_mem rb) 0 (n - part).
Proof.
  intros Hwf Hle Hpart Hbuf Hfree. unfold rb_write_window. rb_open Hwf.
  rewrite (proj2 (Z.leb_le rp wp)) in * by lia. words.
  rewrite copy_in_in by (cbn; lia). eexists. split; [done|]. cbn. words.
  rewrite (proj2 (Z.leb_gt rp (n - (cap - wp)))) by lia.
  rewrite (slice_splice_before _ _ _ 0) by lia. rewrite app_assoc. f_equal.
  rewrite (slice_split _ rp (wp - rp) (cap - rp)) by lia.
  rewrite slice_splice_before by lia. f_equal.
  replace (rp + (wp - rp)) with wp by lia. apply slice_splice_same; rewrite ?zlen_slice; lia.
Qed.

(* ------------------------------------------------------------------ *)
(** ** The properties on concrete buffers *)

(** Eight bytes of memory, two of them buffered at offset 5. *)
Definition rb_example : rb_st := mk_rb [10; 11; 12; 13; 14; 15; 16; 17] 8 7 5.

Lemma rb_example_wf : rb_wf rb_example.
Proof. split; decide_closed. Defined.

Lemma rb_write_appends_witness :
  exists ret rb', rb_write rb_example [1; 2] 1 2 = Done (ret, rb') /\
    ret = 2 /\ rb_wf rb' /\ rb_capacity rb' = 8 /\
    rb_content rb' = [15; 16] ++ slice [1; 2] 0 ret.
Proof.
  apply (rb_write_appends rb_example [1; 2] 1 2 rb_example_wf); decide_closed.
Defined.

Lemma rb_read_takes_oldest_witness :
  exists ret buffer' rb', rb_read rb_example [0; 0; 9] 1 3 = Done (ret, buffer', rb') /\
    ret = 2 /\ [15; 16] = slice buffer' 0 ret ++ rb_content rb' /\
    slice buffer' ret (3 - ret) = slice [0; 0; 9] ret (3 - ret) /\
    rb_wf rb' /\ rb_capacity rb' = 8.
Proof.
  apply (rb_read_takes_oldest rb_example [0; 0; 9] 1 3 rb_example_wf); decide_closed.
Defined.

Lemma rb_sizes_predict_write_witness :
  rb_get_fill_size rb_example = 2 /\
  exists ret rb', rb_write rb_example [1; 2; 3] 1 3 = Done (ret, rb') /\
    (ret = 3 <-> 3 <= rb_get_free_size rb_example) /\
    (ret = 0 <-> rb_get_free_size rb_example < 3).
Proof.
  apply (rb_sizes_predict_write rb_example [1; 2; 3] 3 rb_example_wf); decide_closed.
Defined.

Lemma rb_fifo_witness :
  let l := [Offer [1; 2; 3]; Take 2; Offer [4; 5; 6]; Take 9] in
  exists out acc rb', run_schedule (rb_init (replicate 8 0) 8) l = Done (out, acc, rb') /\
    rb_wf rb' /\ acc = out ++ rb_content rb'.
Proof.
  apply (rb_fifo (replicate 8 0) 8); [decide_closed..|].
  repeat constructor; decide_closed.
Defined.

Lemma rb_write_guard_overflow_witness :
  rb_write rb_example [] 1 (2 ^ 32 - 1) = Wild.
Proof.
  apply (rb_write_guard_overflow rb_example [] 1 (2 ^ 32 - 1) rb_example_wf); decide_closed.
Defined.

Lemma rb_write_window_stale_witness :
  exists rb1, rb_write_window rb_example [1; 2] 2 = Done rb1 /\
    rb_content rb1 = [15; 16] ++ [1] ++ [10].
Proof.
  apply (rb_write_window_stale rb_example [1; 2] 2 rb_example_wf); decide_closed.
Defined.
