(* ===== verification/RingBufferDma.v ===== *)
(** The audio rings whose far end is a DMA engine:
    beken378/driver/audio/ring_buffer_dma_write.c (the engine produces, the
    audio ADC's capture path) and ring_buffer_dma_read.c (the engine
    consumes, the DAC's playback path), with the register commands of
    beken378/driver/general_dma/general_dma.c they use.

    The software index of the far end is replaced at each call by the
    engine's address register.  The engine itself is hardware: it appears as
    the contracts [dma_burst] and [dma_drain], which state what a burst does
    to memory and registers and that it stops at the pause address. *)

From S2P Require Import Prelude ByteStream RingBuffer.

(** [RB_DMA_WR_ST] and [RB_DMA_RD_ST], the same structure: the ring's bytes
    and indices, the address of its first byte and the DMA channel. *)
Record rb_dma_st := mk_dma_rb {
  dr_ring : rb_st;
  dr_address : Z;
  dma_ch : Z
}.

(** The engine's registers of every channel. *)
Record gdma := mk_gdma {
  reg_src_pause : Z -> Z;
  reg_dst_pause : Z -> Z;
  reg_src_rd : Z -> Z;
  reg_dst_wr : Z -> Z;
  reg_enable : Z -> Z
}.

Definition reg_set (f : Z -> Z) (channel v : Z) : Z -> Z :=
  fun c => if c =? channel then v else f c.

(** The commands of [gdma_ctrl] the rings send. *)
Inductive gdma_cmd :=
  | CMD_GDMA_SET_DMA_ENABLE
  | CMD_GDMA_SET_SRC_PAUSE_ADDR
  | CMD_GDMA_GET_SRC_PAUSE_ADDR
  | CMD_GDMA_SET_DST_PAUSE_ADDR
  | CMD_GDMA_GET_DST_PAUSE_ADDR
  | CMD_GDMA_GET_SRC_READ_ADDR
  | CMD_GDMA_GET_DST_WRITE_ADDR.

Definition gdma_set_src_pause_addr (g : gdma) (channel addr : Z) : gdma :=
  mk_gdma (reg_set (reg_src_pause g) channel addr) (reg_dst_pause g) (reg_src_rd g)
    (reg_dst_wr g) (reg_enable g).

Definition gdma_set_dest_pause_addr (g : gdma) (channel addr : Z) : gdma :=
  mk_gdma (reg_src_pause g) (reg_set (reg_dst_pause g) channel addr) (reg_src_rd g)
    (reg_dst_wr g) (reg_enable g).

Definition gdma_set_dma_en (g : gdma) (channel enable : Z) : gdma :=
  mk_gdma (reg_src_pause g) (reg_dst_pause g) (reg_src_rd g) (reg_dst_wr g)
    (reg_set (reg_enable g) channel enable).

(** The result is the command's return value (0 when it returns none). *)
Definition gdma_ctrl (g : gdma) (cmd : gdma_cmd) (channel param : Z) : Z * gdma :=
  match cmd with
  | CMD_GDMA_SET_DMA_ENABLE => (0, gdma_set_dma_en g channel param)
  | CMD_GDMA_SET_SRC_PAUSE_ADDR => (0, gdma_set_src_pause_addr g channel param)
  | CMD_GDMA_GET_SRC_PAUSE_ADDR => (reg_src_pause g channel, g)
  | CMD_GDMA_SET_DST_PAUSE_ADDR => (0, gdma_set_dest_pause_addr g channel param)
  | CMD_GDMA_GET_DST_PAUSE_ADDR => (reg_src_pause g channel, g)
  | CMD_GDMA_GET_SRC_READ_ADDR => (reg_src_rd g channel, g)
  | CMD_GDMA_GET_DST_WRITE_ADDR => (reg_dst_wr g channel, g)
  end.

Definition with_ring (rb : rb_dma_st) (r : rb_st) : rb_dma_st :=
  mk_dma_rb r (dr_address rb) (dma_ch rb).

(* ------------------------------------------------------------------ *)
(** ** The engine writes: ring_buffer_dma_write.c *)

Definition rb_init_dma_write (g : gdma) (mem : list Z) (addr capacity ch : Z)
    : rb_dma_st * gdma :=
  let rb := mk_dma_rb (mk_rb mem capacity 0 0) addr ch in
  let param := u32 (addr + capacity - RWP_SAFE_INTERVAL) in
  (rb, snd (gdma_ctrl g CMD_GDMA_SET_DST_PAUSE_ADDR ch param)).

Definition rb_clear_dma_write (g : gdma) (rb : rb_dma_st) : rb_dma_st * gdma :=
  let r := set_rp (set_wp (dr_ring rb) 0) 0 in
  let param := u32 (dr_address rb + rb_capacity r - RWP_SAFE_INTERVAL) in
  (with_ring rb r, snd (gdma_ctrl g CMD_GDMA_SET_DST_PAUSE_ADDR (dma_ch rb) param)).

(** [rb->wp] as the engine has it. *)
Definition refresh_wp (g : gdma) (rb : rb_dma_st) : rb_dma_st :=
  let wp := fst (gdma_ctrl g CMD_GDMA_GET_DST_WRITE_ADDR (dma_ch rb) 0) in
  with_ring rb (set_wp (dr_ring rb) (u32 (wp - dr_address rb))).

Definition rb_read_dma_write (g : gdma) (rb : rb_dma_st) (buffer : list Z)
    (size count : Z) : outcome (Z * list Z * rb_dma_st * gdma) :=
  let required_bytes := u32 (size * count) in
  if required_bytes =? 0 then Done (0, buffer, rb, g) else
  let rb := refresh_wp g rb in
  let r := dr_ring rb in
  let wp := rb_wp r in
  '(read_bytes, buffer, r) ←
    (if rb_rp r <=? wp then
       let remain_bytes := u32 (wp - rb_rp r) in
       let read_bytes := if remain_bytes <? required_bytes then remain_bytes
                         else required_bytes in
       buffer ← copy_out r (rb_rp r) read_bytes buffer 0;
       Done (read_bytes, buffer, set_rp r (u32 (rb_rp r + read_bytes)))
     else
       let remain_bytes := u32 (rb_capacity r - rb_rp r) in
       if remain_bytes <? required_bytes then
         let read_bytes := remain_bytes in
         buffer ← copy_out r (rb_rp r) read_bytes buffer 0;
         if wp <? u32 (required_bytes - read_bytes) then
           buffer ← copy_out r 0 wp buffer read_bytes;
           Done (u32 (read_bytes + wp), buffer, set_rp r wp)
         else
           let rest := u32 (required_bytes - read_bytes) in
           buffer ← copy_out r 0 rest buffer read_bytes;
           Done (required_bytes, buffer, set_rp r rest)
       else
         let read_bytes := required_bytes in
         buffer ← copy_out r (rb_rp r) read_bytes buffer 0;
         Done (read_bytes, buffer, set_rp r (u32 (rb_rp r + read_bytes))));
  let param :=
    if RWP_SAFE_INTERVAL <=? rb_rp r
    then u32 (dr_address rb + rb_rp r - RWP_SAFE_INTERVAL)
    else u32 (dr_address rb + rb_capacity r + rb_rp r - RWP_SAFE_INTERVAL) in
  Done (read_bytes, buffer, with_ring rb r,
        snd (gdma_ctrl g CMD_GDMA_SET_DST_PAUSE_ADDR (dma_ch rb) param)).

Definition rb_get_fill_size_dma_write (g : gdma) (rb : rb_dma_st) : Z * rb_dma_st :=
  let rb := refresh_wp g rb in
  let r := dr_ring rb in
  ((if rb_rp r <=? rb_wp r then u32 (rb_wp r - rb_rp r)
    else u32 (u32 (rb_capacity r - rb_rp r) + rb_wp r)), rb).

Definition rb_get_free_size_dma_write (g : gdma) (rb : rb_dma_st) : Z * rb_dma_st :=
  let rb := refresh_wp g rb in
  let r := dr_ring rb in
  let free_size :=
    if rb_rp r <=? rb_wp r then u32 (u32 (rb_capacity r - rb_wp r) + rb_rp r)
    else u32 (rb_rp r - rb_wp r) in
  ((if RWP_SAFE_INTERVAL <? free_size then u32 (free_size - RWP_SAFE_INTERVAL) else 0), rb).

(* ------------------------------------------------------------------ *)
(** ** The engine reads: ring_buffer_dma_read.c *)

Definition rb_init_dma_read (g : gdma) (mem : list Z) (addr capacity ch : Z)
    : rb_dma_st * gdma :=
  let rb := mk_dma_rb (mk_rb mem capacity 0 0) addr ch in
  let g := snd (gdma_ctrl g CMD_GDMA_SET_SRC_PAUSE_ADDR ch addr) in
  let g := snd (gdma_ctrl g CMD_GDMA_SET_DMA_ENABLE ch 1) in
  let g := snd (gdma_ctrl g CMD_GDMA_SET_DMA_ENABLE ch 0) in
  (rb, g).

Definition rb_clear_dma_read (rb : rb_dma_st) : rb_dma_st :=
  with_ring rb (set_rp (set_wp (dr_ring rb) 0) 0).

(** [rb->rp] as the engine has it. *)
Definition refresh_rp (g : gdma) (rb : rb_dma_st) : rb_dma_st :=
  let rp := fst (gdma_ctrl g CMD_GDMA_GET_SRC_READ_ADDR (dma_ch rb) 0) in
  with_ring rb (set_rp (dr_ring rb) (u32 (rp - dr_address rb))).

Definition rb_write_dma_read (g : gdma) (rb : rb_dma_st) (buffer : list Z)
    (size count : Z) : outcome (Z * rb_dma_st * gdma) :=
  let write_bytes := u32 (size * count) in
  if write_bytes =? 0 then Done (0, rb, g) else
  let rb := refresh_rp g rb in
  let r := dr_ring rb in
  let rp := rb_rp r in
  let finish r :=
    let r := if (rb_capacity r <=? rb_wp r) && negb (rb_rp r =? 0) then set_wp r 0 else r in
    let param := u32 (dr_address rb + rb_wp r) in
    Done (write_bytes, with_ring rb r,
          snd (gdma_ctrl g CMD_GDMA_SET_SRC_PAUSE_ADDR (dma_ch rb) param)) in
  if rp <=? rb_wp r then
    let remain_bytes := u32 (u32 (rb_capacity r - rb_wp r) + rp) in
    if u32 (write_bytes + RWP_SAFE_INTERVAL) <=? remain_bytes then
      let remain_bytes := u32 (rb_capacity r - rb_wp r) in
      if write_bytes <=? remain_bytes then
        r ← copy_in r (rb_wp r) buffer 0 write_bytes;
        finish (set_wp r (u32 (rb_wp r + write_bytes)))
      else
        r ← copy_in r (rb_wp r) buffer 0 remain_bytes;
        let r := set_wp r (u32 (write_bytes - remain_bytes)) in
        r ← copy_in r 0 buffer remain_bytes (rb_wp r);
        finish r
    else Done (0, rb, g)
  else
    let remain_bytes := u32 (rp - rb_wp r) in
    if u32 (write_bytes + RWP_SAFE_INTERVAL) <=? remain_bytes then
      r ← copy_in r (rb_wp r) buffer 0 write_bytes;
      finish (set_wp r (u32 (rb_wp r + write_bytes)))
    else Done (0, rb, g).

Definition rb_get_fill_size_dma_read (g : gdma) (rb : rb_dma_st) : Z * rb_dma_st :=
  let rb := refresh_rp g rb in
  let r := dr_ring rb in
  ((if rb_rp r <=? rb_wp r then u32 (rb_wp r - rb_rp r)
    else u32 (u32 (rb_capacity r - rb_rp r) + rb_wp r)), rb).

Definition rb_get_free_size_dma_read (g : gdma) (rb : rb_dma_st) : Z * rb_dma_st :=
  let rb := refresh_rp g rb in
  let r := dr_ring rb in
  let free_size :=
    if rb_rp r <=? rb_wp r then u32 (u32 (rb_capacity r - rb_wp r) + rb_rp r)
    else u32 (rb_rp r - rb_wp r) in
  ((if RWP_SAFE_INTERVAL <? free_size then u32 (free_size - RWP_SAFE_INTERVAL) else 0), rb).

(* ------------------------------------------------------------------ *)
(** ** The engine's contract *)

(** Steps from cell [a] to cell [b] of a ring of [cap] cells, and the cell
    [i] steps after the start. *)
Definition ring_dist (cap a b : Z) : Z := if a <=? b then b - a else cap - a + b.
Definition ring_cell (cap i : Z) : Z := if i <? cap then i else i - cap.

(** The engine writes the bytes [bs] into the ring from its write address
    on, does not pass the pause address, and leaves everything else alone. *)
Record dma_burst (s : gdma * rb_dma_st) (bs : list Z) (s' : gdma * rb_dma_st) : Prop := {
  burst_regs : exists wr, fst s' =
    mk_gdma (reg_src_pause (fst s)) (reg_dst_pause (fst s)) (reg_src_rd (fst s))
      (reg_set (reg_dst_wr (fst s)) (dma_ch (snd s)) wr) (reg_enable (fst s));
  burst_ring : exists mem, snd s' = with_ring (snd s) (set_mem (dr_ring (snd s)) mem) /\
    zlen mem = zlen (rb_mem (dr_ring (snd s)));
  burst_stop : let cap := rb_capacity (dr_ring (snd s)) in
    let addr := dr_address (snd s) in
    zlen bs <= ring_dist cap (reg_dst_wr (fst s) (dma_ch (snd s)) - addr)
                             (reg_dst_pause (fst s) (dma_ch (snd s)) - addr);
  burst_next : let cap := rb_capacity (dr_ring (snd s)) in
    let addr := dr_address (snd s) in
    reg_dst_wr (fst s') (dma_ch (snd s)) =
      addr + ring_cell cap (reg_dst_wr (fst s) (dma_ch (snd s)) - addr + zlen bs);
  burst_cells : let cap := rb_capacity (dr_ring (snd s)) in
    let wp := reg_dst_wr (fst s) (dma_ch (snd s)) - dr_address (snd s) in
    forall i, 0 <= i < cap ->
      rb_mem (dr_ring (snd s')) !! Z.to_nat (ring_cell cap (wp + i)) =
      (if i <? zlen bs then bs !! Z.to_nat i
       else rb_mem (dr_ring (snd s)) !! Z.to_nat (ring_cell cap (wp + i)))
}.

(** The engine fetches the bytes [bs] from its read address on and does not
    pass the pause address; memory is as before. *)
Record dma_drain (s : gdma * rb_dma_st) (bs : list Z) (s' : gdma * rb_dma_st) : Prop := {
  drain_regs : exists rd, fst s' =
    mk_gdma (reg_src_pause (fst s)) (reg_dst_pause (fst s))
      (reg_set (reg_src_rd (fst s)) (dma_ch (snd s)) rd) (reg_dst_wr (fst s))
      (reg_enable (fst s));
  drain_ring : snd s' = snd s;
  drain_stop : let cap := rb_capacity (dr_ring (snd s)) in
    let addr := dr_address (snd s) in
    zlen bs <= ring_dist cap (reg_src_rd (fst s) (dma_ch (snd s)) - addr)
                             (reg_src_pause (fst s) (dma_ch (snd s)) - addr);
  drain_next : let cap := rb_capacity (dr_ring (snd s)) in
    let addr := dr_address (snd s) in
    reg_src_rd (fst s') (dma_ch (snd s)) =
      addr + ring_cell cap (reg_src_rd (fst s) (dma_ch (snd s)) - addr + zlen bs);
  drain_cells : let cap := rb_capacity (dr_ring (snd s)) in
    let rp := reg_src_rd (fst s) (dma_ch (snd s)) - dr_address (snd s) in
    forall i, 0 <= i < zlen bs ->
      bs !! Z.to_nat i = rb_mem (dr_ring (snd s)) !! Z.to_nat (ring_cell cap (rp + i))
}.

(** A capture run: bursts of the engine and calls of [rb_read_dma_write] in
    any order; [w] is what the engine wrote, [r] what the reader got. *)
Inductive capture : gdma * rb_dma_st -> list Z -> list Z -> gdma * rb_dma_st -> Prop :=
  | capture_nil s : capture s [] [] s
  | capture_burst s bs s1 w r s2 :
      dma_burst s bs s1 -> capture s1 w r s2 -> capture s (bs ++ w) r s2
  | capture_read g rb buffer size count n buffer' rb1 g1 w r s2 :
      u32 (size * count) <= zlen buffer ->
      rb_read_dma_write g rb buffer size count = Done (n, buffer', rb1, g1) ->
      capture (g1, rb1) w r s2 ->
      capture (g, rb) w (slice buffer' 0 n ++ r) s2.

(** A playback run: [w] is what [rb_write_dma_read] accepted, [r] what the
    engine fetched. *)
Inductive playback : gdma * rb_dma_st -> list Z -> list Z -> gdma * rb_dma_st -> Prop :=
  | playback_nil s : playback s [] [] s
  | playback_drain s bs s1 w r s2 :
      dma_drain s bs s1 -> playback s1 w r s2 -> playback s w (bs ++ r) s2
  | playback_write g rb buffer size count n rb1 g1 w r s2 :
      u32 (size * count) + RWP_SAFE_INTERVAL < 2 ^ 32 ->
      u32 (size * count) <= zlen buffer ->
      rb_write_dma_read g rb buffer size count = Done (n, rb1, g1) ->
      playback (g1, rb1) w r s2 ->
      playback (g, rb) (slice buffer 0 n ++ w) r s2.

(* ------------------------------------------------------------------ *)
(** ** Lemmas *)

Ltac dma_unfold :=
  unfold refresh_wp, refresh_rp, with_ring, set_rp, set_wp, set_mem, ring_dist, ring_cell,
    gdma_set_src_pause_addr, gdma_set_dest_pause_addr, gdma_set_dma_en, reg_set,
    RWP_SAFE_INTERVAL in *;
  cbn [gdma_ctrl fst snd dr_ring dr_address dma_ch rb_mem rb_capacity rb_wp rb_rp
       reg_src_pause reg_dst_pause reg_src_rd reg_dst_wr reg_enable] in *.

Lemma rb_content_lookup rb i :
  rb_wf rb -> 0 <= i < rb_fill rb ->
  rb_content rb !! Z.to_nat i
  = rb_mem rb !! Z.to_nat (ring_cell (rb_capacity rb) (rb_rp rb + i)).
Proof.
  intros [? Hm ? ? ?] Hi. destruct rb as [mem cap wp rp]. rb_unfold. dma_unfold.
  unfold slice, zlen in *. destruct (rp <=? wp) eqn:E; zbool.
  - rewrite lookup_take_lt, lookup_drop by lia. zcase. f_equal. lia.
  - zcase.
    + rewrite lookup_app_l by (rewrite length_take, length_drop; lia).
      rewrite lookup_take_lt, lookup_drop by lia. f_equal. lia.
    + rewrite lookup_app_r by (rewrite length_take, length_drop; lia).
      rewrite length_take, length_drop, drop_0, lookup_take_lt by lia. f_equal. lia.
Qed.

Lemma rb_content_ext rb l :
  rb_wf rb -> zlen l = rb_fill rb ->
  (forall i, 0 <= i < rb_fill rb -> l !! Z.to_nat i
     = rb_mem rb !! Z.to_nat (ring_cell (rb_capacity rb) (rb_rp rb + i))) ->
  rb_content rb = l.
Proof.
  intros Hwf Hlen Hl. pose proof (rb_content_length rb Hwf) as Hc. apply list_eq. intros i.
  destruct (decide (Z.of_nat i < rb_fill rb)) as [Hi|Hi].
  - specialize (Hl (Z.of_nat i) ltac:(lia)).
    pose proof (rb_content_lookup rb (Z.of_nat i) Hwf ltac:(lia)) as Hx.
    rewrite Nat2Z.id in Hl, Hx. congruence.
  - unfold zlen in *. by rewrite !lookup_ge_None_2 by lia.
Qed.

(** The software half of a read is [rb_read] on the refreshed ring. *)
Lemma rb_read_dma_write_eq g rb buffer size count :
  u32 (size * count) <> 0 ->
  rb_read_dma_write g rb buffer size count =
    ('(n, buffer, r) ← rb_read (dr_ring (refresh_wp g rb)) buffer size count;
     Done (n, buffer, with_ring rb r, gdma_set_dest_pause_addr g (dma_ch rb)
       (if RWP_SAFE_INTERVAL <=? rb_rp r
        then u32 (dr_address rb + rb_rp r - RWP_SAFE_INTERVAL)
        else u32 (dr_address rb + rb_capacity r + rb_rp r - RWP_SAFE_INTERVAL)))).
Proof.
  intros Hreq. unfold rb_read_dma_write, rb_read. rewrite (proj2 (Z.eqb_neq _ _) Hreq).
  dma_unfold. set (wp := u32 (_ - _)).
  repeat match goal with |- context [if ?b then _ else _] => destruct b eqn:?; cbn end;
    repeat match goal with |- context [copy_out ?a ?b ?c ?d ?e] =>
      destruct (copy_out a b c d e); cbn end; try reflexivity;
    zbool; try lia;
    repeat match goal with H : (_ <=? _) = _ |- _ => rewrite H | _ => zcase end; reflexivity.
Qed.

(** ... and of a write is [rb_write] on the refreshed ring. *)
Lemma rb_write_dma_read_eq g rb buffer size count :
  u32 (size * count) <> 0 ->
  rb_write_dma_read g rb buffer size count =
    ('(n, r) ← rb_write (dr_ring (refresh_rp g rb)) buffer size count;
     Done (n, with_ring rb r,
       if n =? 0 then g else gdma_set_src_pause_addr g (dma_ch rb) (u32 (dr_address rb + rb_wp r)))).
Proof.
  intros Hreq. unfold rb_write_dma_read, rb_write. rewrite (proj2 (Z.eqb_neq _ _) Hreq).
  unfold rb_write_wrap. dma_unfold. set (rp := u32 (_ - _)).
  repeat match goal with
  | |- context [if ?b <=? ?c then _ else _] => destruct (b <=? c) eqn:?; cbn
  end;
    repeat match goal with |- context [copy_in ?a ?b ?c ?d ?e] =>
      destruct (copy_in a b c d e); cbn end; rewrite ?(proj2 (Z.eqb_neq _ _) Hreq); reflexivity.
Qed.

(** Capture: the refreshed ring is well formed and the pause address is four
    cells behind the read index. *)
Record capture_inv (s : gdma * rb_dma_st) : Prop := {
  ci_wf : rb_wf (dr_ring (refresh_wp (fst s) (snd s)));
  ci_addr : 0 <= dr_address (snd s) /\
    dr_address (snd s) + rb_capacity (dr_ring (snd s)) < 2 ^ 32;
  ci_reg : dr_address (snd s) <= reg_dst_wr (fst s) (dma_ch (snd s))
    < dr_address (snd s) + rb_capacity (dr_ring (snd s));
  ci_pause : reg_dst_pause (fst s) (dma_ch (snd s)) = dr_address (snd s) +
    (if RWP_SAFE_INTERVAL <=? rb_rp (dr_ring (snd s))
     then rb_rp (dr_ring (snd s)) - RWP_SAFE_INTERVAL
     else rb_capacity (dr_ring (snd s)) + rb_rp (dr_ring (snd s)) - RWP_SAFE_INTERVAL)
}.

Definition capture_content (s : gdma * rb_dma_st) : list Z :=
  rb_content (dr_ring (refresh_wp (fst s) (snd s))).

(** Playback: the pause address is the write index. *)
Record playback_inv (s : gdma * rb_dma_st) : Prop := {
  pi_wf : rb_wf (dr_ring (refresh_rp (fst s) (snd s)));
  pi_addr : 0 <= dr_address (snd s) /\
    dr_address (snd s) + rb_capacity (dr_ring (snd s)) < 2 ^ 32;
  pi_reg : dr_address (snd s) <= reg_src_rd (fst s) (dma_ch (snd s))
    < dr_address (snd s) + rb_capacity (dr_ring (snd s));
  pi_pause : reg_src_pause (fst s) (dma_ch (snd s)) =
    dr_address (snd s) + rb_wp (dr_ring (snd s))
}.

Definition playback_content (s : gdma * rb_dma_st) : list Z :=
  rb_content (dr_ring (refresh_rp (fst s) (snd s))).

(** The cell [i] steps after the read index, counted from the write index. *)
Lemma ring_cell_rebase cap rp w i :
  0 <= rp <= cap -> 0 <= w < cap -> 0 <= i < cap ->
  let fill := if rp <=? w then w - rp else cap - rp + w in
  ring_cell cap (rp + i) = ring_cell cap (w + (if i <? fill then i - fill + cap else i - fill)).
Proof. unfold ring_cell. intros. cbn zeta. repeat zcase. Qed.

(** Advancing the write index by what fits before the pause address. *)
Lemma ring_advance cap rp w n :
  4 <= cap -> 0 <= rp <= cap -> 0 <= w < cap -> 0 <= n ->
  (if rp <=? w then w - rp else cap - rp + w) <= cap - 4 ->
  n <= ring_dist cap w (if 4 <=? rp then rp - 4 else cap + rp - 4) ->
  let w' := ring_cell cap (w + n) in
  0 <= w' < cap /\
  (if rp <=? w' then w' - rp else cap - rp + w') =
    (if rp <=? w then w - rp else cap - rp + w) + n /\
  (if rp <=? w then w - rp else cap - rp + w) + n <= cap - 4.
Proof.
  unfold ring_cell, ring_dist. intros Hc Hrp Hw Hn Hf Hd. cbn zeta. revert Hf Hd.
  repeat zcase.
Qed.

Lemma capture_burst_step s bs s' :
  capture_inv s -> dma_burst s bs s' ->
  capture_inv s' /\ capture_content s' = capture_content s ++ bs.
Proof.
  intros [Hwf Ha Hr Hp] [(wr & Hg) (mem' & Hrb & Hlen) Hstop Hnext Hcells].
  destruct s as [g [[mem cap wp rp] addr ch]], s' as [g' rb'].
  unfold capture_content. cbn in Hg, Hrb. subst g' rb'.
  unfold RWP_SAFE_INTERVAL in *. cbn in *. unfold reg_set in *. rewrite Z.eqb_refl in *.
  unfold refresh_wp in *. cbn in *.
  assert (Hw0 : 0 <= reg_dst_wr g ch - addr < cap) by lia.
  set (w := reg_dst_wr g ch - addr) in *. rewrite (u32_small w) in * by lia.
  pose proof (zlen_nonneg bs) as Hb. pose proof Hwf as [Hcap Hmem _ Hrp Hgap].
  pose proof (rb_content_length _ Hwf) as Hcl.
  unfold rb_fill, RWP_SAFE_INTERVAL in *. cbn in *.
  rewrite Hp in Hstop. replace (addr + (if _ <=? _ then _ else _) - addr) with
    (if 4 <=? rp then rp - 4 else cap + rp - 4) in Hstop by (destruct (4 <=? rp); lia).
  destruct (ring_advance cap rp w (zlen bs)) as (Hw1 & Hf & Hgap'); try lia.
  subst wr. rewrite Z.add_simpl_l.
  set (w' := ring_cell cap (w + zlen bs)) in *. rewrite (u32_small w') by lia.
  assert (Hwf' : rb_wf (mk_rb mem' cap w' rp)).
  { split; unfold rb_fill, RWP_SAFE_INTERVAL; cbn; lia. }
  split.
  - split; unfold RWP_SAFE_INTERVAL, refresh_wp; cbn; rewrite ?Z.eqb_refl; auto; [|lia].
    by rewrite Z.add_simpl_l, u32_small by lia.
  - apply rb_content_ext; auto; unfold rb_fill; cbn; rewrite Hf.
    { by rewrite zlen_app, Hcl. }
    intros i Hi. rewrite (ring_cell_rebase cap rp w) by lia. cbn zeta.
    remember (if rp <=? w then w - rp else cap - rp + w) as F eqn:HF.
    assert (0 <= F) by (rewrite <- Hcl; apply zlen_nonneg).
    destruct (i <? F) eqn:E; zbool; rewrite Hcells by lia.
    + rewrite (proj2 (Z.ltb_ge _ (zlen bs))) by lia.
      rewrite lookup_app_l by (unfold zlen in Hcl; lia).
      rewrite rb_content_lookup by (unfold rb_fill; cbn; rewrite <- ?HF; auto; lia). cbn.
      rewrite (ring_cell_rebase cap rp w) by lia. cbn zeta. rewrite <- HF.
      by rewrite (proj2 (Z.ltb_lt _ _) E).
    + rewrite (proj2 (Z.ltb_lt _ (zlen bs))) by lia.
      rewrite lookup_app_r by (unfold zlen in Hcl; lia). f_equal. unfold zlen in Hcl. lia.
Qed.

(** A read moves the read index only. *)
Lemma rb_read_frame rb buffer size count n buffer' rb' :
  rb_read rb buffer size count = Done (n, buffer', rb') -> rb' = set_rp rb (rb_rp rb').
Proof.
  unfold rb_read. cbn zeta. intros H.
  repeat (match type of H with
  | context [if ?b then _ else _] => destruct b
  | context [copy_out ?a ?b ?c ?d ?e] => destruct (copy_out a b c d e)
  end; cbn in H; try discriminate H);
    inversion_clear H; try done; [by destruct rb'].
Qed.

Lemma capture_read_step g rb buffer size count :
  capture_inv (g, rb) -> u32 (size * count) <= zlen buffer ->
  exists n buffer' rb' g',
    rb_read_dma_write g rb buffer size count = Done (n, buffer', rb', g') /\
    n = u32 (size * count) `min` zlen (capture_content (g, rb)) /\
    capture_inv (g', rb') /\
    slice buffer' 0 n = slice (capture_content (g, rb)) 0 n /\
    capture_content (g, rb) = slice buffer' 0 n ++ capture_content (g', rb').
Proof.
  intros Hinv Hbuf. pose proof Hinv as [Hwf Ha Hr Hp]. cbn [fst snd] in *.
  pose proof (u32_range (size * count)) as Hreq.
  unfold capture_content; cbn [fst snd]. rewrite (rb_content_length _ Hwf).
  pose proof (rb_fill_range _ Hwf) as Hfill.
  destruct (decide (u32 (size * count) = 0)) as [E|E].
  { exists 0, buffer, rb, g. rewrite E, Z.min_l, slice_0 by lia. split_and!; auto.
    unfold rb_read_dma_write. by rewrite E. }
  rewrite rb_read_dma_write_eq by done.
  destruct (rb_read_spec _ buffer size count Hwf Hbuf) as (r & Er & Hwf' & Hcap & Hc).
  rewrite Er. set (n := _ `min` _) in *. apply rb_read_frame in Er.
  destruct r as [mem cap wp rp], rb as [[mem0 cap0 wp0 rp0] addr ch].
  unfold refresh_wp in *. cbn in *. injection Er as -> -> ->.
  eexists n, _, _, _. split; [reflexivity|]. split; [done|]. cbn.
  pose proof Hwf' as [_ _ _ Hrp _]. pose proof Hwf as [Hcap0 _ _ _ _]. cbn in *.
  unfold RWP_SAFE_INTERVAL in *.
  split.
  - split; unfold refresh_wp, reg_set, RWP_SAFE_INTERVAL; cbn; auto.
    unfold reg_set. rewrite Z.eqb_refl. zcase; words; lia.
  - rewrite slice_splice_same; [done|lia| |]; rewrite zlen_slice;
      rewrite ?(rb_content_length _ Hwf); lia.
Qed.

Lemma playback_drain_step s bs s' :
  playback_inv s -> dma_drain s bs s' ->
  playback_inv s' /\ playback_content s = bs ++ playback_content s'.
Proof.
  intros [Hwf Ha Hr Hp] [(rd & Hg) Hrb Hstop Hnext Hcells].
  destruct s as [g [[mem cap wp rp] addr ch]], s' as [g' rb'].
  unfold playback_content. cbn in Hg, Hrb. subst g' rb'.
  unfold RWP_SAFE_INTERVAL in *. cbn in *. unfold reg_set in *. rewrite Z.eqb_refl in *.
  unfold refresh_rp in *. cbn in *.
  assert (Hr0 : 0 <= reg_src_rd g ch - addr < cap) by lia.
  set (r := reg_src_rd g ch - addr) in *. rewrite (u32_small r) in * by lia.
  pose proof (zlen_nonneg bs) as Hb. pose proof Hwf as [Hcap Hmem Hwp _ Hgap].
  pose proof (rb_content_length _ Hwf) as Hcl.
  unfold rb_fill, RWP_SAFE_INTERVAL in *. cbn in *.
  rewrite Hp in Hstop. replace (addr + wp - addr) with wp in Hstop by lia.
  subst rd. rewrite Z.add_simpl_l.
  assert (Hr1 : 0 <= ring_cell cap (r + zlen bs) < cap /\
    (if r <=? wp then wp - r else cap - r + wp) = zlen bs +
    (if ring_cell cap (r + zlen bs) <=? wp then wp - ring_cell cap (r + zlen bs)
     else cap - ring_cell cap (r + zlen bs) + wp)).
  { revert Hstop. unfold ring_cell, ring_dist. repeat zcase. }
  destruct Hr1 as [Hr1 Hf].
  assert (Hcell : forall i, zlen bs <= i < (if r <=? wp then wp - r else cap - r + wp) ->
    ring_cell cap (ring_cell cap (r + zlen bs) + (i - zlen bs)) = ring_cell cap (r + i)).
  { intros i. revert Hstop. unfold ring_cell, ring_dist. repeat zcase. }
  set (r' := ring_cell cap (r + zlen bs)) in *. rewrite (u32_small r') by lia.
  assert (Hwf' : rb_wf (mk_rb mem cap wp r')).
  { split; unfold rb_fill, RWP_SAFE_INTERVAL; cbn; lia. }
  split.
  - split; unfold RWP_SAFE_INTERVAL, refresh_rp; cbn; rewrite ?Z.eqb_refl; auto; [|lia].
    by rewrite Z.add_simpl_l, u32_small by lia.
  - pose proof (rb_content_length _ Hwf') as Hcl'.
    apply rb_content_ext; auto; unfold rb_fill, set_rp in *; cbn in *.
    { rewrite zlen_app, Hcl'. lia. }
    intros i Hi. destruct (decide (i < zlen bs)) as [Hlt|Hge].
    + rewrite lookup_app_l by (unfold zlen in *; lia). apply Hcells. lia.
    + rewrite lookup_app_r by (unfold zlen in *; lia).
      replace (Z.to_nat i - length bs)%nat with (Z.to_nat (i - zlen bs)) by (unfold zlen; lia).
      rewrite rb_content_lookup by (unfold rb_fill; cbn; auto; lia). cbn.
      by rewrite Hcell by lia.
Qed.

(** A write moves the write index and changes bytes only. *)
Lemma rb_write_frame rb buffer size count n rb' :
  rb_write rb buffer size count = Done (n, rb') -> n = 0 /\ rb' = rb \/ 
  n = u32 (size * count) /\ rb' = set_wp (set_mem rb (rb_mem rb')) (rb_wp rb').
Proof.
  unfold rb_write, rb_write_wrap. cbn zeta. intros H.
  repeat (match type of H with
  | context [if ?b then _ else _] => destruct b
  | context [copy_in ?a ?b ?c ?d ?e] =>
      let E := fresh in
      destruct (copy_in_done_or_wild a b c d e) as [E|(? & ? & E)]; rewrite E in H
  end; cbn in H; try discriminate H);
    clear -H; inversion H; first [by left | right; by destruct rb].
Qed.

Lemma playback_write_step g rb buffer size count :
  playback_inv (g, rb) -> u32 (size * count) + RWP_SAFE_INTERVAL < 2 ^ 32 ->
  u32 (size * count) <= zlen buffer ->
  exists n rb' g',
    rb_write_dma_read g rb buffer size count = Done (n, rb', g') /\
    (n = 0 \/ n = u32 (size * count)) /\
    playback_inv (g', rb') /\
    playback_content (g', rb') = playback_content (g, rb) ++ slice buffer 0 n.
Proof.
  intros Hinv Hov Hbuf. pose proof Hinv as [Hwf Ha Hr Hp]. cbn [fst snd] in *.
  pose proof (u32_range (size * count)) as Hreq. unfold playback_content; cbn [fst snd].
  destruct (decide (u32 (size * count) = 0)) as [E|E].
  { exists 0, rb, g. rewrite slice_0, app_nil_r. split_and!; auto.
    unfold rb_write_dma_read. by rewrite E. }
  rewrite rb_write_dma_read_eq by done.
  destruct (rb_write_spec _ buffer size count Hwf Hov Hbuf) as (r & Er & Hwf' & Hcap & Hc).
  rewrite Er. set (n := rb_accepts _ _) in *. clearbody n. apply rb_write_frame in Er.
  destruct r as [mem cap wp rp], rb as [[mem0 cap0 wp0 rp0] addr ch].
  unfold refresh_rp in *. cbn in *. pose proof Hwf' as [Hc' _ Hwp _ _]. cbn in *.
  unfold RWP_SAFE_INTERVAL in *.
  eexists n, _, _. split; [reflexivity|]. split; [tauto|].
  destruct Er as [[-> Er]|[-> Er]]; inversion Er; subst.
  - split; [|exact Hc]. split; auto.
  - subst. rewrite (proj2 (Z.eqb_neq _ _) E). split; [|exact Hc].
    split; unfold refresh_rp; cbn; auto. unfold reg_set. rewrite Z.eqb_refl. words. lia.
Qed.

Lemma capture_fifo s w r s' :
  capture s w r s' -> capture_inv s ->
  capture_inv s' /\ capture_content s ++ w = r ++ capture_content s'.
Proof.
  induction 1 as [s|s bs s1 w r s2 Hb _ IH
                 |g rb buffer size count n buffer' rb1 g1 w r s2 Hbuf E _ IH]; intros Hinv.
  - by rewrite app_nil_r.
  - destruct (capture_burst_step _ _ _ Hinv Hb) as [Hinv1 Hc].
    destruct (IH Hinv1) as [? IHc]. split; [done|]. by rewrite app_assoc, <- Hc.
  - destruct (capture_read_step _ _ _ _ _ Hinv Hbuf) as (n1 & b1 & rb2 & g2 & E1 & _ & Hinv1 & _ & Hc).
    rewrite E in E1. injection E1 as <- <- <- <-.
    destruct (IH Hinv1) as [? IHc]. split; [done|]. by rewrite Hc, <- !app_assoc, IHc.
Qed.

Lemma playback_fifo s w r s' :
  playback s w r s' -> playback_inv s ->
  playback_inv s' /\ playback_content s ++ w = r ++ playback_content s'.
Proof.
  induction 1 as [s|s bs s1 w r s2 Hb _ IH
                 |g rb buffer size count n rb1 g1 w r s2 Hov Hbuf E _ IH]; intros Hinv.
  - by rewrite app_nil_r.
  - destruct (playback_drain_step _ _ _ Hinv Hb) as [Hinv1 Hc].
    destruct (IH Hinv1) as [? IHc]. split; [done|]. by rewrite Hc, <- !app_assoc, IHc.
  - destruct (playback_write_step _ _ _ _ _ Hinv Hov Hbuf) as (n1 & rb2 & g2 & E1 & _ & Hinv1 & Hc).
    rewrite E in E1. injection E1 as <- <- <-.
    destruct (IH Hinv1) as [? IHc]. split; [done|]. by rewrite app_assoc, <- Hc.
Qed.

(** The two rings right after their initialisation. *)
Lemma rb_init_dma_write_inv g mem addr capacity ch :
  zlen mem = capacity -> RWP_SAFE_INTERVAL <= capacity -> 0 <= addr ->
  addr + capacity < 2 ^ 32 -> reg_dst_wr g ch = addr ->
  let (rb, g') := rb_init_dma_write g mem addr capacity ch in
  capture_inv (g', rb) /\ capture_content (g', rb) = [].
Proof.
  unfold RWP_SAFE_INTERVAL. intros Hlen Hcap Ha Hov Hr. cbn.
  unfold capture_content, refresh_wp. cbn. rewrite Hr, Z.sub_diag. split; [|done].
  split; unfold refresh_wp, RWP_SAFE_INTERVAL; cbn; rewrite ?Hr, ?Z.sub_diag; try lia.
  - change (u32 0) with 0. split; unfold rb_fill; cbn; unfold RWP_SAFE_INTERVAL; lia.
  - unfold reg_set, RWP_SAFE_INTERVAL. rewrite Z.eqb_refl. words. lia.
Qed.

Lemma rb_init_dma_read_inv g mem addr capacity ch :
  zlen mem = capacity -> RWP_SAFE_INTERVAL <= capacity -> 0 <= addr ->
  addr + capacity < 2 ^ 32 -> reg_src_rd g ch = addr ->
  let (rb, g') := rb_init_dma_read g mem addr capacity ch in
  playback_inv (g', rb) /\ playback_content (g', rb) = [].
Proof.
  unfold RWP_SAFE_INTERVAL. intros Hlen Hcap Ha Hov Hr. cbn.
  unfold playback_content, refresh_rp. cbn. rewrite Hr, Z.sub_diag. split; [|done].
  split; unfold refresh_rp, RWP_SAFE_INTERVAL; cbn; rewrite ?Hr, ?Z.sub_diag; try lia.
  - change (u32 0) with 0. split; unfold rb_fill; cbn; unfold RWP_SAFE_INTERVAL; lia.
  - unfold reg_set. rewrite Z.eqb_refl. lia.
Qed.

(* ------------------------------------------------------------------ *)
(** ** Properties *)

(** C6: capture is lossless.  After [rb_init_dma_write], with the engine's
    write address at the start of the ring, any run of engine bursts (which
    stop at the pause address the code programs) and reads delivers exactly
    the bytes the engine wrote, in order, the rest being still in the ring:
    the engine never overwrites an unread byte.  In every state so reached
    the next read is memory-safe and the reported fill size is exact. *)
Theorem dma_capture_lossless (g : gdma) (mem : list Z) (addr capacity ch : Z)
    (w r : list Z) (g' : gdma) (rb' : rb_dma_st) :
  zlen mem = capacity -> RWP_SAFE_INTERVAL <= capacity -> 0 <= addr ->
  addr + capacity < 2 ^ 32 -> reg_dst_wr g ch = addr ->
  (let (rb, g1) := rb_init_dma_write g mem addr capacity ch in
   capture (g1, rb) w r (g', rb')) ->
  exists rest, w = r ++ rest /\
    fst (rb_get_fill_size_dma_write g' rb') = zlen rest /\
    forall buffer size count, u32 (size * count) <= zlen buffer ->
      exists n buffer' rb2 g2,
        rb_read_dma_write g' rb' buffer size count = Done (n, buffer', rb2, g2) /\
        n = u32 (size * count) `min` zlen rest /\ slice buffer' 0 n = slice rest 0 n.
Proof.
  intros Hlen Hcap Ha Hov Hr Hrun.
  pose proof (rb_init_dma_write_inv g mem addr capacity ch Hlen Hcap Ha Hov Hr) as Hinit.
  destruct (rb_init_dma_write g mem addr capacity ch) as [rb g1]. destruct Hinit as [Hinv Hc].
  destruct (capture_fifo _ _ _ _ Hrun Hinv) as [Hinv' E]. rewrite Hc in E. cbn in E.
  exists (capture_content (g', rb')). split; [done|]. split.
  - destruct Hinv' as [Hwf _ _ _]. unfold capture_content. cbn [fst snd] in *.
    rewrite (rb_content_length _ Hwf). exact (rb_fill_size_exact _ Hwf).
  - intros buffer size count Hbuf.
    destruct (capture_read_step g' rb' buffer size count Hinv' Hbuf)
      as (n & b' & rb2 & g2 & E2 & Hn & _ & Hs & _).
    by exists n, b', rb2, g2.
Qed.

(** C7: playback is lossless.  After [rb_init_dma_read], with the engine's
    read address at the start of the ring, any run of writes and engine
    fetches (which stop at the pause address the code programs) makes the
    engine play exactly the bytes whose write was accepted, in order: it
    never runs past the last accepted byte.  In every state so reached the
    next write is memory-safe, all-or-nothing, and accepted exactly when it
    fits the reported free size. *)
Theorem dma_playback_lossless (g : gdma) (mem : list Z) (addr capacity ch : Z)
    (w r : list Z) (g' : gdma) (rb' : rb_dma_st) :
  zlen mem = capacity -> RWP_SAFE_INTERVAL <= capacity -> 0 <= addr ->
  addr + capacity < 2 ^ 32 -> reg_src_rd g ch = addr ->
  (let (rb, g1) := rb_init_dma_read g mem addr capacity ch in
   playback (g1, rb) w r (g', rb')) ->
  exists rest, w = r ++ rest /\
    fst (rb_get_fill_size_dma_read g' rb') = zlen rest /\
    forall buffer size count, let len := u32 (size * count) in
      0 < len -> len + RWP_SAFE_INTERVAL < 2 ^ 32 -> len <= zlen buffer ->
      exists n rb2 g2, rb_write_dma_read g' rb' buffer size count = Done (n, rb2, g2) /\
        n = (if len <=? fst (rb_get_free_size_dma_read g' rb') then len else 0).
Proof.
  intros Hlen Hcap Ha Hov Hr Hrun.
  pose proof (rb_init_dma_read_inv g mem addr capacity ch Hlen Hcap Ha Hov Hr) as Hinit.
  destruct (rb_init_dma_read g mem addr capacity ch) as [rb g1]. destruct Hinit as [Hinv Hc].
  destruct (playback_fifo _ _ _ _ Hrun Hinv) as [Hinv' E]. rewrite Hc in E. cbn in E.
  exists (playback_content (g', rb')). pose proof Hinv' as [Hwf _ _ _].
  unfold playback_content. cbn [fst snd] in *. split; [done|]. split.
  - rewrite (rb_content_length _ Hwf). exact (rb_fill_size_exact _ Hwf).
  - intros buffer size count Hpos Hov' Hbuf.
    rewrite rb_write_dma_read_eq by lia.
    destruct (rb_write_spec _ buffer size count Hwf Hov' Hbuf) as (r' & -> & _).
    eexists _, _, _. split; [reflexivity|].
    change (fst (rb_get_free_size_dma_read g' rb'))
      with (rb_get_free_size (dr_ring (refresh_rp g' rb'))).
    rewrite (rb_free_size_exact _ Hwf). unfold rb_accepts, RWP_SAFE_INTERVAL.
    repeat zcase.
Qed.

(** the command [CMD_GDMA_GET_DST_PAUSE_ADDR] answers with the source
    pause address of the channel, so a destination pause address that was
    set cannot be read back when the two differ. *)
Theorem gdma_dst_pause_readback (g : gdma) (channel addr : Z) :
  let g' := snd (gdma_ctrl g CMD_GDMA_SET_DST_PAUSE_ADDR channel addr) in
  reg_dst_pause g' channel = addr /\
  fst (gdma_ctrl g' CMD_GDMA_GET_DST_PAUSE_ADDR channel 0) = reg_src_pause g channel.
Proof. cbn. unfold reg_set. by rewrite Z.eqb_refl. Qed.

(* ------------------------------------------------------------------ *)
(** ** The properties on concrete runs *)

Definition dma_example : gdma :=
  mk_gdma (fun _ => 0) (fun _ => 0) (fun _ => 100) (fun _ => 100) (fun _ => 0).

(** Three bytes captured into a ring of eight at address 100. *)
Definition burst_example : gdma :=
  mk_gdma (fun _ => 0) (reg_set (fun _ => 0) 1 104) (fun _ => 100)
    (reg_set (fun _ => 100) 1 103) (fun _ => 0).

Lemma burst_example_ok :
  dma_burst (gdma_set_dest_pause_addr dma_example 1 104,
             mk_dma_rb (mk_rb (replicate 8 0) 8 0 0) 100 1) [1; 2; 3]
    (burst_example, mk_dma_rb (mk_rb [1; 2; 3; 0; 0; 0; 0; 0] 8 0 0) 100 1).
Proof.
  split; cbn.
  - by exists 103.
  - by exists [1; 2; 3; 0; 0; 0; 0; 0].
  - vm_compute. discriminate.
  - reflexivity.
  - intros i Hi. enum_from i 0 8; reflexivity.
Defined.

Lemma dma_capture_lossless_witness :
  exists g' rb', exists rest, [1; 2; 3] = [1; 2] ++ rest /\
    fst (rb_get_fill_size_dma_write g' rb') = zlen rest /\
    forall buffer size count, u32 (size * count) <= zlen buffer ->
      exists n buffer' rb2 g2,
        rb_read_dma_write g' rb' buffer size count = Done (n, buffer', rb2, g2) /\
        n = u32 (size * count) `min` zlen rest /\ slice buffer' 0 n = slice rest 0 n.
Proof.
  eexists _, _.
  eapply (dma_capture_lossless dma_example (replicate 8 0) 100 8 1 [1; 2; 3] [1; 2]);
    try decide_closed.
  apply (capture_burst _ [1; 2; 3] _ [] [1; 2] _ burst_example_ok).
  eapply (capture_read _ _ [0; 0] 1 2 2 [1; 2] _ _ [] [] _); [decide_closed|reflexivity|].
  apply capture_nil.
Defined.

(** An engine that meets the contract of playback: it fetches [n] cells from
    its read address on and moves the address past them. *)
Definition fetch (s : gdma * rb_dma_st) (n : Z) : list Z * (gdma * rb_dma_st) :=
  let g := fst s in
  let rb := snd s in
  let cap := rb_capacity (dr_ring rb) in
  let rp := reg_src_rd g (dma_ch rb) - dr_address rb in
  ((fun i => nth (Z.to_nat (ring_cell cap (rp + i))) (rb_mem (dr_ring rb)) 0) <$> seqZ 0 n,
   (mk_gdma (reg_src_pause g) (reg_dst_pause g)
      (reg_set (reg_src_rd g) (dma_ch rb) (dr_address rb + ring_cell cap (rp + n))) (reg_dst_wr g) (reg_enable g), rb)).

Lemma fetch_drains s n bs s' :
  fetch s n = (bs, s') ->
  let cap := rb_capacity (dr_ring (snd s)) in
  let rp := reg_src_rd (fst s) (dma_ch (snd s)) - dr_address (snd s) in
  zlen (rb_mem (dr_ring (snd s))) = cap -> 0 <= rp < cap -> 0 <= n <= cap ->
  n <= ring_dist cap rp (reg_src_pause (fst s) (dma_ch (snd s)) - dr_address (snd s)) ->
  dma_drain s bs s'.
Proof.
  intros Ef cap rp Hm Hr Hn Hd. replace bs with (fst (fetch s n)) by (by rewrite Ef).
  replace s' with (snd (fetch s n)) by (by rewrite Ef). clear Ef. assert (Hz : zlen (fst (fetch s n)) = n)
    by (unfold fetch, zlen; cbn [fst]; rewrite length_fmap, length_seqZ; lia).
  split; rewrite ?Hz.
  - by eexists.
  - reflexivity.
  - exact Hd.
  - cbn. unfold reg_set. by rewrite Z.eqb_refl.
  - cbv zeta. intros i Hi. cbn [fetch fst]. rewrite list_lookup_fmap, lookup_seqZ_lt by lia. cbn.
    assert (Hc : 0 <= ring_cell cap (rp + i) < cap) by (unfold ring_cell; zcase).
    destruct (lookup_lt_is_Some_2 (rb_mem (dr_ring (snd s))) (Z.to_nat (ring_cell cap (rp + i)))) as [x Ex];
      [unfold zlen in Hm; lia|].
    rewrite Z2Nat.id, Z.add_0_l by lia. fold rp cap. by rewrite Ex, (nth_lookup_Some _ _ _ _ Ex).
Qed.

(** Writes and fetches one after the other, with the conditions of the
    contract decided. *)
Inductive action := Write (bs : list Z) | Fetch (n : Z).

Fixpoint play (acts : list action) (s : gdma * rb_dma_st) : option (list Z * list Z * (gdma * rb_dma_st)) :=
  match acts with
  | [] => Some ([], [], s)
  | Write bs :: acts' =>
      if u32 (1 * zlen bs) + RWP_SAFE_INTERVAL <? 2 ^ 32 then
        match rb_write_dma_read (fst s) (snd s) bs 1 (zlen bs) with
        | Done (n, rb, g) => '(w, r, s') ← play acts' (g, rb); Some (slice bs 0 n ++ w, r, s')
        | _ => None
        end
      else None
  | Fetch n :: acts' =>
      let cap := rb_capacity (dr_ring (snd s)) in
      let rp := reg_src_rd (fst s) (dma_ch (snd s)) - dr_address (snd s) in
      if (zlen (rb_mem (dr_ring (snd s))) =? cap) && (0 <=? rp) && (rp <? cap) && (0 <=? n) && (n <=? cap) &&
         (n <=? ring_dist cap rp (reg_src_pause (fst s) (dma_ch (snd s)) - dr_address (snd s)))
      then let '(bs, s1) := fetch s n in '(w, r, s') ← play acts' s1; Some (w, bs ++ r, s')
      else None
  end.

Lemma play_playback acts : forall s w r s', play acts s = Some (w, r, s') -> playback s w r s'.
Proof.
  induction acts as [|[bs|n] acts IH]; intros s w r s' E; cbn [play] in E.
  - injection E as <- <- <-. constructor.
  - destruct (_ <? _) eqn:Hov; [|done]. zbool. destruct s as [g rb]. cbn [fst snd] in E.
    destruct (rb_write_dma_read g rb bs 1 (zlen bs)) as [[[n rb1] g1]| | |] eqn:Ew; try done.
    destruct (play acts (g1, rb1)) as [[[w1 r1] s1]|] eqn:Ep; [|done]. cbn in E. injection E as <- <- <-.
    eapply playback_write; [exact Hov| |exact Ew|by apply IH].
    unfold u32. rewrite Z.mul_1_l. apply Z.mod_le; [apply zlen_nonneg|done].
  - destruct (_ && _) eqn:Hc; [|done]. zbool. destruct (fetch s n) as [bs s1] eqn:Ef.
    destruct (play acts s1) as [[[w1 r1] s2]|] eqn:Ep; [|done]. cbn in E. injection E as <- <- <-.
    eapply playback_drain; [by apply (fetch_drains s n)|by apply IH].
Qed.

(** Two bytes are written and one is played, three more written and three
    played: one is left. *)
Lemma dma_playback_lossless_witness :
  exists g' rb', exists rest, [7; 8] ++ [1; 2; 3] = ([7] ++ [8; 1; 2]) ++ rest /\
    fst (rb_get_fill_size_dma_read g' rb') = zlen rest /\
    forall buffer size count, let len := u32 (size * count) in
      0 < len -> len + RWP_SAFE_INTERVAL < 2 ^ 32 -> len <= zlen buffer ->
      exists n rb2 g2, rb_write_dma_read g' rb' buffer size count = Done (n, rb2, g2) /\
        n = (if len <=? fst (rb_get_free_size_dma_read g' rb') then len else 0).
Proof.
  eexists _, _.
  eapply (dma_playback_lossless dma_example (replicate 8 0) 100 8 1 ([7; 8] ++ [1; 2; 3]) ([7] ++ [8; 1; 2]));
    try decide_closed.
  apply (play_playback [Write [7; 8]; Fetch 1; Write [1; 2; 3]; Fetch 3]). vm_compute. reflexivity.
Defined.
