(* ===== verification/KFifo.v ===== *)
(** The byte FIFO of the serial ports: beken378/common/fifo.h and its users
    in beken378/driver/uart/uart.c.

    The two indices run freely modulo 2^32 and the memory is a power of two,
    so that their difference is the fill even when they have wrapped.  The
    FIFO is an instance of [ByteStream]; the serial driver's loops between it
    and the hardware are built on it. *)

From S2P Require Import Prelude ByteStream.

Record kfifo := mk_kfifo {
  in_ : Z;
  out : Z;
  mask : Z;
  size : Z;
  buffer : list Z
}.

(** [BUG_ON] is an assertion; the structure may not be had. *)
Definition kfifo_init (struct : bool) (mem : list Z) (sz : Z) : outcome (option kfifo) :=
  _ ← ASSERT (Z.land sz (u32 (sz - 1)) =? 0);
  Done (if struct then Some (mk_kfifo 0 0 (u32 (sz - 1)) sz mem) else None).

Definition kfifo_alloc (mem : option (list Z)) (struct : bool) (sz : Z) : outcome (option kfifo) :=
  match mem with
  | None => Done None
  | Some m => kfifo_init struct m sz
  end.

Definition kfifo_put (f : kfifo) (src : list Z) (len : Z) : outcome (Z * kfifo) :=
  let len := Z.min len (u32 (size f - in_ f + out f)) in
  let pos := Z.land (in_ f) (u32 (size f - 1)) in
  let l := Z.min len (u32 (size f - pos)) in
  bs ← mem_read src 0 l;
  m ← mem_write (buffer f) pos bs;
  bs ← mem_read src l (u32 (len - l));
  m ← mem_write m 0 bs;
  Done (len, mk_kfifo (u32 (in_ f + len)) (out f) (mask f) (size f) m).

Definition kfifo_get (f : kfifo) (dst : list Z) (len : Z) : outcome (Z * list Z * kfifo) :=
  let len := Z.min len (u32 (in_ f - out f)) in
  let pos := Z.land (out f) (u32 (size f - 1)) in
  let l := Z.min len (u32 (size f - pos)) in
  bs ← mem_read (buffer f) pos l;
  dst ← mem_write dst 0 bs;
  bs ← mem_read (buffer f) 0 (u32 (len - l));
  dst ← mem_write dst l bs;
  Done (len, dst, mk_kfifo (in_ f) (u32 (out f + len)) (mask f) (size f) (buffer f)).

Definition kfifo_data_size (f : kfifo) : Z := u32 (in_ f - out f).

Definition kfifo_unused (f : kfifo) : Z := u32 (mask f + 1 - (in_ f - out f)).

Definition kfifo_copy_out (f : kfifo) (dst : list Z) (len off : Z) : outcome (list Z) :=
  let sz := u32 (mask f + 1) in
  let off := Z.land off (mask f) in
  let l := Z.min len (u32 (sz - off)) in
  bs ← mem_read (buffer f) off l;
  dst ← mem_write dst 0 bs;
  bs ← mem_read (buffer f) 0 (u32 (len - l));
  mem_write dst l bs.

Definition kfifo_out_peek (f : kfifo) (dst : list Z) (len : Z) : outcome (Z * list Z) :=
  let l := u32 (in_ f - out f) in
  let len := if l <? len then l else len in
  dst ← kfifo_copy_out f dst len (out f);
  Done (len, dst).

(** ** uart.c *)

(** A pointer to a FIFO: null, to memory given back, or to a FIFO. *)
Inductive fifo_ptr :=
  | Null
  | Freed
  | Live (f : kfifo).

Definition ptr_of (r : option kfifo) : fifo_ptr := match r with Some f => Live f | None => Null end.

(** Following the pointer. *)
Definition fifo_at (p : fifo_ptr) : outcome kfifo := match p with Live f => Done f | Null | Freed => Wild end.

Definition kfifo_free (p : fifo_ptr) : outcome fifo_ptr := _ ← fifo_at p; Done Freed.

(** [if (p) kfifo_free(p)]. *)
Definition free_held (p : fifo_ptr) : outcome fifo_ptr := match p with Null => Done Null | _ => kfifo_free p end.

(** One [uart[uport]]: its two FIFOs. *)
Record UART_S := mk_uart { rx : fifo_ptr; tx : fifo_ptr }.

Definition RX_RB_LENGTH : Z := 128.
Definition TX_RB_LENGTH : Z := 64.

(** The allocations of each FIFO: its memory and its structure.  A port that
    has only one of them frees it but keeps the pointer. *)
Definition uart_sw_init (rxm : option (list Z)) (rxs : bool) (txm : option (list Z)) (txs : bool)
    : outcome (bool * UART_S) :=
  r ← kfifo_alloc rxm rxs RX_RB_LENGTH;
  t ← kfifo_alloc txm txs TX_RB_LENGTH;
  match r, t with
  | Some r, Some t => Done (true, mk_uart (Live r) (Live t))
  | _, _ =>
      t ← free_held (ptr_of t);
      r ← free_held (ptr_of r);
      Done (false, mk_uart r t)
  end.

Definition uart_sw_uninit (u : UART_S) : outcome UART_S :=
  _ ← free_held (tx u);
  _ ← free_held (rx u);
  Done (mk_uart Null Null).

(** The hardware's receive FIFO holds [pending] when the interrupt runs; each
    turn reads a byte of it. *)
Fixpoint uart_read_fifo_frame (pending : list Z) (f : kfifo) (rx_count : Z) : outcome (Z * kfifo) :=
  match pending with
  | [] => Done (rx_count, f)
  | val :: pending' =>
      '(n, f) ← kfifo_put f (le32 val) 1;
      uart_read_fifo_frame pending' f (u32 (rx_count + n))
  end.

(** The bytes handed to the transmitter. *)
Fixpoint uart_write_loop (fuel : nat) (f : kfifo) (count len : Z) (sent : list Z) : outcome (Z * list Z * kfifo) :=
  match fuel with
  | O => Spin
  | S fuel' =>
      '(ret, val, f) ← kfifo_get f (le32 0) 1;
      if ret =? 0 then Done (len, sent, f) else
      b ← aget val 0;
      let len := u32 (len + ret) in
      let sent := sent ++ [b] in
      if count <=? len then Done (len, sent, f) else uart_write_loop fuel' f count len sent
  end.

Definition uart_write_fifo_frame (f : kfifo) (count : Z) : outcome (Z * list Z * kfifo) :=
  uart_write_loop (S (length (buffer f))) f count 0 [].

Definition uart1_read (u : UART_S) (user_buf : list Z) (count : Z) : outcome (Z * list Z * UART_S) :=
  f ← fifo_at (rx u); '(n, buf, f) ← kfifo_get f user_buf count; Done (n, buf, mk_uart (Live f) (tx u)).

Definition uart1_write (u : UART_S) (user_buf : list Z) (count : Z) : outcome (Z * UART_S) :=
  f ← fifo_at (tx u); '(n, f) ← kfifo_put f user_buf count; Done (n, mk_uart (rx u) (Live f)).

(* ------------------------------------------------------------------ *)
(** ** The ring *)

(** The [n] bytes from the free-running index [p]. *)
Definition window (m : list Z) (sz p n : Z) : list Z :=
  map (fun i => nth (Z.to_nat ((p + i) mod sz)) m 0) (seqZ 0 n).

Definition fill (f : kfifo) : Z := u32 (in_ f - out f).
Definition content (f : kfifo) : list Z := window (buffer f) (size f) (out f) (fill f).

Record kfifo_wf (f : kfifo) : Prop := {
  wf_pow : exists k, 0 <= k < 32 /\ size f = 2 ^ k;
  wf_mem : zlen (buffer f) = size f;
  wf_mask : mask f = size f - 1;
  wf_in : is_u32 (in_ f);
  wf_out : is_u32 (out f);
  wf_fill : fill f <= size f
}.

Lemma size_range f : kfifo_wf f -> 0 < size f < 2 ^ 32.
Proof.
  intros [(k & Hk & ->) _ _ _ _ _]. split; [apply Z.pow_pos_nonneg; lia|]. apply Z.pow_lt_mono_r; lia.
Qed.

(** Masking is the remainder, and the wrap of the indices does not show. *)
Lemma mask_mod f x : kfifo_wf f -> Z.land x (size f - 1) = x mod size f.
Proof.
  intros [(k & Hk & ->) _ _ _ _ _].  replace (2 ^ k - 1) with (Z.ones k) by (rewrite Z.ones_equiv; lia). apply Z.land_ones. lia.
Qed.

Lemma u32_mod_size f x : kfifo_wf f -> u32 x mod size f = x mod size f.
Proof.
  intros [(k & Hk & ->) _ _ _ _ _]. unfold u32. symmetry. apply Znumtheory.Zmod_div_mod.
  - apply Z.pow_pos_nonneg; lia.
  - lia.
  - exists (2 ^ (32 - k)). rewrite <- Z.pow_add_r by lia. f_equal. lia.
Qed.

Lemma zlen_window m sz p n : 0 <= n -> zlen (window m sz p n) = n.
Proof. intros Hn. unfold window, zlen. rewrite length_map, length_seqZ. lia. Qed.

Lemma window_ext m m' sz p p' n :
  (forall i, 0 <= i < n -> nth (Z.to_nat ((p + i) mod sz)) m 0 = nth (Z.to_nat ((p' + i) mod sz)) m' 0) ->
  window m sz p n = window m' sz p' n.
Proof. intros He. apply map_ext_in. intros i Hi%list_elem_of_In%elem_of_seqZ. apply He. lia. Qed.

Lemma window_app m sz p a b : 0 <= a -> 0 <= b -> window m sz p (a + b) = window m sz p a ++ window m sz (p + a) b.
Proof.
  intros Ha Hb. unfold window. rewrite seqZ_app, map_app by lia. f_equal.
  rewrite Z.add_0_l, <- (Z.add_0_r a) at 1. rewrite <- fmap_add_seqZ. rewrite map_map.
  apply map_ext. intros i. by rewrite Z.add_assoc.
Qed.

(** A window that does not pass the end of the memory is a slice. *)
Lemma window_slice m sz p n :
  0 < sz -> zlen m = sz -> 0 <= n -> p mod sz + n <= sz -> window m sz p n = slice m (p mod sz) n.
Proof.
  intros Hs Hm Hn Hle. pose proof (Z.mod_pos_bound p sz Hs).
  apply list_eq_same_length with (Z.to_nat n).
  - unfold slice, zlen in *. rewrite length_take, length_drop. lia.
  - unfold window. rewrite length_map, length_seqZ. done.
  - intros i x y Hi Hx Hy. unfold window in Hx. apply list_lookup_fmap_Some in Hx as (j & -> & Hj).
    apply lookup_seqZ in Hj as [-> _].
    replace ((p + (0 + Z.of_nat i)) mod sz) with (p mod sz + Z.of_nat i) in *.
    2:{ rewrite <- Zplus_mod_idemp_l. symmetry. apply Z.mod_small. lia. }
    rewrite <- (Nat2Z.id i) in Hy. rewrite lookup_slice in Hy by lia. by rewrite nth_lookup, Hy.
Qed.

(** The two pieces of a window. *)
Lemma window_pieces m sz p n :
  0 < sz -> zlen m = sz -> 0 <= n <= sz ->
  let l := Z.min n (sz - p mod sz) in
  window m sz p n = slice m (p mod sz) l ++ slice m 0 (n - l).
Proof.
  intros Hs Hm Hn l. pose proof (Z.mod_pos_bound p sz Hs).
  replace n with (l + (n - l)) at 1 by lia. rewrite window_app by lia. f_equal; [apply window_slice; lia|].
  destruct (Z.eq_dec n l) as [E0|Hne]; [by replace (n - l) with 0 by lia|].
  assert (E : (p + l) mod sz = 0).
  { rewrite <- Zplus_mod_idemp_l. replace (p mod sz + l) with sz by lia. apply Z.mod_same. lia. }
  rewrite window_slice by lia. by rewrite E.
Qed.

Lemma wrap_once x sz : 0 <= x < 2 * sz -> x mod sz = if x <? sz then x else x - sz.
Proof.
  intros Hx. zcase; [by apply Z.mod_small; lia|]. symmetry. apply Z.mod_unique with 1; lia.
Qed.

(** Storing a run of bytes at the index [q] in its two pieces. *)
Definition store (m : list Z) (sz q : Z) (bs : list Z) : list Z :=
  let l := Z.min (zlen bs) (sz - q mod sz) in
  splice (splice m (q mod sz) (slice bs 0 l)) 0 (slice bs l (zlen bs - l)).

Lemma zlen_store m sz q bs : 0 < sz -> zlen m = sz -> zlen bs <= sz -> zlen (store m sz q bs) = sz.
Proof.
  intros Hs Hm Hb. pose proof (Z.mod_pos_bound q sz Hs). pose proof (zlen_nonneg bs). unfold store.
  rewrite !zlen_splice; rewrite ?zlen_splice; rewrite ?zlen_slice; lia.
Qed.

Lemma nth_slice (l : list Z) off n i : 0 <= off -> 0 <= i < n -> nth (Z.to_nat i) (slice l off n) 0 = nth (Z.to_nat (off + i)) l 0.
Proof. intros Ho Hi. by rewrite !nth_lookup, lookup_slice by lia. Qed.

(** What is stored where: the byte [i] at the slot of [q + i], the other
    slots as before. *)
Lemma nth_store m sz q bs j :
  0 < sz -> zlen m = sz -> zlen bs <= sz -> 0 <= j < sz ->
  nth (Z.to_nat j) (store m sz q bs) 0 =
    if (j - q) mod sz <? zlen bs then nth (Z.to_nat ((j - q) mod sz)) bs 0 else nth (Z.to_nat j) m 0.
Proof.
  intros Hs Hm Hb Hj. pose proof (Z.mod_pos_bound q sz Hs). pose proof (zlen_nonneg bs). unfold store.
  set (l := Z.min _ _). set (a := q mod sz) in *.
  assert (Ed : (j - q) mod sz = if a <=? j then j - a else j - a + sz).
  { unfold a. rewrite <- Zminus_mod_idemp_r. zcase; [by apply Z.mod_small; lia|].
    symmetry. apply Z.mod_unique with (-1); lia. }
  rewrite Ed, nth_splice by (rewrite ?zlen_splice; rewrite ?zlen_slice; lia). rewrite zlen_slice by lia.
  cbn [Z.leb Z.compare]. rewrite (proj2 (Z.leb_le 0 j)), Z.add_0_l, Z.sub_0_r by lia. cbn [andb].
  rewrite nth_splice by (rewrite ?zlen_slice; lia). rewrite zlen_slice by lia.
  destruct (Z.ltb_spec j (zlen bs - l)) as [H1|H1].
  - rewrite nth_slice by lia. rewrite (proj2 (Z.leb_gt a j)), (proj2 (Z.ltb_lt _ _)) by lia. do 2 f_equal. lia.
  - destruct (Z.leb_spec a j) as [H2|H2]; cbn [andb].
    + replace (j <? a + l) with (j - a <? zlen bs) by (apply eq_true_iff_eq; rewrite !Z.ltb_lt; lia).
      destruct (Z.ltb_spec (j - a) (zlen bs)); [|done]. rewrite nth_slice by lia. by rewrite Z.add_0_l.
    + by rewrite (proj2 (Z.ltb_ge (j - a + sz) (zlen bs))) by lia.
Qed.

(* ------------------------------------------------------------------ *)
(** ** Put, get and peek *)

Lemma fill_range f : 0 <= fill f < 2 ^ 32.
Proof. apply u32_range. Qed.

Lemma in_out f : kfifo_wf f -> in_ f mod size f = (out f + fill f) mod size f.
Proof.
  intros W. rewrite <- (u32_mod_size f (out f + fill f)) by done. unfold fill, u32.
  rewrite Zplus_mod_idemp_r. replace (out f + (in_ f - out f)) with (in_ f) by lia.
  change (in_ f mod size f = u32 (in_ f) mod size f). by rewrite u32_mod_size.
Qed.

Lemma free_space f : kfifo_wf f -> u32 (size f - in_ f + out f) = size f - fill f.
Proof.
  intros W. pose proof (size_range f W). pose proof (wf_fill f W). pose proof (fill_range f).
  rewrite <- (u32_small (size f - fill f)) by lia. unfold fill, u32. rewrite Zminus_mod_idemp_r. f_equal. lia.
Qed.

(** Copying a run of bytes in, in the two pieces of the code. *)
Lemma copy_pieces {A} (K : list Z -> outcome A) (m src : list Z) sz q n :
  0 < sz -> zlen m = sz -> 0 <= n <= sz -> n <= zlen src -> sz < 2 ^ 32 ->
  let pos := q mod sz in
  let l := Z.min n (u32 (sz - pos)) in
  (bs ← mem_read src 0 l; m1 ← mem_write m pos bs; bs ← mem_read src l (u32 (n - l)); m2 ← mem_write m1 0 bs; K m2)
  = K (store m sz q (slice src 0 n)).
Proof.
  intros Hs Hm Hn Hz Hlt pos l. unfold l, pos. pose proof (Z.mod_pos_bound q sz Hs). rewrite (u32_small (sz - _)) by lia.
  set (l' := Z.min n (sz - q mod sz)). rewrite (mem_read_in src 0 l') by lia. cbn [mbind outcome_bind].
  rewrite mem_write_in by (rewrite ?zlen_slice; lia). cbn [mbind outcome_bind]. rewrite (u32_small (n - l')) by lia.
  rewrite mem_read_in by lia. cbn [mbind outcome_bind].
  rewrite mem_write_in by (rewrite ?zlen_splice; rewrite ?zlen_slice; lia). cbn [mbind outcome_bind].
  f_equal. unfold store.
  rewrite zlen_slice by lia. fold l'. by rewrite !slice_slice by lia.
Qed.

Lemma kfifo_put_spec f src len :
  kfifo_wf f -> 0 <= len < 2 ^ 32 -> len <= zlen src ->
  let n := Z.min len (size f - zlen (content f)) in
  exists f', kfifo_put f src len = Done (n, f') /\ kfifo_wf f' /\ size f' = size f /\
    content f' = content f ++ slice src 0 n.
Proof.
  intros W Hl Hz. pose proof (size_range f W) as Hs. pose proof (wf_fill f W). pose proof (fill_range f).
  pose proof (wf_mem f W) as Hm. intros n. assert (En : n = Z.min len (size f - fill f))
    by (unfold n, content; by rewrite zlen_window by lia). clearbody n.
  exists (mk_kfifo (u32 (in_ f + n)) (out f) (mask f) (size f) (store (buffer f) (size f) (in_ f) (slice src 0 n))).
  assert (Hf : fill (mk_kfifo (u32 (in_ f + n)) (out f) (mask f) (size f) (store (buffer f) (size f) (in_ f) (slice src 0 n)))
               = fill f + n).
  { rewrite <- (u32_small (fill f + n)) by lia. unfold fill, u32. cbn [in_ out].
    rewrite Zminus_mod_idemp_l, Zplus_mod_idemp_l. f_equal. lia. }
  assert (Hst : zlen (store (buffer f) (size f) (in_ f) (slice src 0 n)) = size f)
    by (apply zlen_store; rewrite ?zlen_slice; lia).
  split_and!.
  - unfold kfifo_put. rewrite free_space, <- En by done. rewrite (u32_small (size f - 1)), mask_mod by (done || lia).
    rewrite copy_pieces by lia. done.
  - split; cbn [in_ out mask size buffer]; try apply W; [apply Hst|apply u32_range|]. rewrite Hf. lia.
  - done.
  - unfold content. rewrite Hf. cbn [size out buffer]. rewrite window_app by lia. f_equal.
    + apply window_ext. intros i Hi. pose proof (Z.mod_pos_bound (out f + i) (size f) ltac:(lia)).
      rewrite nth_store by (rewrite ?zlen_slice; lia). rewrite zlen_slice by lia.
      assert (E : ((out f + i) mod size f - in_ f) mod size f = i - fill f + size f).
      { rewrite Zminus_mod_idemp_l, <- Zminus_mod_idemp_r, in_out, Zminus_mod_idemp_r by done.
        replace (out f + i - (out f + fill f)) with (i - fill f) by lia. symmetry. apply Z.mod_unique with (-1); lia. }
      by rewrite E, (proj2 (Z.ltb_ge _ _)) by lia.
    + apply (list_eq_same_length) with (Z.to_nat n).
      * unfold slice, zlen in *. rewrite length_take, length_drop. lia.
      * unfold window. by rewrite length_map, length_seqZ.
      * intros i x y Hi Hx Hy. unfold window in Hx. apply list_lookup_fmap_Some in Hx as (j & -> & Hj).
        apply lookup_seqZ in Hj as [-> _]. pose proof (Z.mod_pos_bound (out f + fill f + (0 + Z.of_nat i)) (size f) ltac:(lia)).
        rewrite nth_store by (rewrite ?zlen_slice; lia). rewrite zlen_slice by lia.
        assert (E : ((out f + fill f + (0 + Z.of_nat i)) mod size f - in_ f) mod size f = Z.of_nat i).
        { rewrite Zminus_mod_idemp_l, <- Zminus_mod_idemp_r, in_out, Zminus_mod_idemp_r by done.
          replace (out f + fill f + (0 + Z.of_nat i) - (out f + fill f)) with (Z.of_nat i) by lia.
          apply Z.mod_small. lia. }
        rewrite E, (proj2 (Z.ltb_lt _ _)), Nat2Z.id by lia. by rewrite nth_lookup, Hy.
Qed.

Lemma zlen_content f : kfifo_wf f -> zlen (content f) = fill f.
Proof. intros W. pose proof (fill_range f). unfold content. by rewrite zlen_window by lia. Qed.

(** The oldest [n] bytes, in the two pieces of the code. *)
Lemma oldest_pieces {A} (K : list Z -> outcome A) f (dst : list Z) n :
  kfifo_wf f -> 0 <= n <= fill f -> n <= zlen dst ->
  let pos := out f mod size f in
  let l := Z.min n (u32 (size f - pos)) in
  (bs ← mem_read (buffer f) pos l; d ← mem_write dst 0 bs; bs ← mem_read (buffer f) 0 (u32 (n - l));
   d ← mem_write d l bs; K d) = K (splice dst 0 (slice (content f) 0 n)).
Proof.
  intros W Hn Hd pos l. pose proof (size_range f W) as Hs. pose proof (wf_fill f W). pose proof (wf_mem f W) as Hm.
  pose proof (fill_range f). pose proof (Z.mod_pos_bound (out f) (size f) ltac:(lia)). unfold l, pos.
  rewrite (u32_small (size f - _)) by lia. set (l' := Z.min n (size f - out f mod size f)).
  rewrite (mem_read_in (buffer f) (out f mod size f) l') by lia. cbn [mbind outcome_bind].
  rewrite mem_write_in by (rewrite ?zlen_slice; lia). cbn [mbind outcome_bind]. rewrite (u32_small (n - l')) by lia.
  rewrite mem_read_in by lia. cbn [mbind outcome_bind].
  rewrite mem_write_in by (rewrite ?zlen_splice; rewrite ?zlen_slice; lia). cbn [mbind outcome_bind]. f_equal.
  assert (E : slice (content f) 0 n = slice (buffer f) (out f mod size f) l' ++ slice (buffer f) 0 (n - l')).
  { unfold content. replace (fill f) with (n + (fill f - n)) by lia. rewrite window_app by lia.
    rewrite slice_app_l by (rewrite ?zlen_window; lia). rewrite slice_all by (rewrite zlen_window; lia).
    apply window_pieces; lia. }
  rewrite E, <- splice_glue by (rewrite !zlen_slice; lia). by rewrite zlen_slice by lia.
Qed.

Lemma kfifo_get_spec f dst len :
  kfifo_wf f -> 0 <= len < 2 ^ 32 -> len <= zlen dst ->
  let n := Z.min len (zlen (content f)) in
  exists f', kfifo_get f dst len = Done (n, splice dst 0 (slice (content f) 0 n), f') /\ kfifo_wf f' /\
    size f' = size f /\ content f = slice (content f) 0 n ++ content f'.
Proof.
  intros W Hl Hz. pose proof (size_range f W) as Hs. pose proof (wf_fill f W). pose proof (fill_range f).
  rewrite zlen_content by done. intros n.
  exists (mk_kfifo (in_ f) (u32 (out f + n)) (mask f) (size f) (buffer f)).
  assert (Hf : fill (mk_kfifo (in_ f) (u32 (out f + n)) (mask f) (size f) (buffer f)) = fill f - n).
  { rewrite <- (u32_small (fill f - n)) by lia. unfold fill, u32. cbn [in_ out].
    rewrite Zminus_mod_idemp_r, Zminus_mod_idemp_l. f_equal. lia. }
  split_and!.
  - unfold kfifo_get. fold (fill f). fold n. rewrite (u32_small (size f - 1)), mask_mod by (done || lia).
    by rewrite oldest_pieces by (done || lia).
  - split; cbn [in_ out mask size buffer]; try apply W; [apply u32_range|]. rewrite Hf. lia.
  - done.
  - unfold content at 1 3. rewrite Hf. cbn [size out buffer].
    replace (window (buffer f) (size f) (u32 (out f + n)) (fill f - n))
      with (window (buffer f) (size f) (out f + n) (fill f - n)).
    2:{ apply window_ext. intros i Hi. do 2 f_equal.
        by rewrite <- Zplus_mod_idemp_l, <- (u32_mod_size f (out f + n)), Zplus_mod_idemp_l by done. }
    replace (fill f) with (n + (fill f - n)) at 1 by lia. rewrite window_app by lia. f_equal. unfold content.
    replace (fill f) with (n + (fill f - n)) by lia. rewrite window_app by lia.
    rewrite slice_app_l by (rewrite ?zlen_window; lia). by rewrite slice_all by (rewrite zlen_window; lia).
Qed.

(** A peek hands out the oldest bytes and changes nothing. *)
Lemma kfifo_out_peek_spec f dst len :
  kfifo_wf f -> 0 <= len < 2 ^ 32 -> len <= zlen dst ->
  let n := Z.min len (zlen (content f)) in
  kfifo_out_peek f dst len = Done (n, splice dst 0 (slice (content f) 0 n)).
Proof.
  intros W Hl Hz. pose proof (size_range f W) as Hs. pose proof (wf_fill f W). pose proof (fill_range f).
  rewrite zlen_content by done. intros n. unfold kfifo_out_peek, kfifo_copy_out. fold (fill f).
  assert (En : (if fill f <? len then fill f else len) = n) by (unfold n; zcase; lia). rewrite En.
  rewrite (wf_mask f W), Z.sub_add, (u32_small (size f)), mask_mod by (done || lia).
  pose proof (oldest_pieces (fun d => Done (n, d)) f dst n W) as E. cbv zeta in E. rewrite <- E by lia.
  destruct (mem_read (buffer f) (out f mod size f) _) as [b| | |]; [|done..]. cbn [mbind outcome_bind].
  destruct (mem_write dst 0 b) as [d| | |]; [|done..]. cbn [mbind outcome_bind].
  destruct (mem_read (buffer f) 0 _) as [b2| | |]; [|done..]. cbn [mbind outcome_bind].
  by destruct (mem_write d _ b2).
Qed.

Lemma kfifo_sizes f : kfifo_wf f ->
  kfifo_data_size f = zlen (content f) /\ kfifo_unused f = size f - zlen (content f).
Proof.
  intros W. pose proof (size_range f W) as Hs. pose proof (wf_fill f W). pose proof (fill_range f).
  rewrite zlen_content by done. split; [done|]. unfold kfifo_unused. rewrite (wf_mask f W), Z.sub_add.
  rewrite <- (u32_small (size f - fill f)) by lia. unfold fill, u32. by rewrite Zminus_mod_idemp_r.
Qed.

Lemma kfifo_alloc_wf mem k :
  0 <= k < 32 -> zlen mem = 2 ^ k ->
  exists f, kfifo_alloc (Some mem) true (2 ^ k) = Done (Some f) /\ kfifo_wf f /\ content f = [] /\ size f = 2 ^ k.
Proof.
  intros Hk Hm. assert (0 < 2 ^ k) by (apply Z.pow_pos_nonneg; lia). assert (2 ^ k < 2 ^ 32) by (apply Z.pow_lt_mono_r; lia).
  exists (mk_kfifo 0 0 (2 ^ k - 1) (2 ^ k) mem). split.
  - assert (E : Z.land (2 ^ k) (2 ^ k - 1) = 0).
    { replace (2 ^ k - 1) with (Z.ones k) by (rewrite Z.ones_equiv; lia). rewrite Z.land_ones by lia. apply Z.mod_same. lia. }
    unfold kfifo_alloc, kfifo_init. rewrite u32_small by lia. by rewrite E.
  - split_and!; [|done|done]. split; cbn [in_ out mask size buffer]; [by exists k|done|done|done|done|].
    change (0 <= 2 ^ k). lia.
Qed.

(** ** The FIFO contract *)

Definition kfifo_push (f : kfifo) (bs : list Z) : outcome (Z * kfifo) := kfifo_put f bs (zlen bs).

Definition kfifo_pop (f : kfifo) (n : Z) : outcome (list Z * kfifo) :=
  '(k, dst, f) ← kfifo_get f (replicate (Z.to_nat n) 0) n; Done (slice dst 0 k, f).

#[export, program] Instance kfifo_stream : ByteStream kfifo := {|
  bs_inv := kfifo_wf;
  bs_content := content;
  bs_offer_ok _ bs := zlen bs < 2 ^ 32;
  bs_push := kfifo_push;
  bs_pop := kfifo_pop
|}.
Next Obligation.
  intros f bs W Hb. pose proof (zlen_nonneg bs). cbn in Hb.
  destruct (kfifo_put_spec f bs (zlen bs) W) as (f' & E & W' & _ & Hc); [lia..|].
  pose proof (wf_fill f W). rewrite (zlen_content f W) in *. exists (Z.min (zlen bs) (size f - fill f)), f'.
  split_and!; [exact E|lia|lia|done|exact Hc].
Qed.
Next Obligation.
  intros f n W Hn. unfold is_u32 in Hn. assert (Hr : zlen (replicate (Z.to_nat n) 0) = n) by (unfold zlen; rewrite length_replicate; lia).
  destruct (kfifo_get_spec f (replicate (Z.to_nat n) 0) n W) as (f' & E & W' & _ & Hc); [lia..|]. cbv zeta in *.
  set (k := Z.min n (zlen (content f))) in *. pose proof (zlen_nonneg (content f)).
  assert (Hk : zlen (slice (content f) 0 k) = k) by (rewrite zlen_slice; lia).
  exists (slice (content f) 0 k), f'. split_and!; [|done|done|done].
  unfold kfifo_pop. rewrite E. cbn [mbind outcome_bind]. by rewrite slice_splice_same by lia.
Qed.
Next Obligation. done. Qed.

(* ------------------------------------------------------------------ *)
(** ** Properties *)

(** C5: From [kfifo_alloc], any interleaving of puts and gets of any lengths
    is a lossless FIFO: what was got followed by what is still buffered is
    exactly what the puts said they accepted, in order, also after the 32-bit
    indices have wrapped. *)
Theorem kfifo_fifo mem k (l : list access) f0 :
  0 <= k < 32 -> zlen mem = 2 ^ k -> kfifo_alloc (Some mem) true (2 ^ k) = Done (Some f0) ->
  Forall (access_ok f0) l ->
  exists outs acc f', run_schedule f0 l = Done (outs, acc, f') /\ kfifo_wf f' /\ acc = outs ++ content f' /\
    kfifo_data_size f' = zlen (content f') /\ kfifo_unused f' = size f' - zlen (content f').
Proof.
  intros Hk Hm E Hl. destruct (kfifo_alloc_wf mem k Hk Hm) as (f & E' & W & Hc & _). rewrite E' in E. injection E as <-.
  destruct (run_schedule_fifo (H := kfifo_stream) l f W Hl) as (outs & acc & f' & R & W' & Hs). exists outs, acc, f'.
  split_and!; [done|done| |by apply kfifo_sizes..]. change (content f ++ acc = outs ++ content f') in Hs.
  by rewrite Hc in Hs.
Qed.

Lemma le32_byte v : is_byte v -> slice (le32 v) 0 1 = [v].
Proof. intros Hv. change (slice (le32 v) 0 1) with [u8 v]. by rewrite u8_small. Qed.

Lemma read_frame_run pending : forall f n0,
  kfifo_wf f -> Forall is_byte pending -> 0 <= n0 -> n0 + zlen pending < 2 ^ 32 ->
  let n := Z.min (zlen pending) (size f - zlen (content f)) in
  exists f', uart_read_fifo_frame pending f n0 = Done (n0 + n, f') /\ kfifo_wf f' /\ size f' = size f /\
    content f' = content f ++ slice pending 0 n.
Proof.
  induction pending as [|v pending IH]; intros f n0 W Hb Hn Hlt n; pose proof (wf_fill f W); pose proof (fill_range f);
    pose proof (zlen_content f W) as Hz.
  - exists f. unfold n. rewrite zlen_nil, Z.min_l by lia. cbn. by rewrite Z.add_0_r, app_nil_r.
  - inversion_clear Hb as [|? ? Hv Hp]. rewrite zlen_cons in *. pose proof (zlen_nonneg pending).
    destruct (kfifo_put_spec f (le32 v) 1 W) as (f1 & E & W1 & S1 & C1); [lia|done|]. cbv zeta in E, C1.
    cbn [uart_read_fifo_frame]. rewrite E. cbn [mbind outcome_bind].
    destruct (IH f1 (u32 (n0 + Z.min 1 (size f - zlen (content f)))) W1 Hp) as (f2 & E2 & W2 & S2 & C2);
      [apply u32_range|rewrite u32_small; lia|]. rewrite S1 in *. rewrite u32_small in E2 by lia.
    exists f2. rewrite u32_small, E2, C2 by lia. unfold n. rewrite (zlen_cons v).
    destruct (Z.eq_dec (size f - zlen (content f)) 0) as [E0|E0].
    + assert (C0 : content f1 = content f).
      { rewrite C1, E0. change (slice (le32 v) 0 (Z.min 1 0)) with (@nil Z). by rewrite app_nil_r. }
      rewrite C0, E0, (Z.min_r 1 0), (Z.min_r (zlen pending) 0), (Z.min_r (1 + _) 0), !slice_0, app_nil_r by lia.
      split_and!; [do 2 f_equal; lia|done..].
    + rewrite (Z.min_l 1), le32_byte in C1 by (done || lia). rewrite C1, zlen_app, (Z.min_l 1) by lia. change (zlen [v]) with 1.
      split_and!; [do 2 f_equal; lia|done|done|]. rewrite <- app_assoc. f_equal. cbn [app].
      replace (Z.min (1 + zlen pending) (size f - zlen (content f)))
        with (1 + Z.min (zlen pending) (size f - (zlen (content f) + 1))) by lia.
      unfold slice. rewrite Z2Nat.inj_add by lia. done.
Qed.

(** A receive interrupt moves the bytes the hardware holds into the
    FIFO until it is full, in order: it keeps exactly the first bytes that
    fit, drops the others, and counts those it kept. *)
Theorem uart_read_frame_exact f pending :
  kfifo_wf f -> Forall is_byte pending -> zlen pending < 2 ^ 32 ->
  let n := Z.min (zlen pending) (size f - zlen (content f)) in
  exists f', uart_read_fifo_frame pending f 0 = Done (n, f') /\ kfifo_wf f' /\
    content f' = content f ++ slice pending 0 n.
Proof.
  intros W Hb Hn n. destruct (read_frame_run pending f 0 W Hb) as (f' & E & W' & _ & C); [lia|lia|]. by exists f'.
Qed.

Lemma write_frame_run fuel : forall f count len sent,
  kfifo_wf f -> 0 <= len -> len + zlen (content f) < 2 ^ 32 -> (Z.to_nat (zlen (content f)) < fuel)%nat ->
  let n := Z.min (Z.max 1 (count - len)) (zlen (content f)) in
  exists f', uart_write_loop fuel f count len sent = Done (len + n, sent ++ slice (content f) 0 n, f') /\ kfifo_wf f' /\
    content f = slice (content f) 0 n ++ content f'.
Proof.
  induction fuel as [|fuel IH]; intros f count len sent W Hl Hlt Hf n; [lia|]. pose proof (zlen_nonneg (content f)).
  destruct (kfifo_get_spec f (le32 0) 1 W) as (f1 & E & W1 & S1 & C1); [lia|done|]. cbv zeta in E, C1.
  cbn [uart_write_loop]. rewrite E. cbn [mbind outcome_bind].
  destruct (content f) as [|b rest] eqn:Ec.
  - exists f1. assert (En : n = 0) by (unfold n; change (zlen (@nil Z)) with 0; lia). rewrite En.
    rewrite !slice_0, (Z.add_0_r len), (app_nil_r sent). split_and!; [done|done|exact C1].
  - assert (En : n = Z.min (Z.max 1 (count - len)) (1 + zlen rest)) by (unfold n; by rewrite zlen_cons).
    clearbody n. rewrite zlen_cons in *. pose proof (zlen_nonneg rest). rewrite Z.min_l in C1 |- * by lia.
    change (slice (b :: rest) 0 1) with [b] in *. injection C1 as C1.
    change (1 =? 0) with false. cbn beta iota.
    change (aget (splice (le32 0) 0 [b]) 0) with (Done b). cbn [mbind outcome_bind]. rewrite u32_small by lia.
    destruct (Z.leb_spec count (len + 1)) as [Hc|Hc].
    + exists f1. replace n with 1 by lia. split_and!; [done|done|]. cbn. by rewrite C1.
    + destruct (IH f1 count (len + 1) (sent ++ [b]) W1) as (f2 & E2 & W2 & C2); [lia|rewrite <- C1; lia|rewrite <- C1; lia|].
      rewrite E2. exists f2. rewrite <- C1 in *.
      replace n with (1 + Z.min (Z.max 1 (count - (len + 1))) (zlen rest)) by lia.
      assert (Es : forall m, 0 <= m -> slice (b :: rest) 0 (1 + m) = b :: slice rest 0 m)
        by (intros m Hm; unfold slice; rewrite Z2Nat.inj_add by lia; done).
      rewrite Es by lia. split_and!; [|done|].
      * rewrite <- app_assoc. do 3 f_equal. lia.
      * cbn [app]. by f_equal.
Qed.

(** The background transmitter sends the oldest bytes of the FIFO in
    order, [count] of them or all there are, but at least one when there is
    one, removes exactly those, and always ends. *)
Theorem uart_write_frame_exact f count :
  kfifo_wf f ->
  let n := Z.min (Z.max 1 count) (zlen (content f)) in
  exists f', uart_write_fifo_frame f count = Done (n, slice (content f) 0 n, f') /\ kfifo_wf f' /\
    content f = slice (content f) 0 n ++ content f'.
Proof.
  intros W n. pose proof (wf_mem f W) as Hm. pose proof (wf_fill f W). pose proof (zlen_content f W) as Hz.
  pose proof (size_range f W).
  destruct (write_frame_run (S (length (buffer f))) f count 0 [] W) as (f' & E & W' & C); [lia|lia|unfold zlen in *; lia|].
  rewrite Z.sub_0_r in *. exists f'. by split_and!.
Qed.

(** A size that is not a power of two stops the firmware: the allocator does
    not round up. *)
Theorem kfifo_alloc_no_rounding : kfifo_alloc (Some (replicate 100 0)) true 100 = Hang.
Proof. reflexivity. Qed.

(** The life of a port.  With both FIFOs it starts, and stops giving
    them back; with none it refuses and can be stopped; with just one it
    refuses and gives it back, but stopping it then frees it again. *)
Theorem uart_sw_life rxm rxs txm txs :
  zlen rxm = RX_RB_LENGTH -> zlen txm = TX_RB_LENGTH ->
  exists u, uart_sw_init (Some rxm) rxs (Some txm) txs = Done (rxs && txs, u) /\
    uart_sw_uninit u = (if eqb rxs txs then Done (mk_uart Null Null) else Wild) /\
    (rxs && txs = true -> exists r t, u = mk_uart (Live r) (Live t) /\ kfifo_wf r /\ kfifo_wf t /\
       content r = [] /\ content t = []).
Proof.
  intros Hr Ht. destruct (kfifo_alloc_wf rxm 7) as (r & Er & Wr & Cr & _); [lia|done|].
  destruct (kfifo_alloc_wf txm 6) as (t & Et & Wt & Ct & _); [lia|done|].
  unfold uart_sw_init. change RX_RB_LENGTH with (2 ^ 7). change TX_RB_LENGTH with (2 ^ 6).
  assert (En : forall m k, kfifo_alloc (Some m) true (2 ^ k) <> Hang -> kfifo_alloc (Some m) false (2 ^ k) = Done None).
  { intros m k. unfold kfifo_alloc, kfifo_init. by destruct (Z.land _ _ =? 0). }
  destruct rxs, txs; rewrite ?(En rxm 7), ?(En txm 6), ?Er, ?Et by congruence; cbn; eexists;
    (split; [reflexivity|]; split; [reflexivity|]); try done.
  intros _. by exists r, t.
Qed.

(* ------------------------------------------------------------------ *)
(** ** Witnesses *)

(** Four slots, indices about to wrap. *)
Definition kfifo_example : kfifo := mk_kfifo (2 ^ 32 - 1) (2 ^ 32 - 3) 3 4 [10; 11; 12; 13].

Lemma kfifo_example_wf : kfifo_wf kfifo_example.
Proof. split; cbn; try (vm_compute; intuition discriminate). by exists 2. Qed.

Lemma kfifo_fifo_witness :
  exists outs acc f', run_schedule (mk_kfifo 0 0 3 4 [0; 0; 0; 0]) [Offer [1; 2; 3]; Take 2; Offer [4; 5; 6]; Take 9] = Done (outs, acc, f') /\
    kfifo_wf f' /\ acc = outs ++ content f' /\
    kfifo_data_size f' = zlen (content f') /\ kfifo_unused f' = size f' - zlen (content f').
Proof.
  apply (kfifo_fifo [0; 0; 0; 0] 2 _ (mk_kfifo 0 0 3 4 [0; 0; 0; 0])); [lia|reflexivity|reflexivity|].
  repeat constructor; vm_compute; intuition discriminate.
Defined.

Lemma uart_read_frame_exact_witness :
  exists f', uart_read_fifo_frame [1; 2; 3] kfifo_example 0 = Done (2, f') /\ kfifo_wf f' /\
    content f' = [11; 12; 1; 2].
Proof.
  apply (uart_read_frame_exact kfifo_example [1; 2; 3]); [apply kfifo_example_wf| |vm_compute; reflexivity].
  repeat constructor; vm_compute; intuition discriminate.
Defined.

Lemma uart_write_frame_exact_witness :
  exists f', uart_write_fifo_frame kfifo_example 1 = Done (1, [11], f') /\ kfifo_wf f' /\ [11; 12] = [11] ++ content f'.
Proof. apply (uart_write_frame_exact kfifo_example 1). apply kfifo_example_wf. Defined.
