(* ===== verification/CommonList.v ===== *)
(** The BLE stack's intrusive singly linked list:
    beken378/driver/ble/ble_pub/modules/common/src/common_list.c.

    The heap maps the address of a [struct common_list_hdr] to its [next]
    field; a list structure is a record of its own.  [CFG_DBG] is the build
    switch that turns on both [KERNEL_PROFILING] and the assertions
    ([PLF_DEBUG], architect.h): every theorem holds for either setting.
    Loops take [turns h] turns at most, one more than there are objects: a
    chain that ends visits each object once, so running out of turns ([Spin])
    is a cyclic chain. *)

From S2P Require Import Prelude.

Abbreviation ptr := (option positive).
Abbreviation NULL := (@None positive).
Abbreviation heap := (gmap positive (option positive)).

(** [struct common_list], the counters being those of [KERNEL_PROFILING]. *)
Record common_list := mk_cl {
  cl_first : ptr;
  cl_last : ptr;
  cl_cnt : Z;
  cl_maxcnt : Z;
  cl_mincnt : Z
}.

Definition with_first (l : common_list) (p : ptr) : common_list :=
  mk_cl p (cl_last l) (cl_cnt l) (cl_maxcnt l) (cl_mincnt l).
Definition with_last (l : common_list) (p : ptr) : common_list :=
  mk_cl (cl_first l) p (cl_cnt l) (cl_maxcnt l) (cl_mincnt l).
Definition with_cnt (l : common_list) (n : Z) : common_list :=
  mk_cl (cl_first l) (cl_last l) n (cl_maxcnt l) (cl_mincnt l).

(** [p->next] and [p->next = v]. *)
Definition get_next (h : heap) (p : ptr) : outcome ptr :=
  a ← deref p; deref (h !! a).

Definition set_next (h : heap) (p v : ptr) : outcome heap :=
  a ← deref p; _ ← deref (h !! a); Done (<[a := v]> h).

Arguments get_next : simpl never.
Arguments set_next : simpl never.

Definition ptr_eqb (p q : ptr) : bool := bool_decide (p = q).

(** The fuel of the loops. *)
Definition turns (h : heap) : nat := S (size h).
Arguments turns : simpl never.

Section Code.
Context (CFG_DBG : bool).

(** [ASSERT_ERR] and [ASSERT_INFO] of architect.h. *)
Definition ASSERT_ERR (b : bool) : outcome unit :=
  if CFG_DBG then ASSERT b else Done tt.

(** [list->cnt++] with the maximum, and the plain decrement. *)
Definition prof_inc (l : common_list) : common_list :=
  if CFG_DBG then
    let cnt := u32 (cl_cnt l + 1) in
    mk_cl (cl_first l) (cl_last l) cnt
      (if cl_maxcnt l <? cnt then cnt else cl_maxcnt l) (cl_mincnt l)
  else l.

Definition prof_dec1 (l : common_list) : common_list :=
  if CFG_DBG then with_cnt l (u32 (cl_cnt l - 1)) else l.

(** [list->cnt--] with the minimum. *)
Definition prof_dec (l : common_list) : common_list :=
  if CFG_DBG then
    let cnt := u32 (cl_cnt l - 1) in
    mk_cl (cl_first l) (cl_last l) cnt (cl_maxcnt l)
      (if cnt <? cl_mincnt l then cnt else cl_mincnt l)
  else l.

Definition common_list_init (l : common_list) : common_list :=
  if CFG_DBG then mk_cl NULL NULL 0 0 0xFFFFFFFF
  else mk_cl NULL NULL (cl_cnt l) (cl_maxcnt l) (cl_mincnt l).

Definition common_list_is_empty (l : common_list) : bool := ptr_eqb (cl_first l) NULL.

Definition common_list_push_back (h : heap) (l : common_list) (list_hdr : ptr)
    : outcome (heap * common_list) :=
  _ ← ASSERT_ERR (negb (ptr_eqb list_hdr NULL));
  '(h, l) ← (if common_list_is_empty l then Done (h, with_first l list_hdr)
             else h ← set_next h (cl_last l) list_hdr; Done (h, l));
  let l := with_last l list_hdr in
  h ← set_next h list_hdr NULL;
  Done (h, prof_inc l).

Definition common_list_push_front (h : heap) (l : common_list) (list_hdr : ptr)
    : outcome (heap * common_list) :=
  _ ← ASSERT_ERR (negb (ptr_eqb list_hdr NULL));
  let l := if common_list_is_empty l then with_last l list_hdr else l in
  h ← set_next h list_hdr (cl_first l);
  Done (h, prof_inc (with_first l list_hdr)).

(** The pool loop: element [i] of [elmt_cnt], at [pool]; the default
    value's image of the link field is [default_value]. The last element of
    a ring pool is linked by the same statements written out again. *)
Fixpoint pool_loop (n : nat) (i elmt_cnt : Z) (h : heap) (l : common_list)
    (pool elmt_size : positive) (default_value : option ptr) (ring : bool)
    : outcome (heap * common_list) :=
  match n with
  | O => Done (h, l)
  | S n =>
      h ← match default_value with
          | Some v => set_next h (Some pool) v
          | None => Done h
          end;
      '(h, l) ← (if (i =? elmt_cnt - 1) && ring then
                   _ ← ASSERT_ERR (negb (ptr_eqb (Some pool) NULL));
                   '(h, l) ← (if common_list_is_empty l
                              then Done (h, with_first l (Some pool))
                              else h ← set_next h (cl_last l) (Some pool); Done (h, l));
                   let l := with_last l (Some pool) in
                   h ← set_next h (Some pool) NULL;
                   Done (h, prof_inc l)
                 else common_list_push_back h l (Some pool));
      pool_loop n (i + 1) elmt_cnt h l (pool + elmt_size)%positive elmt_size
        default_value ring
  end.

Definition common_list_pool_init (h : heap) (l : common_list) (pool elmt_size : positive)
    (elmt_cnt : Z) (default_value : option ptr) (ring : bool)
    : outcome (heap * common_list) :=
  pool_loop (Z.to_nat elmt_cnt) 0 elmt_cnt h (common_list_init l) pool elmt_size
    default_value ring.

Definition common_list_pop_front (h : heap) (l : common_list)
    : outcome (ptr * common_list) :=
  let element := cl_first l in
  if ptr_eqb element NULL then Done (element, l) else
  next ← get_next h element;
  let l := with_first l next in
  let l := if ptr_eqb (cl_first l) NULL then with_last l (cl_first l) else l in
  Done (element, prof_dec l).

(** [while(curr != NULL)]: returns [found], [prev] and [curr]. *)
Fixpoint extract_search (fuel : nat) (h : heap) (l : common_list) (list_hdr : ptr)
    (prev curr : ptr) : outcome (bool * ptr * ptr) :=
  match fuel with
  | O => Spin
  | S fuel =>
      if ptr_eqb curr NULL then Done (false, prev, curr) else
      if ptr_eqb curr list_hdr then Done (true, prev, curr) else
      next ← get_next h curr;
      _ ← ASSERT_ERR (negb (ptr_eqb (cl_first l) next));
      _ ← ASSERT_ERR (negb (ptr_eqb curr next));
      extract_search fuel h l list_hdr curr next
  end.

(** [for(i = nb_following; i > 0; i--)]. *)
Fixpoint extract_jump (nb : nat) (h : heap) (l : common_list) (last : ptr)
    : outcome (ptr * common_list) :=
  match nb with
  | O => Done (last, l)
  | S nb =>
      last ← get_next h last;
      _ ← ASSERT_ERR (negb (ptr_eqb last NULL));
      extract_jump nb h (prof_dec1 l) last
  end.

Definition common_list_extract (h : heap) (l : common_list) (list_hdr : ptr)
    (nb_following : Z) : outcome (bool * heap * common_list) :=
  '(found, prev, curr) ← extract_search (turns h) h l list_hdr NULL (cl_first l);
  if (found : bool) then
    '(last, l) ← extract_jump (Z.to_nat nb_following) h l curr;
    next ← get_next h last;
    '(h, l) ← (if ptr_eqb prev NULL then Done (h, with_first l next)
               else h ← set_next h prev next; Done (h, l));
    let l := if ptr_eqb last (cl_last l) then with_last l prev else l in
    Done (true, h, prof_dec l)
  else Done (false, h, l).

Definition common_list_extract_after (h : heap) (l : common_list)
    (elt_ref_hdr elt_to_rem_hdr : ptr) : outcome (heap * common_list) :=
  _ ← ASSERT_ERR (negb (ptr_eqb elt_to_rem_hdr NULL));
  '(h, l) ← (if ptr_eqb elt_ref_hdr NULL then
               _ ← ASSERT_ERR (ptr_eqb elt_to_rem_hdr (cl_first l));
               next ← get_next h (cl_first l);
               Done (h, with_first l next)
             else
               ref_next ← get_next h elt_ref_hdr;
               _ ← ASSERT_ERR (ptr_eqb elt_to_rem_hdr ref_next);
               next ← get_next h elt_to_rem_hdr;
               h ← set_next h elt_ref_hdr next;
               Done (h, l));
  let l := if ptr_eqb elt_to_rem_hdr (cl_last l) then with_last l elt_ref_hdr else l in
  Done (h, prof_dec l).

(** [while ((tmp != ref) && (tmp != NULL))], with the trailing pointer. *)
Fixpoint walk_to (fuel : nat) (h : heap) (ref prev curr : ptr) : outcome (ptr * ptr) :=
  match fuel with
  | O => Spin
  | S fuel =>
      if negb (ptr_eqb curr ref) && negb (ptr_eqb curr NULL) then
        next ← get_next h curr;
        walk_to fuel h ref curr next
      else Done (prev, curr)
  end.

Definition common_list_find (h : heap) (l : common_list) (list_hdr : ptr) : outcome bool :=
  '(_, tmp) ← walk_to (turns h) h list_hdr NULL (cl_first l);
  Done (ptr_eqb tmp list_hdr).

Definition common_list_merge (h : heap) (l1 l2 : common_list)
    : outcome (heap * common_list * common_list) :=
  _ ← ASSERT_ERR (negb (common_list_is_empty l2));
  '(h, l1) ← (if common_list_is_empty l1
              then Done (h, with_last (with_first l1 (cl_first l2)) (cl_last l2))
              else h ← set_next h (cl_last l1) (cl_first l2);
                   Done (h, with_last l1 (cl_last l2)));
  let l2 := with_first l2 NULL in
  if CFG_DBG
  then Done (h, with_cnt l1 (u32 (cl_cnt l1 + cl_cnt l2)), with_cnt l2 0)
  else Done (h, l1, l2).

Definition common_list_insert_before (h : heap) (l : common_list)
    (elt_ref_hdr elt_to_add_hdr : ptr) : outcome (heap * common_list) :=
  _ ← ASSERT_ERR (negb (ptr_eqb elt_to_add_hdr NULL));
  if ptr_eqb elt_ref_hdr NULL then common_list_push_front h l elt_to_add_hdr else
  '(prev, curr) ← walk_to (turns h) h elt_ref_hdr NULL (cl_first l);
  if ptr_eqb prev NULL then common_list_push_front h l elt_to_add_hdr else
  h ← set_next h prev elt_to_add_hdr;
  h ← set_next h elt_to_add_hdr curr;
  Done (h, prof_inc l).

Definition common_list_insert_after (h : heap) (l : common_list)
    (elt_ref_hdr elt_to_add_hdr : ptr) : outcome (heap * common_list) :=
  _ ← ASSERT_ERR (negb (ptr_eqb elt_to_add_hdr NULL));
  if ptr_eqb elt_ref_hdr NULL then common_list_push_back h l elt_to_add_hdr else
  '(_, curr) ← walk_to (turns h) h elt_ref_hdr NULL (cl_first l);
  if ptr_eqb curr NULL then common_list_push_back h l elt_to_add_hdr else
  next ← get_next h curr;
  let l := if ptr_eqb next NULL then with_last l elt_to_add_hdr else l in
  h ← set_next h elt_to_add_hdr next;
  h ← set_next h curr elt_to_add_hdr;
  Done (h, prof_inc l).

Fixpoint size_loop (fuel : nat) (h : heap) (tmp : ptr) (count : Z) : outcome Z :=
  match fuel with
  | O => Spin
  | S fuel =>
      if ptr_eqb tmp NULL then Done count else
      tmp ← get_next h tmp;
      size_loop fuel h tmp (u16 (count + 1))
  end.

Definition common_list_size (h : heap) (l : common_list) : outcome Z :=
  size_loop (turns h) h (cl_first l) 0.

Fixpoint avail_loop (fuel : nat) (h : heap) (tmp : ptr) (count needed : Z) : outcome bool :=
  match fuel with
  | O => Spin
  | S fuel =>
      if ptr_eqb tmp NULL then Done false else
      tmp ← get_next h tmp;
      let count := u16 (count + 1) in
      if count =? needed then Done true else avail_loop fuel h tmp count needed
  end.

Definition common_list_check_size_available (h : heap) (l : common_list)
    (free_size_needed : Z) : outcome bool :=
  avail_loop (turns h) h (cl_first l) 0 free_size_needed.
End Code.

(* ------------------------------------------------------------------ *)
(** ** Abstraction: the list of addresses a structure represents *)

(** [xs] is the chain from [p] to [q]. *)
Fixpoint lseg (h : heap) (p : ptr) (xs : list positive) (q : ptr) : Prop :=
  match xs with
  | [] => p = q
  | x :: xs => p = Some x /\ exists n, h !! x = Some n /\ lseg h n xs q
  end.

Record list_rep (dbg : bool) (h : heap) (l : common_list) (xs : list positive) : Prop := {
  rep_seg : lseg h (cl_first l) xs NULL;
  rep_nodup : NoDup xs;
  rep_last : xs <> [] -> cl_last l = last xs;
  rep_cnt : dbg = true -> cl_cnt l = u32 (zlen xs)
}.

(** The operations on one list, and their meaning on the abstract list;
    [None] marks a call outside the operation's contract. *)
Inductive list_op :=
  | PushBack (a : positive)
  | PushFront (a : positive)
  | PopFront
  | Extract (a : positive)
  | InsertBefore (ref a : positive)
  | InsertAfter (ref a : positive).

(** [ys] with [a] inserted before, or after, the first [ref]. *)
Fixpoint ins_before (ref a : positive) (ys : list positive) : list positive :=
  match ys with
  | [] => []
  | y :: ys => if bool_decide (y = ref) then a :: y :: ys else y :: ins_before ref a ys
  end.

Fixpoint ins_after (ref a : positive) (ys : list positive) : list positive :=
  match ys with
  | [] => []
  | y :: ys => if bool_decide (y = ref) then y :: a :: ys else y :: ins_after ref a ys
  end.

Definition spec_op (xs : list positive) (op : list_op) : option (ptr * list positive) :=
  match op with
  | PushBack a => if bool_decide (a ∈ xs) then None else Some (NULL, xs ++ [a])
  | PushFront a => if bool_decide (a ∈ xs) then None else Some (NULL, a :: xs)
  | PopFront => Some (head xs, tail xs)
  | Extract a => Some (if bool_decide (a ∈ xs) then Some a else NULL,
                       filter (fun x => x <> a) xs)
  | InsertBefore ref a =>
      if bool_decide (a ∈ xs) || negb (bool_decide (ref ∈ xs)) then None
      else Some (NULL, ins_before ref a xs)
  | InsertAfter ref a =>
      if bool_decide (a ∈ xs) then None
      else Some (NULL, if bool_decide (ref ∈ xs) then ins_after ref a xs else xs ++ [a])
  end.

Definition code_op (dbg : bool) (h : heap) (l : common_list) (op : list_op)
    : outcome (ptr * heap * common_list) :=
  match op with
  | PushBack a => '(h, l) ← common_list_push_back dbg h l (Some a); Done (NULL, h, l)
  | PushFront a => '(h, l) ← common_list_push_front dbg h l (Some a); Done (NULL, h, l)
  | PopFront => '(r, l) ← common_list_pop_front dbg h l; Done (r, h, l)
  | Extract a =>
      '(found, h, l) ← common_list_extract dbg h l (Some a) 0;
      Done (if found : bool then Some a else NULL, h, l)
  | InsertBefore ref a =>
      '(h, l) ← common_list_insert_before dbg h l (Some ref) (Some a); Done (NULL, h, l)
  | InsertAfter ref a =>
      '(h, l) ← common_list_insert_after dbg h l (Some ref) (Some a); Done (NULL, h, l)
  end.

Fixpoint run_ops (dbg : bool) (h : heap) (l : common_list) (ops : list list_op)
    : outcome (list ptr * heap * common_list) :=
  match ops with
  | [] => Done ([], h, l)
  | op :: ops =>
      '(r, h, l) ← code_op dbg h l op;
      '(rs, h, l) ← run_ops dbg h l ops;
      Done (r :: rs, h, l)
  end.

Fixpoint spec_ops (xs : list positive) (ops : list list_op)
    : option (list ptr * list positive) :=
  match ops with
  | [] => Some ([], xs)
  | op :: ops =>
      '(r, xs) ← spec_op xs op;
      '(rs, xs) ← spec_ops xs ops;
      Some (r :: rs, xs)
  end.

(** The node an operation adds. *)
Definition added (op : list_op) : list positive :=
  match op with
  | PushBack a | PushFront a | InsertBefore _ a | InsertAfter _ a => [a]
  | _ => []
  end.

(* ------------------------------------------------------------------ *)
(** ** Lemmas on chains *)

(** Objects outside [foot] keep their link; no object disappears. *)
Definition heap_frame (foot : list positive) (h h' : heap) : Prop :=
  (forall b, b ∉ foot -> h' !! b = h !! b) /\
  (forall b, is_Some (h !! b) -> is_Some (h' !! b)).

Lemma heap_frame_refl foot h : heap_frame foot h h.
Proof. by split. Qed.

Lemma heap_frame_insert foot h a v :
  a ∈ foot -> is_Some (h !! a) -> heap_frame foot h (<[a := v]> h).
Proof.
  intros Ha Hs. split; intros b Hb.
  - rewrite lookup_insert_ne; [done|]. by intros ->.
  - destruct (decide (a = b)) as [->|]; [rewrite lookup_insert_eq; eauto|].
    by rewrite lookup_insert_ne.
Qed.

Lemma heap_frame_trans foot h1 h2 h3 :
  heap_frame foot h1 h2 -> heap_frame foot h2 h3 -> heap_frame foot h1 h3.
Proof. intros [A1 B1] [A2 B2]. split; intros b Hb; [rewrite A2, A1|]; auto. Qed.

Lemma ptr_eqb_refl p : ptr_eqb p p = true.
Proof. unfold ptr_eqb. by rewrite bool_decide_eq_true. Qed.

Lemma ptr_eqb_ne p q : p <> q -> ptr_eqb p q = false.
Proof. unfold ptr_eqb. by rewrite bool_decide_eq_false. Qed.

Lemma ptr_eqb_some a b : ptr_eqb (Some a) (Some b) = bool_decide (a = b).
Proof. unfold ptr_eqb. apply bool_decide_ext. naive_solver. Qed.

#[export] Hint Rewrite ptr_eqb_refl ptr_eqb_some : cmodel.

Lemma get_next_in h a n : h !! a = Some n -> get_next h (Some a) = Done n.
Proof. intros E. unfold get_next. cbn. by rewrite E. Qed.

Lemma set_next_in h a v : is_Some (h !! a) -> set_next h (Some a) v = Done (<[a := v]> h).
Proof. intros [n E]. unfold set_next. cbn. by rewrite E. Qed.

Lemma lseg_app h xs : forall p ys q,
  lseg h p (xs ++ ys) q <-> exists m, lseg h p xs m /\ lseg h m ys q.
Proof.
  induction xs as [|x xs IH]; intros p ys q; cbn.
  - split; [eauto|]. by intros (m & -> & ?).
  - split.
    + intros (-> & n & E & H). apply IH in H as (m & ? & ?). eauto 10.
    + intros (m & (-> & n & E & ?) & ?). split; [done|]. exists n. rewrite IH. eauto.
Qed.

Lemma lseg_frame h h' xs : forall p q,
  (forall b, b ∈ xs -> h' !! b = h !! b) -> lseg h p xs q -> lseg h' p xs q.
Proof.
  induction xs as [|x xs IH]; intros p q Hf; cbn; [done|].
  intros (-> & n & E & H). split; [done|]. exists n. split.
  - rewrite Hf; [done|left].
  - apply IH; [|done]. intros b Hb. apply Hf. by right.
Qed.

Lemma lseg_insert h a v xs p q :
  a ∉ xs -> lseg h p xs q -> lseg (<[a := v]> h) p xs q.
Proof.
  intros Ha. apply lseg_frame. intros b Hb. rewrite lookup_insert_ne; [done|].
  by intros ->.
Qed.

Lemma lseg_dom h xs : forall p q, lseg h p xs q -> forall x, x ∈ xs -> is_Some (h !! x).
Proof.
  induction xs as [|y xs IH]; intros p q; cbn; [by intros _ x ?%elem_of_nil|].
  intros (-> & n & E & H) x [->|Hx]%elem_of_cons; eauto.
Qed.

Lemma lseg_snoc h xs x p q :
  lseg h p (xs ++ [x]) q <-> lseg h p xs (Some x) /\ h !! x = Some q.
Proof.
  rewrite lseg_app. cbn. split.
  - intros (m & H & -> & n & E & ->). done.
  - intros [H E]. eauto 10.
Qed.

(** Redirecting the last link of a chain. *)
Lemma lseg_retarget h xs x p q q' :
  x ∉ xs -> lseg h p (xs ++ [x]) q -> lseg (<[x := q']> h) p (xs ++ [x]) q'.
Proof.
  rewrite !lseg_snoc. intros Hx [H _]. split; [by apply lseg_insert|].
  by rewrite lookup_insert_eq.
Qed.

Lemma lseg_length h xs p q : NoDup xs -> lseg h p xs q -> (length xs < turns h)%nat.
Proof.
  intros Hnd Hl. apply Nat.lt_succ_r. rewrite <- (size_dom (D := gset positive)).
  rewrite <- (size_list_to_set (C := gset positive)) by done.
  apply subseteq_size. intros x Hx%elem_of_list_to_set. apply elem_of_dom.
  by eapply lseg_dom.
Qed.

Lemma lseg_head h xs p : lseg h p xs NULL -> p = head xs.
Proof. destruct xs; cbn; [done|]. by intros [-> _]. Qed.

Lemma u32_add_idemp a b : u32 (u32 a + b) = u32 (a + b).
Proof. apply Zplus_mod_idemp_l. Qed.

(** The three ways an operation closes: unchanged count, one more, one less. *)
Lemma list_rep_inc dbg h l ys :
  lseg h (cl_first l) ys NULL -> NoDup ys -> (ys <> [] -> cl_last l = last ys) ->
  (dbg = true -> cl_cnt l = u32 (zlen ys - 1)) -> list_rep dbg h (prof_inc dbg l) ys.
Proof.
  intros Hs Hn Hl Hc. unfold prof_inc. destruct dbg; split; cbn; auto; [|done]. intros _.
  rewrite Hc, u32_add_idemp by done. f_equal. lia.
Qed.

Lemma list_rep_dec dbg h l ys :
  lseg h (cl_first l) ys NULL -> NoDup ys -> (ys <> [] -> cl_last l = last ys) ->
  (dbg = true -> cl_cnt l = u32 (zlen ys + 1)) -> list_rep dbg h (prof_dec dbg l) ys.
Proof.
  intros Hs Hn Hl Hc. unfold prof_dec. destruct dbg; split; cbn; auto; [|done]. intros _.
  rewrite Hc by done. unfold u32. rewrite Zminus_mod_idemp_l. f_equal. lia.
Qed.

Lemma ASSERT_ERR_true dbg b : b = true -> ASSERT_ERR dbg b = Done tt.
Proof. intros ->. by destruct dbg. Qed.

Lemma empty_iff h l xs : lseg h (cl_first l) xs NULL ->
  common_list_is_empty l = match xs with [] => true | _ => false end.
Proof.
  intros H. apply lseg_head in H. unfold common_list_is_empty. rewrite H.
  destruct xs; cbn; [apply ptr_eqb_refl|by apply ptr_eqb_ne].
Qed.

(** The outcome of an operation that leaves the list [ys]. *)
Definition op_post (dbg : bool) (foot : list positive) (h : heap) (ys : list positive)
    (r : outcome (heap * common_list)) : Prop :=
  exists h' l', r = Done (h', l') /\ list_rep dbg h' l' ys /\ heap_frame foot h h'.

Lemma push_back_spec dbg h l xs a :
  list_rep dbg h l xs -> a ∉ xs -> is_Some (h !! a) ->
  op_post dbg (a :: xs) h (xs ++ [a]) (common_list_push_back dbg h l (Some a)).
Proof.
  intros [Hseg Hnd Hlast Hcnt] Ha Hs. unfold common_list_push_back.
  rewrite ASSERT_ERR_true by (by rewrite ptr_eqb_ne). cbn.
  rewrite (empty_iff h l xs) by done.
  assert (Hnd' : NoDup (xs ++ [a])).
  { apply NoDup_app. split_and!; [done| |apply NoDup_singleton].
    intros x Hx ->%list_elem_of_singleton. done. }
  assert (Hc' : dbg = true -> cl_cnt l = u32 (zlen (xs ++ [a]) - 1)).
  { intros Hd. rewrite Hcnt by done. rewrite zlen_snoc. f_equal. lia. }
  destruct xs as [|x0 xs0] eqn:Exs.
  - cbn. rewrite set_next_in by done. cbn. eexists _, _. split; [done|]. split.
    + apply list_rep_inc; cbn; auto. split; [done|]. exists NULL.
      by rewrite lookup_insert_eq.
    + apply heap_frame_insert; [left|done].
  - rewrite <- Exs in *. assert (Hne : xs <> []) by (by rewrite Exs).
    clear Exs. destruct (exists_last Hne) as (ys & y & ->).
    rewrite Hlast, last_snoc by done.
    assert (Hy : is_Some (h !! y)).
    { eapply lseg_dom; [exact Hseg|]. apply elem_of_app. right. by left. }
    rewrite set_next_in by done. cbn.
    assert (Hay : y <> a) by (intros ->; apply Ha, elem_of_app; right; by left).
    rewrite set_next_in by (by rewrite lookup_insert_ne). cbn.
    eexists _, _. split; [done|]. split.
    + apply list_rep_inc; cbn; auto.
      * apply lseg_snoc. rewrite lookup_insert_eq. split; [|done].
        apply lseg_insert; [done|]. apply (lseg_retarget _ _ _ _ NULL); [|done].
        apply NoDup_app in Hnd as (_ & Hd & _). intros Hin. eapply Hd; [done|]. by left.
      * intros _. by rewrite last_snoc.
    + eapply heap_frame_trans; apply heap_frame_insert;
        rewrite ?elem_of_cons, ?elem_of_app, ?list_elem_of_singleton; auto.
      by rewrite lookup_insert_ne.
Qed.

Lemma push_front_spec dbg h l xs a :
  list_rep dbg h l xs -> a ∉ xs -> is_Some (h !! a) ->
  op_post dbg (a :: xs) h (a :: xs) (common_list_push_front dbg h l (Some a)).
Proof.
  intros [Hseg Hnd Hlast Hcnt] Ha Hs. unfold common_list_push_front.
  rewrite ASSERT_ERR_true by (by rewrite ptr_eqb_ne). cbn.
  rewrite (empty_iff h l xs) by done. rewrite set_next_in by done. cbn.
  eexists _, _. split; [done|]. split; [|by apply heap_frame_insert; [left|]].
  apply list_rep_inc; cbn.
  - split; [done|]. eexists. rewrite lookup_insert_eq. split; [done|].
    apply lseg_insert; [done|]. by destruct xs.
  - by constructor.
  - intros _. destruct xs as [|x xs]; [done|]. cbn. by rewrite Hlast.
  - intros Hd. replace (cl_cnt _) with (cl_cnt l) by (by destruct xs).
    rewrite Hcnt, zlen_cons by done. f_equal. lia.
Qed.

Lemma pop_front_spec dbg h l xs :
  list_rep dbg h l xs ->
  exists l', common_list_pop_front dbg h l = Done (head xs, l') /\
    list_rep dbg h l' (tail xs).
Proof.
  intros [Hseg Hnd Hlast Hcnt]. unfold common_list_pop_front.
  destruct xs as [|x xs]; cbn in *.
  - rewrite Hseg, ptr_eqb_refl. eexists. split; [done|]. split; auto.
  - destruct Hseg as (-> & n & E & Hseg). rewrite ptr_eqb_ne by done.
    rewrite (get_next_in _ _ _ E). cbn. eexists. split; [done|].
    inversion_clear Hnd. pose proof (lseg_head _ _ _ Hseg) as Hn.
    apply list_rep_dec; auto.
    + by destruct (ptr_eqb n NULL).
    + intros Hne. destruct xs as [|x2 xs]; [done|]. subst n.
      rewrite ptr_eqb_ne by done. cbn. by rewrite Hlast.
    + intros Hd. replace (cl_cnt _) with (cl_cnt l) by (by destruct (ptr_eqb n NULL)).
      rewrite Hcnt, zlen_cons by done. f_equal. lia.
Qed.

(* ------------------------------------------------------------------ *)
(** ** Searching *)

Lemma app_cons_snoc {A} (pre : list A) x ys : pre ++ x :: ys = (pre ++ [x]) ++ ys.
Proof. by rewrite <- app_assoc. Qed.

Lemma NoDup_middle (xs ys : list positive) c :
  NoDup (xs ++ c :: ys) -> (c ∉ xs) /\ (c ∉ ys) /\ NoDup (xs ++ ys).
Proof.
  intros (Hx & Hd & Hc%NoDup_cons)%NoDup_app. destruct Hc as [Hc Hy].
  split_and!; [|done|].
  - intros Hin. eapply Hd; [done|]. left.
  - apply NoDup_app. split_and!; [done| |done]. intros x ?? . eapply Hd; [done|]. by right.
Qed.

(** Walking from the node after [pre] stops at [c]. *)
Lemma walk_to_found h c ys1 ys2 : forall fuel pre curr,
  lseg h curr (ys1 ++ c :: ys2) NULL -> c ∉ ys1 -> (length ys1 < fuel)%nat ->
  walk_to fuel h (Some c) (last pre) curr = Done (last (pre ++ ys1), Some c).
Proof.
  induction ys1 as [|y ys1 IH]; intros [|fuel] pre curr Hs Hc Hf; cbn in Hs, Hf; try lia.
  - destruct Hs as [-> _]. cbn. by rewrite ptr_eqb_refl, app_nil_r.
  - destruct Hs as (-> & n & E & Hs). apply not_elem_of_cons in Hc as [Hcy Hc].
    cbn. rewrite (ptr_eqb_ne (Some y)), (ptr_eqb_ne (Some y)) by congruence. cbn.
    rewrite (get_next_in _ _ _ E). cbn. rewrite app_cons_snoc.
    rewrite <- (last_snoc y pre). apply IH; [done..|lia].
Qed.

Lemma walk_to_absent h c ys : forall fuel pre curr,
  lseg h curr ys NULL -> c ∉ ys -> (length ys < fuel)%nat ->
  walk_to fuel h (Some c) (last pre) curr = Done (last (pre ++ ys), NULL).
Proof.
  induction ys as [|y ys IH]; intros [|fuel] pre curr Hs Hc Hf; cbn in Hs, Hf; try lia.
  - subst curr. cbn. by rewrite ptr_eqb_refl, andb_false_r, app_nil_r.
  - destruct Hs as (-> & n & E & Hs). apply not_elem_of_cons in Hc as [Hcy Hc].
    cbn. rewrite (ptr_eqb_ne (Some y)), (ptr_eqb_ne (Some y)) by congruence. cbn.
    rewrite (get_next_in _ _ _ E). cbn. rewrite app_cons_snoc.
    rewrite <- (last_snoc y pre). apply IH; [done..|lia].
Qed.

(** The debug assertions of the extraction walk hold on a chain without
    repetition. *)
Lemma chain_asserts h pre y n ys (p : ptr) :
  NoDup (pre ++ y :: ys) -> p = head (pre ++ y :: ys) -> lseg h n ys NULL ->
  ptr_eqb p n = false /\ ptr_eqb (Some y) n = false.
Proof.
  intros Hnd -> Hs. apply lseg_head in Hs. subst n.
  apply NoDup_app in Hnd as (_ & Hd & (Hy & _)%NoDup_cons).
  split; apply ptr_eqb_ne; destruct ys as [|z ys]; try done.
  - by destruct pre.
  - destruct pre as [|x pre]; cbn; intros [= ->].
    + by apply Hy; left.
    + eapply (Hd z); [by left|]. by right; left.
  - intros [= ->]. apply Hy. by left.
Qed.

Lemma extract_search_found dbg h l c ys1 ys2 : forall fuel pre curr,
  cl_first l = head (pre ++ ys1 ++ c :: ys2) -> NoDup (pre ++ ys1 ++ c :: ys2) ->
  lseg h curr (ys1 ++ c :: ys2) NULL -> (length ys1 < fuel)%nat ->
  extract_search dbg fuel h l (Some c) (last pre) curr
    = Done (true, last (pre ++ ys1), Some c).
Proof.
  induction ys1 as [|y ys1 IH]; intros [|fuel] pre curr Hfst Hnd Hs Hf;
    cbn in Hs, Hf; try lia.
  - destruct Hs as [-> _]. cbn. by rewrite ptr_eqb_refl, app_nil_r.
  - destruct Hs as (-> & n & E & Hs). cbn.
    destruct (chain_asserts _ _ _ _ _ _ Hnd Hfst Hs) as [Ha1 Ha2].
    rewrite (ptr_eqb_ne (Some y) NULL) by done. rewrite (ptr_eqb_ne (Some y) (Some c)).
    + rewrite (get_next_in _ _ _ E). cbn.
      rewrite !ASSERT_ERR_true by (by rewrite ?Ha1, ?Ha2). cbn.
      rewrite app_cons_snoc, <- (last_snoc y pre).
      apply IH; rewrite <- ?app_assoc; [done..|lia].
    + intros [= ->]. apply NoDup_app in Hnd as (_ & _ & Hnd).
      apply (NoDup_middle (c :: ys1)) in Hnd as (Hn & _). apply Hn. left.
Qed.

Lemma extract_search_absent dbg h l c ys : forall fuel pre curr,
  cl_first l = head (pre ++ ys) -> NoDup (pre ++ ys) ->
  lseg h curr ys NULL -> c ∉ ys -> (length ys < fuel)%nat ->
  extract_search dbg fuel h l (Some c) (last pre) curr
    = Done (false, last (pre ++ ys), NULL).
Proof.
  induction ys as [|y ys IH]; intros [|fuel] pre curr Hfst Hnd Hs Hc Hf;
    cbn in Hs, Hf; try lia.
  - subst curr. cbn. by rewrite app_nil_r.
  - destruct Hs as (-> & n & E & Hs). apply not_elem_of_cons in Hc as [Hcy Hc]. cbn.
    destruct (chain_asserts _ _ _ _ _ _ Hnd Hfst Hs) as [Ha1 Ha2].
    rewrite (ptr_eqb_ne (Some y) NULL), (ptr_eqb_ne (Some y) (Some c)) by congruence.
    rewrite (get_next_in _ _ _ E). cbn.
    rewrite !ASSERT_ERR_true by (by rewrite ?Ha1, ?Ha2). cbn.
    rewrite app_cons_snoc, <- (last_snoc y pre).
    apply IH; rewrite <- ?app_assoc; [done..|lia].
Qed.

(** Jumping over [mid] counts its nodes down. *)
Lemma extract_jump_ok dbg h mid : forall c l rest k,
  lseg h (Some c) (c :: mid ++ rest) NULL -> (dbg = true -> cl_cnt l = u32 k) ->
  exists l', extract_jump dbg (length mid) h l (Some c) = Done (last (c :: mid), l') /\
    cl_first l' = cl_first l /\ cl_last l' = cl_last l /\
    (dbg = true -> cl_cnt l' = u32 (k - zlen mid)).
Proof.
  induction mid as [|m mid IH]; intros c l rest k (_ & n & E & Hs) Hk.
  - exists l. split_and!; [done..|]. intros Hd. rewrite Hk, zlen_nil by done. f_equal. lia.
  - pose proof Hs as (-> & _). cbn. rewrite (get_next_in _ _ _ E). cbn.
    rewrite ASSERT_ERR_true by (by rewrite ptr_eqb_ne). cbn.
    destruct (IH m (prof_dec1 dbg l) rest (k - 1) Hs) as (l' & El & Hf & Hl & Hc).
    { intros Hd. unfold prof_dec1. rewrite Hd. cbn. rewrite Hk by done.
      unfold u32. by rewrite Zminus_mod_idemp_l. }
    exists l'. rewrite El. split_and!; [done|by rewrite Hf; destruct dbg
      |by rewrite Hl; destruct dbg|].
    intros Hd. rewrite Hc by done. rewrite zlen_cons. f_equal. lia.
Qed.

(** Cutting the segment [zs] out of [xs1 ++ zs ++ xs2]: the link of the node
    before it (or the head pointer) now names the head of [xs2]. *)
Lemma cut_segment dbg h l n xs1 zs z xs2 :
  let xs := xs1 ++ (zs ++ [z]) ++ xs2 in
  lseg h (cl_first l) xs NULL -> NoDup xs -> h !! z = Some n -> cl_last l = last xs ->
  (dbg = true -> cl_cnt l = u32 (zlen (xs1 ++ xs2) + 1)) ->
  op_post dbg xs1 h (xs1 ++ xs2)
    ('(h, l) ← (if ptr_eqb (last xs1) NULL then Done (h, with_first l n)
                else h ← set_next h (last xs1) n; Done (h, l));
     let l := if ptr_eqb (Some z) (cl_last l) then with_last l (last xs1) else l in
     Done (h, prof_dec dbg l)).
Proof.
  intros xs Hs Hnd Ez Hlast Hcnt. subst xs.
  apply lseg_app in Hs as (m & Hs1 & Hs). apply lseg_app in Hs as (m2 & Hsz & Hs2).
  apply lseg_snoc in Hsz as [Hsz Ez2]. rewrite Ez in Ez2. injection Ez2 as <-.
  pose proof (lseg_head _ _ _ Hs2) as Hn.
  assert (Hnd2 : NoDup (xs1 ++ xs2)).
  { rewrite app_assoc in Hnd. apply NoDup_app in Hnd as (H1 & H2 & H3).
    apply NoDup_app in H1 as (H1 & _ & _). apply NoDup_app. split_and!; [done| |done].
    intros x Hx Hx2. eapply H2; [|done]. apply elem_of_app. by left. }
  assert (Hlz : xs2 <> [] -> ptr_eqb (Some z) (last (xs1 ++ (zs ++ [z]) ++ xs2)) = false).
  { intros Hne. apply ptr_eqb_ne. destruct (exists_last Hne) as (ws & w & ->).
    rewrite !app_assoc, last_snoc. intros [= <-].
    rewrite <- !app_assoc, app_assoc in Hnd. apply NoDup_middle in Hnd as (_ & Hz & _).
    apply Hz, elem_of_app. right. left. }
  destruct (decide (xs1 = [])) as [->|Hne1].
  - cbn. eexists _, _. split; [done|]. split; [|apply heap_frame_refl].
    cbn in *. apply list_rep_dec; [|done|..].
    + by case_match.
    + intros Hne. rewrite Hlast, Hlz by done. cbn. rewrite Hlast.
      destruct (exists_last Hne) as (ws & w & ->). by rewrite app_assoc, !last_snoc.
    + intros Hd. rewrite <- Hcnt by done. by case_match.
  - destruct (exists_last Hne1) as (ws & w & ->). rewrite !last_snoc.
    apply lseg_snoc in Hs1 as [Hs1 Ew].
    rewrite ptr_eqb_ne by done. rewrite set_next_in by eauto. cbn.
    eexists _, _. split; [done|]. split;
      [|apply heap_frame_insert; [apply elem_of_app; right; left|eauto]].
    assert (Hw : (w ∉ ws) /\ (w ∉ xs2)).
    { rewrite <- !app_assoc in Hnd2. cbn in Hnd2. by apply NoDup_middle in Hnd2 as (? & ? & _). }
    destruct Hw as [Hw1 Hw2]. apply list_rep_dec; [|done|..].
    + replace (cl_first _) with (cl_first l) by (by case_match).
      apply lseg_app. exists n. split; [|by apply lseg_insert].
      apply lseg_snoc. rewrite lookup_insert_eq. split; [by apply lseg_insert|done].
    + intros _. rewrite Hlast. destruct (decide (xs2 = [])) as [->|Hne].
      * rewrite app_nil_r, app_assoc, last_snoc, ptr_eqb_refl. cbn.
        by rewrite app_nil_r, last_snoc.
      * rewrite Hlz by done. rewrite Hlast. destruct (exists_last Hne) as (us & u & ->).
        by rewrite !app_assoc, !last_snoc.
    + intros Hd. rewrite <- Hcnt by done. by case_match.
Qed.

(** The searches as the operations start them, at the head of the list. *)
Lemma extract_search_start dbg h l c ys1 ys2 :
  lseg h (cl_first l) (ys1 ++ c :: ys2) NULL -> NoDup (ys1 ++ c :: ys2) ->
  extract_search dbg (turns h) h l (Some c) NULL (cl_first l)
    = Done (true, last ys1, Some c).
Proof.
  intros Hs Hnd. pose proof (lseg_length _ _ _ _ Hnd Hs) as Hlen.
  apply (extract_search_found dbg h l c ys1 ys2 (turns h) []); try done.
  - by apply lseg_head in Hs.
  - rewrite length_app in Hlen. lia.
Qed.

Lemma extract_search_start_absent dbg h l c ys :
  lseg h (cl_first l) ys NULL -> NoDup ys -> c ∉ ys ->
  extract_search dbg (turns h) h l (Some c) NULL (cl_first l) = Done (false, last ys, NULL).
Proof.
  intros Hs Hnd Hc. pose proof (lseg_length _ _ _ _ Hnd Hs) as Hlen.
  apply (extract_search_absent dbg h l c ys (turns h) []); try done. by apply lseg_head in Hs.
Qed.

Lemma walk_to_start h c p ys1 ys2 :
  lseg h p (ys1 ++ c :: ys2) NULL -> NoDup (ys1 ++ c :: ys2) ->
  walk_to (turns h) h (Some c) NULL p = Done (last ys1, Some c).
Proof.
  intros Hs Hnd. pose proof (lseg_length _ _ _ _ Hnd Hs) as Hlen.
  pose proof (NoDup_middle _ _ _ Hnd) as (Hc & _ & _).
  apply (walk_to_found h c ys1 ys2 (turns h) []); try done.
  rewrite length_app in Hlen. lia.
Qed.

Lemma walk_to_start_absent h c p ys :
  lseg h p ys NULL -> NoDup ys -> c ∉ ys ->
  walk_to (turns h) h (Some c) NULL p = Done (last ys, NULL).
Proof.
  intros Hs Hnd Hc. pose proof (lseg_length _ _ _ _ Hnd Hs) as Hlen.
  by apply (walk_to_absent h c ys (turns h) []).
Qed.

Lemma extract_found_spec dbg h l xs1 c mid xs2 :
  let xs := xs1 ++ c :: mid ++ xs2 in
  list_rep dbg h l xs ->
  exists h' l', common_list_extract dbg h l (Some c) (zlen mid) = Done (true, h', l') /\
    list_rep dbg h' l' (xs1 ++ xs2) /\ heap_frame xs1 h h'.
Proof.
  intros xs [Hs Hnd Hlast Hcnt]. unfold common_list_extract.
  rewrite (extract_search_start dbg h l c xs1 (mid ++ xs2)) by done. cbn. unfold zlen at 1. rewrite Nat2Z.id.
  pose proof Hs as Hs'. apply lseg_app in Hs' as (m & _ & Hc). pose proof Hc as (-> & _).
  destruct (extract_jump_ok dbg h mid c l xs2 (zlen xs) Hc Hcnt) as (l1 & -> & Hf & Hl & Hc1).
  destruct (exists_last (l := c :: mid)) as (zs & z & Ez); [done|].
  rewrite Ez, last_snoc. cbn.
  assert (Exs : xs = xs1 ++ (zs ++ [z]) ++ xs2) by (rewrite <- Ez; done).
  assert (Hz : exists n, h !! z = Some n).
  { eapply lseg_dom; [exact Hs|]. rewrite Exs, !elem_of_app. right. left. right. left. }
  destruct Hz as [n En]. rewrite (get_next_in _ _ _ En). cbn.
  assert (Hne : xs <> []) by (unfold xs; by destruct xs1).
  destruct (cut_segment dbg h l1 n xs1 zs z xs2) as (h' & l' & E & Hrep & Hfr);
    rewrite <- ?Exs; [by rewrite Hf|done|done|by rewrite Hl, Hlast|..].
  { intros Hd. rewrite Hc1 by done. unfold xs. rewrite !zlen_app, zlen_cons, zlen_app.
    f_equal. lia. }
  exists h', l'. split_and!; [|done..]. revert E.
  destruct (ptr_eqb (last xs1) NULL); cbn; [by intros [= -> ->]|].
  destruct (set_next h (last xs1) n); cbn; by try intros [= -> ->].
Qed.

Lemma extract_absent_spec dbg h l xs c nb :
  list_rep dbg h l xs -> c ∉ xs ->
  common_list_extract dbg h l (Some c) nb = Done (false, h, l).
Proof.
  intros [Hs Hnd Hlast Hcnt] Hc. unfold common_list_extract.
  by rewrite (extract_search_start_absent dbg h l c xs).
Qed.

(** Cutting out the element behind a known one, the first if there is none. *)
Lemma extract_after_spec dbg h l xs1 c xs2 :
  list_rep dbg h l (xs1 ++ c :: xs2) ->
  op_post dbg xs1 h (xs1 ++ xs2) (common_list_extract_after dbg h l (last xs1) (Some c)).
Proof.
  intros [Hs Hnd Hlast Hcnt]. unfold common_list_extract_after. rewrite (ptr_eqb_ne (Some c) NULL) by done. change (negb false) with true. rewrite (ASSERT_ERR_true dbg true) by done. cbn [mbind outcome_bind].
  pose proof Hs as Hs'. apply lseg_app in Hs' as (m & H1 & H2). destruct H2 as (-> & n & En & H2).
  destruct (cut_segment dbg h l n xs1 [] c xs2) as (h' & l' & E & Hrep & Hfr); try done.
  { apply Hlast. by destruct xs1. }
  { intros Hd. rewrite Hcnt by done. rewrite !zlen_app, zlen_cons. f_equal. lia. }
  exists h', l'. split_and!; [|done..]. rewrite <- E.
  destruct (decide (xs1 = [])) as [->|Hne]; cbn [app last] in *.
  - rewrite H1, !ptr_eqb_refl, (ASSERT_ERR_true dbg true) by done. cbn. by rewrite ?H1, (get_next_in _ _ _ En).
  - destruct (exists_last Hne) as (ws & w & ->). rewrite last_snoc in *. rewrite ptr_eqb_ne by done.
    apply lseg_snoc in H1 as [_ Ew]. rewrite (get_next_in _ _ _ Ew). cbn [mbind outcome_bind].
    rewrite ptr_eqb_refl, (ASSERT_ERR_true dbg true) by done. cbn [mbind outcome_bind]. rewrite (get_next_in _ _ _ En). cbn [mbind outcome_bind].
    by destruct (set_next h (Some w) n).
Qed.

(** Objects outside the list come and go. *)
Lemma list_rep_frame dbg h h' l xs :
  (forall b, b ∈ xs -> h' !! b = h !! b) -> list_rep dbg h l xs -> list_rep dbg h' l xs.
Proof. intros Hf [Hs Hnd Hlast Hcnt]. split; [by eapply lseg_frame|done..]. Qed.

Lemma ins_before_split c a xs1 xs2 :
  c ∉ xs1 -> ins_before c a (xs1 ++ c :: xs2) = xs1 ++ a :: c :: xs2.
Proof.
  induction xs1 as [|x xs1 IH]; cbn; intros Hc.
  - by rewrite bool_decide_eq_true_2.
  - apply not_elem_of_cons in Hc as [? ?]. rewrite bool_decide_eq_false_2 by done.
    by rewrite IH.
Qed.

Lemma ins_after_split c a xs1 xs2 :
  c ∉ xs1 -> ins_after c a (xs1 ++ c :: xs2) = xs1 ++ c :: a :: xs2.
Proof.
  induction xs1 as [|x xs1 IH]; cbn; intros Hc.
  - by rewrite bool_decide_eq_true_2.
  - apply not_elem_of_cons in Hc as [? ?]. rewrite bool_decide_eq_false_2 by done.
    by rewrite IH.
Qed.

(** Linking [a] between [ws ++ [w]] and [n], the rest [xs2] starting there. *)
Lemma link_between h w a n p ws xs2 :
  a ∉ ws ++ [w] ++ xs2 -> NoDup (ws ++ [w] ++ xs2) -> is_Some (h !! a) ->
  lseg h p (ws ++ [w]) n -> lseg h n xs2 NULL ->
  lseg (<[a := n]> (<[w := Some a]> h)) p (ws ++ w :: a :: xs2) NULL /\
  <[a := n]> (<[w := Some a]> h) = <[w := Some a]> (<[a := n]> h).
Proof.
  intros Ha Hnd Hs H1 H2. rewrite !not_elem_of_app, list_elem_of_singleton in Ha.
  destruct Ha as (Ha1 & Ha2 & Ha3). cbn in Hnd. apply NoDup_middle in Hnd as (Hw1 & Hw2 & _).
  split; [|by rewrite insert_insert_ne].
  apply lseg_snoc in H1 as [H1 _]. apply lseg_app. exists (Some w). split.
  - by do 2 (apply lseg_insert; [done|]).
  - split; [done|]. exists (Some a). rewrite lookup_insert_ne, lookup_insert_eq by congruence.
    split; [done|]. split; [done|]. exists n. rewrite lookup_insert_eq. split; [done|].
    by do 2 (apply lseg_insert; [done|]).
Qed.

Lemma NoDup_insert (xs ys : list positive) a :
  NoDup (xs ++ ys) -> a ∉ xs ++ ys -> NoDup (xs ++ a :: ys).
Proof.
  intros (H1 & H2 & H3)%NoDup_app Ha. rewrite elem_of_app in Ha.
  apply NoDup_app. split_and!; [done| |].
  - intros x Hx [->|Hy]%elem_of_cons; [tauto|]. by eapply H2.
  - constructor; tauto.
Qed.

Lemma insert_before_spec dbg h l xs1 c xs2 a :
  let xs := xs1 ++ c :: xs2 in
  list_rep dbg h l xs -> a ∉ xs -> is_Some (h !! a) ->
  op_post dbg (a :: xs) h (xs1 ++ a :: c :: xs2)
    (common_list_insert_before dbg h l (Some c) (Some a)).
Proof.
  intros xs Hrep Ha Hsa. pose proof Hrep as [Hs Hnd Hlast Hcnt].
  unfold common_list_insert_before.
  rewrite ASSERT_ERR_true by (by rewrite ptr_eqb_ne). cbn.
  rewrite (ptr_eqb_ne (Some c) NULL) by done.
  rewrite (walk_to_start h c (cl_first l) xs1 xs2) by done. cbn. destruct (decide (xs1 = [])) as [->|Hne].
  { cbn. by apply push_front_spec. }
  destruct (exists_last Hne) as (ws & w & ->). unfold xs in *.
  rewrite last_snoc, ptr_eqb_ne by done.
  apply lseg_app in Hs as (m & Hs1 & Hs2). pose proof Hs2 as (-> & _).
  assert (Hw : is_Some (h !! w)).
  { eapply lseg_dom; [exact Hs1|]. apply elem_of_app. right. left. }
  rewrite set_next_in by done. cbn. rewrite set_next_in.
  2: { destruct (decide (w = a)) as [->|]; [rewrite lookup_insert_eq; eauto|].
       by rewrite lookup_insert_ne. }
  cbn. eexists _, _. split; [done|]. rewrite <- (app_assoc ws) in Ha, Hnd. split.
  - apply list_rep_inc.
    + rewrite <- app_assoc. by apply (link_between h w a (Some c) (cl_first l) ws (c :: xs2)).
    + apply NoDup_insert; by rewrite <- app_assoc.
    + intros _. rewrite Hlast by (by destruct ws). by rewrite !last_app.
    + intros Hd. rewrite Hcnt by done. rewrite !zlen_app, !zlen_cons. f_equal. lia.
  - eapply heap_frame_trans; apply heap_frame_insert; rewrite ?elem_of_cons; auto.
    + right. apply elem_of_app. left. apply elem_of_app. right. left.
    + destruct (decide (w = a)) as [->|]; [rewrite lookup_insert_eq; eauto|].
      by rewrite lookup_insert_ne.
Qed.

Lemma insert_after_spec dbg h l xs1 c xs2 a :
  let xs := xs1 ++ c :: xs2 in
  list_rep dbg h l xs -> a ∉ xs -> is_Some (h !! a) ->
  op_post dbg (a :: xs) h (xs1 ++ c :: a :: xs2)
    (common_list_insert_after dbg h l (Some c) (Some a)).
Proof.
  intros xs Hrep Ha Hsa. pose proof Hrep as [Hs Hnd Hlast Hcnt].
  unfold common_list_insert_after.
  rewrite ASSERT_ERR_true by (by rewrite ptr_eqb_ne). cbn.
  rewrite (ptr_eqb_ne (Some c) NULL) by done.
  rewrite (walk_to_start h c (cl_first l) xs1 xs2) by done. cbn. rewrite ptr_eqb_ne by done. unfold xs in *.
  pose proof Hs as Hs'. rewrite app_cons_snoc in Hs'.
  apply lseg_app in Hs' as (n & Hs1 & Hs2). pose proof Hs1 as [_ Ec]%lseg_snoc.
  rewrite (get_next_in _ _ _ Ec). cbn. rewrite set_next_in by done. cbn.
  assert (Hca : c <> a) by (intros ->; apply Ha, elem_of_app; right; left).
  rewrite set_next_in by (rewrite lookup_insert_ne; eauto). cbn.
  eexists _, _. split; [done|].
  assert (Hlink := link_between h c a n (cl_first l) xs1 xs2 Ha Hnd Hsa Hs1 Hs2).
  destruct Hlink as [Hlink Eh]. rewrite Eh in Hlink. split.
  - apply list_rep_inc.
    + by replace (cl_first _) with (cl_first l) by (by case_match).
    + rewrite app_cons_snoc. apply NoDup_insert; by rewrite <- app_assoc.
    + intros _. apply lseg_head in Hs2. subst n. destruct xs2 as [|y xs2].
      * cbn. by rewrite app_cons_snoc, last_snoc.
      * rewrite ptr_eqb_ne by done. rewrite Hlast by (by destruct xs1).
        by rewrite !last_app.
    + intros Hd. replace (cl_cnt _) with (cl_cnt l) by (by case_match).
      rewrite Hcnt by done. rewrite !zlen_app, !zlen_cons. f_equal. lia.
  - eapply heap_frame_trans; apply heap_frame_insert; rewrite ?elem_of_cons; auto.
    + right. apply elem_of_app. right. left.
    + rewrite lookup_insert_ne; eauto.
Qed.

Lemma insert_after_absent_spec dbg h l xs c a :
  list_rep dbg h l xs -> c ∉ xs -> a ∉ xs -> is_Some (h !! a) ->
  op_post dbg (a :: xs) h (xs ++ [a])
    (common_list_insert_after dbg h l (Some c) (Some a)).
Proof.
  intros Hrep Hc Ha Hsa. pose proof Hrep as [Hs Hnd _ _]. unfold common_list_insert_after.
  rewrite ASSERT_ERR_true by (by rewrite ptr_eqb_ne). cbn.
  rewrite (ptr_eqb_ne (Some c) NULL) by done.
  rewrite (walk_to_start_absent h c (cl_first l) xs) by done. cbn. by apply push_back_spec.
Qed.

(* ------------------------------------------------------------------ *)
(** ** Each operation simulates its meaning on the abstract list *)

Lemma filter_ne_absent (xs : list positive) a :
  a ∉ xs -> filter (fun x => x <> a) xs = xs.
Proof.
  induction xs as [|x xs IH]; [done|]. intros [? ?]%not_elem_of_cons.
  rewrite filter_cons_True by congruence. by rewrite IH.
Qed.

Lemma filter_ne_middle (xs1 xs2 : list positive) a :
  a ∉ xs1 -> a ∉ xs2 -> filter (fun x => x <> a) (xs1 ++ a :: xs2) = xs1 ++ xs2.
Proof.
  intros H1 H2. rewrite filter_app, filter_cons_False by congruence.
  by rewrite !filter_ne_absent.
Qed.

Lemma op_post_run dbg foot h ys r :
  op_post dbg foot h ys r ->
  exists h' l', ('(h, l) ← r; Done (NULL, h, l)) = Done (NULL, h', l') /\
    list_rep dbg h' l' ys /\ (forall b, is_Some (h !! b) -> is_Some (h' !! b)).
Proof. intros (h' & l' & -> & Hrep & _ & Hd). by exists h', l'. Qed.

Lemma code_op_spec dbg h l xs op r ys :
  list_rep dbg h l xs -> (forall a, a ∈ added op -> is_Some (h !! a)) ->
  spec_op xs op = Some (r, ys) ->
  exists h' l', code_op dbg h l op = Done (r, h', l') /\ list_rep dbg h' l' ys /\
    (forall b, is_Some (h !! b) -> is_Some (h' !! b)).
Proof.
  intros Hrep Hadd Hspec.
  destruct op as [a|a| |a|ref a|ref a]; cbn in Hadd, Hspec;
    try (assert (Hsa : is_Some (h !! a)) by (apply Hadd; left)).
  - case_bool_decide; [done|]. injection Hspec as <- <-.
    eapply op_post_run, push_back_spec; done.
  - case_bool_decide; [done|]. injection Hspec as <- <-.
    eapply op_post_run, push_front_spec; done.
  - injection Hspec as <- <-. destruct (pop_front_spec dbg h l xs Hrep) as (l' & E & Hrep').
    exists h, l'. cbn. by rewrite E.
  - injection Hspec as <- <-. cbn. destruct (decide (a ∈ xs)) as [Hin|Hin].
    + rewrite bool_decide_eq_true_2 by done.
      apply list_elem_of_split in Hin as (xs1 & xs2 & ->).
      pose proof (NoDup_middle _ _ _ (rep_nodup _ _ _ _ Hrep)) as (H1 & H2 & _).
      rewrite filter_ne_middle by done.
      destruct (extract_found_spec dbg h l xs1 a [] xs2 Hrep) as (h' & l' & E & Hrep' & _ & Hd).
      rewrite zlen_nil in E. exists h', l'. by rewrite E.
    + rewrite bool_decide_eq_false_2, filter_ne_absent by done.
      rewrite (extract_absent_spec dbg h l xs) by done. by exists h, l.
  - case_bool_decide as Ha; [done|]. case_bool_decide as Hr; [|done]. cbn in Hspec.
    injection Hspec as <- <-. apply list_elem_of_split in Hr as (xs1 & xs2 & ->).
    pose proof (NoDup_middle _ _ _ (rep_nodup _ _ _ _ Hrep)) as (H1 & _ & _).
    rewrite ins_before_split by done. eapply op_post_run, insert_before_spec; done.
  - case_bool_decide as Ha; [done|]. injection Hspec as <- <-. case_bool_decide as Hr.
    + apply list_elem_of_split in Hr as (xs1 & xs2 & ->).
      pose proof (NoDup_middle _ _ _ (rep_nodup _ _ _ _ Hrep)) as (H1 & _ & _).
      rewrite ins_after_split by done. eapply op_post_run, insert_after_spec; done.
    + eapply op_post_run, insert_after_absent_spec; done.
Qed.

Lemma walk_to_find h p xs c :
  lseg h p xs NULL -> NoDup xs ->
  exists prev tmp, walk_to (turns h) h (Some c) NULL p = Done (prev, tmp) /\
    ptr_eqb tmp (Some c) = bool_decide (c ∈ xs).
Proof.
  intros Hs Hnd. destruct (decide (c ∈ xs)) as [Hin|Hin].
  - pose proof Hin as (xs1 & xs2 & ->)%list_elem_of_split.
    rewrite (walk_to_start h c p xs1 xs2) by done. eexists _, _. split; [done|].
    by rewrite ptr_eqb_refl, bool_decide_eq_true_2.
  - rewrite (walk_to_start_absent h c p xs) by done. eexists _, _. split; [done|].
    by rewrite ptr_eqb_ne, bool_decide_eq_false_2.
Qed.

Lemma size_loop_spec h xs : forall fuel p k,
  lseg h p xs NULL -> (length xs < fuel)%nat -> k = u16 k ->
  size_loop fuel h p k = Done (u16 (k + zlen xs)).
Proof.
  induction xs as [|x xs IH]; intros [|fuel] p k Hs Hf Hk; cbn in Hs, Hf; try lia.
  - subst p. cbn. rewrite ptr_eqb_refl, zlen_nil, Z.add_0_r. by rewrite <- Hk.
  - destruct Hs as (-> & n & E & Hs). cbn. rewrite ptr_eqb_ne by done.
    rewrite (get_next_in _ _ _ E). cbn. rewrite (IH fuel n); [|done|lia|].
    + unfold u16. rewrite Zplus_mod_idemp_l, zlen_cons. do 2 f_equal. lia.
    + unfold u16. by rewrite Zmod_mod.
Qed.

(** From a count [k] below [needed] the walk reaches [needed] before the
    16-bit counter can wrap. *)
Lemma avail_loop_spec h needed xs : forall fuel p k,
  lseg h p xs NULL -> (length xs < fuel)%nat -> 0 <= k < needed -> needed < 2 ^ 16 ->
  avail_loop fuel h p k needed = Done (needed <=? k + zlen xs).
Proof.
  induction xs as [|x xs IH]; intros [|fuel] p k Hs Hf Hk Hn; cbn in Hs, Hf; try lia.
  - subst p. cbn. rewrite ptr_eqb_refl, zlen_nil, (proj2 (Z.leb_gt _ _)) by lia. done.
  - destruct Hs as (-> & n & E & Hs). cbn. rewrite ptr_eqb_ne by done.
    rewrite (get_next_in _ _ _ E). cbn. rewrite u16_small by lia. rewrite zlen_cons.
    pose proof (zlen_nonneg xs). destruct (k + 1 =? needed) eqn:Ek; zbool.
    + rewrite (proj2 (Z.leb_le _ _)) by lia. done.
    + rewrite (IH fuel n) by (done || lia). do 2 f_equal. lia.
Qed.

Lemma avail_loop_zero h xs : forall fuel p k,
  lseg h p xs NULL -> (length xs < fuel)%nat -> 0 <= k -> k + zlen xs < 2 ^ 16 ->
  avail_loop fuel h p k 0 = Done false.
Proof.
  induction xs as [|x xs IH]; intros [|fuel] p k Hs Hf Hk Hn; cbn in Hs, Hf; try lia.
  - subst p. cbn. by rewrite ptr_eqb_refl.
  - destruct Hs as (-> & n & E & Hs). cbn. rewrite ptr_eqb_ne by done.
    rewrite (get_next_in _ _ _ E). cbn. rewrite zlen_cons in Hn.
    pose proof (zlen_nonneg xs). rewrite u16_small by lia.
    rewrite (proj2 (Z.eqb_neq _ _)) by lia. apply IH; [done|lia..].
Qed.

Lemma init_rep dbg h l : list_rep dbg h (common_list_init dbg l) [].
Proof. destruct dbg; split; cbn; try done; apply NoDup_nil_2. Qed.

(** The elements of a pool. *)
Fixpoint pool_elems (n : nat) (pool elmt_size : positive) : list positive :=
  match n with
  | O => []
  | S n => pool :: pool_elems n (pool + elmt_size) elmt_size
  end.

Lemma pool_elems_ge n : forall pool sz x, x ∈ pool_elems n pool sz -> (pool <= x)%positive.
Proof.
  induction n as [|n IH]; intros pool sz x; cbn; [by intros ?%elem_of_nil|].
  intros [-> | Hx]%elem_of_cons; [lia|]. apply IH in Hx. lia.
Qed.

Lemma pool_loop_spec dbg elmt_size default_value ring n : forall i elmt_cnt h l xs pool,
  list_rep dbg h l xs -> (forall x, x ∈ xs -> (x < pool)%positive) ->
  (forall x, x ∈ pool_elems n pool elmt_size -> is_Some (h !! x)) ->
  exists h' l', pool_loop dbg n i elmt_cnt h l pool elmt_size default_value ring
      = Done (h', l') /\
    list_rep dbg h' l' (xs ++ pool_elems n pool elmt_size).
Proof.
  induction n as [|n IH]; intros i elmt_cnt h l xs pool Hrep Hlt Hin.
  { exists h, l. cbn. by rewrite app_nil_r. }
  assert (Hp : is_Some (h !! pool)) by (apply Hin; left).
  assert (Hnp : pool ∉ xs) by (intros Hx; apply Hlt in Hx; lia).
  set (h0 := match default_value with Some v => <[pool := v]> h | None => h end).
  assert (E0 : match default_value with Some v => set_next h (Some pool) v | None => Done h end
      = Done h0) by (destruct default_value; [by rewrite set_next_in|done]).
  assert (Hrep0 : list_rep dbg h0 l xs).
  { destruct Hrep as [Hs Hnd Hl Hc]. split; try done. unfold h0.
    destruct default_value; [by apply lseg_insert|done]. }
  assert (Hd0 : forall x, is_Some (h !! x) -> is_Some (h0 !! x)).
  { intros x Hx. unfold h0. destruct default_value; [|done].
    destruct (decide (pool = x)) as [->|]; [rewrite lookup_insert_eq; eauto|].
    by rewrite lookup_insert_ne. }
  destruct (push_back_spec dbg h0 l xs pool Hrep0 Hnp (Hd0 _ Hp))
    as (h1 & l1 & E1 & Hrep1 & _ & Hd1).
  destruct (IH (i + 1) elmt_cnt h1 l1 (xs ++ [pool]) (pool + elmt_size)%positive)
    as (h' & l' & E & Hrep'); [done| |..].
  { intros x [Hx| ->%list_elem_of_singleton]%elem_of_app; [apply Hlt in Hx|]; lia. }
  { intros x Hx. apply Hd1, Hd0, Hin. by right. }
  exists h', l'. rewrite <- app_assoc in Hrep'. split; [|done].
  cbn [pool_loop]. rewrite E0. cbn [mbind outcome_bind].
  unfold common_list_push_back in *. destruct ((i =? elmt_cnt - 1) && ring);
    rewrite E1; exact E.
Qed.

Lemma insert_before_absent_run dbg h l xs w ref a :
  list_rep dbg h l (xs ++ [w]) -> ref ∉ xs ++ [w] -> a ∉ xs ++ [w] -> is_Some (h !! a) ->
  common_list_insert_before dbg h l (Some ref) (Some a)
    = Done (<[a := NULL]> (<[w := Some a]> h), prof_inc dbg l).
Proof.
  intros [Hs Hnd Hlast Hcnt] Hr Ha Hsa. unfold common_list_insert_before.
  rewrite ASSERT_ERR_true by (by rewrite ptr_eqb_ne). cbn.
  rewrite (ptr_eqb_ne (Some ref) NULL) by done.
  rewrite (walk_to_start_absent h ref (cl_first l) (xs ++ [w])) by done. cbn.
  rewrite last_snoc, ptr_eqb_ne by done. pose proof Hs as [_ Ew]%lseg_snoc.
  rewrite set_next_in by eauto. cbn. rewrite set_next_in; [done|].
  rewrite lookup_insert_ne; [done|]. intros ->. apply Ha, elem_of_app. right. left.
Qed.

(* ------------------------------------------------------------------ *)
(** ** Properties *)

Section Properties.
Context (dbg : bool).

(** C12: the list operations refine their meaning on finite sequences: any
    run of pushes, pops, extractions and insertions, on any heap in which
    the list structure represents [xs] and the added nodes are objects,
    returns the results of the abstract operations and ends representing
    the abstract list, whatever the debug build switch. *)
Theorem common_list_refines (ops : list list_op) : forall h l xs rs ys,
  list_rep dbg h l xs ->
  (forall a, a ∈ ops ≫= added -> is_Some (h !! a)) ->
  spec_ops xs ops = Some (rs, ys) ->
  exists h' l', run_ops dbg h l ops = Done (rs, h', l') /\ list_rep dbg h' l' ys.
Proof.
  induction ops as [|op ops IH]; intros h l xs rs ys Hrep Hadd Hspec; cbn in *.
  { injection Hspec as <- <-. by exists h, l. }
  destruct (spec_op xs op) as [[r xs1]|] eqn:E1; [|done]. cbn in Hspec.
  destruct (spec_ops xs1 ops) as [[rs1 ys1]|] eqn:E2; [|done]. injection Hspec as <- <-.
  destruct (code_op_spec dbg h l xs op r xs1 Hrep) as (h1 & l1 & Ec & Hrep1 & Hd1); [|done|].
  { intros a Ha. apply Hadd, elem_of_app. by left. }
  destruct (IH h1 l1 xs1 rs1 ys1 Hrep1) as (h' & l' & Er & Hrep'); [|done|].
  { intros a Ha. apply Hd1, Hadd, elem_of_app. by right. }
  exists h', l'. by rewrite Ec; cbn; rewrite Er.
Qed.

(** [common_list_extract] with [nb_following] removes exactly the
    element and the nodes that follow it, keeps the order of the others and
    the tail pointer, and reports an absent element leaving all as it was. *)
Theorem common_list_extract_run (h : heap) (l : common_list)
    (xs1 : list positive) (c : positive) (mid xs2 : list positive) :
  list_rep dbg h l (xs1 ++ c :: mid ++ xs2) ->
  (exists h' l', common_list_extract dbg h l (Some c) (zlen mid) = Done (true, h', l') /\
    list_rep dbg h' l' (xs1 ++ xs2) /\
    (forall b, b ∉ xs1 -> h' !! b = h !! b)) /\
  (forall b nb, b ∉ xs1 ++ c :: mid ++ xs2 ->
    common_list_extract dbg h l (Some b) nb = Done (false, h, l)).
Proof.
  intros Hrep. split.
  - destruct (extract_found_spec dbg h l xs1 c mid xs2 Hrep) as (h' & l' & E & ? & Hf & _).
    by exists h', l'.
  - intros b nb Hb. by apply (extract_absent_spec dbg h l (xs1 ++ c :: mid ++ xs2)).
Qed.

(** the queries: [common_list_find] decides membership,
    [common_list_size] is the length modulo 2^16, and
    [common_list_check_size_available] decides "at least [n] elements" for
    every [n] from 1 to 255, although it answers [false] for [n = 0]. *)
Theorem common_list_queries (h : heap) (l : common_list) (xs : list positive) :
  list_rep dbg h l xs ->
  (forall c, common_list_find h l (Some c) = Done (bool_decide (c ∈ xs))) /\
  common_list_size h l = Done (u16 (zlen xs)) /\
  (forall n, 0 < n < 256 ->
    common_list_check_size_available h l n = Done (n <=? zlen xs)) /\
  (zlen xs < 2 ^ 16 -> common_list_check_size_available h l 0 = Done false).
Proof.
  intros [Hs Hnd _ _]. pose proof (lseg_length _ _ _ _ Hnd Hs) as Hlen. split_and!.
  - intros c. unfold common_list_find.
    destruct (walk_to_find h (cl_first l) xs c Hs Hnd) as (prev & tmp & -> & E).
    cbn. by rewrite E.
  - by apply (size_loop_spec h xs).
  - intros n Hn. rewrite <- (Z.add_0_l (zlen xs)).
    apply avail_loop_spec; auto; lia.
  - intros Hx. by apply (avail_loop_zero h xs).
Qed.

(** [common_list_merge] appends the second list to the first and
    leaves the second empty. *)
Theorem common_list_merge_appends (h : heap) (l1 l2 : common_list)
    (xs ys : list positive) :
  list_rep dbg h l1 xs -> list_rep dbg h l2 ys -> ys <> [] -> NoDup (xs ++ ys) ->
  exists h' l1' l2', common_list_merge dbg h l1 l2 = Done (h', l1', l2') /\
    list_rep dbg h' l1' (xs ++ ys) /\ list_rep dbg h' l2' [].
Proof.
  intros [Hs1 Hn1 Hl1 Hc1] [Hs2 Hn2 Hl2 Hc2] Hne Hnd. unfold common_list_merge.
  rewrite (empty_iff h l1 xs), (empty_iff h l2 ys) by done.
  rewrite ASSERT_ERR_true by (by destruct ys). cbn.
  assert (Hcnt : dbg = true -> u32 (cl_cnt l1 + cl_cnt l2) = u32 (zlen (xs ++ ys))).
  { intros Hd. rewrite Hc1, Hc2, zlen_app by done. symmetry. apply Zplus_mod. }
  destruct (decide (xs = [])) as [->|Hx].
  - cbn. destruct dbg; eexists _, _, _; (split; [done|]); split; split; cbn; auto;
      try done; by apply NoDup_nil_2.
  - destruct (exists_last Hx) as (ws & w & ->).
    pose proof Hs1 as [Hw Ew]%lseg_snoc. rewrite Hl1, last_snoc by done.
    rewrite (set_next_in h w) by eauto.
    replace (match ws ++ [w] with [] => true | _ => false end) with false by (by destruct ws).
    cbn. rewrite <- app_assoc in Hnd. cbn in Hnd.
    pose proof (NoDup_middle _ _ _ Hnd) as (Hw1 & Hw2 & _).
    assert (Hseg : lseg (<[w := cl_first l2]> h) (cl_first l1) ((ws ++ [w]) ++ ys) NULL).
    { apply lseg_app. exists (cl_first l2). split; [|by apply lseg_insert].
      by apply (lseg_retarget _ _ _ _ NULL). }
    rewrite (app_cons_snoc ws) in Hnd.
    destruct dbg; eexists _, _, _; (split; [done|]); split; split; cbn; auto; try done;
      try apply NoDup_nil_2; intros _; rewrite Hl2 by done;
      destruct (exists_last Hne) as (us & u & ->); by rewrite app_assoc, !last_snoc.
Qed.

(** the ring or linked pool initialisation links every element of the
    pool, in address order, from any heap in which they are objects. *)
Theorem common_list_pool_links_all (h : heap) (l : common_list) (pool elmt_size : positive)
    (elmt_cnt : Z) (default_value : option ptr) (ring : bool) :
  (forall x, x ∈ pool_elems (Z.to_nat elmt_cnt) pool elmt_size -> is_Some (h !! x)) ->
  exists h' l', common_list_pool_init dbg h l pool elmt_size elmt_cnt default_value ring
      = Done (h', l') /\
    list_rep dbg h' l' (pool_elems (Z.to_nat elmt_cnt) pool elmt_size).
Proof.
  intros Hin. apply (pool_loop_spec dbg elmt_size default_value ring _ 0 elmt_cnt h
    (common_list_init dbg l) [] pool); auto using init_rep.
  by intros x ?%elem_of_nil.
Qed.

(** [common_list_insert_before] with a reference that is not in a
    nonempty list hangs the new element behind the last one without moving
    the tail pointer: the chain holds it, but the next
    [common_list_push_back] overwrites that link and the element is lost. *)
Theorem common_list_insert_before_absent_loses (h : heap) (l : common_list)
    (xs : list positive) (w ref a b : positive) :
  list_rep dbg h l (xs ++ [w]) ->
  ref ∉ xs ++ [w] -> a ∉ xs ++ [w] -> b ∉ xs ++ [w] ++ [a] ->
  is_Some (h !! a) -> is_Some (h !! b) ->
  exists h1 l1 h2 l2,
    common_list_insert_before dbg h l (Some ref) (Some a) = Done (h1, l1) /\
    lseg h1 (cl_first l1) (xs ++ [w; a]) NULL /\ cl_last l1 = Some w /\
    common_list_push_back dbg h1 l1 (Some b) = Done (h2, l2) /\
    lseg h2 (cl_first l2) (xs ++ [w; b]) NULL.
Proof.
  intros Hrep Hr Ha Hb Hsa Hsb. pose proof Hrep as [Hs Hnd Hlast Hcnt].
  rewrite (insert_before_absent_run dbg h l xs w ref a) by done.
  pose proof (NoDup_middle _ _ _ Hnd) as (Hw1 & _ & _).
  rewrite !not_elem_of_app, !list_elem_of_singleton in Hb. destruct Hb as (Hb1 & Hb2 & Hb3).
  pose proof Ha as Ha'. rewrite not_elem_of_app, list_elem_of_singleton in Ha'.
  destruct Ha' as (Ha1 & Ha2). pose proof Hs as [Hsw Ew]%lseg_snoc.
  assert (Hcl : cl_last (prof_inc dbg l) = Some w)
    by (destruct dbg; cbn; rewrite Hlast, last_snoc; by destruct xs).
  assert (Hcf : cl_first (prof_inc dbg l) = cl_first l) by (by destruct dbg).
  assert (Hemp : common_list_is_empty (prof_inc dbg l) = false).
  { unfold common_list_is_empty. rewrite Hcf. apply lseg_head in Hs. rewrite Hs.
    by destruct xs. }
  eexists _, _. set (h1 := <[a := NULL]> (<[w := Some a]> h)).
  unfold common_list_push_back. rewrite Hemp, Hcl.
  rewrite ASSERT_ERR_true by (by rewrite ptr_eqb_ne). cbn [mbind outcome_bind].
  rewrite (set_next_in h1 w) by (unfold h1; rewrite lookup_insert_ne, lookup_insert_eq; eauto).
  cbn [mbind outcome_bind]. rewrite set_next_in.
  2: { unfold h1. rewrite !lookup_insert_ne by congruence. done. }
  eexists _, _. split; [done|]. split_and!; [|done|done|].
  - rewrite Hcf. apply lseg_app. exists (Some w). split.
    + by do 2 (apply lseg_insert; [done|]).
    + split; [done|]. exists (Some a). unfold h1.
      rewrite lookup_insert_ne, lookup_insert_eq by done. split; [done|]. split; [done|].
      exists NULL. by rewrite lookup_insert_eq.
  - replace (cl_first _) with (cl_first l) by (by destruct dbg).
    apply lseg_app. exists (Some w). split.
    + by do 4 (apply lseg_insert; [done|]).
    + split; [done|]. exists (Some b).
      rewrite lookup_insert_ne, lookup_insert_eq by congruence. split; [done|].
      split; [done|]. exists NULL. by rewrite lookup_insert_eq.
Qed.
End Properties.

(* ------------------------------------------------------------------ *)
(** ** The properties on a concrete heap *)

(** Seven objects; the list holds 3, 1, 4. *)
Definition heap_example : heap :=
  list_to_map [(3, Some 1); (1, Some 4); (4, NULL); (5, NULL); (9, NULL); (2, NULL); (6, NULL)]%positive.
Definition list_example : common_list := mk_cl (Some 3%positive) (Some 4%positive) 3 3 0.

Ltac closed_dom :=
  let x := fresh "x" in intros x;
  rewrite ?elem_of_cons, ?elem_of_nil; intros; destruct_or?; subst; eexists; vm_compute; reflexivity.

Lemma list_example_rep : list_rep true heap_example list_example [3; 1; 4]%positive.
Proof.
  split.
  - repeat (split; [done|eexists; split; [vm_compute; reflexivity|]]). done.
  - repeat (constructor; [rewrite ?elem_of_cons, elem_of_nil; intuition discriminate|]).
    constructor.
  - done.
  - done.
Defined.

Lemma common_list_refines_witness :
  exists h' l',
    run_ops true heap_example list_example
      [PushBack 5; PopFront; Extract 4; InsertBefore 5 9; InsertAfter 5 2; PushFront 6]%positive
    = Done ([NULL; Some 3; Some 4; NULL; NULL; NULL]%positive, h', l') /\
    list_rep true h' l' [6; 1; 9; 5; 2]%positive.
Proof.
  apply (common_list_refines true _ heap_example list_example [3; 1; 4]%positive);
    [exact list_example_rep| |vm_compute; reflexivity].
  cbn. closed_dom.
Defined.

Lemma common_list_extract_run_witness :
  (exists h' l', common_list_extract true heap_example list_example (Some 3%positive) 1
      = Done (true, h', l') /\ list_rep true h' l' [4]%positive /\
      (forall b, b ∉ [] -> h' !! b = heap_example !! b)) /\
  (forall b nb, b ∉ [3; 1; 4]%positive ->
    common_list_extract true heap_example list_example (Some b) nb
      = Done (false, heap_example, list_example)).
Proof.
  apply (common_list_extract_run true heap_example list_example [] 3 [1] [4])%positive.
  exact list_example_rep.
Defined.

Lemma common_list_queries_witness :
  common_list_find heap_example list_example (Some 1%positive) = Done true /\
  common_list_size heap_example list_example = Done 3 /\
  common_list_check_size_available heap_example list_example 3 = Done true /\
  common_list_check_size_available heap_example list_example 0 = Done false.
Proof.
  destruct (common_list_queries true heap_example list_example _ list_example_rep)
    as (H1 & H2 & H3 & H4).
  split_and!; [exact (H1 1%positive)|exact H2|apply (H3 3); lia|apply H4; decide_closed].
Defined.

Lemma common_list_merge_appends_witness :
  exists h' l1' l2',
    common_list_merge false (<[5%positive := Some 2%positive]> heap_example) list_example
      (mk_cl (Some 5%positive) (Some 2%positive) 0 0 0) = Done (h', l1', l2') /\
    list_rep false h' l1' [3; 1; 4; 5; 2]%positive /\ list_rep false h' l2' [].
Proof.
  apply (common_list_merge_appends false _ _ _ [3; 1; 4] [5; 2])%positive.
  - destruct list_example_rep as [H1 H2 H3 _]. split; [|exact H2|exact H3|done].
    apply lseg_insert; [|exact H1]. rewrite ?elem_of_cons, elem_of_nil. intuition discriminate.
  - split; [| |done|done].
    + repeat (split; [done|eexists; split; [vm_compute; reflexivity|]]). done.
    + repeat (constructor; [rewrite ?elem_of_cons, elem_of_nil; intuition discriminate|]).
      constructor.
  - done.
  - repeat (constructor; [rewrite ?elem_of_cons, elem_of_nil; intuition discriminate|]).
    constructor.
Defined.

Lemma common_list_pool_links_all_witness :
  exists h' l',
    common_list_pool_init true heap_example list_example 1 2 3 (Some NULL) true
      = Done (h', l') /\ list_rep true h' l' [1; 3; 5]%positive.
Proof.
  apply (common_list_pool_links_all true heap_example list_example 1 2 3 (Some NULL) true).
  change (Z.to_nat 3) with 3%nat. cbn. closed_dom.
Defined.

Lemma common_list_insert_before_absent_loses_witness :
  exists h1 l1 h2 l2,
    common_list_insert_before true heap_example list_example
      (Some 9%positive) (Some 5%positive) = Done (h1, l1) /\
    lseg h1 (cl_first l1) [3; 1; 4; 5]%positive NULL /\ cl_last l1 = Some 4%positive /\
    common_list_push_back true h1 l1 (Some 2%positive) = Done (h2, l2) /\
    lseg h2 (cl_first l2) [3; 1; 4; 2]%positive NULL.
Proof.
  apply (common_list_insert_before_absent_loses true heap_example list_example
    [3; 1] 4 9 5 2)%positive; [exact list_example_rep|..];
    try (rewrite ?elem_of_app, ?elem_of_cons, ?elem_of_nil; intuition discriminate);
    eexists; vm_compute; reflexivity.
Defined.
