(* ===== verification/DrvModel.v ===== *)
(** The driver registry: beken378/driver/common/drv_model.c and the start-up
    table walk of beken378/driver/common/dd.c.

    The two tables are lists of slots, indexed with bounds checks.  A driver's
    operations are arguments of the model ([W] is the state they work on);
    they do not change the tables.  Names are C strings without their final
    NUL; a NULL name is [None], and comparing it is an access outside any
    object ([Wild]).  The fields [method] and [private], which no function of
    the component reads, are left out, and so are the interrupt locks around
    single assignments. *)

From S2P Require Import Prelude.

Definition DD_MAX_DEV : Z := 10.
Definition DD_MAX_SDEV : Z := 16.
Definition DD_MAX_NAME_LEN : Z := 16.
Definition DRV_FAILURE : Z := u32 (-5).
Definition DRV_SUCCESS : Z := 0.
Definition DD_HANDLE_MAGIC_WORD : Z := 0xA5A50000.
Definition DD_HANDLE_MAGIC_MASK : Z := 0xFFFF0000.
Definition DD_HANDLE_ID_MASK : Z := 0x0000FFFF.
Definition DD_HANDLE_UNVALID : Z := u32 (-1).
Definition DD_ID_UNVALID : Z := u32 (-1).

Abbreviation cstr := (list Z).

(** [DD_STATE]. *)
Inductive dd_state :=
  | DD_STATE_NODEVICE
  | DD_STATE_CLOSED
  | DD_STATE_OPENED
  | DD_STATE_BREAK
  | DD_STATE_SUCCESS.

#[export] Instance dd_state_eq_dec : EqDecision dd_state.
Proof. solve_decision. Defined.

(** [strncmp(a, b, n) == 0] on strings without their NUL. *)
Fixpoint strncmp_eq (n : nat) (a b : cstr) : bool :=
  match n with
  | O => true
  | S n' =>
      match a, b with
      | [], [] => true
      | x :: a', y :: b' => (x =? y) && strncmp_eq n' a' b'
      | _, _ => false
      end
  end.

(** [0 == os_strncmp(name, dev_name, n)]; no byte is read for [n = 0]. *)
Definition os_strncmp_eq (name : option cstr) (dev_name : cstr) (n : Z) : outcome bool :=
  if n =? 0 then Done true
  else s ← deref name; Done (strncmp_eq (Z.to_nat n) s dev_name).

(** [os_strlen] of a pointer that may be NULL. *)
Definition os_strlen (s : option cstr) : outcome Z := s ← deref s; Done (zlen s).

(** A counted loop [for(i = i0; i < i0 + n; i ++) if(test(i)) break;]:
    the index that broke it, if any. *)
Fixpoint for_break (test : Z -> outcome bool) (n : nat) (i : Z) : outcome (option Z) :=
  match n with
  | O => Done None
  | S n' =>
      hit ← test i;
      if (hit : bool) then Done (Some i) else for_break test n' (i + 1)
  end.

(* ------------------------------------------------------------------ *)
(** ** Handles *)

Definition ddev_check_handle (handle : Z) : Z :=
  let magic := Z.land handle DD_HANDLE_MAGIC_MASK in
  let id := Z.land handle DD_HANDLE_ID_MASK in
  if (DD_HANDLE_MAGIC_WORD =? magic) && (id <? DD_MAX_DEV) then DRV_SUCCESS
  else DRV_FAILURE.

Definition ddev_make_handle (id : Z) : Z :=
  if DD_MAX_DEV <=? id then DD_HANDLE_UNVALID else u32 (id + DD_HANDLE_MAGIC_WORD).

Definition ddev_get_id_from_handle (handle : Z) : Z :=
  let magic := Z.land handle DD_HANDLE_MAGIC_MASK in
  let id := Z.land handle DD_HANDLE_ID_MASK in
  if negb (magic =? DD_HANDLE_MAGIC_WORD) then DD_ID_UNVALID else id.

Section Code.
Context {W : Type}.

(** [DD_OPERATIONS]; [read] and [write] are given the caller's buffer. *)
Record dd_operations := mk_dd_ops {
  op_open : option (Z -> W -> outcome (Z * W));
  op_close : option (W -> outcome W);
  op_read : option (list Z -> Z -> Z -> W -> outcome (Z * list Z * W));
  op_write : option (list Z -> Z -> Z -> W -> outcome (Z * list Z * W));
  op_control : option (Z -> list Z -> W -> outcome (Z * list Z * W))
}.

(** [SDD_OPERATIONS]: the control function, on a command and the bytes
    [param] points to. *)
Record sdd_operations := mk_sdd_ops {
  sop_control : option (Z -> list Z -> W -> outcome (Z * list Z * W))
}.

Record drv_dev := mk_dev {
  dev_name : option cstr;
  dev_use_cnt : Z;
  dev_state : dd_state;
  dev_op : option dd_operations
}.

Record drv_sdev := mk_sdev {
  sdev_name : option cstr;
  sdev_use_cnt : Z;
  sdev_state : dd_state;
  sdev_op : option sdd_operations
}.

(** The two static tables and what the drivers work on. *)
Record drv := mk_drv {
  drv_dev_tbl : list drv_dev;
  drv_sdev_tbl : list drv_sdev;
  drv_world : W
}.

Definition set_dev_tbl (s : drv) (t : list drv_dev) : drv :=
  mk_drv t (drv_sdev_tbl s) (drv_world s).
Definition set_sdev_tbl (s : drv) (t : list drv_sdev) : drv :=
  mk_drv (drv_dev_tbl s) t (drv_world s).
Definition set_world (s : drv) (w : W) : drv :=
  mk_drv (drv_dev_tbl s) (drv_sdev_tbl s) w.

Definition dev_zero : drv_dev := mk_dev None 0 DD_STATE_NODEVICE None.
Definition sdev_zero : drv_sdev := mk_sdev None 0 DD_STATE_NODEVICE None.

Definition drv_model_init (s : drv) : Z * drv :=
  (DRV_SUCCESS,
   mk_drv (replicate (Z.to_nat DD_MAX_DEV) dev_zero)
          (replicate (Z.to_nat DD_MAX_SDEV) sdev_zero) (drv_world s)).

Definition drv_model_uninit (s : drv) : Z * drv := drv_model_init s.

(** Does slot [i] carry the name?  The comparisons of the lookup loops. *)
Definition dev_match (s : drv) (name : cstr) (i : Z) : outcome bool :=
  d ← aget (drv_dev_tbl s) i; os_strncmp_eq (dev_name d) name (zlen name).
Definition sdev_match (s : drv) (name : cstr) (i : Z) : outcome bool :=
  d ← aget (drv_sdev_tbl s) i; os_strncmp_eq (sdev_name d) name (zlen name).

(** [status] is the word the caller's pointer names, if it is not NULL. *)
Definition ddev_open (s : drv) (name : option cstr) (status : option Z) (op_flag : Z)
    : outcome (Z * option Z * drv) :=
  name_len ← os_strlen name;
  match name, status with
  | Some name, Some _ =>
      if DD_MAX_NAME_LEN <? name_len then Done (DD_HANDLE_UNVALID, status, s) else
      hit ← for_break (dev_match s name) (Z.to_nat DD_MAX_DEV) 0;
      match hit with
      | None => ASSERT false ≫= fun _ => Done (DD_HANDLE_UNVALID, Some DRV_FAILURE, s)
      | Some i =>
          d ← aget (drv_dev_tbl s) i;
          '(handle, status, d, w) ←
            match dev_state d with
            | DD_STATE_OPENED => Done (ddev_make_handle i, DRV_FAILURE, d, drv_world s)
            | DD_STATE_CLOSED =>
                '(status, w) ←
                  match dev_op d ≫= op_open with
                  | Some open => open op_flag (drv_world s)
                  | None => Done (DRV_FAILURE, drv_world s)
                  end;
                Done (ddev_make_handle i, status,
                      mk_dev (dev_name d) 0 DD_STATE_OPENED (dev_op d), w)
            | _ => Done (DD_HANDLE_UNVALID, DRV_FAILURE, d, drv_world s)
            end;
          let d := mk_dev (dev_name d) (u32 (dev_use_cnt d + 1)) (dev_state d) (dev_op d) in
          t ← aset (drv_dev_tbl s) i d;
          _ ← ASSERT (negb (handle =? DD_HANDLE_UNVALID));
          Done (handle, Some status, set_world (set_dev_tbl s t) w)
      end
  | _, _ => Done (DD_HANDLE_UNVALID, status, s)
  end.

Definition ddev_close (s : drv) (handle : Z) : outcome (Z * drv) :=
  let id := ddev_get_id_from_handle handle in
  if id =? DD_ID_UNVALID then Done (DRV_FAILURE, s) else
  d ← aget (drv_dev_tbl s) id;
  let d := mk_dev (dev_name d) (u32 (dev_use_cnt d - 1)) (dev_state d) (dev_op d) in
  if dev_use_cnt d =? 0 then
    w ← match dev_op d ≫= op_close with
        | Some close => close (drv_world s)
        | None => Done (drv_world s)
        end;
    let d := mk_dev (dev_name d) (dev_use_cnt d) DD_STATE_CLOSED (dev_op d) in
    t ← aset (drv_dev_tbl s) id d;
    Done (DRV_SUCCESS, set_world (set_dev_tbl s t) w)
  else
    t ← aset (drv_dev_tbl s) id d;
    Done (DRV_SUCCESS, set_dev_tbl s t).

Definition ddev_read (s : drv) (handle : Z) (user_buf : list Z) (count op_flag : Z)
    : outcome (Z * list Z * drv) :=
  let id := ddev_get_id_from_handle handle in
  if id =? DD_ID_UNVALID then Done (DRV_FAILURE, user_buf, s) else
  d ← aget (drv_dev_tbl s) id;
  match dev_op d ≫= op_read with
  | Some read =>
      '(status, user_buf, w) ← read user_buf count op_flag (drv_world s);
      Done (status, user_buf, set_world s w)
  | None => Done (DRV_FAILURE, user_buf, s)
  end.

Definition ddev_write (s : drv) (handle : Z) (user_buf : list Z) (count op_flag : Z)
    : outcome (Z * list Z * drv) :=
  let id := ddev_get_id_from_handle handle in
  if id =? DD_ID_UNVALID then Done (DRV_FAILURE, user_buf, s) else
  d ← aget (drv_dev_tbl s) id;
  match dev_op d ≫= op_write with
  | Some write =>
      '(status, user_buf, w) ← write user_buf count op_flag (drv_world s);
      Done (status, user_buf, set_world s w)
  | None => Done (DRV_FAILURE, user_buf, s)
  end.

Definition ddev_control (s : drv) (handle cmd : Z) (param : list Z)
    : outcome (Z * list Z * drv) :=
  let id := ddev_get_id_from_handle handle in
  if id =? DD_ID_UNVALID then Done (DRV_FAILURE, param, s) else
  d ← aget (drv_dev_tbl s) id;
  match dev_op d ≫= op_control with
  | Some control =>
      '(status, param, w) ← control cmd param (drv_world s);
      Done (status, param, set_world s w)
  | None => Done (DRV_FAILURE, param, s)
  end.

Definition sddev_control (s : drv) (name : option cstr) (cmd : Z) (param : list Z)
    : outcome (Z * list Z * drv) :=
  _ ← ASSERT (bool_decide (is_Some name));
  name ← deref name;
  hit ← for_break (sdev_match s name) (Z.to_nat DD_MAX_SDEV) 0;
  match hit with
  | None => ASSERT false ≫= fun _ => Done (DRV_FAILURE, param, s)
  | Some i =>
      d ← aget (drv_sdev_tbl s) i;
      '(status, param, w) ←
        match sdev_op d ≫= sop_control with
        | Some control => control cmd param (drv_world s)
        | None => Done (DRV_FAILURE, param, drv_world s)
        end;
      _ ← ASSERT (bool_decide (is_Some (sdev_op d)));
      Done (status, param, set_world s w)
  end.

Definition dev_free (s : drv) (i : Z) : outcome bool :=
  d ← aget (drv_dev_tbl s) i;
  Done (bool_decide (dev_name d = None) && bool_decide (dev_state d = DD_STATE_NODEVICE)).
Definition sdev_free (s : drv) (i : Z) : outcome bool :=
  d ← aget (drv_sdev_tbl s) i;
  Done (bool_decide (sdev_name d = None) && bool_decide (sdev_state d = DD_STATE_NODEVICE)).

Definition ddev_register_dev (s : drv) (name : option cstr) (optr : option dd_operations)
    : outcome (Z * drv) :=
  match name, optr with
  | Some _, Some _ =>
      hit ← for_break (dev_free s) (Z.to_nat DD_MAX_DEV) 0;
      match hit with
      | Some i =>
          d ← aget (drv_dev_tbl s) i;
          t ← aset (drv_dev_tbl s) i (mk_dev name (dev_use_cnt d) DD_STATE_CLOSED optr);
          Done (DRV_SUCCESS, set_dev_tbl s t)
      | None => ASSERT false ≫= fun _ => Done (DRV_SUCCESS, s)
      end
  | _, _ => Done (DRV_FAILURE, s)
  end.

Definition sddev_register_dev (s : drv) (name : option cstr) (optr : option sdd_operations)
    : outcome (Z * drv) :=
  match name, optr with
  | Some _, Some _ =>
      hit ← for_break (sdev_free s) (Z.to_nat DD_MAX_SDEV) 0;
      match hit with
      | Some i =>
          d ← aget (drv_sdev_tbl s) i;
          t ← aset (drv_sdev_tbl s) i (mk_sdev name (sdev_use_cnt d) DD_STATE_CLOSED optr);
          Done (DRV_SUCCESS, set_sdev_tbl s t)
      | None => ASSERT false ≫= fun _ => Done (DRV_SUCCESS, s)
      end
  | _, _ => Done (DRV_FAILURE, s)
  end.

(** The loop bound is [DD_MAX_SDEV], over the table of [DD_MAX_DEV] slots. *)
Definition ddev_unregister_dev (s : drv) (name : option cstr) : outcome (Z * drv) :=
  match name with
  | None => Done (DRV_FAILURE, s)
  | Some name =>
      if DD_MAX_NAME_LEN <? zlen name then Done (DRV_FAILURE, s) else
      hit ← for_break (dev_match s name) (Z.to_nat DD_MAX_SDEV) 0;
      match hit with
      | Some i =>
          d ← aget (drv_dev_tbl s) i;
          t ← aset (drv_dev_tbl s) i (mk_dev None (dev_use_cnt d) DD_STATE_NODEVICE None);
          Done (DRV_SUCCESS, set_dev_tbl s t)
      | None => ASSERT false ≫= fun _ => Done (DRV_SUCCESS, s)
      end
  end.

(** The loop bound is [DD_MAX_DEV], over the table of [DD_MAX_SDEV] slots. *)
Definition sddev_unregister_dev (s : drv) (name : option cstr) : outcome (Z * drv) :=
  match name with
  | None => Done (DRV_FAILURE, s)
  | Some name =>
      if DD_MAX_NAME_LEN <? zlen name then Done (DRV_FAILURE, s) else
      hit ← for_break (sdev_match s name) (Z.to_nat DD_MAX_DEV) 0;
      match hit with
      | Some i =>
          d ← aget (drv_sdev_tbl s) i;
          t ← aset (drv_sdev_tbl s) i (mk_sdev None (sdev_use_cnt d) DD_STATE_NODEVICE None);
          Done (DRV_SUCCESS, set_sdev_tbl s t)
      | None => ASSERT false ≫= fun _ => Done (DRV_SUCCESS, s)
      end
  end.

(** An entry of dd.c's [dd_init_tbl]. *)
Record dd_init_st := mk_dd_init {
  di_dev_name : option cstr;
  di_init : option (W -> outcome W);
  di_exit : option (W -> outcome W)
}.

Fixpoint g_dd_init (dd_init_tbl : list dd_init_st) (w : W) : outcome W :=
  match dd_init_tbl with
  | [] => Done w
  | dd_element :: rest =>
      match di_dev_name dd_element, di_init dd_element with
      | Some _, Some init => w ← init w; g_dd_init rest w
      | _, _ => Done w
      end
  end.

Fixpoint g_dd_exit (dd_init_tbl : list dd_init_st) (w : W) : outcome W :=
  match dd_init_tbl with
  | [] => Done w
  | dd_element :: rest =>
      match di_dev_name dd_element, di_exit dd_element with
      | Some _, Some exit => w ← exit w; g_dd_exit rest w
      | _, _ => Done w
      end
  end.
End Code.

Arguments dd_operations : clear implicits.
Arguments sdd_operations : clear implicits.
Arguments drv_dev : clear implicits.
Arguments drv_sdev : clear implicits.
Arguments drv : clear implicits.
Arguments dd_init_st : clear implicits.
Arguments sddev_register_dev : simpl never.
Arguments sddev_control : simpl never.
Arguments ddev_open : simpl never.
Arguments ddev_close : simpl never.

(* ------------------------------------------------------------------ *)
(** ** The abstract registry *)

(** The special devices as clients see them: a list of bindings in order of
    registration, looked up by the first name that starts with the key. *)
Section Registry.
Context {W : Type}.

Abbreviation binding := (list Z * sdd_operations W)%type.

Fixpoint registry_lookup (l : list binding) (key : cstr) : option (sdd_operations W) :=
  match l with
  | [] => None
  | (name, ops) :: l' =>
      if strncmp_eq (length key) name key then Some ops else registry_lookup l' key
  end.

(** A control call by name.  A key nobody registered stops the system: at
    the assertion when all slots are taken, else at the first empty slot. *)
Definition registry_control (l : list binding) (key : cstr) (cmd : Z) (param : list Z) (w : W)
    : outcome (Z * list Z * W) :=
  match registry_lookup l key with
  | Some ops =>
      match sop_control ops with
      | Some control => control cmd param w
      | None => Done (DRV_FAILURE, param, w)
      end
  | None => if zlen l =? DD_MAX_SDEV then Hang else Wild
  end.

Definition sdev_of (b : binding) : drv_sdev W := mk_sdev (Some b.1) 0 DD_STATE_CLOSED (Some b.2).

Definition sdev_rep (s : drv W) (l : list binding) : Prop :=
  zlen l <= DD_MAX_SDEV /\
  drv_sdev_tbl s = map sdev_of l ++ replicate (Z.to_nat (DD_MAX_SDEV - zlen l)) sdev_zero.

Fixpoint register_all (s : drv W) (l : list binding) : outcome (drv W) :=
  match l with
  | [] => Done s
  | (name, ops) :: l' =>
      '(_, s) ← sddev_register_dev s (Some name) (Some ops); register_all s l'
  end.

(** [n] opens and [n] closes of one device, the status word starting at 0. *)
Fixpoint open_n (n : nat) (s : drv W) (name : cstr) (op_flag : Z) : outcome (list (Z * option Z) * drv W) :=
  match n with
  | O => Done ([], s)
  | S n' =>
      '(handle, status, s) ← ddev_open s (Some name) (Some 0) op_flag;
      '(rest, s) ← open_n n' s name op_flag;
      Done ((handle, status) :: rest, s)
  end.

Fixpoint close_n (n : nat) (s : drv W) (handle : Z) : outcome (drv W) :=
  match n with
  | O => Done s
  | S n' => '(_, s) ← ddev_close s handle; close_n n' s handle
  end.
End Registry.

(* ------------------------------------------------------------------ *)
(** ** Lemmas *)

Lemma strncmp_eq_prefix (a b : cstr) :
  strncmp_eq (length b) a b = true <-> b `prefix_of` a.
Proof.
  revert a. induction b as [|y b IH]; intros a; cbn.
  - split; [intros _; apply prefix_nil|done].
  - destruct a as [|x a].
    + split; [done|]. intros ?%prefix_nil_not. done.
    + rewrite andb_true_iff, Z.eqb_eq, IH. split.
      * intros [-> ?]. by apply prefix_cons.
      * intros H. split; [symmetry; by eapply prefix_cons_inv_1|by eapply prefix_cons_inv_2].
Qed.

Lemma for_break_hit test n i k :
  (forall j, i <= j < k -> test j = Done false) -> test k = Done true ->
  i <= k < i + Z.of_nat n -> for_break test n i = Done (Some k).
Proof.
  revert i. induction n as [|n IH]; intros i Hbefore Hk Hr; [lia|]. cbn.
  destruct (decide (i = k)) as [->|Hne]; [by rewrite Hk|].
  rewrite Hbefore by lia. cbn. apply IH; auto; [|lia]. intros j Hj. apply Hbefore. lia.
Qed.

Lemma for_break_none test n i :
  (forall j, i <= j < i + Z.of_nat n -> test j = Done false) -> for_break test n i = Done None.
Proof.
  revert i. induction n as [|n IH]; intros i H; [done|]. cbn.
  rewrite H by lia. cbn. apply IH. intros j Hj. apply H. lia.
Qed.

Lemma for_break_wild test n i k :
  (forall j, i <= j < k -> test j = Done false) -> test k = Wild ->
  i <= k < i + Z.of_nat n -> for_break test n i = Wild.
Proof.
  revert i. induction n as [|n IH]; intros i Hbefore Hk Hr; [lia|]. cbn.
  destruct (decide (i = k)) as [->|Hne]; [by rewrite Hk|].
  rewrite Hbefore by lia. cbn. apply IH; auto; [|lia]. intros j Hj. apply Hbefore. lia.
Qed.

Lemma for_break_ext test test' n i :
  (forall j, test j = test' j) -> for_break test n i = for_break test' n i.
Proof.
  intros H. revert i. induction n as [|n IH]; intros i; [done|]. cbn.
  rewrite H. destruct (test' i) as [[]| | |]; cbn; auto.
Qed.

Lemma for_break_range test n i k :
  for_break test n i = Done (Some k) -> i <= k < i + Z.of_nat n /\ test k = Done true.
Proof.
  revert i. induction n as [|n IH]; intros i; cbn; [done|].
  destruct (test i) as [[]| | |] eqn:E; cbn; try done.
  - intros [= <-]. split; [lia|done].
  - intros H%IH. split; [lia|tauto].
Qed.

Lemma aget_lookup {A} (l : list A) i x : 0 <= i -> l !! Z.to_nat i = Some x -> aget l i = Done x.
Proof. intros Hi E. unfold aget. rewrite (proj2 (Z.leb_le 0 i)) by lia. by rewrite E. Qed.

Lemma aget_over {A} (l : list A) i : zlen l <= i -> aget l i = Wild.
Proof.
  unfold aget, zlen. intros Hi. destruct (0 <=? i) eqn:E; [|done]. zbool.
  by rewrite lookup_ge_None_2 by lia.
Qed.

Lemma aget_insert {A} (l : list A) i x : 0 <= i < zlen l -> aget (<[Z.to_nat i := x]> l) i = Done x.
Proof.
  intros Hi. apply aget_lookup; [lia|]. apply list_lookup_insert_eq. unfold zlen in Hi. lia.
Qed.

Section Lemmas.
Context {W : Type}.
Implicit Types (s : drv W) (l : list (list Z * sdd_operations W)).

Lemma sdev_slot s l i :
  sdev_rep s l -> 0 <= i < DD_MAX_SDEV ->
  aget (drv_sdev_tbl s) i =
    Done (match l !! Z.to_nat i with Some b => sdev_of b | None => sdev_zero end).
Proof.
  unfold DD_MAX_SDEV, zlen. intros [Hlen ->] Hi. unfold zlen in *. apply aget_lookup; [lia|].
  destruct (l !! Z.to_nat i) as [b|] eqn:E.
  - rewrite lookup_app_l by (rewrite length_map; by eapply lookup_lt_Some).
    by rewrite list_lookup_fmap, E.
  - apply lookup_ge_None in E. rewrite lookup_app_r by (rewrite length_map; lia).
    rewrite length_map. apply lookup_replicate_2. unfold DD_MAX_SDEV. lia.
Qed.

Lemma sdev_rep_len s l : sdev_rep s l -> zlen (drv_sdev_tbl s) = DD_MAX_SDEV.
Proof.
  intros [Hl ->]. unfold zlen, DD_MAX_SDEV in *.
  rewrite length_app, length_map, length_replicate. lia.
Qed.

Lemma init_sdev_rep s : sdev_rep (snd (drv_model_init s)) [].
Proof. split; [vm_compute; discriminate|reflexivity]. Qed.

Lemma sdev_free_spec s l i :
  sdev_rep s l -> 0 <= i < DD_MAX_SDEV ->
  sdev_free s i = Done (bool_decide (zlen l <= i)).
Proof.
  intros Hrep Hi. unfold sdev_free. rewrite (sdev_slot s l i Hrep Hi). cbn.
  destruct (l !! Z.to_nat i) as [b|] eqn:E; cbn.
  - apply lookup_lt_Some in E. rewrite (bool_decide_eq_false_2 (zlen l <= i)); [done|].
    unfold zlen. lia.
  - apply lookup_ge_None in E. rewrite (bool_decide_eq_true_2 (zlen l <= i)); [done|].
    unfold zlen. lia.
Qed.

(** Registration appends a binding, or stops when the table is full. *)
Lemma register_spec s l name ops :
  sdev_rep s l ->
  if zlen l =? DD_MAX_SDEV then sddev_register_dev s (Some name) (Some ops) = Hang
  else exists s', sddev_register_dev s (Some name) (Some ops) = Done (DRV_SUCCESS, s') /\
    sdev_rep s' (l ++ [(name, ops)]) /\ drv_dev_tbl s' = drv_dev_tbl s /\
    drv_world s' = drv_world s.
Proof.
  intros Hrep. pose proof Hrep as [Hle Htbl]. pose proof (zlen_nonneg l).
  unfold sddev_register_dev. change (Z.to_nat DD_MAX_SDEV) with 16%nat.
  destruct (zlen l =? DD_MAX_SDEV) eqn:E; zbool; unfold DD_MAX_SDEV in *.
  - rewrite for_break_none; [done|]. intros j Hj.
    rewrite (sdev_free_spec s l j Hrep) by (unfold DD_MAX_SDEV; lia).
    rewrite bool_decide_eq_false_2; [done|lia].
  - rewrite (for_break_hit _ _ _ (zlen l)); [|..|lia].
    + cbn. rewrite (sdev_slot s l _ Hrep) by (unfold DD_MAX_SDEV; lia). cbn.
      pose proof (sdev_rep_len s l Hrep) as Hlen. unfold DD_MAX_SDEV in Hlen.
      rewrite aset_in by lia. cbn. eexists. split; [done|]. split_and!; [|done..].
      split; [rewrite zlen_snoc; unfold DD_MAX_SDEV; lia|]. cbn.
      rewrite Htbl, zlen_snoc. unfold DD_MAX_SDEV, zlen in *. rewrite Nat2Z.id.
      rewrite lookup_ge_None_2 by lia. cbn.
      replace (Z.to_nat (16 - Z.of_nat (length l)))
        with (S (Z.to_nat (16 - (Z.of_nat (length l) + 1)))) by lia.
      cbn. rewrite map_app, <- app_assoc. cbn.
      rewrite <- (length_map sdev_of l). by rewrite insert_app_r_alt, Nat.sub_diag by lia.
    + intros j Hj. rewrite (sdev_free_spec s l j Hrep) by (unfold DD_MAX_SDEV; lia).
      rewrite bool_decide_eq_false_2; [done|lia].
    + rewrite (sdev_free_spec s l _ Hrep) by (unfold DD_MAX_SDEV; lia).
      rewrite bool_decide_eq_true_2; [done|lia].
Qed.

Lemma register_all_spec s l0 l :
  sdev_rep s l0 -> zlen (l0 ++ l) <= DD_MAX_SDEV ->
  exists s', register_all s l = Done s' /\ sdev_rep s' (l0 ++ l) /\
    drv_dev_tbl s' = drv_dev_tbl s /\ drv_world s' = drv_world s.
Proof.
  revert s l0. induction l as [|[name ops] l IH]; intros s l0 Hrep Hlen; cbn.
  { rewrite app_nil_r. by exists s. }
  pose proof (register_spec s l0 name ops Hrep) as Hr.
  rewrite zlen_app, zlen_cons in Hlen. pose proof (zlen_nonneg l).
  rewrite (proj2 (Z.eqb_neq _ _)) in Hr by lia. destruct Hr as (s1 & -> & Hrep1 & E1 & E2).
  cbn. destruct (IH s1 (l0 ++ [(name, ops)]) Hrep1) as (s' & ? & ? & ? & ?).
  { rewrite !zlen_app, zlen_cons, zlen_nil. lia. }
  exists s'. rewrite <- app_assoc in *. split_and!; [done|done|congruence..].
Qed.

Lemma sdev_match_spec s l key i :
  sdev_rep s l -> 0 <= i < DD_MAX_SDEV -> key <> [] ->
  sdev_match s key i = match l !! Z.to_nat i with
    | Some b => Done (strncmp_eq (length key) b.1 key)
    | None => Wild
    end.
Proof.
  intros Hrep Hi Hkey. unfold sdev_match. rewrite (sdev_slot s l i Hrep Hi). cbn.
  unfold os_strncmp_eq. destruct key as [|c key]; [done|].
  rewrite zlen_cons. pose proof (zlen_nonneg key). rewrite (proj2 (Z.eqb_neq _ 0)) by lia.
  replace (Z.to_nat (1 + zlen key)) with (length (c :: key)) by (unfold zlen; cbn; lia).
  by destruct (l !! Z.to_nat i) as [[n o]|].
Qed.

(** The first binding whose name starts with the key, with its index. *)
Lemma registry_lookup_index l key :
  match registry_lookup l key with
  | Some ops => exists i name, l !! i = Some (name, ops) /\
      strncmp_eq (length key) name key = true /\
      forall j b, (j < i)%nat -> l !! j = Some b -> strncmp_eq (length key) b.1 key = false
  | None => forall j b, l !! j = Some b -> strncmp_eq (length key) b.1 key = false
  end.
Proof.
  induction l as [|[name ops] l IH]; cbn; [done|].
  destruct (strncmp_eq (length key) name key) eqn:E.
  { exists 0%nat, name. split_and!; [done..|lia]. }
  destruct (registry_lookup l key) as [o|].
  - destruct IH as (i & n & Hi & Hm & Hb). exists (S i), n. split_and!; [done..|].
    intros [|j] b Hj; cbn; [by intros [= <-]|]. apply Hb. lia.
  - intros [|j] b; cbn; [by intros [= <-]|]. apply IH.
Qed.

(** [sddev_control] implements the registry's control call. *)
Lemma sddev_control_spec s l key cmd param :
  sdev_rep s l -> key <> [] ->
  sddev_control s (Some key) cmd param =
    ('(status, param, w) ← registry_control l key cmd param (drv_world s);
     Done (status, param, set_world s w)).
Proof.
  intros Hrep Hkey. unfold sddev_control, registry_control. cbn -[for_break].
  pose proof Hrep as [Hle _]. pose proof (registry_lookup_index l key) as Hi.
  change (Pos.to_nat 16) with 16%nat. unfold DD_MAX_SDEV in *.
  destruct (registry_lookup l key) as [ops|].
  - destruct Hi as (i & name & Hl & Hm & Hb). pose proof (lookup_lt_Some _ _ _ Hl) as Hlt.
    assert (Hr : 0 <= Z.of_nat i < 16) by (unfold zlen in Hle; lia).
    rewrite (for_break_hit _ _ _ (Z.of_nat i)); [..|lia].
    + cbn. rewrite (sdev_slot s l _ Hrep Hr), Nat2Z.id, Hl. cbn.
      destruct (sop_control ops) as [control|]; cbn; [|by destruct s].
      by destruct (control cmd param (drv_world s)) as [[[st p] w]| | |].
    + intros j Hj. rewrite (sdev_match_spec s l key j Hrep) by (unfold DD_MAX_SDEV; auto; lia).
      destruct (l !! Z.to_nat j) as [b|] eqn:E.
      * by rewrite (Hb (Z.to_nat j) b) by (auto; lia).
      * apply lookup_ge_None in E. lia.
    + rewrite (sdev_match_spec s l key _ Hrep) by (unfold DD_MAX_SDEV; auto; lia).
      by rewrite Nat2Z.id, Hl, <- Hm.
  - destruct (zlen l =? 16) eqn:E; zbool.
    + rewrite for_break_none; [done|]. intros j Hj.
      rewrite (sdev_match_spec s l key j Hrep) by (unfold DD_MAX_SDEV; auto; lia).
      destruct (l !! Z.to_nat j) as [b|] eqn:E1; [by rewrite (Hi _ _ E1)|].
      apply lookup_ge_None in E1. unfold zlen in E. lia.
    + rewrite (for_break_wild _ _ _ (zlen l)); [done|..|pose proof (zlen_nonneg l); lia].
      * intros j Hj. rewrite (sdev_match_spec s l key j Hrep) by (unfold DD_MAX_SDEV; auto; lia).
        destruct (l !! Z.to_nat j) as [b|] eqn:E1; [by rewrite (Hi _ _ E1)|].
        apply lookup_ge_None in E1. unfold zlen in Hj. lia.
      * pose proof (zlen_nonneg l).
        rewrite (sdev_match_spec s l key _ Hrep) by (unfold DD_MAX_SDEV; auto; lia).
        rewrite lookup_ge_None_2; [done|]. unfold zlen. lia.
Qed.
End Lemmas.

(** ** Handles *)

Lemma handle_roundtrip id :
  0 <= id < DD_MAX_DEV ->
  ddev_get_id_from_handle (ddev_make_handle id) = id /\
  ddev_check_handle (ddev_make_handle id) = DRV_SUCCESS /\
  ddev_make_handle id <> DD_HANDLE_UNVALID.
Proof. unfold DD_MAX_DEV. intros Hi. enum_from id 0 10; split_and!; vm_compute; congruence. Qed.

Lemma handle_split h :
  0 <= h < 2 ^ 32 ->
  h = Z.lor (Z.land h DD_HANDLE_MAGIC_MASK) (Z.land h DD_HANDLE_ID_MASK).
Proof.
  intros Hh. rewrite <- Z.land_lor_distr_r.
  change (Z.lor DD_HANDLE_MAGIC_MASK DD_HANDLE_ID_MASK) with (Z.ones 32).
  rewrite Z.land_ones by lia. symmetry. by apply Z.mod_small.
Qed.

(** ** Opening and closing *)

Section OpenClose.
Context {W : Type}.
Implicit Types (s : drv W) (d : drv_dev W).

Lemma aget_map {A B} (f : A -> B) (l : list A) i :
  aget (map f l) i = (x ← aget l i; Done (f x)).
Proof.
  unfold aget. destruct (0 <=? i); [|done]. rewrite list_lookup_fmap.
  by destruct (l !! Z.to_nat i).
Qed.

Lemma dev_match_names s s' name i :
  map dev_name (drv_dev_tbl s) = map dev_name (drv_dev_tbl s') ->
  dev_match s name i = dev_match s' name i.
Proof.
  intros E. unfold dev_match. apply (f_equal (fun l => aget l i)) in E.
  rewrite !aget_map in E. destruct (aget (drv_dev_tbl s) i), (aget (drv_dev_tbl s') i);
    cbn in *; congruence.
Qed.

(** Device [d] sits in slot [i] and is the one a lookup of [name] finds. *)
Record dev_at s (name : cstr) (i : Z) d : Prop := {
  da_len : zlen (drv_dev_tbl s) = DD_MAX_DEV;
  da_slot : aget (drv_dev_tbl s) i = Done d;
  da_found : for_break (dev_match s name) (Z.to_nat DD_MAX_DEV) 0 = Done (Some i)
}.

Lemma dev_at_range s name i d : dev_at s name i d -> 0 <= i < DD_MAX_DEV.
Proof. intros [_ _ H%for_break_range]. unfold DD_MAX_DEV in *. lia. Qed.

(** The table with slot [i] replaced, the drivers' state with it. *)
Definition upd_dev s (i : Z) d (w : W) : drv W :=
  set_world (set_dev_tbl s (<[Z.to_nat i := d]> (drv_dev_tbl s))) w.

Lemma dev_at_upd s name i d d' w :
  dev_at s name i d -> dev_name d' = dev_name d -> dev_at (upd_dev s i d' w) name i d'.
Proof.
  intros Hat Hn. pose proof (dev_at_range _ _ _ _ Hat) as Hi. destruct Hat as [Hl Hs Hf].
  split; cbn.
  - unfold zlen in *. by rewrite length_insert.
  - apply aget_insert. lia.
  - rewrite <- Hf. apply for_break_ext. intros j. apply dev_match_names. cbn.
    apply list_eq. intros k. rewrite !list_lookup_fmap.
    destruct (decide (k = Z.to_nat i)) as [->|Hne].
    + rewrite list_lookup_insert_eq by (unfold zlen in Hl; lia).
      unfold aget in Hs. rewrite (proj2 (Z.leb_le 0 i)) in Hs by lia.
      apply deref_done in Hs. rewrite Hs. cbn. by rewrite Hn.
    + by rewrite list_lookup_insert_ne by done.
Qed.

Lemma upd_dev_twice s i d d' w w' : upd_dev (upd_dev s i d w) i d' w' = upd_dev s i d' w'.
Proof. unfold upd_dev, set_world, set_dev_tbl. cbn. by rewrite list_insert_insert_eq. Qed.

Definition with_cnt (d : drv_dev W) (n : Z) (st : dd_state) : drv_dev W :=
  mk_dev (dev_name d) n st (dev_op d).

Lemma open_opened s name i d op_flag :
  dev_at s name i d -> zlen name <= DD_MAX_NAME_LEN -> dev_state d = DD_STATE_OPENED ->
  ddev_open s (Some name) (Some 0) op_flag =
    Done (ddev_make_handle i, Some DRV_FAILURE,
          upd_dev s i (with_cnt d (u32 (dev_use_cnt d + 1)) DD_STATE_OPENED) (drv_world s)).
Proof.
  intros Hat Hname Hst. pose proof (dev_at_range _ _ _ _ Hat) as Hi.
  destruct (handle_roundtrip i Hi) as (_ & _ & Hh). destruct Hat as [Hl Hs Hf].
  unfold ddev_open. cbn -[for_break]. rewrite (proj2 (Z.ltb_ge _ _)) by lia.
  rewrite Hf. cbn. rewrite Hs. cbn. rewrite Hst. cbn. rewrite aset_in by lia. cbn.
  rewrite (proj2 (Z.eqb_neq _ _)) by done. unfold with_cnt. by rewrite <- Hst.
Qed.

Lemma open_closed s name i d op_flag ops open st w :
  dev_at s name i d -> zlen name <= DD_MAX_NAME_LEN -> dev_state d = DD_STATE_CLOSED ->
  dev_op d = Some ops -> op_open ops = Some open -> open op_flag (drv_world s) = Done (st, w) ->
  ddev_open s (Some name) (Some 0) op_flag =
    Done (ddev_make_handle i, Some st, upd_dev s i (with_cnt d 1 DD_STATE_OPENED) w).
Proof.
  intros Hat Hname Hst Hop Hopen Hrun. pose proof (dev_at_range _ _ _ _ Hat) as Hi.
  destruct (handle_roundtrip i Hi) as (_ & _ & Hh). destruct Hat as [Hl Hs Hf].
  unfold ddev_open. cbn -[for_break]. rewrite (proj2 (Z.ltb_ge _ _)) by lia.
  rewrite Hf. cbn. rewrite Hs. cbn. rewrite Hst, Hop. cbn. rewrite Hopen, Hrun. cbn.
  rewrite aset_in by lia. cbn. rewrite (proj2 (Z.eqb_neq _ _)) by done.
  unfold with_cnt. by rewrite Hop.
Qed.

Lemma id_of_handle i : 0 <= i < DD_MAX_DEV ->
  (ddev_get_id_from_handle (ddev_make_handle i) =? DD_ID_UNVALID) = false /\
  ddev_get_id_from_handle (ddev_make_handle i) = i.
Proof.
  intros Hi. destruct (handle_roundtrip i Hi) as (-> & _). split; [|done].
  unfold DD_MAX_DEV in Hi. apply Z.eqb_neq. change DD_ID_UNVALID with 4294967295. lia.
Qed.

Lemma close_shared s name i d :
  dev_at s name i d -> 1 < dev_use_cnt d < 2 ^ 32 ->
  ddev_close s (ddev_make_handle i) =
    Done (DRV_SUCCESS, upd_dev s i (with_cnt d (dev_use_cnt d - 1) (dev_state d)) (drv_world s)).
Proof.
  intros Hat Hc. pose proof (dev_at_range _ _ _ _ Hat) as Hi. destruct Hat as [Hl Hs _].
  unfold ddev_close. destruct (id_of_handle i Hi) as [-> ->]. rewrite Hs. cbn. words.
  rewrite (proj2 (Z.eqb_neq _ 0)) by lia. by rewrite aset_in by lia.
Qed.

Lemma close_last s name i d ops close w :
  dev_at s name i d -> dev_use_cnt d = 1 -> dev_op d = Some ops -> op_close ops = Some close ->
  close (drv_world s) = Done w ->
  ddev_close s (ddev_make_handle i) =
    Done (DRV_SUCCESS, upd_dev s i (with_cnt d 0 DD_STATE_CLOSED) w).
Proof.
  intros Hat Hc Hop Hclose Hrun. pose proof (dev_at_range _ _ _ _ Hat) as Hi.
  destruct Hat as [Hl Hs _].
  unfold ddev_close. destruct (id_of_handle i Hi) as [-> ->]. rewrite Hs. cbn.
  rewrite Hc. cbn. rewrite Hop. cbn. rewrite Hclose, Hrun. cbn. rewrite aset_in by lia.
  unfold with_cnt. by rewrite Hop.
Qed.

(** Further opens of an open device only count. *)
Lemma open_n_opened n : forall s name i d op_flag,
  dev_at s name i d -> zlen name <= DD_MAX_NAME_LEN -> dev_state d = DD_STATE_OPENED ->
  0 <= dev_use_cnt d -> dev_use_cnt d + Z.of_nat n < 2 ^ 32 ->
  exists s', open_n n s name op_flag =
      Done (replicate n (ddev_make_handle i, Some DRV_FAILURE), s') /\
    s' = upd_dev s i (with_cnt d (dev_use_cnt d + Z.of_nat n) DD_STATE_OPENED) (drv_world s).
Proof.
  induction n as [|n IH]; intros s name i d op_flag Hat Hname Hst H0 Hc; cbn.
  - exists s. split; [done|]. pose proof (dev_at_range _ _ _ _ Hat). destruct Hat as [Hl Hs _].
    unfold upd_dev, with_cnt, set_world, set_dev_tbl. rewrite Z.add_0_r, <- Hst.
    unfold aget in Hs. rewrite (proj2 (Z.leb_le 0 i)) in Hs by lia. apply deref_done in Hs.
    destruct d, s. cbn in *. by rewrite list_insert_id.
  - rewrite (open_opened s name i d op_flag Hat Hname Hst). cbn. words.
    set (d1 := with_cnt d (dev_use_cnt d + 1) DD_STATE_OPENED).
    destruct (IH (upd_dev s i d1 (drv_world s)) name i d1 op_flag) as (s' & -> & ->); auto.
    + by eapply dev_at_upd.
    + cbn. lia.
    + cbn. lia.
    + cbn. eexists. split; [done|]. rewrite upd_dev_twice. unfold with_cnt. cbn. do 2 f_equal. lia.
Qed.

(** [k] closes of a device opened more than [k] times only count. *)
Lemma close_n_shared k : forall s name i d,
  dev_at s name i d -> dev_state d = DD_STATE_OPENED ->
  Z.of_nat k < dev_use_cnt d < 2 ^ 32 ->
  close_n k s (ddev_make_handle i) =
    Done (upd_dev s i (with_cnt d (dev_use_cnt d - Z.of_nat k) DD_STATE_OPENED) (drv_world s)).
Proof.
  induction k as [|k IH]; intros s name i d Hat Hst Hc; cbn.
  - pose proof (dev_at_range _ _ _ _ Hat). destruct Hat as [Hl Hs _].
    unfold upd_dev, with_cnt, set_world, set_dev_tbl. rewrite Z.sub_0_r, <- Hst.
    unfold aget in Hs. rewrite (proj2 (Z.leb_le 0 i)) in Hs by lia. apply deref_done in Hs.
    destruct d, s. cbn in *. by rewrite list_insert_id.
  - rewrite (close_shared s name i d Hat) by lia. cbn. rewrite Hst.
    set (d1 := with_cnt d (dev_use_cnt d - 1) DD_STATE_OPENED).
    rewrite (IH _ name i d1); [..|cbn; lia]; [|by eapply dev_at_upd|done].
    rewrite upd_dev_twice. cbn. unfold with_cnt. cbn. do 3 f_equal. lia.
Qed.

Lemma close_n_app k m s handle :
  close_n (k + m) s handle = (s ← close_n k s handle; close_n m s handle).
Proof.
  revert s. induction k as [|k IH]; intros s; [done|]. cbn.
  destruct (ddev_close s handle) as [[? s1]| | |]; cbn; auto.
Qed.
End OpenClose.

(* ------------------------------------------------------------------ *)
(** ** Properties *)

(** C20: the special-device table implements the abstract registry: after
    [drv_model_init] and any sequence of at most 16 registrations, a control
    call by name does what the registry says: it runs the control function
    of the first registered name that starts with the key, returns its
    status and parameter bytes, and leaves the tables as they are. *)
Theorem sddev_registry_refines {W} (s : drv W) (l : list (list Z * sdd_operations W))
    (key : cstr) (cmd : Z) (param : list Z) :
  zlen l <= DD_MAX_SDEV -> key <> [] ->
  exists s', register_all (snd (drv_model_init s)) l = Done s' /\ drv_world s' = drv_world s /\
    sddev_control s' (Some key) cmd param =
      ('(status, param, w) ← registry_control l key cmd param (drv_world s);
       Done (status, param, set_world s' w)).
Proof.
  intros Hlen Hkey.
  destruct (register_all_spec _ [] l (init_sdev_rep s) Hlen) as (s' & E & Hrep & _ & Hw).
  exists s'. split; [done|]. split; [done|].
  rewrite (sddev_control_spec s' l key cmd param Hrep Hkey). by rewrite Hw.
Qed.

(** the 17th registration stops the system at its assertion. *)
Theorem sddev_register_full {W} (s : drv W) (l : list (list Z * sdd_operations W))
    (name : cstr) (ops : sdd_operations W) :
  zlen l = DD_MAX_SDEV ->
  exists s', register_all (snd (drv_model_init s)) l = Done s' /\
    sddev_register_dev s' (Some name) (Some ops) = Hang.
Proof.
  intros Hlen.
  destruct (register_all_spec _ [] l (init_sdev_rep s)) as (s' & E & Hrep & _);
    [cbn; lia|]. exists s'. split; [done|].
  pose proof (register_spec s' _ name ops Hrep) as H. cbn in H.
  by rewrite (proj2 (Z.eqb_eq _ _)) in H.
Qed.

(** opening a closed device [n] times and closing it [n] times runs its
    [open] once, at the first open, and its [close] once, at the last close;
    the first open reports the driver's status, the others DRV_FAILURE; every
    open returns the same handle, and the slot ends closed with count 0. *)
Theorem ddev_open_close_once {W} (s : drv W) (name : cstr) (i : Z) (d : drv_dev W)
    (ops : dd_operations W) open close op_flag st w1 w2 (n : nat) :
  dev_at s name i d -> zlen name <= DD_MAX_NAME_LEN -> dev_state d = DD_STATE_CLOSED ->
  dev_op d = Some ops -> op_open ops = Some open -> op_close ops = Some close ->
  open op_flag (drv_world s) = Done (st, w1) -> close w1 = Done w2 ->
  Z.of_nat n + 1 < 2 ^ 32 ->
  exists s1, open_n (S n) s name op_flag =
      Done ((ddev_make_handle i, Some st) ::
            replicate n (ddev_make_handle i, Some DRV_FAILURE), s1) /\
    (forall k, (k <= n)%nat -> exists sk, close_n k s1 (ddev_make_handle i) = Done sk /\
       drv_world sk = w1) /\
    close_n (S n) s1 (ddev_make_handle i) = Done (upd_dev s i (with_cnt d 0 DD_STATE_CLOSED) w2).
Proof.
  intros Hat Hname Hst Hop Hopen Hclose E1 E2 Hn.
  set (d1 := with_cnt d 1 DD_STATE_OPENED).
  assert (Hat1 : dev_at (upd_dev s i d1 w1) name i d1) by by eapply dev_at_upd.
  destruct (open_n_opened n (upd_dev s i d1 w1) name i d1 op_flag) as (s1 & Eo & ->);
    [done|done|done|cbn; lia..|].
  rewrite upd_dev_twice in Eo. cbn [dev_use_cnt d1 with_cnt drv_world upd_dev set_world] in Eo.
  set (d2 := with_cnt d1 (1 + Z.of_nat n) DD_STATE_OPENED) in *.
  assert (Hat2 : dev_at (upd_dev s i d2 w1) name i d2) by by eapply dev_at_upd.
  exists (upd_dev s i d2 w1). split_and!.
  - cbn [open_n]. rewrite (open_closed s name i d op_flag ops open st w1) by done.
    cbn [mbind outcome_bind]. fold d1. rewrite Eo. done.
  - intros k Hk. eexists. split; [apply (close_n_shared k _ name i d2 Hat2); [done|cbn; lia]|done].
  - replace (S n) with (n + 1)%nat by lia. rewrite close_n_app.
    rewrite (close_n_shared n _ name i d2 Hat2) by (done || cbn; lia).
    cbn [mbind outcome_bind close_n]. rewrite upd_dev_twice.
    set (d3 := with_cnt d2 _ _).
    rewrite (close_last _ name i d3 ops close w2); [|by eapply dev_at_upd|cbn; lia|done..].
    cbn [mbind outcome_bind]. by rewrite upd_dev_twice.
Qed.

(** handles: the words [ddev_check_handle] accepts are exactly the ones
    [ddev_make_handle] makes for the ten slots, and the slot number comes
    back from each. *)
Theorem ddev_handle_codec (handle : Z) :
  is_u32 handle ->
  (ddev_check_handle handle = DRV_SUCCESS <->
   exists id, 0 <= id < DD_MAX_DEV /\ handle = ddev_make_handle id) /\
  (ddev_check_handle handle = DRV_SUCCESS ->
   ddev_make_handle (ddev_get_id_from_handle handle) = handle /\
   0 <= ddev_get_id_from_handle handle < DD_MAX_DEV).
Proof.
  intros Hh.
  assert (Hfwd : ddev_check_handle handle = DRV_SUCCESS ->
    exists id, 0 <= id < DD_MAX_DEV /\ handle = ddev_make_handle id).
  { unfold ddev_check_handle. cbn zeta.
    destruct (_ && _) eqn:E; [|discriminate]. intros _. zbool.
    pose proof (handle_split handle Hh) as Hs.
    set (id := Z.land handle DD_HANDLE_ID_MASK) in *.
    assert (Hid : 0 <= id) by (apply Z.land_nonneg; unfold is_u32 in Hh; lia).
    exists id. split; [lia|]. clearbody id. rewrite Hs. rewrite <- H. unfold DD_MAX_DEV in *.
    clear Hs H. enum_from id 0 10; reflexivity. }
  split; [split; [done|]|].
  - intros (id & Hid & ->). by apply handle_roundtrip.
  - intros (id & Hid & ->)%Hfwd. destruct (handle_roundtrip id Hid) as (-> & _). done.
Qed.

(** the entry points do not use [ddev_check_handle]: with the right magic
    word, any slot number from 10 to 65535 indexes outside the table. *)
Theorem ddev_forged_handle_wild {W} (s : drv W) (id cmd : Z) (param : list Z) :
  zlen (drv_dev_tbl s) = DD_MAX_DEV -> DD_MAX_DEV <= id < 2 ^ 16 ->
  let handle := id + DD_HANDLE_MAGIC_WORD in
  ddev_check_handle handle = DRV_FAILURE /\
  ddev_control s handle cmd param = Wild /\ ddev_close s handle = Wild.
Proof.
  intros Hlen Hid handle.
  assert (Hlow : Z.land handle DD_HANDLE_ID_MASK = id).
  { change DD_HANDLE_ID_MASK with (Z.ones 16). rewrite Z.land_ones by lia.
    subst handle. change DD_HANDLE_MAGIC_WORD with (0xA5A5 * 2 ^ 16).
    rewrite Z_mod_plus_full. apply Z.mod_small. unfold DD_MAX_DEV in Hid. lia. }
  assert (Hhigh : Z.land handle DD_HANDLE_MAGIC_MASK = DD_HANDLE_MAGIC_WORD).
  { change DD_HANDLE_MAGIC_MASK with (Z.shiftl (Z.ones 16) 16).
    apply Z.bits_inj'. intros n Hn. rewrite Z.land_spec, Z.shiftl_spec by lia.
    change DD_HANDLE_MAGIC_WORD with (Z.shiftl 0xA5A5 16). rewrite Z.shiftl_spec by lia.
    destruct (decide (n < 16)) as [Hlt|Hge].
    { rewrite !(Z.testbit_neg_r _ (n - 16)) by lia. by rewrite andb_false_r. }
    replace n with (n - 16 + 16) at 1 by lia. rewrite <- Z.shiftr_spec by lia.
    subst handle. rewrite Z.shiftr_div_pow2 by lia.
    change DD_HANDLE_MAGIC_WORD with (0xA5A5 * 2 ^ 16). rewrite Z_div_plus_full by lia.
    rewrite (Z.div_small id) by (unfold DD_MAX_DEV in Hid; lia).
    rewrite <- Z.land_spec. reflexivity. }
  assert (Hget : ddev_get_id_from_handle handle = id).
  { unfold ddev_get_id_from_handle. by rewrite Hhigh, Hlow, Z.eqb_refl. }
  assert (Hne : (id =? DD_ID_UNVALID) = false).
  { apply Z.eqb_neq. change DD_ID_UNVALID with 4294967295. lia. }
  split_and!.
  - unfold ddev_check_handle. rewrite Hlow, (proj2 (Z.ltb_ge _ _)) by lia.
    by rewrite andb_false_r.
  - unfold ddev_control. rewrite Hget, Hne, aget_over by lia. done.
  - unfold ddev_close. rewrite Hget, Hne, aget_over by lia. done.
Qed.

(** [ddev_unregister_dev] of a name that no device of a full table
    starts with runs past the ten slots; [sddev_unregister_dev] of a device
    registered in one of the last six slots never looks there and stops at
    its assertion. *)
Theorem unregister_loop_bounds {W} (s : drv W) (key : cstr) :
  key <> [] -> zlen key <= DD_MAX_NAME_LEN ->
  (zlen (drv_dev_tbl s) = DD_MAX_DEV ->
   (forall i, 0 <= i < DD_MAX_DEV -> dev_match s key i = Done false) ->
   ddev_unregister_dev s (Some key) = Wild) /\
  (forall l i name ops, sdev_rep s l -> DD_MAX_DEV <= Z.of_nat i ->
   l !! i = Some (name, ops) -> name = key ->
   (forall j b, (j < i)%nat -> l !! j = Some b -> strncmp_eq (length key) b.1 key = false) ->
   sddev_unregister_dev s (Some key) = Hang).
Proof.
  intros Hkey Hname. split.
  - intros Hlen Hno. unfold ddev_unregister_dev. rewrite (proj2 (Z.ltb_ge _ _)) by lia.
    rewrite (for_break_wild _ _ _ DD_MAX_DEV); [done|by apply Hno|..|vm_compute; split; congruence].
    unfold dev_match. by rewrite aget_over by lia.
  - intros l i name ops Hrep Hi Hl -> Hb. unfold sddev_unregister_dev.
    rewrite (proj2 (Z.ltb_ge _ _)) by lia. unfold DD_MAX_DEV in *.
    rewrite for_break_none; [done|]. intros j Hj.
    rewrite (sdev_match_spec s l key j Hrep) by (unfold DD_MAX_SDEV; auto; lia).
    destruct (lookup_lt_is_Some_2 l (Z.to_nat j)) as [b E].
    { apply lookup_lt_Some in Hl. lia. }
    rewrite E. by rewrite (Hb (Z.to_nat j) b) by (auto; lia).
Qed.

(** lookups compare the length of the key only, so a device whose name
    is a proper beginning of an earlier one's cannot be reached: the call
    goes to the earlier device. *)
Theorem sddev_prefix_shadows {W} (s : drv W) (l : list (list Z * sdd_operations W))
    (name1 name2 : cstr) (ops1 ops2 : sdd_operations W) (control : _)
    (cmd : Z) (param : list Z) :
  sdev_rep s ((name1, ops1) :: l ++ [(name2, ops2)]) ->
  name2 <> [] -> name2 `prefix_of` name1 -> sop_control ops1 = Some control ->
  sddev_control s (Some name2) cmd param =
    ('(status, param, w) ← control cmd param (drv_world s);
     Done (status, param, set_world s w)).
Proof.
  intros Hrep Hne Hpre Hc. rewrite (sddev_control_spec _ _ _ _ _ Hrep Hne).
  unfold registry_control. cbn. rewrite (proj2 (strncmp_eq_prefix _ _) Hpre), Hc. done.
Qed.

(* ------------------------------------------------------------------ *)
(** ** The properties on concrete drivers *)

(** Drivers over a counter: a control call adds its command to it. *)
Definition count_ops : sdd_operations Z :=
  mk_sdd_ops (Some (fun cmd param w => Done (0, param, w + cmd))).
Definition mute_ops : sdd_operations Z := mk_sdd_ops None.
Definition gate_ops : dd_operations Z :=
  mk_dd_ops (Some (fun flag w => Done (flag, w + 100))) (Some (fun w => Done (w - 1)))
    None None None.

Definition name_spi : cstr := [115; 112; 105].
Definition name_spidma : cstr := [115; 112; 105; 100; 109; 97].
Definition name_icu : cstr := [105; 99; 117].

Definition drv_blank : drv Z := mk_drv [] [] 7.

Lemma sddev_registry_refines_witness :
  exists s', register_all (snd (drv_model_init drv_blank)) [(name_spi, mute_ops); (name_icu, count_ops)]
      = Done s' /\ drv_world s' = 7 /\
    sddev_control s' (Some name_icu) 5 [1] =
      ('(status, param, w) ← registry_control [(name_spi, mute_ops); (name_icu, count_ops)]
          name_icu 5 [1] 7;
       Done (status, param, set_world s' w)).
Proof.
  apply (sddev_registry_refines drv_blank [(name_spi, mute_ops); (name_icu, count_ops)]
    name_icu 5 [1]); [decide_closed|discriminate].
Defined.

Lemma sddev_register_full_witness :
  exists s', register_all (snd (drv_model_init drv_blank)) (replicate 16 (name_spi, mute_ops))
      = Done s' /\ sddev_register_dev s' (Some name_icu) (Some count_ops) = Hang.
Proof.
  apply (sddev_register_full drv_blank (replicate 16 (name_spi, mute_ops)) name_icu count_ops).
  reflexivity.
Defined.

(** One closed device in the third slot. *)
Definition dev_example : drv_dev Z := mk_dev (Some name_spi) 0 DD_STATE_CLOSED (Some gate_ops).
Definition drv_example : drv Z :=
  mk_drv (mk_dev (Some name_icu) 0 DD_STATE_CLOSED (Some gate_ops) ::
          mk_dev (Some [1]) 0 DD_STATE_CLOSED (Some gate_ops) :: dev_example ::
          replicate 7 dev_zero) [] 7.

Lemma ddev_open_close_once_witness :
  exists s1, open_n 3 drv_example name_spi 9 =
      Done ((ddev_make_handle 2, Some 9) ::
            replicate 2 (ddev_make_handle 2, Some DRV_FAILURE), s1) /\
    (forall k, (k <= 2)%nat -> exists sk, close_n k s1 (ddev_make_handle 2) = Done sk /\
       drv_world sk = 107) /\
    close_n 3 s1 (ddev_make_handle 2) =
      Done (upd_dev drv_example 2 (with_cnt dev_example 0 DD_STATE_CLOSED) 106).
Proof.
  eapply (ddev_open_close_once drv_example name_spi 2 dev_example gate_ops);
    try reflexivity; [|decide_closed..].
  split; reflexivity.
Defined.

Lemma ddev_handle_codec_witness :
  (ddev_check_handle 0xA5A50003 = DRV_SUCCESS <->
   exists id, 0 <= id < DD_MAX_DEV /\ 0xA5A50003 = ddev_make_handle id) /\
  (ddev_check_handle 0xA5A50003 = DRV_SUCCESS ->
   ddev_make_handle (ddev_get_id_from_handle 0xA5A50003) = 0xA5A50003 /\
   0 <= ddev_get_id_from_handle 0xA5A50003 < DD_MAX_DEV).
Proof. apply (ddev_handle_codec 0xA5A50003). decide_closed. Defined.

Lemma ddev_forged_handle_wild_witness :
  let handle := 12 + DD_HANDLE_MAGIC_WORD in
  ddev_check_handle handle = DRV_FAILURE /\
  ddev_control drv_example handle 0 [] = Wild /\ ddev_close drv_example handle = Wild.
Proof. apply (ddev_forged_handle_wild drv_example 12 0 []); decide_closed. Defined.

(** Ten devices, and twelve special devices, the last of them [name_spi]. *)
Definition full_example : drv Z :=
  mk_drv (replicate 10 (mk_dev (Some name_icu) 0 DD_STATE_CLOSED (Some gate_ops)))
    (map sdev_of (replicate 11 (name_icu, mute_ops) ++ [(name_spi, count_ops)])
     ++ replicate 4 sdev_zero) 7.

Lemma unregister_loop_bounds_witness :
  ddev_unregister_dev full_example (Some name_spi) = Wild /\
  sddev_unregister_dev full_example (Some name_spi) = Hang.
Proof.
  destruct (unregister_loop_bounds full_example name_spi) as [H1 H2];
    [discriminate|decide_closed|].
  split.
  - apply H1; [reflexivity|]. unfold DD_MAX_DEV. intros i Hi. enum_from i 0 10; reflexivity.
  - eapply (H2 (replicate 11 (name_icu, mute_ops) ++ [(name_spi, count_ops)]) 11%nat);
      [split; [decide_closed|reflexivity]|decide_closed|reflexivity|reflexivity|].
    intros j b Hj. do 11 (destruct j as [|j]; [by intros [= <-]|]). lia.
Defined.

Lemma sddev_prefix_shadows_witness :
  exists s, sdev_rep s [(name_spidma, count_ops); (name_spi, mute_ops)] /\
  sddev_control s (Some name_spi) 5 [] =
    ('(status, param, w) ← Done (0, [], drv_world s + 5);
     Done (status, param, set_world s w)).
Proof.
  set (s := mk_drv [] (map sdev_of [(name_spidma, count_ops); (name_spi, mute_ops)]
     ++ replicate 14 sdev_zero) 7).
  assert (Hrep : sdev_rep s [(name_spidma, count_ops); (name_spi, mute_ops)])
    by (split; [decide_closed|reflexivity]).
  exists s. split; [exact Hrep|].
  apply (sddev_prefix_shadows s [] name_spidma name_spi count_ops mute_ops
    (fun cmd param w => Done (0, param, w + cmd)) 5 []);
    [exact Hrep|discriminate|by exists [100; 109; 97]|reflexivity].
Defined.
