(* ===== verification/RoleLaunch.v ===== *)
(** The role launcher: beken378/func/joint_up/role_launch.c, which queues
    station and access-point requests, starts them one after the other and
    retries from two one-shot timers.

    Entities live on a heap; [g_role_launch] holds four pointers to them.  The
    allocator is an interface ([Malloc]).  The operations of the wireless
    stack a launch calls are recorded, in order, in [wlan].  [int_off] is the
    interrupt mask: GLOBAL_INT_DISABLE saves and sets it, GLOBAL_INT_RESTORE
    puts the saved value back.  FreeRTOS timer commands with an infinite wait
    succeed on a created timer and are [Wild] on a NULL handle. *)

From S2P Require Import Prelude.

Abbreviation ptr := (option positive).

(** LAUNCH_REQ_* *)
Definition LAUNCH_REQ_STA : Z := 1.
Definition LAUNCH_REQ_AP : Z := 2.
Definition LAUNCH_REQ_PURE_STA_SCAN : Z := 3.
Definition LAUNCH_REQ_DELIF_STA : Z := 4.
Definition LAUNCH_REQ_DELIF_AP : Z := 5.

Definition LAUNCH_TYPE_ASAP : Z := 1.
Definition LAUNCH_STATUS_OVER : Z := 0.
Definition LAUNCH_STATUS_CONT : Z := 1.
Definition RET_RL_SUCCESS : Z := 0.
Definition RET_RL_FAILURE : Z := 1.

(** RL_STATUS_* *)
Definition RL_STATUS_CANCEL : Z := 0x8000.
Definition RL_STATUS_UNKNOWN : Z := 0.
Definition RL_STATUS_STA_INITING : Z := 1.
Definition RL_STATUS_STA_SCANNING : Z := 2.
Definition RL_STATUS_STA_SCAN_OVER : Z := 3.
Definition RL_STATUS_STA_CONNECTING : Z := 4.
Definition RL_STATUS_STA_DHCPING : Z := 5.
Definition RL_STATUS_MROLE_CHANNEL_SWITCHING : Z := 6.
Definition RL_STATUS_MROLE_CHANNEL_SWITCHED : Z := 7.
Definition RL_STATUS_STA_LAUNCHED : Z := 9.
Definition RL_STATUS_STA_LAUNCH_FAILED : Z := 10.
Definition RL_STATUS_AP_TRANSMITTED_BCN : Z := 0x14.
Definition RL_STATUS_AP_LAUNCHED : Z := 0x15.

Definition RL_TIMER_UNINIT : Z := 0.
Definition RL_TIMER_INIT : Z := 1.
Definition RL_TIMER_START : Z := 2.
Definition RL_TIMER_STOP : Z := 3.

Definition PRE_ENTITY_IDLE : Z := 0.
Definition PRE_ENTITY_STA : Z := 1.
Definition PRE_ENTITY_AP : Z := 2.

(** A one-shot timer: created, and waiting to fire. *)
Record timer := mk_timer { tm_init : bool; tm_armed : bool }.

Section Data.
Context (DESCR CB : Type).

(** [LAUNCH_REQ]. *)
Record launch_req := mk_req { descr : DESCR; req_type : Z }.

(** [RL_ENTITY_T]. *)
Record rl_entity := mk_entity {
  launch_type : Z;
  relaunch_limit : Z;
  launch_count : Z;
  rlaunch : launch_req;
  completion_cb : CB
}.

(** [RL_T g_role_launch]. *)
Record rl_t := mk_rl {
  enter_timer : timer;
  rl_timer : timer;
  rl_timer_flag : Z;
  pre_entity_type : Z;
  pre_sta_cancel : Z;
  pre_sta_status : Z;
  pre_ap_cancel : Z;
  pre_ap_status : Z;
  jl_previous_sta : ptr;
  jl_following_sta : ptr;
  jl_previous_ap : ptr;
  jl_following_ap : ptr
}.

(** One pending request of a socket or of the cache: the parameter, the
    completion and the flag; [None] is a zeroed one. *)
Definition pending : Type := option (launch_req * CB).

(** What the wireless stack is asked to do. *)
Inductive wlan_call :=
  | bk_wlan_start_sta (d : DESCR)
  | bk_wlan_start_ap (d : DESCR)
  | bk_wlan_stop_station
  | bk_wlan_stop_soft_ap
  | demo_scan_app_init
  | mm_hw_ap_disable.

Record state := mk_state {
  g_role_launch : rl_t;
  sock_sta : pending;
  sock_ap : pending;
  g_sta_cache : pending;
  g_mrole_csa_flag : Z;
  heap : gmap positive rl_entity;
  int_off : bool;
  wlan : list wlan_call
}.
End Data.

Arguments mk_req {DESCR}. Arguments descr {DESCR}. Arguments req_type {DESCR}.
Arguments mk_entity {DESCR CB}. Arguments launch_type {DESCR CB}.
Arguments relaunch_limit {DESCR CB}. Arguments launch_count {DESCR CB}.
Arguments rlaunch {DESCR CB}. Arguments completion_cb {DESCR CB}.
Arguments mk_state {DESCR CB}. Arguments g_role_launch {DESCR CB}.
Arguments sock_sta {DESCR CB}. Arguments sock_ap {DESCR CB}.
Arguments g_sta_cache {DESCR CB}. Arguments g_mrole_csa_flag {DESCR CB}.
Arguments heap {DESCR CB}. Arguments int_off {DESCR CB}. Arguments wlan {DESCR CB}.
Arguments bk_wlan_start_sta {DESCR}. Arguments bk_wlan_start_ap {DESCR}.
Arguments bk_wlan_stop_station {DESCR}. Arguments bk_wlan_stop_soft_ap {DESCR}.
Arguments demo_scan_app_init {DESCR}. Arguments mm_hw_ap_disable {DESCR}.

(** The allocator of objects of type [A]: an address in no use, if any. *)
Class Malloc (A : Type) := {
  os_zalloc : gmap positive A -> option positive;
  os_zalloc_fresh : forall h p, os_zalloc h = Some p -> h !! p = None
}.

(** Field updates of [g_role_launch]. *)
Definition set_enter_timer (t : timer) (g : rl_t) : rl_t :=
  mk_rl t (rl_timer g) (rl_timer_flag g) (pre_entity_type g) (pre_sta_cancel g)
    (pre_sta_status g) (pre_ap_cancel g) (pre_ap_status g) (jl_previous_sta g)
    (jl_following_sta g) (jl_previous_ap g) (jl_following_ap g).
Definition set_rl_timer (t : timer) (g : rl_t) : rl_t :=
  mk_rl (enter_timer g) t (rl_timer_flag g) (pre_entity_type g) (pre_sta_cancel g)
    (pre_sta_status g) (pre_ap_cancel g) (pre_ap_status g) (jl_previous_sta g)
    (jl_following_sta g) (jl_previous_ap g) (jl_following_ap g).
Definition set_timer_flag (n : Z) (g : rl_t) : rl_t :=
  mk_rl (enter_timer g) (rl_timer g) n (pre_entity_type g) (pre_sta_cancel g)
    (pre_sta_status g) (pre_ap_cancel g) (pre_ap_status g) (jl_previous_sta g)
    (jl_following_sta g) (jl_previous_ap g) (jl_following_ap g).
Definition set_entity_type (n : Z) (g : rl_t) : rl_t :=
  mk_rl (enter_timer g) (rl_timer g) (rl_timer_flag g) n (pre_sta_cancel g)
    (pre_sta_status g) (pre_ap_cancel g) (pre_ap_status g) (jl_previous_sta g)
    (jl_following_sta g) (jl_previous_ap g) (jl_following_ap g).
Definition set_sta (cancel status : Z) (g : rl_t) : rl_t :=
  mk_rl (enter_timer g) (rl_timer g) (rl_timer_flag g) (pre_entity_type g) cancel
    status (pre_ap_cancel g) (pre_ap_status g) (jl_previous_sta g)
    (jl_following_sta g) (jl_previous_ap g) (jl_following_ap g).
Definition set_ap (cancel status : Z) (g : rl_t) : rl_t :=
  mk_rl (enter_timer g) (rl_timer g) (rl_timer_flag g) (pre_entity_type g)
    (pre_sta_cancel g) (pre_sta_status g) cancel status (jl_previous_sta g)
    (jl_following_sta g) (jl_previous_ap g) (jl_following_ap g).
Definition set_sta_slots (previous following : ptr) (g : rl_t) : rl_t :=
  mk_rl (enter_timer g) (rl_timer g) (rl_timer_flag g) (pre_entity_type g)
    (pre_sta_cancel g) (pre_sta_status g) (pre_ap_cancel g) (pre_ap_status g) previous
    following (jl_previous_ap g) (jl_following_ap g).
Definition set_ap_slots (previous following : ptr) (g : rl_t) : rl_t :=
  mk_rl (enter_timer g) (rl_timer g) (rl_timer_flag g) (pre_entity_type g)
    (pre_sta_cancel g) (pre_sta_status g) (pre_ap_cancel g) (pre_ap_status g)
    (jl_previous_sta g) (jl_following_sta g) previous following.

Section Code.
Context {DESCR CB : Type} `{Malloc (rl_entity DESCR CB)}.

Abbreviation St := (state DESCR CB).
Abbreviation rl := (prog (state DESCR CB)).

(** Field updates of the whole state. *)
Definition on_rl (f : rl_t -> rl_t) (s : St) : St :=
  mk_state (f (g_role_launch s)) (sock_sta s) (sock_ap s) (g_sta_cache s)
    (g_mrole_csa_flag s) (heap s) (int_off s) (wlan s).
Definition on_heap (f : gmap positive (rl_entity DESCR CB) -> gmap positive (rl_entity DESCR CB))
    (s : St) : St :=
  mk_state (g_role_launch s) (sock_sta s) (sock_ap s) (g_sta_cache s)
    (g_mrole_csa_flag s) (f (heap s)) (int_off s) (wlan s).
Definition set_sock (sta ap : pending DESCR CB) (s : St) : St :=
  mk_state (g_role_launch s) sta ap (g_sta_cache s) (g_mrole_csa_flag s) (heap s)
    (int_off s) (wlan s).
Definition set_cache (c : pending DESCR CB) (s : St) : St :=
  mk_state (g_role_launch s) (sock_sta s) (sock_ap s) c (g_mrole_csa_flag s) (heap s)
    (int_off s) (wlan s).
Definition set_csa (n : Z) (s : St) : St :=
  mk_state (g_role_launch s) (sock_sta s) (sock_ap s) (g_sta_cache s) n (heap s)
    (int_off s) (wlan s).
Definition set_int (b : bool) (s : St) : St :=
  mk_state (g_role_launch s) (sock_sta s) (sock_ap s) (g_sta_cache s)
    (g_mrole_csa_flag s) (heap s) b (wlan s).
Definition log_wlan (c : wlan_call DESCR) (s : St) : St :=
  mk_state (g_role_launch s) (sock_sta s) (sock_ap s) (g_sta_cache s)
    (g_mrole_csa_flag s) (heap s) (int_off s) (wlan s ++ [c]).

Definition getg {A} (f : rl_t -> A) : rl A := gets (fun s => f (g_role_launch s)).
Definition setg (f : rl_t -> rl_t) : rl unit := modify (on_rl f).
Definition assert (b : bool) : rl unit := lift (ASSERT b).

(** GLOBAL_INT_DISABLE saves the mask the matching restore puts back. *)
Definition INT_DISABLE : rl bool := m ← gets int_off; _ ← modify (set_int true); mret m.
Definition INT_RESTORE (m : bool) : rl unit := modify (set_int m).

(** The entity a pointer names. *)
Definition entity_at (p : ptr) : rl (rl_entity DESCR CB) :=
  a ← lift (deref p); h ← gets heap; lift (deref (h !! a)).

(** Timer commands of the FreeRTOS port; the result is kNoErr. *)
Definition start_tm (t : timer) : outcome timer :=
  if tm_init t then Done (mk_timer true true) else Wild.
Definition stop_tm (t : timer) : outcome timer :=
  if tm_init t then Done (mk_timer true false) else Wild.

Definition rl_pre_ap_init : rl unit := setg (set_ap 0 0).
Definition rl_pre_sta_init : rl unit := setg (set_sta 0 0).

Definition rl_sta_request_start (req : launch_req DESCR) : rl unit :=
  if req_type req =? LAUNCH_REQ_STA then
    _ ← rl_pre_sta_init; modify (log_wlan (bk_wlan_start_sta (descr req)))
  else if req_type req =? LAUNCH_REQ_PURE_STA_SCAN then
    _ ← rl_pre_sta_init; modify (log_wlan demo_scan_app_init)
  else if req_type req =? LAUNCH_REQ_DELIF_STA then modify (log_wlan bk_wlan_stop_station)
  else mret tt.

Definition rl_ap_request_start (req : launch_req DESCR) : rl unit :=
  if req_type req =? LAUNCH_REQ_AP then
    _ ← rl_pre_ap_init; modify (log_wlan (bk_wlan_start_ap (descr req)))
  else if req_type req =? LAUNCH_REQ_DELIF_AP then modify (log_wlan bk_wlan_stop_soft_ap)
  else mret tt.

Definition rl_pre_sta_set_cancel : rl unit :=
  status ← getg pre_sta_status; setg (set_sta 1 status).
Definition rl_pre_sta_clear_cancel : rl unit :=
  status ← getg pre_sta_status; setg (set_sta 0 status).
Definition fl_get_pre_sta_cancel_status : rl Z := getg pre_sta_cancel.
Definition rl_pre_ap_set_cancel : rl unit :=
  status ← getg pre_ap_status; setg (set_ap 1 status).
Definition rl_pre_ap_clear_cancel : rl unit :=
  status ← getg pre_ap_status; setg (set_ap 0 status).
Definition fl_get_pre_ap_cancel_status : rl Z := getg pre_ap_cancel.

Definition rl_pre_sta_get_status : rl Z := getg pre_sta_status.
Definition rl_pre_ap_get_status : rl Z := getg pre_ap_status.

Definition rl_init_csa_status : rl Z := _ ← modify (set_csa 0); mret 0.

Definition rl_set_csa_switching : rl Z :=
  sta ← getg pre_sta_cancel; ap ← getg pre_ap_cancel;
  if negb (sta =? 0) || negb (ap =? 0) then mret RET_RL_FAILURE
  else _ ← modify (set_csa RL_STATUS_MROLE_CHANNEL_SWITCHING); mret RET_RL_SUCCESS.

Definition rl_set_csa_switched : rl Z :=
  _ ← modify (set_csa RL_STATUS_MROLE_CHANNEL_SWITCHED); mret RET_RL_SUCCESS.

(** Both [goto set_out] leave without GLOBAL_INT_RESTORE. *)
Definition rl_pre_sta_set_status (status : Z) : rl Z :=
  irq ← INT_DISABLE;
  old ← getg pre_sta_status; cancelled ← getg pre_sta_cancel;
  if (status =? RL_STATUS_STA_SCANNING) &&
     (negb (old =? RL_STATUS_STA_INITING) && negb (old =? RL_STATUS_STA_SCAN_OVER))
  then mret 6
  else if (status =? RL_STATUS_STA_SCANNING) && negb (cancelled =? 0) then mret 8
  else
    _ ← setg (set_sta cancelled status);
    _ ← INT_RESTORE irq; mret cancelled.

Definition rl_pre_ap_disable_autobcn : rl Z :=
  cancel ← getg pre_ap_cancel;
  _ ← when (negb (cancel =? 0)) (modify (log_wlan mm_hw_ap_disable));
  mret cancel.

Definition rl_pre_ap_set_status (status : Z) : rl Z :=
  irq ← INT_DISABLE;
  cancel ← getg pre_ap_cancel;
  _ ← setg (set_ap cancel status);
  _ ← when (negb (cancel =? 0)) (setg (set_ap cancel (u32 (status + RL_STATUS_CANCEL))));
  _ ← INT_RESTORE irq; mret cancel.

Definition rl_sta_may_next_launch : rl Z :=
  csa ← gets g_mrole_csa_flag; cancel ← getg pre_sta_cancel; st ← rl_pre_sta_get_status;
  let yes :=
    if csa =? RL_STATUS_MROLE_CHANNEL_SWITCHED then 1
    else if negb (cancel =? 0) &&
        ((st =? RL_STATUS_STA_DHCPING) || (st =? RL_STATUS_STA_INITING)
         || (st =? RL_STATUS_STA_SCAN_OVER) || (st =? RL_STATUS_STA_CONNECTING)) then 2
    else if st =? RL_STATUS_STA_LAUNCH_FAILED then 3
    else if st =? RL_STATUS_STA_LAUNCHED then 4
    else 0 in
  mret (if csa =? RL_STATUS_MROLE_CHANNEL_SWITCHING then 0 else yes).

Definition rl_sta_is_launched : rl Z :=
  csa ← gets g_mrole_csa_flag; st ← rl_pre_sta_get_status;
  mret (if (csa =? RL_STATUS_MROLE_CHANNEL_SWITCHED) || (st =? RL_STATUS_STA_LAUNCHED)
        then 1 else 0).

(** [& ~RL_STATUS_CANCEL] on 32 bits. *)
Definition rl_ap_may_next_launch (pre_cancel : Z) : rl Z :=
  if pre_cancel =? 0 then mret 1 else
  st ← rl_pre_ap_get_status; csa ← gets g_mrole_csa_flag;
  let yes :=
    if (RL_STATUS_AP_TRANSMITTED_BCN + RL_STATUS_CANCEL =? st)
       || (RL_STATUS_AP_LAUNCHED =? Z.land st (2 ^ 32 - 1 - RL_STATUS_CANCEL))
    then 1 else 0 in
  mret (if csa =? RL_STATUS_MROLE_CHANNEL_SWITCHING then 0 else yes).

Definition rl_pre_sta_stop_launch : rl Z := mret 0.
Definition rl_pre_ap_stop_launch : rl Z := mret 0.

Definition rl_alloc_entity (param : launch_req DESCR) (completion : CB) : rl ptr :=
  h ← gets heap;
  match os_zalloc h with
  | None => _ ← assert false; mret None
  | Some p =>
      _ ← modify (on_heap (<[p := mk_entity LAUNCH_TYPE_ASAP 0 0 param completion]>));
      mret (Some p)
  end.

(** [os_free]: freeing NULL does nothing, a dead object is [Wild]. *)
Definition rl_free_entity (d : ptr) : rl unit :=
  match d with
  | None => mret tt
  | Some p => h ← gets heap; _ ← lift (deref (h !! p)); modify (on_heap (delete p))
  end.

Definition rl_start : rl unit :=
  t ← getg rl_timer;
  t ← lift (stop_tm t); _ ← setg (set_rl_timer t); _ ← setg (set_timer_flag RL_TIMER_STOP);
  t ← lift (start_tm t); _ ← setg (set_rl_timer t); setg (set_timer_flag RL_TIMER_START).

Definition rl_stop : rl unit :=
  t ← getg rl_timer; t ← lift (stop_tm t); _ ← setg (set_rl_timer t);
  t ← getg enter_timer; t ← lift (stop_tm t); _ ← setg (set_enter_timer t);
  setg (set_timer_flag RL_TIMER_STOP).

Definition rl_init : rl unit :=
  _ ← setg (set_rl_timer (mk_timer true false));
  _ ← setg (set_enter_timer (mk_timer true false));
  setg (set_timer_flag RL_TIMER_INIT).

Definition rl_uninit : rl unit :=
  flag ← getg rl_timer_flag;
  _ ← when (flag =? RL_TIMER_START) rl_stop;
  t ← getg rl_timer; _ ← lift (stop_tm t); _ ← setg (set_rl_timer (mk_timer false false));
  t ← getg enter_timer; _ ← lift (stop_tm t); _ ← setg (set_enter_timer (mk_timer false false));
  setg (set_timer_flag RL_TIMER_UNINIT).

Definition rl_relaunch_chance : rl Z :=
  t ← getg rl_timer;
  _ ← assert (tm_init t);
  t ← lift (start_tm t); _ ← setg (set_rl_timer t); mret 0.

Definition rl_sta_req_is_null : rl Z :=
  irq ← INT_DISABLE;
  p ← getg jl_previous_sta; f ← getg jl_following_sta;
  _ ← INT_RESTORE irq;
  mret (if bool_decide (p = None) && bool_decide (f = None) then 1 else 0).

(** The pre-emption test at the head of both launch functions: a waiting
    request that is "as soon as possible", or a spent relaunch count. *)
Definition launch_asap (following : ptr) : rl bool :=
  match following with
  | None => mret false
  | Some _ => e ← entity_at following; mret (launch_type e =? LAUNCH_TYPE_ASAP)
  end.
Definition launch_spent (previous : ptr) : rl bool :=
  e ← entity_at previous;
  mret (negb (relaunch_limit e =? 0) && (relaunch_limit e <=? launch_count e)).

Definition rl_launch_sta : rl Z :=
  previous ← getg jl_previous_sta; following ← getg jl_following_sta;
  match previous with
  | None =>
      match following with
      | None => mret LAUNCH_STATUS_OVER
      | Some _ =>
          _ ← setg (set_sta_slots following None);
          e ← entity_at following; _ ← rl_sta_request_start (rlaunch e);
          mret LAUNCH_STATUS_CONT
      end
  | Some _ =>
      asap ← launch_asap following; _ ← when asap rl_pre_sta_set_cancel;
      spent ← launch_spent previous; _ ← when spent rl_pre_sta_set_cancel;
      next_launch_flag ← rl_sta_may_next_launch;
      if next_launch_flag =? 0 then mret LAUNCH_STATUS_CONT else
      _ ← rl_pre_sta_stop_launch;
      _ ← rl_free_entity previous;
      _ ← setg (set_sta_slots following None);
      match following with
      | None => mret LAUNCH_STATUS_OVER
      | Some _ =>
          e ← entity_at following; _ ← rl_sta_request_start (rlaunch e);
          mret LAUNCH_STATUS_CONT
      end
  end.

Definition rl_launch_ap : rl Z :=
  previous ← getg jl_previous_ap; following ← getg jl_following_ap;
  match previous with
  | None =>
      match following with
      | None => mret LAUNCH_STATUS_OVER
      | Some _ =>
          _ ← setg (set_ap_slots following None);
          _ ← rl_pre_ap_init;
          e ← entity_at following; _ ← rl_ap_request_start (rlaunch e);
          mret LAUNCH_STATUS_CONT
      end
  | Some _ =>
      asap ← launch_asap following; _ ← when asap rl_pre_ap_set_cancel;
      spent ← launch_spent previous; _ ← when spent rl_pre_ap_set_cancel;
      let cancel_pre_flag := if asap || spent then 1 else 0 in
      next_launch_flag ← rl_ap_may_next_launch cancel_pre_flag;
      if next_launch_flag =? 0 then mret LAUNCH_STATUS_CONT else
      _ ← rl_pre_ap_stop_launch;
      _ ← rl_free_entity previous;
      _ ← setg (set_ap_slots following None);
      match following with
      | None => mret LAUNCH_STATUS_OVER
      | Some _ =>
          _ ← rl_pre_ap_init;
          e ← entity_at following; _ ← rl_ap_request_start (rlaunch e);
          mret LAUNCH_STATUS_CONT
      end
  end.

(** [pre_entity_type] takes the role of the first entity ever made. *)
Definition mark_entity (entity : ptr) (type : Z) : rl unit :=
  t ← getg pre_entity_type;
  when (bool_decide (is_Some entity) && (t =? PRE_ENTITY_IDLE)) (setg (set_entity_type type)).

Definition _sta_request_enter (param : launch_req DESCR) (completion : CB) : rl Z :=
  irq ← INT_DISABLE;
  pa ← getg jl_previous_ap; ps ← getg jl_previous_sta; fs ← getg jl_following_sta;
  '(ret, entity) ←
    (if bool_decide (pa = None) && bool_decide (ps = None) then
       entity ← rl_alloc_entity param completion;
       _ ← setg (set_sta_slots entity fs);
       _ ← rl_sta_request_start param;
       mret (1, entity)
     else if bool_decide (fs = None) then
       entity ← rl_alloc_entity param completion;
       _ ← setg (set_sta_slots ps entity);
       _ ← rl_start;
       mret (2, entity)
     else _ ← rl_start; mret (0, None));
  _ ← mark_entity entity PRE_ENTITY_STA;
  _ ← INT_RESTORE irq; mret ret.

Definition _ap_request_enter (param : launch_req DESCR) (completion : CB) : rl Z :=
  irq ← INT_DISABLE;
  pa ← getg jl_previous_ap; ps ← getg jl_previous_sta; fa ← getg jl_following_ap;
  '(ret, entity) ←
    (if bool_decide (pa = None) && bool_decide (ps = None) then
       entity ← rl_alloc_entity param completion;
       _ ← setg (set_ap_slots entity fa);
       _ ← rl_ap_request_start param;
       mret (1, entity)
     else if bool_decide (fa = None) then
       entity ← rl_alloc_entity param completion;
       _ ← setg (set_ap_slots pa entity);
       _ ← rl_start;
       mret (2, entity)
     else _ ← rl_start; mret (0, None));
  _ ← mark_entity entity PRE_ENTITY_AP;
  _ ← INT_RESTORE irq; mret ret.

(** [tmp_ok]: whether the copy of the two requests could be allocated. *)
Definition rl_enter_handler (tmp_ok : bool) : rl unit :=
  if negb tmp_ok then mret tt else
  irq ← INT_DISABLE;
  sta ← gets sock_sta; ap ← gets sock_ap;
  _ ← modify (set_sock None None);
  _ ← INT_RESTORE irq;
  _ ← match sta with
      | Some (param, completion) =>
          ret ← _sta_request_enter param completion;
          when (negb (ret =? 0)) (modify (set_cache (Some (param, completion))))
      | None => mret tt
      end;
  match ap with
  | Some (param, completion) => _ ← _ap_request_enter param completion; mret tt
  | None => mret tt
  end.

Definition rl_sta_request_enter (param : launch_req DESCR) (completion : CB) : rl unit :=
  irq ← INT_DISABLE;
  ap ← gets sock_ap; _ ← modify (set_sock (Some (param, completion)) ap);
  t ← getg enter_timer;
  t ← lift (stop_tm t); t ← lift (start_tm t); _ ← setg (set_enter_timer t);
  INT_RESTORE irq.

Definition rl_ap_request_enter (param : launch_req DESCR) (completion : CB) : rl unit :=
  irq ← INT_DISABLE;
  sta ← gets sock_sta; _ ← modify (set_sock sta (Some (param, completion)));
  t ← getg enter_timer;
  t ← lift (stop_tm t); t ← lift (start_tm t); _ ← setg (set_enter_timer t);
  INT_RESTORE irq.

(** [monitor]: the answer of [bk_wlan_is_monitor_mode]. *)
Definition rl_sta_cache_request_enter (monitor : bool) : rl Z :=
  irq ← INT_DISABLE;
  c ← gets g_sta_cache;
  ret ← match c with
        | Some (param, completion) =>
            if monitor then mret 0
            else _ ← rl_sta_request_enter param completion; mret 1
        | None => mret 0
        end;
  _ ← modify (set_cache None);
  _ ← INT_RESTORE irq; mret ret.

Definition rl_launch_handler : rl unit :=
  type ← getg pre_entity_type;
  '(ap_ret, sta_ret) ←
    (if type =? PRE_ENTITY_AP then
       ap_ret ← rl_launch_ap;
       if ap_ret =? LAUNCH_STATUS_OVER then
         _ ← setg (set_entity_type PRE_ENTITY_STA);
         sta_ret ← rl_launch_sta; mret (ap_ret, sta_ret)
       else mret (ap_ret, LAUNCH_STATUS_OVER)
     else if type =? PRE_ENTITY_STA then
       sta_ret ← rl_launch_sta;
       if sta_ret =? LAUNCH_STATUS_OVER then
         _ ← setg (set_entity_type PRE_ENTITY_AP);
         ap_ret ← rl_launch_ap; mret (ap_ret, sta_ret)
       else mret (LAUNCH_STATUS_OVER, sta_ret)
     else mret (LAUNCH_STATUS_OVER, LAUNCH_STATUS_OVER));
  when (negb ((sta_ret =? LAUNCH_STATUS_OVER) && (ap_ret =? LAUNCH_STATUS_OVER)))
    (_ ← rl_relaunch_chance; mret tt).
End Code.

Arguments rl_launch_sta : simpl never.
Arguments rl_launch_ap : simpl never.
Arguments rl_start : simpl never.
Arguments rl_alloc_entity : simpl never.
Arguments rl_free_entity : simpl never.
Arguments rl_sta_request_start : simpl never.
Arguments rl_ap_request_start : simpl never.
Arguments _sta_request_enter : simpl never.
Arguments _ap_request_enter : simpl never.
Arguments rl_sta_request_enter : simpl never.
Arguments rl_sta_may_next_launch : simpl never.
Arguments rl_ap_may_next_launch : simpl never.
Arguments rl_relaunch_chance : simpl never.
Arguments launch_asap : simpl never.
Arguments launch_spent : simpl never.
Arguments mark_entity : simpl never.

(* ------------------------------------------------------------------ *)
(** ** The launcher as a reactive system *)

(** What can happen to the launcher once it is initialised: requests, status
    reports of the stack, the two timers firing.  A timer that is not armed
    does not fire. *)
Inductive rl_event (DESCR CB : Type) :=
  | Ev_sta_request (param : launch_req DESCR) (completion : CB)
  | Ev_ap_request (param : launch_req DESCR) (completion : CB)
  | Ev_sta_cached_request (monitor : bool)
  | Ev_sta_status (status : Z)
  | Ev_ap_status (status : Z)
  | Ev_sta_cancel (on : bool)
  | Ev_ap_cancel (on : bool)
  | Ev_csa_init
  | Ev_csa_switching
  | Ev_csa_switched
  | Ev_disable_autobcn
  | Ev_enter_timer (tmp_ok : bool)
  | Ev_rl_timer.

Arguments Ev_sta_request {DESCR CB}. Arguments Ev_ap_request {DESCR CB}.
Arguments Ev_sta_cached_request {DESCR CB}. Arguments Ev_sta_status {DESCR CB}.
Arguments Ev_ap_status {DESCR CB}. Arguments Ev_sta_cancel {DESCR CB}.
Arguments Ev_ap_cancel {DESCR CB}. Arguments Ev_csa_init {DESCR CB}.
Arguments Ev_csa_switching {DESCR CB}. Arguments Ev_csa_switched {DESCR CB}.
Arguments Ev_disable_autobcn {DESCR CB}. Arguments Ev_enter_timer {DESCR CB}.
Arguments Ev_rl_timer {DESCR CB}.

Section Events.
Context {DESCR CB : Type} `{Malloc (rl_entity DESCR CB)}.

Abbreviation rl := (prog (state DESCR CB)).

Definition discard {A} (m : rl A) : rl unit := _ ← m; mret tt.

Definition fire_enter (tmp_ok : bool) : rl unit :=
  t ← getg enter_timer;
  when (tm_armed t)
    (_ ← setg (set_enter_timer (mk_timer (tm_init t) false)); rl_enter_handler tmp_ok).

Definition fire_rl : rl unit :=
  t ← getg rl_timer;
  when (tm_armed t)
    (_ ← setg (set_rl_timer (mk_timer (tm_init t) false)); rl_launch_handler).

Definition rl_step (e : rl_event DESCR CB) : rl unit :=
  match e with
  | Ev_sta_request param completion => rl_sta_request_enter param completion
  | Ev_ap_request param completion => rl_ap_request_enter param completion
  | Ev_sta_cached_request monitor => discard (rl_sta_cache_request_enter monitor)
  | Ev_sta_status status => discard (rl_pre_sta_set_status status)
  | Ev_ap_status status => discard (rl_pre_ap_set_status status)
  | Ev_sta_cancel on => if on then rl_pre_sta_set_cancel else rl_pre_sta_clear_cancel
  | Ev_ap_cancel on => if on then rl_pre_ap_set_cancel else rl_pre_ap_clear_cancel
  | Ev_csa_init => discard rl_init_csa_status
  | Ev_csa_switching => discard rl_set_csa_switching
  | Ev_csa_switched => discard rl_set_csa_switched
  | Ev_disable_autobcn => discard rl_pre_ap_disable_autobcn
  | Ev_enter_timer tmp_ok => fire_enter tmp_ok
  | Ev_rl_timer => fire_rl
  end.

Fixpoint rl_run (es : list (rl_event DESCR CB)) : rl unit :=
  match es with
  | [] => mret tt
  | e :: es' => _ ← rl_step e; rl_run es'
  end.

(** The zeroed globals. *)
Definition rl_zero : state DESCR CB :=
  mk_state (mk_rl (mk_timer false false) (mk_timer false false) 0 0 0 0 0 0 None None None None)
    None None None 0 ∅ false [].

(* ------------------------------------------------------------------ *)
(** ** The abstract launcher of one role *)

Definition slots (g : rl_t) : list positive :=
  omap id [jl_previous_sta g; jl_following_sta g; jl_previous_ap g; jl_following_ap g].

(** The request behind a pointer. *)
Definition request_of (s : state DESCR CB) (p : ptr) : option (launch_req DESCR) :=
  rlaunch <$> (p ≫= fun a => heap s !! a).

Definition launch_status (started : option (launch_req DESCR)) : Z :=
  match started with Some _ => LAUNCH_STATUS_CONT | None => LAUNCH_STATUS_OVER end.

(** What one launch step means for a running and a waiting request, [may]
    telling whether the running one may be replaced: the new pair, the
    request to start and the answer "continue". *)
Definition launch_spec (may : bool) (running queued : option (launch_req DESCR))
    : option (launch_req DESCR) * option (launch_req DESCR) * option (launch_req DESCR) * Z :=
  match running with
  | Some _ => if may then (queued, None, queued, launch_status queued)
              else (running, queued, None, LAUNCH_STATUS_CONT)
  | None => (queued, None, queued, launch_status queued)
  end.

(** The stack calls that start a request. *)
Definition sta_calls (r : option (launch_req DESCR)) : list (wlan_call DESCR) :=
  match r with
  | None => []
  | Some q =>
      if req_type q =? LAUNCH_REQ_STA then [bk_wlan_start_sta (descr q)]
      else if req_type q =? LAUNCH_REQ_PURE_STA_SCAN then [demo_scan_app_init]
      else if req_type q =? LAUNCH_REQ_DELIF_STA then [bk_wlan_stop_station]
      else []
  end.
Definition ap_calls (r : option (launch_req DESCR)) : list (wlan_call DESCR) :=
  match r with
  | None => []
  | Some q =>
      if req_type q =? LAUNCH_REQ_AP then [bk_wlan_start_ap (descr q)]
      else if req_type q =? LAUNCH_REQ_DELIF_AP then [bk_wlan_stop_soft_ap]
      else []
  end.

(** When the running station may be replaced: a waiting request cancels it. *)
Definition sta_may (s : state DESCR CB) : bool :=
  let g := g_role_launch s in
  let cancelled := bool_decide (is_Some (jl_following_sta g)) || negb (pre_sta_cancel g =? 0) in
  let st := pre_sta_status g in
  if g_mrole_csa_flag s =? RL_STATUS_MROLE_CHANNEL_SWITCHING then false else
  (g_mrole_csa_flag s =? RL_STATUS_MROLE_CHANNEL_SWITCHED)
  || (cancelled && ((st =? RL_STATUS_STA_DHCPING) || (st =? RL_STATUS_STA_INITING)
        || (st =? RL_STATUS_STA_SCAN_OVER) || (st =? RL_STATUS_STA_CONNECTING)))
  || (st =? RL_STATUS_STA_LAUNCH_FAILED) || (st =? RL_STATUS_STA_LAUNCHED).

(** When the running access point may be replaced. *)
Definition ap_may (s : state DESCR CB) : bool :=
  let g := g_role_launch s in
  let st := pre_ap_status g in
  match jl_following_ap g with
  | None => true
  | Some _ =>
      negb (g_mrole_csa_flag s =? RL_STATUS_MROLE_CHANNEL_SWITCHING) &&
      ((RL_STATUS_AP_TRANSMITTED_BCN + RL_STATUS_CANCEL =? st)
       || (RL_STATUS_AP_LAUNCHED =? Z.land st (2 ^ 32 - 1 - RL_STATUS_CANCEL)))
  end.

(** The invariant: the four slots own the entities, every live entity is an
    ASAP one without relaunch limit, the timers exist, the role to serve
    first is chosen once there is an entity, and a waiting request has the
    launch timer armed. *)
Record rl_core (s : state DESCR CB) : Prop := {
  rc_nodup : NoDup (slots (g_role_launch s));
  rc_dom : forall p, is_Some (heap s !! p) <-> p ∈ slots (g_role_launch s);
  rc_asap : forall p e, heap s !! p = Some e ->
    launch_type e = LAUNCH_TYPE_ASAP /\ relaunch_limit e = 0;
  rc_rl_timer : tm_init (rl_timer (g_role_launch s)) = true;
  rc_enter_timer : tm_init (enter_timer (g_role_launch s)) = true;
  rc_type : pre_entity_type (g_role_launch s) = PRE_ENTITY_STA \/
    pre_entity_type (g_role_launch s) = PRE_ENTITY_AP \/
    pre_entity_type (g_role_launch s) = PRE_ENTITY_IDLE /\ slots (g_role_launch s) = []
}.

Definition waiting (g : rl_t) : Prop := jl_following_sta g <> None \/ jl_following_ap g <> None.

Definition rl_inv (s : state DESCR CB) : Prop :=
  rl_core s /\ (waiting (g_role_launch s) -> tm_armed (rl_timer (g_role_launch s)) = true).

(** Everything a launch of one role leaves alone. *)
Definition same_env (s s' : state DESCR CB) : Prop :=
  sock_sta s' = sock_sta s /\ sock_ap s' = sock_ap s /\ g_sta_cache s' = g_sta_cache s /\
  g_mrole_csa_flag s' = g_mrole_csa_flag s /\ int_off s' = int_off s /\
  rl_timer (g_role_launch s') = rl_timer (g_role_launch s) /\
  enter_timer (g_role_launch s') = enter_timer (g_role_launch s) /\
  pre_entity_type (g_role_launch s') = pre_entity_type (g_role_launch s).

Definition sta_view (s : state DESCR CB) :=
  (request_of s (jl_previous_sta (g_role_launch s)),
   request_of s (jl_following_sta (g_role_launch s))).
Definition ap_view (s : state DESCR CB) :=
  (request_of s (jl_previous_ap (g_role_launch s)),
   request_of s (jl_following_ap (g_role_launch s))).
End Events.

(* ------------------------------------------------------------------ *)
(** ** Lemmas *)

Section Lemmas.
Context {DESCR CB : Type} `{Malloc (rl_entity DESCR CB)}.
Implicit Types (s : state DESCR CB).

Lemma slots_at s p : rl_core s -> p ∈ slots (g_role_launch s) ->
  exists e, heap s !! p = Some e /\ launch_type e = LAUNCH_TYPE_ASAP /\ relaunch_limit e = 0.
Proof.
  intros [_ Hdom Hasap _ _ _] Hp. apply Hdom in Hp as [e E]. exists e. split; [done|eauto].
Qed.

Lemma rl_sta_request_start_calls req s :
  exists cancel status, rl_sta_request_start req s =
    Done (tt, mk_state (set_sta cancel status (g_role_launch s)) (sock_sta s) (sock_ap s)
      (g_sta_cache s) (g_mrole_csa_flag s) (heap s) (int_off s)
      (wlan s ++ sta_calls (Some req))).
Proof.
  unfold rl_sta_request_start, rl_pre_sta_init, setg, modify, sta_calls. destruct s as [[]]; cbn.
  repeat case_match; cbn; rewrite ?app_nil_r; by eexists _, _.
Qed.

Lemma rl_ap_request_start_calls req s :
  exists cancel status, rl_ap_request_start req s =
    Done (tt, mk_state (set_ap cancel status (g_role_launch s)) (sock_sta s) (sock_ap s)
      (g_sta_cache s) (g_mrole_csa_flag s) (heap s) (int_off s)
      (wlan s ++ ap_calls (Some req))).
Proof.
  unfold rl_ap_request_start, rl_pre_ap_init, setg, modify, ap_calls. destruct s as [[]]; cbn.
  repeat case_match; cbn; rewrite ?app_nil_r; by eexists _, _.
Qed.

Lemma rl_sta_may_next_launch_spec s :
  exists r, rl_sta_may_next_launch s = Done (r, s) /\
   (r =? 0) = negb (let g := g_role_launch s in
    let st := pre_sta_status g in
    if g_mrole_csa_flag s =? RL_STATUS_MROLE_CHANNEL_SWITCHING then false else
    (g_mrole_csa_flag s =? RL_STATUS_MROLE_CHANNEL_SWITCHED)
    || (negb (pre_sta_cancel g =? 0) &&
        ((st =? RL_STATUS_STA_DHCPING) || (st =? RL_STATUS_STA_INITING)
        || (st =? RL_STATUS_STA_SCAN_OVER) || (st =? RL_STATUS_STA_CONNECTING)))
    || (st =? RL_STATUS_STA_LAUNCH_FAILED) || (st =? RL_STATUS_STA_LAUNCHED)).
Proof.
  unfold rl_sta_may_next_launch. cbn. eexists. split; [reflexivity|].
  repeat case_match; cbn in *; rewrite ?orb_true_r in *; try done.
  all: repeat match goal with H : ?b = _ |- context [?b] => rewrite H end; done.
Qed.

Lemma run_getg {A B} (f : rl_t -> A) (k : A -> prog (state DESCR CB) B) s :
  (getg f ≫= k) s = k (f (g_role_launch s)) s.
Proof. reflexivity. Qed.

Lemma run_setg {B} (f : rl_t -> rl_t) (k : unit -> prog (state DESCR CB) B) s :
  (setg f ≫= k) s = k tt (on_rl f s).
Proof. reflexivity. Qed.

Lemma entity_at_in s p e :
  heap s !! p = Some e -> entity_at (Some p) s = Done (e, s).
Proof. intros E. unfold entity_at. cbn [deref]. prog_run. by rewrite E. Qed.

#[local] Hint Rewrite @run_getg @run_setg : prog.

(** Under the invariant a waiting request always pre-empts, and no running
    one has spent its launches. *)
Lemma launch_asap_spec s p :
  rl_core s -> (forall a, p = Some a -> a ∈ slots (g_role_launch s)) ->
  launch_asap p s = Done (bool_decide (is_Some p), s).
Proof.
  intros Hc Hp. unfold launch_asap. destruct p as [a|]; [|done].
  destruct (slots_at s a Hc (Hp a eq_refl)) as (e & E & Ht & _).
  rewrite (run_bind _ _ s e s) by by apply entity_at_in. rewrite Ht. done.
Qed.

Lemma launch_spent_spec s a :
  rl_core s -> a ∈ slots (g_role_launch s) -> launch_spent (Some a) s = Done (false, s).
Proof.
  intros Hc Hp. unfold launch_spent. destruct (slots_at s a Hc Hp) as (e & E & _ & Hl).
  rewrite (run_bind _ _ s e s) by by apply entity_at_in. by rewrite Hl.
Qed.

(** Changing the cancel flag and the status of a role keeps the invariant. *)
Lemma core_set_sta s c t : rl_core s -> rl_core (on_rl (set_sta c t) s).
Proof. by intros [? ? ? ? ? ?]; split. Qed.

Lemma core_set_ap s c t : rl_core s -> rl_core (on_rl (set_ap c t) s).
Proof. by intros [? ? ? ? ? ?]; split. Qed.

(** The station side once the pre-emption tests have been made. *)
Definition sta_cancelled s : state DESCR CB :=
  let g := g_role_launch s in
  match jl_following_sta g with
  | Some _ => on_rl (set_sta 1 (pre_sta_status g)) s
  | None => s
  end.

Definition ap_cancelled s : state DESCR CB :=
  let g := g_role_launch s in
  match jl_following_ap g with
  | Some _ => on_rl (set_ap 1 (pre_ap_status g)) s
  | None => s
  end.

Lemma sta_may_cancelled s :
  exists r, rl_sta_may_next_launch (sta_cancelled s) = Done (r, sta_cancelled s) /\
    (r =? 0) = negb (sta_may s).
Proof.
  destruct (rl_sta_may_next_launch_spec (sta_cancelled s)) as (r & E & Hr).
  exists r. split; [done|]. rewrite Hr. unfold sta_cancelled, sta_may.
  by destruct (jl_following_sta (g_role_launch s)).
Qed.

Lemma slots_member s a :
  (jl_previous_sta (g_role_launch s) = Some a \/ jl_following_sta (g_role_launch s) = Some a \/
   jl_previous_ap (g_role_launch s) = Some a \/ jl_following_ap (g_role_launch s) = Some a) ->
  a ∈ slots (g_role_launch s).
Proof.
  unfold slots. rewrite list_elem_of_omap. intros Ha.
  exists (Some a). split; [|done]. rewrite !elem_of_cons.
  destruct Ha as [-> | [-> | [-> | ->]]]; auto.
Qed.

(** Moving, releasing and acquiring an entity keeps the invariant. *)
Lemma core_move s s' :
  rl_core s -> slots (g_role_launch s') ≡ₚ slots (g_role_launch s) -> heap s' = heap s ->
  tm_init (rl_timer (g_role_launch s')) = true -> tm_init (enter_timer (g_role_launch s')) = true ->
  (pre_entity_type (g_role_launch s') = pre_entity_type (g_role_launch s) \/
   pre_entity_type (g_role_launch s') = PRE_ENTITY_STA \/
   pre_entity_type (g_role_launch s') = PRE_ENTITY_AP) -> rl_core s'.
Proof.
  intros [Hnd Hdom Has Ht1 Ht2 Hty] Hp Hh H1 H2 H3. split; rewrite ?Hh; auto.
  - by rewrite Hp.
  - intros p. by rewrite Hp.
  - destruct H3 as [-> | [-> | ->]]; auto. destruct Hty as [-> | [-> | [-> E]]]; auto.
    right; right. split; [done|]. rewrite E in Hp. by apply Permutation_nil_r.
Qed.

Lemma core_free s s' p :
  rl_core s -> slots (g_role_launch s) ≡ₚ p :: slots (g_role_launch s') ->
  heap s' = delete p (heap s) ->
  rl_timer (g_role_launch s') = rl_timer (g_role_launch s) ->
  enter_timer (g_role_launch s') = enter_timer (g_role_launch s) ->
  pre_entity_type (g_role_launch s') = pre_entity_type (g_role_launch s) -> rl_core s'.
Proof.
  intros [Hnd Hdom Has Ht1 Ht2 Hty] Hp Hh H1 H2 H3.
  rewrite Hp in Hnd. apply NoDup_cons in Hnd as [Hn Hnd].
  split; rewrite ?Hh, ?H1, ?H2, ?H3; auto.
  - intros q. specialize (Hdom q). rewrite Hp, elem_of_cons in Hdom.
    destruct (decide (q = p)) as [->|Hne].
    + rewrite lookup_delete_eq. split; [by intros [? ?]|done].
    + rewrite lookup_delete_ne by done. rewrite Hdom. split; [|by right]. by intros [?|?].
  - intros q e. rewrite lookup_delete_Some. intros [_ E]. eauto.
  - destruct Hty as [?|[?|[? E]]]; auto. rewrite E in Hp.
    by apply Permutation_sym, Permutation_nil_r in Hp.
Qed.

Lemma core_alloc s s' p e :
  rl_core s -> slots (g_role_launch s') ≡ₚ p :: slots (g_role_launch s) ->
  heap s !! p = None -> heap s' = <[p := e]> (heap s) ->
  launch_type e = LAUNCH_TYPE_ASAP -> relaunch_limit e = 0 ->
  tm_init (rl_timer (g_role_launch s')) = true -> tm_init (enter_timer (g_role_launch s')) = true ->
  (pre_entity_type (g_role_launch s') = PRE_ENTITY_STA \/
   pre_entity_type (g_role_launch s') = PRE_ENTITY_AP) -> rl_core s'.
Proof.
  intros [Hnd Hdom Has Ht1 Ht2 Hty] Hp Hn Hh He1 He2 H1 H2 H3.
  assert (Hnin : p ∉ slots (g_role_launch s)).
  { rewrite <- Hdom, Hn. by intros [? ?]. }
  split; rewrite ?Hh; auto.
  - rewrite Hp. by apply NoDup_cons.
  - intros q. rewrite Hp, elem_of_cons, <- Hdom. destruct (decide (q = p)) as [->|Hne].
    + rewrite lookup_insert_eq. split; [by left|eauto].
    + rewrite lookup_insert_ne by done. split; [by right|]. by intros [?|?].
  - intros q e'. rewrite lookup_insert_Some. intros [[_ <-]|[_ E]]; eauto.
  - destruct H3; auto.
Qed.

Lemma request_live s p : rl_core s -> p ∈ slots (g_role_launch s) ->
  exists e, heap s !! p = Some e /\ request_of s (Some p) = Some (rlaunch e).
Proof.
  intros Hc Hp. destruct (slots_at s p Hc Hp) as (e & E & _). exists e. split; [done|].
  unfold request_of. cbn. by rewrite E.
Qed.

Lemma request_of_delete s s' p q :
  heap s' = delete p (heap s) -> q <> Some p -> request_of s' q = request_of s q.
Proof.
  intros Hh Hne. unfold request_of. destruct q as [a|]; [|done]. cbn.
  rewrite Hh, lookup_delete_ne by congruence. done.
Qed.

Lemma request_of_heap s s' q : heap s' = heap s -> request_of s' q = request_of s q.
Proof. intros Hh. unfold request_of. by rewrite Hh. Qed.

Lemma slots_distinct s p : rl_core s ->
  jl_previous_sta (g_role_launch s) = Some p ->
  jl_following_sta (g_role_launch s) <> Some p /\ jl_previous_ap (g_role_launch s) <> Some p /\
  jl_following_ap (g_role_launch s) <> Some p.
Proof.
  intros [Hnd _ _ _ _ _] Hp. unfold slots in Hnd. cbn in Hnd. rewrite Hp in Hnd. cbn in Hnd.
  apply NoDup_cons in Hnd as [Hn _].
  split_and!; intros E; apply Hn; rewrite E; cbn;
    repeat case_match; rewrite ?elem_of_cons; auto.
Qed.

Lemma slots_distinct_ap s p : rl_core s ->
  jl_previous_ap (g_role_launch s) = Some p ->
  jl_following_ap (g_role_launch s) <> Some p /\ jl_previous_sta (g_role_launch s) <> Some p /\
  jl_following_sta (g_role_launch s) <> Some p.
Proof.
  intros [Hnd _ _ _ _ _] Hp. unfold slots in Hnd. cbn in Hnd. rewrite Hp in Hnd. cbn in Hnd.
  split_and!; intros E; rewrite E in Hnd; cbn in Hnd;
    repeat case_match; rewrite ?NoDup_cons, ?elem_of_cons in Hnd; intuition congruence.
Qed.

Lemma rl_free_entity_run s p : rl_core s -> p ∈ slots (g_role_launch s) ->
  rl_free_entity (Some p) s = Done (tt, on_heap (delete p) s).
Proof.
  intros Hc Hp. destruct (slots_at s p Hc Hp) as (e & E & _).
  unfold rl_free_entity. prog_run. rewrite E. by cbn [deref]; prog_run.
Qed.

(** What a launch step of the stations leaves, against [launch_spec]. *)
Definition sta_launched s s' (r : Z) : Prop :=
  let '(running, queued, started, ret) :=
    launch_spec (sta_may s) (fst (sta_view s)) (snd (sta_view s)) in
  r = ret /\ sta_view s' = (running, queued) /\ ap_view s' = ap_view s /\
  wlan s' = wlan s ++ sta_calls started /\ same_env s s' /\ rl_core s' /\
  jl_previous_ap (g_role_launch s') = jl_previous_ap (g_role_launch s) /\
  jl_following_ap (g_role_launch s') = jl_following_ap (g_role_launch s).

(** Starting the waiting station, the slot of the running one being free. *)
Lemma sta_promote s s0 f :
  rl_core s -> jl_previous_sta (g_role_launch s) = f -> jl_following_sta (g_role_launch s) = None ->
  exists s', (match f with
     | None => mret LAUNCH_STATUS_OVER
     | Some _ => e ← entity_at f; _ ← rl_sta_request_start (rlaunch e); mret LAUNCH_STATUS_CONT
     end) s = Done (launch_status (request_of s f), s') /\
    sta_view s' = (request_of s f, None) /\ ap_view s' = ap_view s /\
    wlan s' = wlan s ++ sta_calls (request_of s f) /\
    (same_env s0 s -> same_env s0 s') /\ rl_core s' /\
    jl_previous_ap (g_role_launch s') = jl_previous_ap (g_role_launch s) /\
    jl_following_ap (g_role_launch s') = jl_following_ap (g_role_launch s).
Proof.
  intros Hc Hp Hf. destruct f as [p|].
  - destruct (request_live s p Hc) as (e & E & Er); [by apply slots_member; auto|].
    rewrite (run_bind _ _ s e s) by by apply entity_at_in.
    destruct (rl_sta_request_start_calls (rlaunch e) s) as (c & t & Es).
    rewrite (run_bind _ _ _ _ _ Es), run_ret, Er. eexists. split; [reflexivity|].
    unfold sta_view, ap_view, request_of. cbn -[lookup]. rewrite Hp, Hf.
    split_and!; auto.
    + cbn -[lookup]. by rewrite E.
    + by apply (core_move s); cbn; auto; apply Hc.
  - exists s. rewrite run_ret. unfold sta_view. rewrite Hp, Hf. cbn. rewrite app_nil_r.
    by split_and!.
Qed.

Lemma sta_cancelled_run s (k : prog (state DESCR CB) Z) :
  rl_core s ->
  (asap ← launch_asap (jl_following_sta (g_role_launch s));
   _ ← when asap rl_pre_sta_set_cancel; k) s = k (sta_cancelled s).
Proof.
  intros Hc.
  rewrite (run_bind _ _ s (bool_decide (is_Some (jl_following_sta (g_role_launch s)))) s)
    by (apply launch_asap_spec; [done|intros a Ha; apply slots_member; auto]).
  unfold sta_cancelled, rl_pre_sta_set_cancel.
  destruct (jl_following_sta (g_role_launch s)) as [f|]; [|done].
  rewrite bool_decide_eq_true_2 by eauto. by prog_run.
Qed.

Lemma ap_cancelled_run s (k : bool -> prog (state DESCR CB) Z) :
  rl_core s ->
  (asap ← launch_asap (jl_following_ap (g_role_launch s));
   _ ← when asap rl_pre_ap_set_cancel; k asap) s =
  k (bool_decide (is_Some (jl_following_ap (g_role_launch s)))) (ap_cancelled s).
Proof.
  intros Hc.
  rewrite (run_bind _ _ s (bool_decide (is_Some (jl_following_ap (g_role_launch s)))) s)
    by (apply launch_asap_spec; [done|intros a Ha; apply slots_member; auto]).
  unfold ap_cancelled, rl_pre_ap_set_cancel.
  destruct (jl_following_ap (g_role_launch s)) as [f|]; [|done].
  rewrite bool_decide_eq_true_2 by eauto. by prog_run.
Qed.

Lemma sta_cancelled_frame s :
  rl_core s -> rl_core (sta_cancelled s) /\ same_env s (sta_cancelled s) /\
  slots (g_role_launch (sta_cancelled s)) = slots (g_role_launch s) /\
  heap (sta_cancelled s) = heap s /\ wlan (sta_cancelled s) = wlan s /\
  jl_previous_sta (g_role_launch (sta_cancelled s)) = jl_previous_sta (g_role_launch s) /\
  jl_following_sta (g_role_launch (sta_cancelled s)) = jl_following_sta (g_role_launch s) /\
  jl_previous_ap (g_role_launch (sta_cancelled s)) = jl_previous_ap (g_role_launch s) /\
  jl_following_ap (g_role_launch (sta_cancelled s)) = jl_following_ap (g_role_launch s).
Proof.
  intros Hc. unfold sta_cancelled.
  destruct (jl_following_sta (g_role_launch s)) eqn:E; split_and!; auto using core_set_sta;
    by split_and!.
Qed.

Lemma ap_cancelled_frame s :
  rl_core s -> rl_core (ap_cancelled s) /\ same_env s (ap_cancelled s) /\
  slots (g_role_launch (ap_cancelled s)) = slots (g_role_launch s) /\
  heap (ap_cancelled s) = heap s /\ wlan (ap_cancelled s) = wlan s /\
  jl_previous_sta (g_role_launch (ap_cancelled s)) = jl_previous_sta (g_role_launch s) /\
  jl_following_sta (g_role_launch (ap_cancelled s)) = jl_following_sta (g_role_launch s) /\
  jl_previous_ap (g_role_launch (ap_cancelled s)) = jl_previous_ap (g_role_launch s) /\
  jl_following_ap (g_role_launch (ap_cancelled s)) = jl_following_ap (g_role_launch s).
Proof.
  intros Hc. unfold ap_cancelled.
  destruct (jl_following_ap (g_role_launch s)) eqn:E; split_and!; auto using core_set_ap;
    by split_and!.
Qed.

Lemma launch_sta_spec s :
  rl_core s -> exists r s', rl_launch_sta s = Done (r, s') /\ sta_launched s s' r.
Proof.
  intros Hc. unfold rl_launch_sta, sta_launched, sta_view. prog_run.
  destruct (jl_previous_sta (g_role_launch s)) as [p|] eqn:Ep.
  - destruct (request_live s p Hc) as (e & _ & Er); [by apply slots_member; auto|].
    rewrite Er. cbn [fst snd launch_spec]. rewrite sta_cancelled_run by done.
    destruct (sta_cancelled_frame s Hc) as (Hc1 & Henv & Hs & Hh & Hw & H1 & H2 & H3 & H4).
    destruct (sta_may_cancelled s) as (n & En & Hn). revert H1 H2 H3 H4 Hw Hh Hs Henv Hc1 En.
    generalize (sta_cancelled s) as s1. intros s1 H1 H2 H3 H4 Hw Hh Hs Henv Hc1 En.
    rewrite (run_bind _ _ s1 false s1)
      by (apply launch_spent_spec; [done|rewrite Hs; apply slots_member; auto]). prog_run.
    rewrite (run_bind _ _ _ _ _ En), Hn.
    destruct (sta_may s); cbn [negb].
    + unfold rl_pre_sta_stop_launch. prog_run.
      rewrite (run_bind _ _ s1 tt (on_heap (delete p) s1))
        by (apply rl_free_entity_run; [done|rewrite Hs; apply slots_member; auto]). prog_run.
      set (f := jl_following_sta (g_role_launch s)) in *.
      set (s2 := on_rl (set_sta_slots f None) (on_heap (delete p) s1)).
      assert (Hc2 : rl_core s2).
      { apply (core_free s1 s2 p Hc1); try done. unfold slots. cbn.
        rewrite H1, H2, Ep. cbn. fold f. by destruct f. }
      destruct (sta_promote s2 s f Hc2 eq_refl eq_refl)
        as (s' & -> & Hv & Hav & Hw' & Henv' & Hc' & Ha1 & Ha2).
      assert (Hf : request_of s2 f = request_of s f).
      { transitivity (request_of s1 f); [|by apply request_of_heap].
        apply (request_of_delete _ _ p); [done|]. subst f.
        destruct (slots_distinct s p Hc Ep) as (? & _). done. }
      rewrite Hf in *. exists (launch_status (request_of s f)), s'. cbn in Ha1, Ha2, Hw'.
      destruct (slots_distinct s p Hc Ep) as (_ & D1 & D2).
      rewrite Ha1, Ha2, Hw', Hw, Hav. split_and!; auto.
      change (ap_view s2) with (request_of s2 (jl_previous_ap (g_role_launch s1)),
        request_of s2 (jl_following_ap (g_role_launch s1))).
      unfold ap_view. rewrite H3, H4.
      by rewrite !(request_of_delete s1 s2 p), !(request_of_heap s s1).
    + exists LAUNCH_STATUS_CONT, s1. rewrite run_ret, H1, H2, H3, H4, Hw, app_nil_r.
      unfold ap_view. rewrite H3, H4, Ep, !(request_of_heap s s1), Er by done. by split_and!.
  - cbn [request_of]. destruct (jl_following_sta (g_role_launch s)) as [f|] eqn:Ef; prog_run.
    + set (s1 := on_rl (set_sta_slots (Some f) None) s).
      assert (Hc1 : rl_core s1).
      { apply (core_move s); auto; try apply Hc. unfold slots. cbn. by rewrite Ep, Ef. }
      destruct (sta_promote s1 s (Some f) Hc1 eq_refl eq_refl)
        as (s' & E' & Hv & Hav & Hw' & Henv' & Hc' & Ha1 & Ha2).
      exists (launch_status (request_of s (Some f))), s'. split; [exact E'|].
      change (request_of s1 (Some f)) with (request_of s (Some f)) in *.
      cbn in Ha1, Ha2, Hw'. rewrite Ha1, Ha2, Hw', Hav.
      cbn [launch_spec fst snd request_of]. split_and!; auto. apply Henv'. by split_and!.
    + exists LAUNCH_STATUS_OVER, s. cbn. rewrite Ep, Ef, app_nil_r. by split_and!.
Qed.

(** The access-point side, in the same way. *)
Definition ap_launched s s' (r : Z) : Prop :=
  let '(running, queued, started, ret) :=
    launch_spec (ap_may s) (fst (ap_view s)) (snd (ap_view s)) in
  r = ret /\ ap_view s' = (running, queued) /\ sta_view s' = sta_view s /\
  wlan s' = wlan s ++ ap_calls started /\ same_env s s' /\ rl_core s' /\
  jl_previous_sta (g_role_launch s') = jl_previous_sta (g_role_launch s) /\
  jl_following_sta (g_role_launch s') = jl_following_sta (g_role_launch s).

Lemma ap_promote s s0 f :
  rl_core s -> jl_previous_ap (g_role_launch s) = f -> jl_following_ap (g_role_launch s) = None ->
  exists s', (match f with
     | None => mret LAUNCH_STATUS_OVER
     | Some _ => _ ← rl_pre_ap_init; e ← entity_at f; _ ← rl_ap_request_start (rlaunch e);
                 mret LAUNCH_STATUS_CONT
     end) s = Done (launch_status (request_of s f), s') /\
    ap_view s' = (request_of s f, None) /\ sta_view s' = sta_view s /\
    wlan s' = wlan s ++ ap_calls (request_of s f) /\
    (same_env s0 s -> same_env s0 s') /\ rl_core s' /\
    jl_previous_sta (g_role_launch s') = jl_previous_sta (g_role_launch s) /\
    jl_following_sta (g_role_launch s') = jl_following_sta (g_role_launch s).
Proof.
  intros Hc Hp Hf. destruct f as [p|].
  - destruct (request_live s p Hc) as (e & E & Er); [by apply slots_member; auto|].
    unfold rl_pre_ap_init. prog_run.
    rewrite (run_bind _ _ _ e (on_rl (set_ap 0 0) s)) by by apply entity_at_in.
    destruct (rl_ap_request_start_calls (rlaunch e) (on_rl (set_ap 0 0) s)) as (c & t & Es).
    rewrite (run_bind _ _ _ _ _ Es), run_ret, Er. eexists. split; [reflexivity|].
    unfold sta_view, ap_view, request_of. cbn -[lookup]. rewrite Hp, Hf.
    split_and!; auto.
    + cbn -[lookup]. by rewrite E.
    + by apply (core_move s); cbn; auto; apply Hc.
  - exists s. rewrite run_ret. unfold ap_view. rewrite Hp, Hf. cbn. rewrite app_nil_r.
    by split_and!.
Qed.

Lemma ap_may_cancelled s :
  exists r, rl_ap_may_next_launch
      (if bool_decide (is_Some (jl_following_ap (g_role_launch s))) then 1 else 0) (ap_cancelled s)
    = Done (r, ap_cancelled s) /\ (r =? 0) = negb (ap_may s).
Proof.
  unfold ap_cancelled, ap_may, rl_ap_may_next_launch.
  destruct (jl_following_ap (g_role_launch s)) as [f|] eqn:E; [|by exists 1].
  rewrite bool_decide_eq_true_2 by eauto. cbn [Z.eqb]. unfold rl_pre_ap_get_status. prog_run.
  eexists. split; [reflexivity|]. cbn. by repeat case_match.
Qed.

Lemma launch_ap_spec s :
  rl_core s -> exists r s', rl_launch_ap s = Done (r, s') /\ ap_launched s s' r.
Proof.
  intros Hc. unfold rl_launch_ap, ap_launched, ap_view. prog_run.
  destruct (jl_previous_ap (g_role_launch s)) as [p|] eqn:Ep.
  - destruct (request_live s p Hc) as (e & _ & Er); [by apply slots_member; auto|].
    rewrite Er. cbn [fst snd launch_spec]. rewrite ap_cancelled_run by done.
    destruct (ap_cancelled_frame s Hc) as (Hc1 & Henv & Hs & Hh & Hw & H1 & H2 & H3 & H4).
    destruct (ap_may_cancelled s) as (n & En & Hn). revert H1 H2 H3 H4 Hw Hh Hs Henv Hc1 En.
    generalize (ap_cancelled s) as s1. intros s1 H1 H2 H3 H4 Hw Hh Hs Henv Hc1 En.
    rewrite (run_bind _ _ s1 false s1)
      by (apply launch_spent_spec; [done|rewrite Hs; apply slots_member; auto]). prog_run.
    rewrite orb_false_r, (run_bind _ _ _ _ _ En), Hn.
    destruct (ap_may s); cbn [negb].
    + unfold rl_pre_ap_stop_launch. prog_run.
      rewrite (run_bind _ _ s1 tt (on_heap (delete p) s1))
        by (apply rl_free_entity_run; [done|rewrite Hs; apply slots_member; auto]). prog_run.
      set (f := jl_following_ap (g_role_launch s)) in *.
      set (s2 := on_rl (set_ap_slots f None) (on_heap (delete p) s1)).
      assert (Hc2 : rl_core s2).
      { apply (core_free s1 s2 p Hc1); try done. unfold slots. cbn.
        rewrite H3, H4, Ep. cbn. fold f.
        by destruct (jl_previous_sta _), (jl_following_sta _), f; cbn; solve_Permutation. }
      destruct (ap_promote s2 s f Hc2 eq_refl eq_refl)
        as (s' & -> & Hv & Hav & Hw' & Henv' & Hc' & Ha1 & Ha2).
      destruct (slots_distinct_ap s p Hc Ep) as (Hne & D1 & D2).
      assert (Hf : request_of s2 f = request_of s f).
      { transitivity (request_of s1 f); [|by apply request_of_heap].
        by apply (request_of_delete _ _ p). }
      rewrite Hf in *. exists (launch_status (request_of s f)), s'. cbn in Ha1, Ha2, Hw'.
      rewrite Ha1, Ha2, Hw', Hw, Hav. split_and!; auto.
      change (sta_view s2) with (request_of s2 (jl_previous_sta (g_role_launch s1)),
        request_of s2 (jl_following_sta (g_role_launch s1))).
      unfold sta_view. rewrite H1, H2.
      by rewrite !(request_of_delete s1 s2 p), !(request_of_heap s s1).
    + exists LAUNCH_STATUS_CONT, s1. rewrite run_ret, H1, H2, H3, H4, Hw, app_nil_r.
      unfold sta_view. rewrite H1, H2, Ep, !(request_of_heap s s1), Er by done. by split_and!.
  - cbn [request_of]. destruct (jl_following_ap (g_role_launch s)) as [f|] eqn:Ef; prog_run.
    + set (s1 := on_rl (set_ap_slots (Some f) None) s).
      assert (Hc1 : rl_core s1).
      { apply (core_move s); auto; try apply Hc. unfold slots. cbn. by rewrite Ep, Ef. }
      destruct (ap_promote s1 s (Some f) Hc1 eq_refl eq_refl)
        as (s' & E' & Hv & Hav & Hw' & Henv' & Hc' & Ha1 & Ha2).
      exists (launch_status (request_of s (Some f))), s'. split; [exact E'|].
      change (request_of s1 (Some f)) with (request_of s (Some f)) in *.
      cbn in Ha1, Ha2, Hw'. rewrite Ha1, Ha2, Hw', Hav.
      cbn [launch_spec fst snd request_of]. split_and!; auto. apply Henv'. by split_and!.
    + exists LAUNCH_STATUS_OVER, s. cbn. rewrite Ep, Ef, app_nil_r. by split_and!.
Qed.

Lemma request_none s p : rl_core s -> (forall a, p = Some a -> a ∈ slots (g_role_launch s)) ->
  request_of s p = None -> p = None.
Proof.
  intros Hc Hp E. destruct p as [a|]; [|done].
  destruct (request_live s a Hc (Hp a eq_refl)) as (e & _ & E'). congruence.
Qed.

Lemma view_none s : rl_core s -> sta_view s = (None, None) -> ap_view s = (None, None) ->
  slots (g_role_launch s) = [].
Proof.
  intros Hc Es Ea. injection Es as E1 E2. injection Ea as E3 E4.
  unfold slots. cbn.
  rewrite (request_none s _ Hc (fun a Ha => slots_member s a (or_introl Ha)) E1).
  rewrite (request_none s _ Hc (fun a Ha => slots_member s a (or_intror (or_introl Ha))) E2).
  rewrite (request_none s _ Hc
    (fun a Ha => slots_member s a (or_intror (or_intror (or_introl Ha)))) E3).
  by rewrite (request_none s _ Hc
    (fun a Ha => slots_member s a (or_intror (or_intror (or_intror Ha)))) E4).
Qed.

Lemma slots_nil_waiting (g : rl_t) : slots g = [] -> ~ waiting g.
Proof.
  unfold slots, waiting. cbn. intros E [Hw|Hw]; apply Hw; revert E;
    repeat case_match; cbn; try done.
Qed.

Lemma launch_spec_over may (r q a b c : option (launch_req DESCR)) :
  launch_spec may r q = (a, b, c, LAUNCH_STATUS_OVER) -> a = None /\ b = None.
Proof. destruct r, q, may; cbn; try discriminate; by intros [= <- <- _]. Qed.

Lemma rl_relaunch_chance_run s :
  tm_init (rl_timer (g_role_launch s)) = true ->
  rl_relaunch_chance s = Done (0, on_rl (set_rl_timer (mk_timer true true)) s).
Proof.
  intros Ht. unfold rl_relaunch_chance, start_tm, assert. prog_run. rewrite Ht.
  cbn [ASSERT]. by prog_run.
Qed.

Lemma core_set_rl_timer s b : rl_core s -> rl_core (on_rl (set_rl_timer (mk_timer true b)) s).
Proof. by intros [? ? ? ? ? ?]; split. Qed.

Lemma core_set_type s t : rl_core s -> t = PRE_ENTITY_STA \/ t = PRE_ENTITY_AP ->
  rl_core (on_rl (set_entity_type t) s).
Proof. intros Hc Ht. apply (core_move s); auto; apply Hc. Qed.

(** The end of a handler run: re-armed, or nothing left. *)
Lemma handler_rearm s sta_ret ap_ret :
  rl_core s ->
  (sta_ret = LAUNCH_STATUS_OVER -> ap_ret = LAUNCH_STATUS_OVER ->
   slots (g_role_launch s) = []) ->
  sta_ret = LAUNCH_STATUS_OVER \/ sta_ret = LAUNCH_STATUS_CONT ->
  ap_ret = LAUNCH_STATUS_OVER \/ ap_ret = LAUNCH_STATUS_CONT ->
  exists s', when (negb ((sta_ret =? LAUNCH_STATUS_OVER) && (ap_ret =? LAUNCH_STATUS_OVER)))
      (_ ← rl_relaunch_chance; mret tt) s = Done (tt, s') /\ rl_inv s' /\
    sta_view s' = sta_view s /\ ap_view s' = ap_view s /\ wlan s' = wlan s /\
    int_off s' = int_off s /\
    (slots (g_role_launch s') = [] \/ tm_armed (rl_timer (g_role_launch s')) = true).
Proof.
  intros Hc Hover Hs Ha.
  destruct (negb _) eqn:E; cbn [when].
  - rewrite (run_bind _ _ _ _ _ (rl_relaunch_chance_run s ltac:(apply Hc))), run_ret.
    eexists. split; [reflexivity|]. split; [split; [by apply core_set_rl_timer|done]|].
    split_and!; auto.
  - zbool. exists s. rewrite run_ret. split; [done|].
    assert (Hnil : slots (g_role_launch s) = []) by auto.
    split_and!; auto. split; [done|]. intros Hw. by destruct (slots_nil_waiting _ Hnil).
Qed.

Lemma sta_launched_ret s s' r : sta_launched s s' r ->
  (r = LAUNCH_STATUS_OVER \/ r = LAUNCH_STATUS_CONT) /\
  (r = LAUNCH_STATUS_OVER -> sta_view s' = (None, None)).
Proof.
  unfold sta_launched. destruct (launch_spec _ _ _) as [[[a b] c] ret] eqn:E.
  intros (-> & Hv & _). split.
  - revert E. unfold launch_spec, launch_status. repeat case_match; intros [= <- <- <- <-]; auto.
  - intros ->. apply launch_spec_over in E as [-> ->]. done.
Qed.

Lemma ap_launched_ret s s' r : ap_launched s s' r ->
  (r = LAUNCH_STATUS_OVER \/ r = LAUNCH_STATUS_CONT) /\
  (r = LAUNCH_STATUS_OVER -> ap_view s' = (None, None)).
Proof.
  unfold ap_launched. destruct (launch_spec _ _ _) as [[[a b] c] ret] eqn:E.
  intros (-> & Hv & _). split.
  - revert E. unfold launch_spec, launch_status. repeat case_match; intros [= <- <- <- <-]; auto.
  - intros ->. apply launch_spec_over in E as [-> ->]. done.
Qed.

Lemma sta_launched_facts s s' r : sta_launched s s' r ->
  ap_view s' = ap_view s /\ rl_core s' /\ int_off s' = int_off s.
Proof.
  unfold sta_launched. destruct (launch_spec _ _ _) as [[[a b] c] ret].
  intros (_ & _ & Hv & _ & (_ & _ & _ & _ & Hi & _) & Hc & _). done.
Qed.

Lemma ap_launched_facts s s' r : ap_launched s s' r ->
  sta_view s' = sta_view s /\ rl_core s' /\ int_off s' = int_off s.
Proof.
  unfold ap_launched. destruct (launch_spec _ _ _) as [[[a b] c] ret].
  intros (_ & _ & Hv & _ & (_ & _ & _ & _ & Hi & _) & Hc & _). done.
Qed.

(** One run of the launch timer's handler. *)
Lemma launch_handler_spec s :
  rl_core s -> exists s', rl_launch_handler s = Done (tt, s') /\ rl_inv s' /\
    int_off s' = int_off s /\
    (slots (g_role_launch s') = [] \/ tm_armed (rl_timer (g_role_launch s')) = true).
Proof.
  intros Hc. unfold rl_launch_handler. prog_run.
  destruct (pre_entity_type (g_role_launch s) =? PRE_ENTITY_AP) eqn:Et1;
    [|destruct (pre_entity_type (g_role_launch s) =? PRE_ENTITY_STA) eqn:Et2].
  - destruct (launch_ap_spec s Hc) as (r & s1 & E & Hl).
    destruct (ap_launched_ret _ _ _ Hl) as [Hr Hov].
    destruct (ap_launched_facts _ _ _ Hl) as (_ & Hc1 & Hi1).
    rewrite run_assoc, (run_bind _ _ _ _ _ E).
    destruct (r =? LAUNCH_STATUS_OVER) eqn:Er; zbool; prog_run.
    + set (s2 := on_rl (set_entity_type PRE_ENTITY_STA) s1).
      assert (Hc2 : rl_core s2) by (apply core_set_type; auto).
      destruct (launch_sta_spec s2 Hc2) as (r' & s3 & E' & Hl').
      destruct (sta_launched_ret _ _ _ Hl') as [Hr' Hov'].
      destruct (sta_launched_facts _ _ _ Hl') as (Hav & Hc3 & Hi3).
      rewrite (run_bind _ _ _ _ _ E'). prog_run.
      destruct (handler_rearm s3 r' r Hc3) as (s' & -> & Hi & _ & _ & _ & Hoff & Ha); auto.
      { intros Ho _. apply view_none; auto. rewrite Hav. by apply Hov. }
      exists s'. split_and!; auto. rewrite Hoff, Hi3. done.
    + destruct (handler_rearm s1 LAUNCH_STATUS_OVER r Hc1) as (s' & -> & Hi & _ & _ & _ & Hoff & Ha);
        auto; [done|].
      exists s'. split_and!; auto. by rewrite Hoff.
  - destruct (launch_sta_spec s Hc) as (r & s1 & E & Hl).
    destruct (sta_launched_ret _ _ _ Hl) as [Hr Hov].
    destruct (sta_launched_facts _ _ _ Hl) as (_ & Hc1 & Hi1).
    rewrite run_assoc, (run_bind _ _ _ _ _ E).
    destruct (r =? LAUNCH_STATUS_OVER) eqn:Er; zbool; prog_run.
    + set (s2 := on_rl (set_entity_type PRE_ENTITY_AP) s1).
      assert (Hc2 : rl_core s2) by (apply core_set_type; auto).
      destruct (launch_ap_spec s2 Hc2) as (r' & s3 & E' & Hl').
      destruct (ap_launched_ret _ _ _ Hl') as [Hr' Hov'].
      destruct (ap_launched_facts _ _ _ Hl') as (Hav & Hc3 & Hi3).
      rewrite (run_bind _ _ _ _ _ E'). prog_run.
      destruct (handler_rearm s3 r r' Hc3) as (s' & -> & Hi & _ & _ & _ & Hoff & Ha); auto.
      { intros _ Ho. apply view_none; auto. rewrite Hav. by apply Hov. }
      exists s'. split_and!; auto. rewrite Hoff, Hi3. done.
    + destruct (handler_rearm s1 r LAUNCH_STATUS_OVER Hc1) as (s' & -> & Hi & _ & _ & _ & Hoff & Ha);
        auto; [done|].
      exists s'. split_and!; auto. by rewrite Hoff.
  - zbool. destruct (rc_type s Hc) as [?|[?|[_ Hnil]]]; [done..|]. prog_run.
    exists s. split_and!; auto. split; [done|]. intros Hw. by destruct (slots_nil_waiting _ Hnil).
Qed.

(** ** Requests *)

Lemma slots_length (g : rl_t) : (length (slots g) <= 4)%nat.
Proof. unfold slots. cbn. repeat case_match; cbn; lia. Qed.

Lemma core_size s : rl_core s -> size (heap s) = length (slots (g_role_launch s)).
Proof.
  intros [Hnd Hdom _ _ _ _].
  rewrite <- (size_list_to_set (C := gset positive) _ Hnd), <- size_dom. f_equal.
  apply set_eq. intros p. rewrite elem_of_list_to_set, elem_of_dom. apply Hdom.
Qed.

Lemma rl_start_run s :
  tm_init (rl_timer (g_role_launch s)) = true ->
  exists flag, rl_start s =
    Done (tt, on_rl (fun g => set_timer_flag flag (set_rl_timer (mk_timer true true) g)) s).
Proof.
  intros Ht. unfold rl_start, stop_tm, start_tm. prog_run. rewrite Ht. prog_run.
  cbn [tm_init]. prog_run. exists RL_TIMER_START. reflexivity.
Qed.

(** The allocator has room for the four entities the slots can own. *)
Definition alloc_room : Prop :=
  forall h : gmap positive (rl_entity DESCR CB), (size h < 4)%nat -> is_Some (os_zalloc h).

Lemma alloc_run s param completion :
  alloc_room -> rl_core s -> (length (slots (g_role_launch s)) < 4)%nat ->
  exists p, heap s !! p = None /\
    rl_alloc_entity param completion s = Done (Some p,
      on_heap (<[p := mk_entity LAUNCH_TYPE_ASAP 0 0 param completion]>) s).
Proof.
  intros Hroom Hc Hl. destruct (Hroom (heap s)) as [p E]; [by rewrite core_size|].
  exists p. split; [by apply os_zalloc_fresh|]. unfold rl_alloc_entity. prog_run. rewrite E.
  by prog_run.
Qed.

Lemma mark_entity_run s p type :
  exists t, mark_entity (Some p) type s = Done (tt, on_rl (set_entity_type t) s) /\
    (t = type \/ t = pre_entity_type (g_role_launch s) /\
                 pre_entity_type (g_role_launch s) <> PRE_ENTITY_IDLE).
Proof.
  unfold mark_entity. prog_run. cbn. destruct (_ =? _) eqn:E; zbool.
  - exists type. split; [done|auto].
  - exists (pre_entity_type (g_role_launch s)). split; [|auto]. cbn.
    destruct s as [[]]. reflexivity.
Qed.

Lemma type_ok s t : rl_core s ->
  t = PRE_ENTITY_STA \/ t = PRE_ENTITY_AP \/
  t = pre_entity_type (g_role_launch s) /\ pre_entity_type (g_role_launch s) <> PRE_ENTITY_IDLE ->
  t = PRE_ENTITY_STA \/ t = PRE_ENTITY_AP.
Proof. intros [_ _ _ _ _ [?|[?|[? _]]]] Ht; intuition congruence. Qed.

Lemma inv_set_int s b : rl_inv s -> rl_inv (set_int b s).
Proof. intros [[? ? ? ? ? ?] ?]. by split. Qed.

Lemma request_of_alloc s s' p e q :
  rl_core s -> heap s !! p = None -> heap s' = <[p := e]> (heap s) ->
  (forall a, q = Some a -> a ∈ slots (g_role_launch s)) -> request_of s' q = request_of s q.
Proof.
  intros Hc Hn Hh Hq. unfold request_of. destruct q as [a|]; [|done]. cbn.
  destruct (slots_at s a Hc (Hq a eq_refl)) as (e' & E & _).
  rewrite Hh, lookup_insert_ne by congruence. done.
Qed.

Lemma request_of_new s p e : heap s !! p = Some e -> request_of s (Some p) = Some (rlaunch e).
Proof. intros E. unfold request_of. cbn. by rewrite E. Qed.

(** What entering a request does to the requests of its role. *)
Definition enter_spec (busy : bool) (running queued : option (launch_req DESCR))
    (param : launch_req DESCR)
    : option (launch_req DESCR) * option (launch_req DESCR) * option (launch_req DESCR) * Z :=
  if busy then
    match queued with
    | None => (running, Some param, None, 2)
    | Some _ => (running, queued, None, 0)
    end
  else (Some param, queued, Some param, 1).

Definition busy s : bool :=
  negb (bool_decide (jl_previous_ap (g_role_launch s) = None)
        && bool_decide (jl_previous_sta (g_role_launch s) = None)).

Definition sta_entered s param s' (r : Z) : Prop :=
  let '(running, queued, started, ret) :=
    enter_spec (busy s) (fst (sta_view s)) (snd (sta_view s)) param in
  r = ret /\ sta_view s' = (running, queued) /\ wlan s' = wlan s ++ sta_calls started /\
  rl_inv s' /\ int_off s' = int_off s /\ g_sta_cache s' = g_sta_cache s /\
  sock_sta s' = sock_sta s /\ sock_ap s' = sock_ap s /\
  enter_timer (g_role_launch s') = enter_timer (g_role_launch s) /\
  (r <> 1 -> tm_armed (rl_timer (g_role_launch s')) = true).

Lemma sta_request_enter_spec s param completion :
  alloc_room -> rl_inv s ->
  exists r s', _sta_request_enter param completion s = Done (r, s') /\
    sta_entered s param s' r.
Proof.
  intros Hroom [Hc Harm]. pose proof (core_size s Hc) as Hsize.
  unfold _sta_request_enter, INT_DISABLE. prog_run. cbn [g_role_launch set_int].
  set (s0 := set_int true s).
  assert (Hc0 : rl_core s0) by (destruct Hc; by split).
  unfold sta_entered, busy.
  destruct (bool_decide (jl_previous_ap (g_role_launch s) = None)
        && bool_decide (jl_previous_sta (g_role_launch s) = None)) eqn:Ebusy; cbn [negb].
  - apply andb_true_iff in Ebusy as [Ea Es]. apply bool_decide_eq_true in Ea, Es.
    destruct (alloc_run s0 param completion Hroom Hc0) as (p & Hn & Ealloc).
    { unfold slots. cbn. rewrite Ea, Es. cbn. repeat case_match; cbn; lia. }
    rewrite run_assoc, (run_bind _ _ _ _ _ Ealloc). prog_run.
    set (s1 := on_rl _ _).
    destruct (rl_sta_request_start_calls param s1) as (c & t & Est).
    rewrite (run_bind _ _ _ _ _ Est). prog_run.
    set (s3 := mk_state _ _ _ _ _ _ _ _).
    destruct (mark_entity_run s3 p PRE_ENTITY_STA) as (ty & Emark & Hty).
    rewrite (run_bind _ _ _ _ _ Emark). unfold INT_RESTORE. prog_run.
    eexists _, _. split; [reflexivity|].
    cbn [enter_spec fst snd sta_view]. cbn in Hty.
    assert (Hty' : ty = PRE_ENTITY_STA \/ ty = PRE_ENTITY_AP) by (apply (type_ok s ty Hc); tauto).
    split_and!; try done.
    + unfold sta_view. cbn -[request_of lookup]. f_equal.
      * erewrite request_of_new; [|cbn; apply lookup_insert_eq]. done.
      * eapply (request_of_alloc s0); [done|exact Hn|reflexivity|].
        intros a Hq. apply slots_member. auto.
    + split; [|exact Harm]. eapply (core_alloc s0); [done| |exact Hn|reflexivity|done..| | |done];
        [|apply Hc..]. unfold slots. cbn. by rewrite Ea, Es.
  - clear Ebusy. unfold sta_view. destruct (jl_following_sta (g_role_launch s)) as [f|] eqn:Ef;
      cbn [bool_decide decide_rel option_eq_None_dec].
    + destruct (rl_start_run s0) as (flag & Est); [apply Hc|].
      rewrite run_assoc, (run_bind _ _ _ _ _ Est). prog_run. unfold mark_entity. prog_run.
      unfold INT_RESTORE. prog_run. eexists _, _. split; [reflexivity|].
      destruct (request_live s f Hc) as (e & _ & Er); [apply slots_member; auto|].
      cbn [fst snd]. rewrite Er. cbn [enter_spec]. rewrite app_nil_r.
      split_and!; try done.
      * rewrite <- Er. unfold request_of. cbn -[lookup]. by rewrite Ef.
      * split; [|done]. eapply (core_move s); [done|reflexivity|done|done|apply Hc|by left].
    + destruct (alloc_run s0 param completion Hroom Hc0) as (p & Hn & Ealloc).
      { unfold slots. cbn. rewrite Ef. cbn. repeat case_match; cbn; lia. }
      rewrite run_assoc, (run_bind _ _ _ _ _ Ealloc). prog_run.
      set (s1 := on_rl _ _).
      destruct (rl_start_run s1) as (flag & Est); [apply Hc|].
      rewrite (run_bind _ _ _ _ _ Est). prog_run. set (s3 := on_rl _ s1).
      destruct (mark_entity_run s3 p PRE_ENTITY_STA) as (ty & Emark & Hty).
      rewrite (run_bind _ _ _ _ _ Emark). unfold INT_RESTORE. prog_run.
      eexists _, _. split; [reflexivity|].
      change (request_of s None) with (@None (launch_req DESCR)).
      cbn [enter_spec fst snd sta_calls]. cbn in Hty. rewrite app_nil_r.
      assert (Hty' : ty = PRE_ENTITY_STA \/ ty = PRE_ENTITY_AP) by (apply (type_ok s ty Hc); tauto).
      split_and!; try done.
      * cbn -[request_of lookup]. f_equal.
        -- eapply (request_of_alloc s0); [done|exact Hn|reflexivity|].
           intros a Hq. apply slots_member. auto.
        -- erewrite request_of_new; [|cbn; apply lookup_insert_eq]. done.
      * split; [|done]. eapply (core_alloc s0); [done| |exact Hn|reflexivity|done..| |done];
          [|apply Hc]. unfold slots. cbn. rewrite Ef.
        by destruct (jl_previous_sta _); cbn; solve_Permutation.
Qed.

Definition ap_entered s param s' (r : Z) : Prop :=
  let '(running, queued, started, ret) :=
    enter_spec (busy s) (fst (ap_view s)) (snd (ap_view s)) param in
  r = ret /\ ap_view s' = (running, queued) /\ wlan s' = wlan s ++ ap_calls started /\
  rl_inv s' /\ int_off s' = int_off s /\ g_sta_cache s' = g_sta_cache s /\
  sock_sta s' = sock_sta s /\ sock_ap s' = sock_ap s /\
  enter_timer (g_role_launch s') = enter_timer (g_role_launch s) /\
  (r <> 1 -> tm_armed (rl_timer (g_role_launch s')) = true).

Lemma ap_request_enter_spec s param completion :
  alloc_room -> rl_inv s ->
  exists r s', _ap_request_enter param completion s = Done (r, s') /\
    ap_entered s param s' r.
Proof.
  intros Hroom [Hc Harm]. pose proof (core_size s Hc) as Hsize.
  unfold _ap_request_enter, INT_DISABLE. prog_run. cbn [g_role_launch set_int].
  set (s0 := set_int true s).
  assert (Hc0 : rl_core s0) by (destruct Hc; by split).
  unfold ap_entered, busy.
  destruct (bool_decide (jl_previous_ap (g_role_launch s) = None)
        && bool_decide (jl_previous_sta (g_role_launch s) = None)) eqn:Ebusy; cbn [negb].
  - apply andb_true_iff in Ebusy as [Ea Es]. apply bool_decide_eq_true in Ea, Es.
    destruct (alloc_run s0 param completion Hroom Hc0) as (p & Hn & Ealloc).
    { unfold slots. cbn. rewrite Ea, Es. cbn. repeat case_match; cbn; lia. }
    rewrite run_assoc, (run_bind _ _ _ _ _ Ealloc). prog_run.
    set (s1 := on_rl _ _).
    destruct (rl_ap_request_start_calls param s1) as (c & t & Est).
    rewrite (run_bind _ _ _ _ _ Est). prog_run.
    set (s3 := mk_state _ _ _ _ _ _ _ _).
    destruct (mark_entity_run s3 p PRE_ENTITY_AP) as (ty & Emark & Hty).
    rewrite (run_bind _ _ _ _ _ Emark). unfold INT_RESTORE. prog_run.
    eexists _, _. split; [reflexivity|].
    cbn [enter_spec fst snd ap_view]. cbn in Hty.
    assert (Hty' : ty = PRE_ENTITY_STA \/ ty = PRE_ENTITY_AP) by (apply (type_ok s ty Hc); tauto).
    split_and!; try done.
    + unfold ap_view. cbn -[request_of lookup]. f_equal.
      * erewrite request_of_new; [|cbn; apply lookup_insert_eq]. done.
      * eapply (request_of_alloc s0); [done|exact Hn|reflexivity|].
        intros a Hq. apply slots_member. auto.
    + split; [|exact Harm]. eapply (core_alloc s0); [done| |exact Hn|reflexivity|done..| | |done];
        [|apply Hc..]. unfold slots. cbn. rewrite Ea, Es. cbn.
        by repeat case_match; cbn; solve_Permutation.
  - clear Ebusy. unfold ap_view. destruct (jl_following_ap (g_role_launch s)) as [f|] eqn:Ef;
      cbn [bool_decide decide_rel option_eq_None_dec].
    + destruct (rl_start_run s0) as (flag & Est); [apply Hc|].
      rewrite run_assoc, (run_bind _ _ _ _ _ Est). prog_run. unfold mark_entity. prog_run.
      unfold INT_RESTORE. prog_run. eexists _, _. split; [reflexivity|].
      destruct (request_live s f Hc) as (e & _ & Er); [apply slots_member; auto|].
      cbn [fst snd]. rewrite Er. cbn [enter_spec]. rewrite app_nil_r.
      split_and!; try done.
      * rewrite <- Er. unfold request_of. cbn -[lookup]. by rewrite Ef.
      * split; [|done]. eapply (core_move s); [done|reflexivity|done|done|apply Hc|by left].
    + destruct (alloc_run s0 param completion Hroom Hc0) as (p & Hn & Ealloc).
      { unfold slots. cbn. rewrite Ef. cbn. repeat case_match; cbn; lia. }
      rewrite run_assoc, (run_bind _ _ _ _ _ Ealloc). prog_run.
      set (s1 := on_rl _ _).
      destruct (rl_start_run s1) as (flag & Est); [apply Hc|].
      rewrite (run_bind _ _ _ _ _ Est). prog_run. set (s3 := on_rl _ s1).
      destruct (mark_entity_run s3 p PRE_ENTITY_AP) as (ty & Emark & Hty).
      rewrite (run_bind _ _ _ _ _ Emark). unfold INT_RESTORE. prog_run.
      eexists _, _. split; [reflexivity|].
      change (request_of s None) with (@None (launch_req DESCR)).
      cbn [enter_spec fst snd ap_calls]. cbn in Hty. rewrite app_nil_r.
      assert (Hty' : ty = PRE_ENTITY_STA \/ ty = PRE_ENTITY_AP) by (apply (type_ok s ty Hc); tauto).
      split_and!; try done.
      * cbn -[request_of lookup]. f_equal.
        -- eapply (request_of_alloc s0); [done|exact Hn|reflexivity|].
           intros a Hq. apply slots_member. auto.
        -- erewrite request_of_new; [|cbn; apply lookup_insert_eq]. done.
      * split; [|done]. eapply (core_alloc s0); [done| |exact Hn|reflexivity|done..| |done];
          [|apply Hc]. unfold slots. cbn. rewrite Ef.
        by repeat case_match; cbn; solve_Permutation.
Qed.

(** ** Every event *)

(** The parts of the state the invariant reads. *)
Definition core_part s :=
  let g := g_role_launch s in
  (heap s, (jl_previous_sta g, jl_following_sta g, jl_previous_ap g, jl_following_ap g),
   rl_timer g, tm_init (enter_timer g), pre_entity_type g).

Lemma inv_same s s' : rl_inv s -> core_part s' = core_part s -> rl_inv s'.
Proof.
  intros [[Hnd Hdom Has H1 H2 Hty] Harm] E. unfold core_part in E.
  injection E as Eh E1 E2 E3 E4 Et Ee Ep. unfold slots, waiting in *.
  split; [split|]; unfold slots, waiting;
    rewrite ?Eh, ?E1, ?E2, ?E3, ?E4, ?Et, ?Ee, ?Ep; auto.
Qed.

Lemma sta_entered_inv s param s' r : sta_entered s param s' r ->
  rl_inv s' /\ int_off s' = int_off s.
Proof.
  unfold sta_entered. destruct (enter_spec _ _ _ _) as [[[a b] c] ret].
  intros (_ & _ & _ & ? & ? & _). done.
Qed.

Lemma ap_entered_inv s param s' r : ap_entered s param s' r ->
  rl_inv s' /\ int_off s' = int_off s.
Proof.
  unfold ap_entered. destruct (enter_spec _ _ _ _) as [[[a b] c] ret].
  intros (_ & _ & _ & ? & ? & _). done.
Qed.

Lemma enter_handler_spec s b :
  alloc_room -> rl_inv s ->
  exists s', rl_enter_handler b s = Done (tt, s') /\ rl_inv s' /\ int_off s' = int_off s.
Proof.
  intros Hroom Hinv. unfold rl_enter_handler.
  destruct b; cbn [negb]; [|by exists s; rewrite run_ret].
  unfold INT_DISABLE, INT_RESTORE. prog_run. set (s1 := set_int (int_off s) _).
  assert (Hi1 : rl_inv s1) by by apply (inv_same s).
  assert (Hsta : exists s2, (match sock_sta (set_int true s) with
      | Some (param, completion) =>
          ret ← _sta_request_enter param completion;
          when (negb (ret =? 0)) (modify (set_cache (Some (param, completion))))
      | None => mret tt
      end) s1 = Done (tt, s2) /\ rl_inv s2 /\ int_off s2 = int_off s1).
  { destruct (sock_sta _) as [[param completion]|]; [|by exists s1].
    destruct (sta_request_enter_spec s1 param completion Hroom Hi1) as (r & s2 & E & He).
    destruct (sta_entered_inv _ _ _ _ He) as [Hi2 Ho].
    rewrite (run_bind _ _ _ _ _ E). destruct (negb _); cbn [when]; prog_run;
      eexists; (split; [reflexivity|]); split; try done. by apply (inv_same s2). }
  destruct Hsta as (s2 & E2 & Hi2 & Ho2). rewrite (run_bind _ _ _ _ _ E2).
  cbn [sock_ap set_int]. destruct (sock_ap s) as [[param completion]|]; [|by exists s2].
  destruct (ap_request_enter_spec s2 param completion Hroom Hi2) as (r & s3 & E & He).
  destruct (ap_entered_inv _ _ _ _ He) as [Hi3 Ho].
  rewrite (run_bind _ _ _ _ _ E), run_ret. exists s3. split_and!; auto. by rewrite Ho, Ho2.
Qed.

Lemma timer_restart t : tm_init t = true ->
  stop_tm t = Done (mk_timer true false) /\ start_tm (mk_timer true false) = Done (mk_timer true true).
Proof. intros Ht. unfold stop_tm, start_tm. by rewrite Ht. Qed.

(** Entering a request from outside: it replaces a pending one of its role,
    and the enter timer is armed. *)
Lemma rl_sta_request_enter_run s param completion :
  rl_inv s -> rl_sta_request_enter param completion s = Done (tt,
    set_int (int_off s) (on_rl (set_enter_timer (mk_timer true true))
      (set_sock (Some (param, completion)) (sock_ap s) s))).
Proof.
  intros [Hc _]. destruct (timer_restart _ (rc_enter_timer s Hc)) as [E1 E2].
  unfold rl_sta_request_enter, INT_DISABLE, INT_RESTORE. prog_run. cbn [g_role_launch set_sock set_int].
  rewrite E1. prog_run. rewrite E2. by prog_run.
Qed.

Lemma rl_ap_request_enter_run s param completion :
  rl_inv s -> rl_ap_request_enter param completion s = Done (tt,
    set_int (int_off s) (on_rl (set_enter_timer (mk_timer true true))
      (set_sock (sock_sta s) (Some (param, completion)) s))).
Proof.
  intros [Hc _]. destruct (timer_restart _ (rc_enter_timer s Hc)) as [E1 E2].
  unfold rl_ap_request_enter, INT_DISABLE, INT_RESTORE. prog_run. cbn [g_role_launch set_sock set_int].
  rewrite E1. prog_run. rewrite E2. by prog_run.
Qed.

(** A scan report that [rl_pre_sta_set_status] turns down: out of order, or
    of a cancelled request. *)
Definition scan_refused s (status : Z) : bool :=
  let g := g_role_launch s in
  (status =? RL_STATUS_STA_SCANNING) &&
  ((negb (pre_sta_status g =? RL_STATUS_STA_INITING)
    && negb (pre_sta_status g =? RL_STATUS_STA_SCAN_OVER))
   || negb (pre_sta_cancel g =? 0)).

Lemma rl_pre_sta_set_status_run s status :
  exists r, rl_pre_sta_set_status status s = Done (r,
    if scan_refused s status then set_int true s
    else on_rl (set_sta (pre_sta_cancel (g_role_launch s)) status) s) /\
  (scan_refused s status = true -> r <> 0) /\
  (scan_refused s status = false -> r = pre_sta_cancel (g_role_launch s)).
Proof.
  unfold rl_pre_sta_set_status, scan_refused, INT_DISABLE, INT_RESTORE. prog_run.
  cbn [g_role_launch set_int].
  destruct (status =? RL_STATUS_STA_SCANNING), (_ && _), (negb (pre_sta_cancel (g_role_launch s) =? 0));
    cbn [andb orb]; prog_run; eexists; (split; [reflexivity|]); done.
Qed.

(** The interrupt mask after an event. *)
Definition mask_after s (e : rl_event DESCR CB) : bool :=
  match e with
  | Ev_sta_status status => scan_refused s status || int_off s
  | _ => int_off s
  end.

Lemma rl_step_spec s e :
  alloc_room -> rl_inv s ->
  exists s', rl_step e s = Done (tt, s') /\ rl_inv s' /\ int_off s' = mask_after s e.
Proof.
  intros Hroom Hinv.
  assert (Hsame : forall s', core_part s' = core_part s -> rl_inv s')
    by (intros; by apply (inv_same s)).
  destruct e; cbn [rl_step mask_after]; unfold discard.
  - rewrite rl_sta_request_enter_run by done. eexists. split; [reflexivity|].
    split; [|done]. apply Hsame. unfold core_part. cbn. do 2 f_equal.
    symmetry. by apply Hinv.
  - rewrite rl_ap_request_enter_run by done. eexists. split; [reflexivity|].
    split; [|done]. apply Hsame. unfold core_part. cbn. do 2 f_equal.
    symmetry. by apply Hinv.
  - unfold rl_sta_cache_request_enter, INT_DISABLE, INT_RESTORE. prog_run.
    cbn [g_sta_cache set_int]. destruct (g_sta_cache s) as [[param completion]|]; [destruct monitor|].
    + prog_run. eexists. split; [reflexivity|]. by split; [apply Hsame|].
    + rewrite run_assoc, (run_bind _ _ _ _ _ (rl_sta_request_enter_run (set_int true s) param
        completion ltac:(by apply Hsame))). prog_run. eexists. split; [reflexivity|].
      split; [|done]. apply Hsame. unfold core_part. cbn. do 2 f_equal. symmetry. by apply Hinv.
    + prog_run. eexists. split; [reflexivity|]. by split; [apply Hsame|].
  - destruct (rl_pre_sta_set_status_run s status) as (r & E & _).
    rewrite (run_bind _ _ _ _ _ E), run_ret. eexists. split; [reflexivity|].
    by destruct (scan_refused s status); split; try apply Hsame.
  - unfold rl_pre_ap_set_status, INT_DISABLE, INT_RESTORE. prog_run.
    destruct (negb _); cbn [when]; prog_run; eexists; (split; [reflexivity|]);
      by split; [apply Hsame|].
  - unfold rl_pre_sta_set_cancel, rl_pre_sta_clear_cancel.
    destruct on; prog_run; eexists; (split; [reflexivity|]); by split; [apply Hsame|].
  - unfold rl_pre_ap_set_cancel, rl_pre_ap_clear_cancel.
    destruct on; prog_run; eexists; (split; [reflexivity|]); by split; [apply Hsame|].
  - unfold rl_init_csa_status. prog_run. eexists. split; [reflexivity|]. by split; [apply Hsame|].
  - unfold rl_set_csa_switching. prog_run. destruct (_ || _); prog_run;
      eexists; (split; [reflexivity|]); by split; [apply Hsame|].
  - unfold rl_set_csa_switched. prog_run. eexists. split; [reflexivity|]. by split; [apply Hsame|].
  - unfold rl_pre_ap_disable_autobcn. prog_run. destruct (negb _); cbn [when]; prog_run;
      eexists; (split; [reflexivity|]); by split; [apply Hsame|].
  - unfold fire_enter. prog_run. destruct (tm_armed _); cbn [when]; prog_run; [|by exists s].
    set (s1 := on_rl _ s). assert (Hi1 : rl_inv s1) by by apply Hsame.
    destruct (enter_handler_spec s1 tmp_ok Hroom Hi1) as (s' & -> & Hi & Ho). by exists s'.
  - unfold fire_rl. prog_run. destruct (tm_armed _); cbn [when]; prog_run; [|by exists s].
    set (s1 := on_rl _ s).
    assert (Hc1 : rl_core s1) by (destruct Hinv as [Hc _]; destruct Hc; by split).
    destruct (launch_handler_spec s1 Hc1) as (s' & -> & Hi & Ho & _). by exists s'.
Qed.

Lemma rl_init_inv s :
  slots (g_role_launch s) = [] -> heap s = ∅ -> pre_entity_type (g_role_launch s) = PRE_ENTITY_IDLE ->
  exists s', rl_init s = Done (tt, s') /\ rl_inv s' /\ int_off s' = int_off s.
Proof.
  intros Hs Hh Ht. unfold rl_init. prog_run. eexists. split; [reflexivity|]. split; [|done].
  split; [split|]; unfold slots in *; cbn -[lookup] in *; rewrite ?Hs, ?Hh; try done.
  - constructor.
  - intros p. rewrite lookup_empty, elem_of_nil. split; [by intros [? ?]|done].
  - auto.
  - intros Hw. exfalso. revert Hs. unfold waiting in Hw. cbn in Hw.
    repeat case_match; cbn; destruct Hw; done.
Qed.

Lemma rl_run_spec es : forall s,
  alloc_room -> rl_inv s -> exists s', rl_run es s = Done (tt, s') /\ rl_inv s'.
Proof.
  induction es as [|e es IH]; intros s Hroom Hinv; cbn [rl_run].
  - exists s. by rewrite run_ret.
  - destruct (rl_step_spec s e Hroom Hinv) as (s1 & E & Hi & _).
    rewrite (run_bind _ _ _ _ _ E). by apply IH.
Qed.
End Lemmas.

#[export] Hint Rewrite @run_getg @run_setg : prog.

(* ------------------------------------------------------------------ *)
(** ** Properties *)

Section Properties.
Context {DESCR CB : Type} `{Malloc (rl_entity DESCR CB)}.

(** C9: the launcher never faults.  After [rl_init] on the zeroed globals,
    whatever requests, status reports and timer firings happen and in
    whatever order, every handler finishes without touching a dead entity
    and without a failed assertion, given an allocator with room for four
    entities.  At every moment the four slots hold different live entities
    and no entity is leaked, and while a request is waiting the launch timer
    is armed. *)
Theorem rl_never_faults (es : list (rl_event DESCR CB)) :
  alloc_room ->
  exists s', (_ ← rl_init; rl_run es) rl_zero = Done (tt, s') /\
    NoDup (slots (g_role_launch s')) /\
    (forall p, is_Some (heap s' !! p) <-> p ∈ slots (g_role_launch s')) /\
    (size (heap s') <= 4)%nat /\
    (waiting (g_role_launch s') -> tm_armed (rl_timer (g_role_launch s')) = true).
Proof.
  intros Hroom. destruct (rl_init_inv (@rl_zero DESCR CB)) as (s1 & E1 & Hi1 & _); [done..|].
  rewrite (run_bind _ _ _ _ _ E1). destruct (rl_run_spec es s1 Hroom Hi1) as (s' & E & [Hc Ha]).
  exists s'. pose proof (core_size s' Hc). pose proof (slots_length (g_role_launch s')).
  split_and!; [done|apply Hc..|lia|done].
Qed.

(** C13: one launch step of either role does what [launch_spec] says on the
    requests behind the pointers: a free role starts its waiting request; a
    running request that may be replaced is released and the waiting one, if
    any, started; otherwise the pair stays.  The other role's requests are
    untouched, and exactly the started request reaches the stack. *)
Theorem rl_launch_refines (s : state DESCR CB) :
  rl_core s ->
  (exists r s', rl_launch_sta s = Done (r, s') /\ sta_launched s s' r) /\
  (exists r s', rl_launch_ap s = Done (r, s') /\ ap_launched s s' r).
Proof. intros Hc. split; [by apply launch_sta_spec|by apply launch_ap_spec]. Qed.

(** C21: entering a request does what [enter_spec] says: with both roles idle
    it starts at once (answer 1), behind a running request it waits (2), and
    with a request already waiting it is dropped (0); the launch timer is
    armed unless the request was started at once. *)
Theorem rl_enter_refines (s : state DESCR CB) (param : launch_req DESCR) (completion : CB) :
  alloc_room -> rl_inv s ->
  (exists r s', _sta_request_enter param completion s = Done (r, s') /\
    sta_entered s param s' r) /\
  (exists r s', _ap_request_enter param completion s = Done (r, s') /\
    ap_entered s param s' r).
Proof.
  intros Hroom Hinv.
  split; [by apply sta_request_enter_spec|by apply ap_request_enter_spec].
Qed.

(** a waiting station is started by the next firing of the launch timer:
    when the station role is served first and the running one may be
    replaced, or when the access-point role is served first, no access point
    is waiting, and no station is running. *)
Theorem rl_waiting_station_starts (s : state DESCR CB) (q : launch_req DESCR) :
  rl_inv s -> snd (sta_view s) = Some q ->
  (pre_entity_type (g_role_launch s) = PRE_ENTITY_STA /\ sta_may s = true \/
   pre_entity_type (g_role_launch s) = PRE_ENTITY_AP /\
     jl_following_ap (g_role_launch s) = None /\ jl_previous_sta (g_role_launch s) = None) ->
  exists s', fire_rl s = Done (tt, s') /\ sta_view s' = (Some q, None) /\
    wlan s' = wlan s ++ sta_calls (Some q) /\
    tm_armed (rl_timer (g_role_launch s')) = true.
Proof.
  intros [Hc Harm] Hq Hcase. unfold fire_rl. prog_run.
  rewrite Harm by (left; intros E; unfold sta_view in Hq; by rewrite E in Hq). cbn [when]. prog_run.
  set (s1 := on_rl _ s).
  assert (Hc1 : rl_core s1) by (destruct Hc; by split).
  unfold rl_launch_handler. prog_run.
  assert (Hend : forall s2 : state DESCR CB, rl_core s2 -> exists s', (when true
      (_ ← rl_relaunch_chance; mret tt)) s2 = Done (tt, s') /\ sta_view s' = sta_view s2 /\
      wlan s' = wlan s2 /\ tm_armed (rl_timer (g_role_launch s')) = true).
  { intros s2 Hc2. cbn [when].
    rewrite (run_bind _ _ _ _ _ (rl_relaunch_chance_run s2 ltac:(apply Hc2))), run_ret.
    by eexists. }
  destruct Hcase as [[Ht Hmay]|(Ht & Hfa & Hps)];
    change (pre_entity_type (g_role_launch s1)) with (pre_entity_type (g_role_launch s));
    rewrite Ht; cbn [Z.eqb PRE_ENTITY_AP PRE_ENTITY_STA Pos.eqb].
  - destruct (launch_sta_spec s1 Hc1) as (r & s2 & E & Hl).
    unfold sta_launched in Hl. change (sta_may s1) with (sta_may s) in Hl.
    change (sta_view s1) with (sta_view s) in Hl. rewrite Hmay, Hq in Hl.
    assert (Hspec : launch_spec true (fst (sta_view s)) (Some q)
      = (Some q, None, Some q, LAUNCH_STATUS_CONT)) by by destruct (fst (sta_view s)).
    rewrite Hspec in Hl. destruct Hl as (-> & Hv & _ & Hw & _ & Hc2 & _).
    rewrite run_assoc, (run_bind _ _ _ _ _ E). prog_run.
    destruct (Hend s2 Hc2) as (s' & E' & Hv' & Hw' & Ha').
    exists s'. rewrite Hv', Hw'. by split_and!.
  - destruct (launch_ap_spec s1 Hc1) as (r & s2 & E & Hl).
    destruct (ap_launched_facts _ _ _ Hl) as (Hsv & Hc2 & _).
    unfold ap_launched in Hl.
    assert (Hq2 : snd (ap_view s1) = None) by (unfold ap_view; cbn; by rewrite Hfa).
    rewrite Hq2 in Hl.
    assert (Hm : ap_may s1 = true) by (unfold ap_may; cbn; by rewrite Hfa). rewrite Hm in Hl.
    assert (Hspec : launch_spec true (fst (ap_view s1)) None
      = (None, None, None, LAUNCH_STATUS_OVER)) by by destruct (fst (ap_view s1)).
    rewrite Hspec in Hl. destruct Hl as (-> & _ & _ & Hw & _ & _ & _).
    cbn in Hw. rewrite app_nil_r in Hw.
    rewrite run_assoc, (run_bind _ _ _ _ _ E). rewrite Z.eqb_refl. prog_run.
    set (s3 := on_rl (set_entity_type PRE_ENTITY_STA) s2).
    assert (Hc3 : rl_core s3) by (apply core_set_type; auto).
    destruct (launch_sta_spec s3 Hc3) as (r' & s4 & E' & Hl').
    unfold sta_launched in Hl'. change (sta_view s3) with (sta_view s2) in Hl'.
    rewrite Hsv in Hl'. change (sta_view s1) with (sta_view s) in Hl'. rewrite Hq in Hl'.
    assert (Hrun : fst (sta_view s) = None) by (unfold sta_view; cbn; by rewrite Hps).
    rewrite Hrun in Hl'. cbn [launch_spec launch_status] in Hl'.
    destruct Hl' as (-> & Hv & _ & Hw' & _ & Hc4 & _).
    rewrite (run_bind _ _ _ _ _ E'). prog_run.
    destruct (Hend s4 Hc4) as (s' & E'' & Hv' & Hw'' & Ha').
    exists s'. rewrite Hv', Hw'', Hw'. split_and!; [done..| |done]. cbn. by rewrite Hw.
Qed.

(** every event leaves the interrupt mask as it found it, except a scan
    report that [rl_pre_sta_set_status] turns down: that one leaves
    interrupts disabled, and the report the caller makes next
    (rw_msg_send_scanu_req: SCAN_OVER) does not enable them again. *)
Theorem rl_refused_scan_masks (s : state DESCR CB) (e : rl_event DESCR CB) :
  alloc_room -> rl_inv s ->
  exists s', rl_step e s = Done (tt, s') /\
    (int_off s' = match e with
                  | Ev_sta_status status => scan_refused s status || int_off s
                  | _ => int_off s
                  end) /\
    (scan_refused s RL_STATUS_STA_SCANNING = true -> e = Ev_sta_status RL_STATUS_STA_SCANNING ->
     exists s2, rl_step (Ev_sta_status RL_STATUS_STA_SCAN_OVER) s' = Done (tt, s2) /\
       int_off s2 = true).
Proof.
  intros Hroom Hinv. destruct (rl_step_spec s e Hroom Hinv) as (s' & E & Hi & Ho).
  exists s'. split; [done|]. split; [done|]. intros Href ->. cbn [mask_after] in Ho.
  rewrite Href in Ho.
  destruct (rl_step_spec s' (Ev_sta_status RL_STATUS_STA_SCAN_OVER) Hroom Hi)
    as (s2 & E2 & _ & Ho2).
  exists s2. split; [done|]. by rewrite Ho2.
Qed.

(** of two station requests entered before the enter timer fires, only
    the second is kept: the state is as if the first had never been made. *)
Theorem rl_last_request_wins (s : state DESCR CB) (p1 p2 : launch_req DESCR) (c1 c2 : CB) :
  rl_inv s ->
  (_ ← rl_sta_request_enter p1 c1; rl_sta_request_enter p2 c2) s = rl_sta_request_enter p2 c2 s.
Proof.
  intros Hinv. rewrite (run_bind _ _ _ _ _ (rl_sta_request_enter_run s p1 c1 Hinv)).
  rewrite !rl_sta_request_enter_run; [done|done|].
  apply (inv_same s _ Hinv). unfold core_part. cbn. do 2 f_equal. symmetry. by apply Hinv.
Qed.
End Properties.

(* ------------------------------------------------------------------ *)
(** ** The properties on concrete states *)

(** An allocator that always finds an address. *)
Definition fresh_alloc {A} (h : gmap positive A) : option positive :=
  Some (fresh (dom h : gset positive)).

Lemma fresh_alloc_fresh {A} (h : gmap positive A) p : fresh_alloc h = Some p -> h !! p = None.
Proof. intros [= <-]. apply not_elem_of_dom, is_fresh. Defined.

#[export] Instance fresh_malloc {A} : Malloc A :=
  {| os_zalloc := fresh_alloc; os_zalloc_fresh := fresh_alloc_fresh |}.

Lemma fresh_room : @alloc_room Z Z fresh_malloc.
Proof. intros h _. by eexists. Defined.

Definition sta_req (ssid : Z) : launch_req Z := mk_req ssid LAUNCH_REQ_STA.

(** A launched station in slot 1, another one waiting in slot 2. *)
Definition rl_example : state Z Z :=
  mk_state (mk_rl (mk_timer true false) (mk_timer true true) RL_TIMER_START PRE_ENTITY_STA
      0 RL_STATUS_STA_LAUNCHED 0 0 (Some 1%positive) (Some 2%positive) None None)
    None None None 0
    {[1%positive := mk_entity LAUNCH_TYPE_ASAP 0 0 (sta_req 11) 0;
      2%positive := mk_entity LAUNCH_TYPE_ASAP 0 0 (sta_req 22) 0]} false [].

Lemma rl_example_inv : rl_inv rl_example.
Proof.
  split; [split|]; cbn -[lookup]; auto.
  - repeat constructor; set_solver.
  - intros p. rewrite !elem_of_cons, elem_of_nil, lookup_insert_is_Some, lookup_singleton_is_Some.
    destruct (decide (p = 1%positive)); naive_solver.
  - intros p e. rewrite lookup_insert_Some, lookup_singleton_Some. naive_solver.
Defined.

Lemma rl_never_faults_witness :
  let es := [Ev_sta_request (sta_req 1) 0; Ev_enter_timer true; Ev_sta_request (sta_req 2) 0;
             Ev_enter_timer true; Ev_sta_status RL_STATUS_STA_LAUNCHED; Ev_rl_timer] in
  exists s', (_ ← rl_init; rl_run es) (@rl_zero Z Z) = Done (tt, s') /\
    NoDup (slots (g_role_launch s')) /\
    (forall p, is_Some (heap s' !! p) <-> p ∈ slots (g_role_launch s')) /\
    (size (heap s') <= 4)%nat /\
    (waiting (g_role_launch s') -> tm_armed (rl_timer (g_role_launch s')) = true).
Proof. intros es. apply (rl_never_faults es fresh_room). Defined.

Lemma rl_launch_refines_witness :
  (exists r s', rl_launch_sta rl_example = Done (r, s') /\ sta_launched rl_example s' r) /\
  (exists r s', rl_launch_ap rl_example = Done (r, s') /\ ap_launched rl_example s' r).
Proof. apply (rl_launch_refines rl_example). apply rl_example_inv. Defined.

Lemma rl_enter_refines_witness :
  (exists r s', _sta_request_enter (sta_req 3) 0 rl_example = Done (r, s') /\
    sta_entered rl_example (sta_req 3) s' r) /\
  (exists r s', _ap_request_enter (sta_req 3) 0 rl_example = Done (r, s') /\
    ap_entered rl_example (sta_req 3) s' r).
Proof. apply (rl_enter_refines rl_example (sta_req 3) 0 fresh_room rl_example_inv). Defined.

Lemma rl_waiting_station_starts_witness :
  exists s', fire_rl rl_example = Done (tt, s') /\ sta_view s' = (Some (sta_req 22), None) /\
    wlan s' = [] ++ sta_calls (Some (sta_req 22)) /\
    tm_armed (rl_timer (g_role_launch s')) = true.
Proof.
  apply (rl_waiting_station_starts rl_example (sta_req 22) rl_example_inv); [reflexivity|].
  left. split; reflexivity.
Defined.

Lemma rl_refused_scan_masks_witness :
  exists s', rl_step (Ev_sta_status RL_STATUS_STA_SCANNING) rl_example = Done (tt, s') /\
    int_off s' = true /\
    exists s2, rl_step (Ev_sta_status RL_STATUS_STA_SCAN_OVER) s' = Done (tt, s2) /\
      int_off s2 = true.
Proof.
  destruct (rl_refused_scan_masks rl_example (Ev_sta_status RL_STATUS_STA_SCANNING)
    fresh_room rl_example_inv) as (s' & E & Ho & H2).
  exists s'. split; [exact E|]. split; [exact Ho|]. apply H2; reflexivity.
Defined.

Lemma rl_last_request_wins_witness :
  (_ ← rl_sta_request_enter (sta_req 7) 0; rl_sta_request_enter (sta_req 8) 0) rl_example
  = rl_sta_request_enter (sta_req 8) 0 rl_example.
Proof. apply (rl_last_request_wins rl_example (sta_req 7) (sta_req 8) 0 0 rl_example_inv). Defined.
