(* ===== verification/DhcpServer.v ===== *)
(** The DHCP server of the soft access point:
    beken378/func/lwip_intf/dhcpd/dhcp-server.c.

    [dhcps] is the C structure of that name; the message buffer it points to
    is a list of bytes, read and written at the offsets of the packed
    structures [bootp_header] (240 bytes) and [bootp_option], every access
    bounds-checked.  Addresses are the 32-bit words the C code holds: network
    order, except [current_ip].  The lwIP calls are an interface ([Net]) on a
    network state of their own. *)

From S2P Require Import Prelude.

Definition SERVER_BUFFER_SIZE : Z := 1024.
Definition MAC_IP_CACHE_SIZE : Z := 8.
Definition CLIENT_IP_NOT_FOUND : Z := 0.
Definition DHCP_SERVER_PORT : Z := 67.
Definition DHCP_CLIENT_PORT : Z := 68.
Definition NAMESERVER_PORT : Z := 53.
Definition CTRL_PORT : Z := 12679.

Definition BOOTP_OP_REQUEST : Z := 1.
Definition BOOTP_OP_RESPONSE : Z := 2.
Definition BOOTP_OPTION_SUBNET_MASK : Z := 1.
Definition BOOTP_OPTION_ROUTER : Z := 3.
Definition BOOTP_OPTION_NAMESERVER : Z := 6.
Definition BOOTP_OPTION_REQUESTED_IP : Z := 50.
Definition BOOTP_OPTION_ADDRESS_TIME : Z := 51.
Definition BOOTP_OPTION_DHCP_MESSAGE : Z := 53.
Definition BOOTP_OPTION_DHCP_SERVER_ID : Z := 54.
Definition BOOTP_END_OPTION : Z := 255.

Definition DHCP_MESSAGE_DISCOVER : Z := 1.
Definition DHCP_MESSAGE_OFFER : Z := 2.
Definition DHCP_MESSAGE_REQUEST : Z := 3.
Definition DHCP_MESSAGE_ACK : Z := 5.
Definition DHCP_MESSAGE_NAK : Z := 6.
Definition DHCP_NO_RESPONSE : Z := 255.

Definition EINVAL : Z := 22.

(** Offsets of [struct bootp_header] and the sizes of the packed structures. *)
Definition OFF_htype : Z := 1.
Definition OFF_hlen : Z := 2.
Definition OFF_hops : Z := 3.
Definition OFF_flags : Z := 10.
Definition OFF_ciaddr : Z := 12.
Definition OFF_yiaddr : Z := 16.
Definition OFF_siaddr : Z := 20.
Definition OFF_riaddr : Z := 24.
Definition OFF_chaddr : Z := 28.
Definition SIZEOF_bootp_header : Z := 240.
Definition SIZEOF_bootp_option : Z := 2.
Definition SIZEOF_dns_header : Z := 12.

(** [struct sockaddr_in]: address (network order) and port. *)
Record sockaddr_in := mk_addr { sin_addr : Z; sin_port : Z }.

(** [struct dhcp_server_data]; a binding is a MAC of six bytes and an IP. *)
Record dhcp_server_data := mk_dhcps {
  sock : Z;
  dnssock : Z;
  ctrlsock : Z;
  count_clients : Z;
  msg : option (list Z);
  uaddr : sockaddr_in;
  baddr : sockaddr_in;
  ip_mac_mapping : list (list Z * Z);
  netmask : Z;
  my_ip : Z;
  client_ip : Z;
  current_ip : Z;
  router_ip : Z
}.

Definition set_socks (a b c : Z) (d : dhcp_server_data) : dhcp_server_data :=
  mk_dhcps a b c (count_clients d) (msg d) (uaddr d) (baddr d) (ip_mac_mapping d)
    (netmask d) (my_ip d) (client_ip d) (current_ip d) (router_ip d).
Definition set_mapping (n : Z) (t : list (list Z * Z)) (d : dhcp_server_data) : dhcp_server_data :=
  mk_dhcps (sock d) (dnssock d) (ctrlsock d) n (msg d) (uaddr d) (baddr d) t
    (netmask d) (my_ip d) (client_ip d) (current_ip d) (router_ip d).
Definition set_msg (m : option (list Z)) (d : dhcp_server_data) : dhcp_server_data :=
  mk_dhcps (sock d) (dnssock d) (ctrlsock d) (count_clients d) m (uaddr d) (baddr d)
    (ip_mac_mapping d) (netmask d) (my_ip d) (client_ip d) (current_ip d) (router_ip d).
Definition set_uaddr_ip (ip : Z) (d : dhcp_server_data) : dhcp_server_data :=
  mk_dhcps (sock d) (dnssock d) (ctrlsock d) (count_clients d) (msg d)
    (mk_addr ip (sin_port (uaddr d))) (baddr d)
    (ip_mac_mapping d) (netmask d) (my_ip d) (client_ip d) (current_ip d) (router_ip d).
Definition set_client_ip (ip : Z) (d : dhcp_server_data) : dhcp_server_data :=
  mk_dhcps (sock d) (dnssock d) (ctrlsock d) (count_clients d) (msg d) (uaddr d) (baddr d)
    (ip_mac_mapping d) (netmask d) (my_ip d) ip (current_ip d) (router_ip d).
Definition set_current_ip (ip : Z) (d : dhcp_server_data) : dhcp_server_data :=
  mk_dhcps (sock d) (dnssock d) (ctrlsock d) (count_clients d) (msg d) (uaddr d) (baddr d)
    (ip_mac_mapping d) (netmask d) (my_ip d) (client_ip d) ip (router_ip d).

(** The network side: the lwIP calls of the server.  A datagram is sent whole
    or not at all (lwip_sendto of api/sockets.c). *)
Class Net (N : Type) := {
  lwip_sendto : N -> Z -> sockaddr_in -> list Z -> Z * N;
  ap_set_default_netif : N -> N;
  etharp_add_static_entry : N -> Z -> list Z -> N;
  etharp_remove_static_entry : N -> Z -> N;
  lwip_socket : N -> Z * N;
  setsockopt_broadcast : N -> Z -> Z * N;
  lwip_bind : N -> Z -> sockaddr_in -> Z * N;
  lwip_close : N -> Z -> Z * N;
  net_get_if_macaddr : N -> list Z;
  net_get_if_ip_addr : N -> Z * Z;
  net_get_if_ip_mask : N -> Z * Z;
  net_get_if_gw_addr : N -> Z * Z;
  lwip_sendto_whole : forall n s a bs,
    fst (lwip_sendto n s a bs) = -1 \/ fst (lwip_sendto n s a bs) = zlen bs;
  net_get_if_macaddr_len : forall n, zlen (net_get_if_macaddr n) = 6
}.

(* ------------------------------------------------------------------ *)
(** ** The cache of bindings *)

(** The bindings the lookup loops visit: [i < count_clients] and
    [i < MAC_IP_CACHE_SIZE], the length of the table. *)
Definition live (d : dhcp_server_data) : list (list Z * Z) :=
  take (Z.to_nat (count_clients d)) (ip_mac_mapping d).

Definition ac_not_full (d : dhcp_server_data) : bool := count_clients d <? MAC_IP_CACHE_SIZE.

(** The result is the C [bool]: 0 when added, 1 (from [-1]) when full. *)
Definition ac_add (d : dhcp_server_data) (chaddr : list Z) (ip : Z)
    : outcome (Z * dhcp_server_data) :=
  if ac_not_full d then
    t ← aset (ip_mac_mapping d) (count_clients d) (chaddr, ip);
    Done (0, set_mapping (count_clients d + 1) t d)
  else Done (1, d).

Fixpoint find_mac (l : list (list Z * Z)) (chaddr : list Z) : Z :=
  match l with
  | [] => CLIENT_IP_NOT_FOUND
  | (mac, ip) :: l' => if bool_decide (mac = chaddr) then ip else find_mac l' chaddr
  end.

Definition ac_lookup_mac (d : dhcp_server_data) (chaddr : list Z) : Z := find_mac (live d) chaddr.

Fixpoint find_ip (l : list (list Z * Z)) (ip : Z) : option (list Z) :=
  match l with
  | [] => None
  | (mac, ip') :: l' => if ip' =? ip then Some mac else find_ip l' ip
  end.

Definition ac_lookup_ip (d : dhcp_server_data) (ip : Z) : option (list Z) := find_ip (live d) ip.

(** [~netmask] on 32 bits. *)
Definition not32 (x : Z) : Z := Z.lxor x (2 ^ 32 - 1).

(** [requested_ip] is in host order. *)
Definition ac_valid_ip (d : dhcp_server_data) (requested_ip : Z) : bool :=
  if (requested_ip =? bswap32 (my_ip d))
     || (requested_ip =? bswap32 (Z.land (my_ip d) (netmask d)))
     || (requested_ip =? bswap32 (Z.lor (my_ip d) (Z.land 0xffffffff (not32 (netmask d)))))
  then false
  else match ac_lookup_ip d (bswap32 requested_ip) with
       | Some _ => false
       | None => true
       end.

(** [write_u32] stores the word least significant byte first. *)
Definition write_u32 (be_value : Z) : list Z :=
  [Z.land be_value 0xFF; Z.land (Z.shiftr be_value 8) 0xFF;
   Z.land (Z.shiftr be_value 16) 0xFF; u8 (Z.shiftr be_value 24)].

(** [dhcp_server_lease_timeout]: the answer and the new time-out. *)
Definition dhcp_server_lease_timeout (dhcp_address_timeout val : Z) : Z * Z :=
  if (val =? 0) || (60 * 60 * 24 * 49700 <? val) then (- EINVAL, dhcp_address_timeout)
  else (0, val).

Definition dhcp_get_ip_from_mac (d : dhcp_server_data) (client_mac : list Z) : Z * Z :=
  let ip := ac_lookup_mac d client_mac in
  if ip =? CLIENT_IP_NOT_FOUND then (-1, ip) else (0, ip).

(** The next candidate after [cur], in host order. *)
Definition next_candidate (d : dhcp_server_data) (cur : Z) : Z :=
  Z.lor (bswap32 (Z.land (my_ip d) (netmask d)))
        (Z.land (u32 (cur + 1)) (bswap32 (not32 (netmask d)))).

(** The [while] of [next_yiaddr].  At most eleven addresses can be refused
    (our own, the network's, the broadcast one and eight bindings), so a
    search that fails twelve times in a row never ends ([Spin]). *)
Fixpoint search_ip (d : dhcp_server_data) (fuel : nat) (cur : Z) : outcome Z :=
  match fuel with
  | O => Spin
  | S fuel' => if ac_valid_ip d cur then Done cur else search_ip d fuel' (next_candidate d cur)
  end.

Definition SEARCH_FUEL : nat := 12.

Definition next_yiaddr (d : dhcp_server_data) (chaddr : list Z) : outcome (Z * dhcp_server_data) :=
  let new_ip := ac_lookup_mac d chaddr in
  if new_ip =? CLIENT_IP_NOT_FOUND then
    cur ← search_ip d SEARCH_FUEL (next_candidate d (current_ip d));
    let d := set_current_ip cur d in
    let new_ip := bswap32 cur in
    '(_, d) ← ac_add d chaddr new_ip;
    Done (new_ip, d)
  else Done (new_ip, d).

(* ------------------------------------------------------------------ *)
(** ** Messages *)

Section Code.
Context {N : Type} `{Net N}.

(** The server and what surrounds it: the lease time, whether the refusing
    DNS server is enabled, whether the mutex exists, the network. *)
Record server := mk_server {
  dhcps : dhcp_server_data;
  dhcp_address_timeout : Z;
  dns_handler : bool;
  dhcpd_mutex : bool;
  net : N
}.

Abbreviation srv := (prog server).

Definition on_dhcps (f : dhcp_server_data -> dhcp_server_data) (s : server) : server :=
  mk_server (f (dhcps s)) (dhcp_address_timeout s) (dns_handler s) (dhcpd_mutex s) (net s).
Definition set_mutex (b : bool) (s : server) : server :=
  mk_server (dhcps s) (dhcp_address_timeout s) (dns_handler s) b (net s).
Definition on_net (f : N -> N) (s : server) : server :=
  mk_server (dhcps s) (dhcp_address_timeout s) (dns_handler s) (dhcpd_mutex s) (f (net s)).

Definition getd {A} (f : dhcp_server_data -> A) : srv A := gets (fun s => f (dhcps s)).
Definition setd (f : dhcp_server_data -> dhcp_server_data) : srv unit := modify (on_dhcps f).

(** Reads and writes of the message buffer. *)
Definition rd (off n : Z) : srv (list Z) :=
  m ← getd msg; m ← lift (deref m); lift (mem_read m off n).
Definition wr (off : Z) (bytes : list Z) : srv unit :=
  m ← getd msg; m ← lift (deref m); m ← lift (mem_write m off bytes); setd (set_msg (Some m)).
Definition rd8 (off : Z) : srv Z := bs ← rd off 1; mret (of_le bs).
Definition rd16 (off : Z) : srv Z := bs ← rd off 2; mret (of_le bs).
Definition rd32 (off : Z) : srv Z := bs ← rd off 4; mret (of_le bs).

(** One option at [offset]: its type, its bytes, its length; the offset after it. *)
Definition put_option (offset type : Z) (value : list Z) : srv Z :=
  _ ← wr offset [type];
  _ ← wr (offset + SIZEOF_bootp_option) value;
  _ ← wr (offset + 1) [zlen value];
  mret (offset + SIZEOF_bootp_option + zlen value).

Definition make_response (type : Z) : srv Z :=
  _ ← wr 0 [BOOTP_OP_RESPONSE];
  _ ← wr OFF_htype [1];
  _ ← wr OFF_hlen [6];
  _ ← wr OFF_hops [0];
  _ ← wr OFF_ciaddr (le32 0);
  ip ← getd client_ip;
  _ ← wr OFF_yiaddr (le32 (if type =? DHCP_MESSAGE_ACK then ip else 0));
  yiaddr ← (if type =? DHCP_MESSAGE_OFFER then
              chaddr ← rd OFF_chaddr 6;
              d ← getd id;
              '(ip, d) ← lift (next_yiaddr d chaddr);
              _ ← setd (fun _ => d);
              mret ip
            else rd32 OFF_yiaddr);
  _ ← wr OFF_yiaddr (le32 yiaddr);
  _ ← wr OFF_siaddr (le32 0);
  _ ← wr OFF_riaddr (le32 0);
  let offset := SIZEOF_bootp_header in
  offset ← put_option offset BOOTP_OPTION_DHCP_MESSAGE [type];
  if type =? DHCP_MESSAGE_NAK then mret offset else
  mask ← getd netmask; me ← getd my_ip; router ← getd router_ip;
  timeout ← gets dhcp_address_timeout; dns ← gets dns_handler;
  offset ← put_option offset BOOTP_OPTION_SUBNET_MASK (write_u32 mask);
  offset ← put_option offset BOOTP_OPTION_ADDRESS_TIME (write_u32 (bswap32 timeout));
  offset ← put_option offset BOOTP_OPTION_DHCP_SERVER_ID (write_u32 me);
  offset ← put_option offset BOOTP_OPTION_ROUTER (write_u32 router);
  offset ← put_option offset BOOTP_OPTION_NAMESERVER (write_u32 (if dns : bool then router else 0));
  _ ← wr offset [BOOTP_END_OPTION];
  mret (offset + 1).

(** The send loop: [sent] grows by what [lwip_sendto] reports. *)
Fixpoint send_loop (fuel : nat) (s : Z) (addr : sockaddr_in) (len sent : Z) : srv Z :=
  if negb (sent <? len) then mret 0 else
  match fuel with
  | O => lift Spin
  | S fuel' =>
      bytes ← rd sent (len - sent);
      n ← gets net;
      let '(nb, n) := lwip_sendto n s addr bytes in
      _ ← modify (on_net (fun _ => n));
      if nb <? 0 then mret (-1) else send_loop fuel' s addr len (sent + nb)
  end.

Definition send_response (s : Z) (addr : sockaddr_in) (len : Z) : srv Z :=
  _ ← when ((sin_addr addr =? 0) || (sin_addr addr =? 0xffffffff))
        (modify (on_net ap_set_default_netif));
  send_loop (Z.to_nat len) s addr len 0.

Definition write_u16be (x : Z) : list Z := le16 (bswap16 x).

(** The Ethernet frame [struct arp_packet], 60 bytes. *)
Definition arp_packet (mac : list Z) (ip : Z) : list Z :=
  replicate 6 0xff ++ mac ++ write_u16be 0x0806 ++ write_u16be 1 ++ write_u16be 0x0800
  ++ [6; 4] ++ write_u16be 2 ++ mac ++ write_u32 ip ++ replicate 6 0xff ++ write_u32 ip
  ++ replicate 18 0.

Definition close_sock (s : Z) : srv unit :=
  n ← gets net; modify (on_net (fun _ => snd (lwip_close n s))).

Definition send_gratuitous_arp (ip : Z) : srv Z :=
  n ← gets net;
  let mac := net_get_if_macaddr n in
  let '(s, n) := lwip_socket n in
  _ ← modify (on_net (fun _ => n));
  if s <? 0 then mret (-1) else
  let '(nb, n) := lwip_sendto n s (mk_addr ip 0) (arp_packet mac ip) in
  _ ← modify (on_net (fun _ => n));
  _ ← close_sock s;
  mret (if nb <? 0 then -1 else 0).

(** [process_dns_message]: the flags word is read and written before it is
    converted to host order. *)
Definition ERROR_REFUSED : Z := 5.

Definition process_dns_message (len : Z) (fromaddr : sockaddr_in) : srv Z :=
  if len <? SIZEOF_dns_header then mret (-1) else
  flags ← rd16 2;
  if Z.testbit flags 15 then mret (-1) else
  q ← rd16 4;
  if bswap16 q <=? 0 then mret (-1) else
  (* qr = 1, opcode = aa = tc = 0, rd = 1, ra = 0, rcode = 5; cd, ad, z kept *)
  let flags := Z.lor (Z.land flags 0x70) (0x8100 + ERROR_REFUSED) in
  _ ← wr 2 (le16 (bswap16 flags));
  _ ← wr 4 (le16 (bswap16 1));
  _ ← wr 6 (le16 0);
  _ ← wr 8 (le16 0);
  _ ← wr 10 (le16 0);
  s ← getd dnssock;
  _ ← send_response s fromaddr len;
  mret (-1).

(** The state of the option loop: [response_type], [got_ip], [need_ip],
    [got_client_ip]. *)
Record scan := mk_scan { response_type : Z; got_ip : bool; need_ip : bool; got_client_ip : bool }.

(** The DHCP_MESSAGE option, then the REQUESTED_IP option. *)
Definition scan_message (opt type length : Z) (c : scan) : srv scan :=
  if negb ((type =? BOOTP_OPTION_DHCP_MESSAGE) && (length =? 1)) then mret c else
  v ← rd8 (opt + SIZEOF_bootp_option);
  if v =? DHCP_MESSAGE_DISCOVER then
    mret (mk_scan DHCP_MESSAGE_OFFER (got_ip c) (need_ip c) (got_client_ip c))
  else if v =? DHCP_MESSAGE_REQUEST then
    ciaddr ← rd32 OFF_ciaddr;
    if ciaddr =? 0 then mret (mk_scan (response_type c) (got_ip c) true (got_client_ip c))
    else _ ← setd (set_client_ip ciaddr);
         mret (mk_scan (response_type c) (got_ip c) true true)
  else mret c.

Definition scan_requested (opt type length : Z) (c : scan) : srv scan :=
  if negb ((type =? BOOTP_OPTION_REQUESTED_IP) && (length =? 4)) then mret c else
  v ← rd32 (opt + SIZEOF_bootp_option);
  _ ← setd (set_client_ip v);
  mret (mk_scan (response_type c) (got_ip c) (need_ip c) true).

(** The check of a requested address, made after every option once there is
    one. *)
Definition scan_check (c : scan) : srv scan :=
  if negb (got_client_ip c) then mret c else
  d ← getd id;
  if negb (Z.land (client_ip d) (netmask d) =? Z.land (my_ip d) (netmask d)) then mret c else
  chaddr ← rd OFF_chaddr 6;
  let new_ip := ac_lookup_mac d chaddr in
  if negb (new_ip =? CLIENT_IP_NOT_FOUND) then
    mret (mk_scan (response_type c) (new_ip =? client_ip d) (need_ip c) (got_client_ip c))
  else if ac_valid_ip d (bswap32 (client_ip d)) then
    _ ← when (ac_not_full d)
          ('(_, d) ← lift (ac_add d chaddr (client_ip d)); setd (fun _ => d));
    mret (mk_scan (response_type c) true (need_ip c) (got_client_ip c))
  else mret c.

Definition scan_answer (c : scan) : scan :=
  if need_ip c then
    mk_scan (if got_ip c then DHCP_MESSAGE_ACK else DHCP_MESSAGE_NAK) (got_ip c) true (got_client_ip c)
  else c.

(** [len] shrinks by two or more in each turn, so [Z.to_nat len] turns do. *)
Fixpoint scan_options (fuel : nat) (opt len : Z) (c : scan) : srv scan :=
  if negb (0 <? len) then mret c else
  type ← rd8 opt;
  if type =? BOOTP_END_OPTION then mret c else
  match fuel with
  | O => lift Spin
  | S fuel' =>
      length ← rd8 (opt + 1);
      c ← scan_message opt type length c;
      c ← scan_requested opt type length c;
      c ← scan_check c;
      let consumed := SIZEOF_bootp_option + length in
      scan_options fuel' (opt + consumed) (len - consumed) (scan_answer c)
  end.

(** The reply: to the new address, if there is one, then three broadcasts. *)
Definition reply (type : Z) : srv Z :=
  send_byte ← make_response type;
  dst_ip ← rd32 OFF_yiaddr;
  _ ← when (negb (dst_ip =? 0))
        (_ ← setd (set_uaddr_ip dst_ip);
         chaddr ← rd OFF_chaddr 6;
         _ ← modify (on_net (fun n => etharp_add_static_entry n dst_ip chaddr));
         flags ← rd16 OFF_flags;
         _ ← wr OFF_flags (le16 (Z.land flags (Z.lxor (bswap16 0x8000) 0xffff)));
         s ← getd sock; u ← getd uaddr;
         _ ← send_response s u send_byte;
         modify (on_net (fun n => etharp_remove_static_entry n dst_ip)));
  flags ← rd16 OFF_flags;
  _ ← wr OFF_flags (le16 (Z.lor flags (bswap16 0x8000)));
  s ← getd sock; b ← getd baddr;
  _ ← send_response s b send_byte;
  _ ← send_response s b send_byte;
  _ ← send_response s b send_byte;
  me ← getd my_ip;
  _ ← when (type =? DHCP_MESSAGE_ACK) (_ ← send_gratuitous_arp me; mret tt);
  mret 0.

Definition process_dhcp_message (len : Z) : srv Z :=
  m ← getd msg;
  if bool_decide (m = None) then mret (-1) else
  if len <? SIZEOF_bootp_header + SIZEOF_bootp_option + 1 then mret (-1) else
  op ← rd8 0;
  if negb ((op =? BOOTP_OP_REQUEST) || (op =? BOOTP_OP_RESPONSE)) then mret (-1) else
  htype ← rd8 OFF_htype; hlen ← rd8 OFF_hlen;
  if negb (htype =? 1) || negb (hlen =? 6) then mret (-1) else
  let rest := len - SIZEOF_bootp_header in
  c ← scan_options (Z.to_nat rest) SIZEOF_bootp_header rest
        (mk_scan DHCP_NO_RESPONSE false false false);
  if response_type c =? DHCP_NO_RESPONSE then mret 0 else reply (response_type c).

(* ------------------------------------------------------------------ *)
(** ** Life cycle *)

Definition dhcp_enable_nack_dns_server : srv unit :=
  modify (fun s => mk_server (dhcps s) (dhcp_address_timeout s) true (dhcpd_mutex s) (net s)).

Definition dhcp_clean_sockets : srv unit :=
  d ← getd id;
  _ ← when (negb (sock d =? -1))
        (_ ← close_sock (sock d); setd (set_socks (-1) (dnssock d) (ctrlsock d)));
  handler ← gets dns_handler; d ← getd id;
  _ ← when (handler && negb (dnssock d =? -1))
        (_ ← close_sock (dnssock d); setd (set_socks (sock d) (-1) (ctrlsock d)));
  d ← getd id;
  when (negb (ctrlsock d =? -1))
    (_ ← close_sock (ctrlsock d); setd (set_socks (sock d) (dnssock d) (-1))).

(** SO_REUSEADDR is not implemented by lwIP; its result is ignored. *)
Definition create_and_bind_udp_socket (address : sockaddr_in) : srv Z :=
  n ← gets net;
  let '(s, n) := lwip_socket n in
  _ ← modify (on_net (fun _ => n));
  if s =? -1 then mret (-1) else
  n ← gets net;
  let '(ret, n) := setsockopt_broadcast n s in
  _ ← modify (on_net (fun _ => n));
  if ret =? -1 then _ ← close_sock s; mret (-1) else
  n ← gets net;
  let '(ret, n) := lwip_bind n s address in
  _ ← modify (on_net (fun _ => n));
  if negb (ret =? 0) then _ ← close_sock s; mret (-1) else mret s.

(** The zeroed structure with the buffer and the interface's addresses. *)
Definition dhcps_fresh (m : list Z) (ip mask gw : Z) : dhcp_server_data :=
  mk_dhcps 0 0 0 0 (Some m) (mk_addr 0xffffffff DHCP_CLIENT_PORT)
    (mk_addr 0xffffffff DHCP_CLIENT_PORT) (replicate (Z.to_nat MAC_IP_CACHE_SIZE) (replicate 6 0, 0))
    mask ip 0 0 gw.

(** The exit [out:] of [dhcp_server_init]. *)
Definition init_out : srv Z :=
  _ ← setd (set_msg None); _ ← modify (set_mutex false); mret (-1).

(** [buf] is what [os_mem_alloc] returns, [mutex_ret] the result of creating
    the mutex. *)
Definition dhcp_server_init (buf : option (list Z)) (mutex_ret : Z) : srv Z :=
  match buf with
  | None => _ ← setd (fun _ => set_msg None (dhcps_fresh [] 0 0 0)); mret (-1)
  | Some m =>
      _ ← setd (fun _ => dhcps_fresh m 0 0 0);
      if negb (mutex_ret =? 0) then mret (-1) else
      _ ← modify (set_mutex true);
      n ← gets net;
      let '(r1, ip) := net_get_if_ip_addr n in
      _ ← setd (fun _ => dhcps_fresh m ip 0 0);
      if r1 <? 0 then init_out else
      let '(r2, mask) := net_get_if_ip_mask n in
      _ ← setd (fun _ => dhcps_fresh m ip mask 0);
      if r2 <? 0 then init_out else
      let '(r3, gw) := net_get_if_gw_addr n in
      _ ← setd (fun _ => dhcps_fresh m ip mask gw);
      if r3 <? 0 then init_out else
      s ← create_and_bind_udp_socket (mk_addr 0 DHCP_SERVER_PORT);
      d ← getd id; _ ← setd (set_socks s (dnssock d) (ctrlsock d));
      if s <? 0 then init_out else
      handler ← gets dns_handler;
      dns ← (if handler : bool then
               dns ← create_and_bind_udp_socket (mk_addr 0 NAMESERVER_PORT);
               d ← getd id; _ ← setd (set_socks (sock d) dns (ctrlsock d)); mret dns
             else mret 0);
      if dns <? 0 then mret (-1) else
      c ← create_and_bind_udp_socket (mk_addr (bswap32 0x7f000001) CTRL_PORT);
      d ← getd id; _ ← setd (set_socks (sock d) (dnssock d) c);
      if c <? 0 then init_out else
      _ ← setd (set_current_ip (Z.lor (bswap32 (Z.land ip mask))
                                      (Z.land 99 (bswap32 (not32 mask)))));
      mret 0
  end.

(** The time-out of the wait for the server's thread and the failure of
    destroying the mutex are left out. *)
Definition dhcp_free_allocations : srv unit :=
  _ ← dhcp_clean_sockets;
  _ ← setd (set_msg None);
  modify (set_mutex false).

(** "HALT" with its NUL, to the control socket. *)
Definition HALT : list Z := [72; 65; 76; 84; 0].

Definition dhcp_send_halt : srv Z :=
  n ← gets net; s ← getd ctrlsock;
  let '(ret, n) := lwip_sendto n s (mk_addr (bswap32 0x7f000001) CTRL_PORT) HALT in
  _ ← modify (on_net (fun _ => n));
  if ret <? 0 then mret (-1) else _ ← dhcp_free_allocations; mret 0.

(** What one turn of [dhcp_server]'s select loop found: the data received on
    each of the three sockets, if any, or an error. *)
Record selected := mk_selected {
  on_sock : option (list Z);
  on_dnssock : option (list Z * sockaddr_in);
  on_ctrlsock : option (list Z)
}.

(** [strcmp(msg, "HALT") == 0]: the five bytes, NUL included. *)
Definition is_halt : srv bool := bs ← rd 0 5; mret (bool_decide (bs = HALT)).

(** A turn; [true] means [goto done]. *)
Definition dhcp_server_turn (ev : option selected) : srv bool :=
  match ev with
  | None => mret true
  | Some ev =>
      _ ← match on_sock ev with
          | Some data => when (0 <? zlen data)
              (_ ← wr 0 data; _ ← process_dhcp_message (zlen data); mret tt)
          | None => mret tt
          end;
      handler ← gets dns_handler;
      _ ← match on_dnssock ev with
          | Some (data, from) => when (handler && (0 <? zlen data))
              (_ ← wr 0 data; _ ← process_dns_message (zlen data) from; mret tt)
          | None => mret tt
          end;
      match on_ctrlsock ev with
      | Some data =>
          if 0 <? zlen data then _ ← wr 0 data; is_halt else mret false
      | None => mret false
      end
  end.

(** [dhcp_server], over the turns it is given; it cleans up when it is done. *)
Fixpoint dhcp_server (evs : list (option selected)) : srv bool :=
  match evs with
  | [] => mret false
  | ev :: evs' =>
      stop ← dhcp_server_turn ev;
      if stop : bool then _ ← dhcp_clean_sockets; mret true else dhcp_server evs'
  end.

(** dhcp-server-main.c: the server and [dhcpd_running]. *)
Definition daemon : Type := server * bool.

Definition on_server {A} (m : srv A) : prog daemon A := fun d =>
  '(a, s) ← m (fst d); Done (a, (s, snd d)).
Definition set_running (b : bool) : prog daemon unit := modify (fun d => (fst d, b)).

(** [thread_ret] is the result of creating the server's thread. *)
Definition dhcp_server_start (buf : option (list Z)) (mutex_ret thread_ret : Z) : prog daemon Z :=
  _ ← on_server dhcp_enable_nack_dns_server;
  running ← gets snd;
  if running : bool then mret (-1) else
  ret ← on_server (dhcp_server_init buf mutex_ret);
  if negb (ret =? 0) then mret (-1) else
  if negb (thread_ret =? 0) then _ ← on_server dhcp_free_allocations; mret (-1) else
  _ ← set_running true; mret 0.

Definition dhcp_server_stop : prog daemon unit :=
  running ← gets snd;
  when running
    (ret ← on_server dhcp_send_halt;
     if negb (ret =? 0) then mret tt else set_running false).
End Code.

Arguments server : clear implicits.
Arguments daemon : clear implicits.

(* ------------------------------------------------------------------ *)
(** ** The invariant of the bindings *)

(** An address the server may hand out (network order): in its subnet, and
    neither its own nor the network's nor the broadcast address. *)
Definition assignable (d : dhcp_server_data) (ip : Z) : Prop :=
  is_u32 ip /\ Z.land ip (netmask d) = Z.land (my_ip d) (netmask d) /\ ip <> my_ip d /\
  ip <> Z.land (my_ip d) (netmask d) /\ ip <> Z.lor (my_ip d) (not32 (netmask d)).

(** Every binding is assignable; no MAC and no address is bound twice. *)
Record dhcps_wf (d : dhcp_server_data) : Prop := {
  dw_mask : is_u32 (netmask d);
  dw_me : is_u32 (my_ip d);
  dw_count : 0 <= count_clients d <= MAC_IP_CACHE_SIZE;
  dw_table : zlen (ip_mac_mapping d) = MAC_IP_CACHE_SIZE;
  dw_macs : NoDup (map fst (live d));
  dw_ips : NoDup (map snd (live d));
  dw_assignable : Forall (fun b => assignable d (snd b)) (live d)
}.

(** A contiguous netmask with [k] host bits. *)
Definition host_bits (d : dhcp_server_data) (k : Z) : Prop :=
  0 <= k <= 32 /\ bswap32 (not32 (netmask d)) = 2 ^ k - 1.

(* ------------------------------------------------------------------ *)
(** ** Lemmas on addresses *)

Lemma not32_range x : is_u32 x -> is_u32 (not32 x).
Proof.
  unfold is_u32, not32. intros Hx. split; [apply Z.lxor_nonneg; lia|].
  apply Z.log2_lt_cancel. change (Z.log2 (2 ^ 32)) with 32.
  eapply Z.le_lt_trans; [apply Z.log2_lxor; lia|].
  change (Z.log2 (2 ^ 32 - 1)) with 31. pose proof (Z.log2_nonneg x).
  destruct (Z.eq_dec x 0) as [->|]; [cbn; lia|].
  assert (Z.log2 x < 32) by (apply Z.log2_lt_pow2; lia). lia.
Qed.

Lemma not32_testbit x n : 0 <= n < 32 -> Z.testbit (not32 x) n = negb (Z.testbit x n).
Proof.
  intros Hn. unfold not32. rewrite Z.lxor_spec. change (2 ^ 32 - 1) with (Z.ones 32).
  rewrite Z.ones_spec_low by lia. apply xorb_true_r.
Qed.

Lemma land_ones32 x : is_u32 x -> Z.land 0xffffffff x = x.
Proof.
  intros Hx. rewrite Z.land_comm. change 0xffffffff with (Z.ones 32).
  rewrite Z.land_ones by lia. by apply Z.mod_small.
Qed.

(** Words built from words. *)
Lemma is_u32_land x y : is_u32 x -> is_u32 y -> is_u32 (Z.land x y).
Proof. unfold is_u32. intros. apply land_word; lia. Qed.

Lemma is_u32_lor x y : is_u32 x -> is_u32 y -> is_u32 (Z.lor x y).
Proof. unfold is_u32. intros. apply lor_word; lia. Qed.

Lemma is_u32_bswap x : is_u32 (bswap32 x).
Proof. apply bswap32_range. Qed.

Lemma is_u32_u32 x : is_u32 (u32 x).
Proof. apply u32_range. Qed.

#[export] Hint Resolve not32_range is_u32_land is_u32_lor is_u32_bswap is_u32_u32 : words.

Lemma u32_eq x y : is_u32 x -> is_u32 y ->
  (forall n, 0 <= n < 32 -> Z.testbit x n = Z.testbit y n) -> x = y.
Proof. intros. apply (bits_below_eq 32); auto. lia. Qed.

Lemma assignable_nonzero d ip : assignable d ip -> ip <> 0.
Proof.
  intros (_ & Hn & _ & Hnet & _) ->. rewrite Z.land_0_l in Hn. congruence.
Qed.

Lemma swap_lor x y : is_u32 x -> is_u32 y -> bswap32 (Z.lor x y) = Z.lor (bswap32 x) (bswap32 y).
Proof. apply bswap32_lor. Qed.

Lemma swap_land x y :
  is_u32 x -> is_u32 y -> bswap32 (Z.land x y) = Z.land (bswap32 x) (bswap32 y).
Proof. apply bswap32_land. Qed.

Lemma swap_swap x : is_u32 x -> bswap32 (bswap32 x) = x.
Proof. apply bswap32_involutive. Qed.

(** The candidate lies in the subnet. *)
Lemma candidate_subnet d x :
  is_u32 (netmask d) -> is_u32 (my_ip d) ->
  Z.land (bswap32 (next_candidate d x)) (netmask d) = Z.land (my_ip d) (netmask d).
Proof.
  intros Hm Hi. unfold next_candidate.
  rewrite swap_lor, (swap_land (u32 (x + 1))), !swap_swap by auto 10 with words.
  apply u32_eq; auto 10 with words.
  intros n Hn. rewrite Z.land_spec, Z.lor_spec, !Z.land_spec, not32_testbit by lia.
  by destruct (Z.testbit (netmask d) n), (Z.testbit (my_ip d) n), (Z.testbit _ n).
Qed.

Lemma candidate_range d x : is_u32 (netmask d) -> is_u32 (my_ip d) -> is_u32 (next_candidate d x).
Proof. intros. unfold next_candidate. auto 10 with words. Qed.

(** ** The cache *)

Lemma find_ip_none l ip : find_ip l ip = None <-> ip ∉ map snd l.
Proof.
  induction l as [|[m i] l IH]; cbn.
  - split; [intros _; by apply not_elem_of_nil|done].
  - destruct (i =? ip) eqn:E; zbool.
    + split; [done|]. subst i. intros Hn. exfalso. apply Hn. by left.
    + rewrite IH, not_elem_of_cons. split; [by split|by intros [_ ?]].
Qed.

Lemma find_mac_none l m : Forall (fun b => snd b <> 0) l ->
  (find_mac l m = CLIENT_IP_NOT_FOUND <-> m ∉ map fst l).
Proof.
  induction l as [|[m' i] l IH]; intros Hl; cbn.
  - split; [intros _; by apply not_elem_of_nil|done].
  - apply Forall_cons in Hl as [Hi Hl]. cbn in Hi. destruct (bool_decide (m' = m)) eqn:E.
    + apply bool_decide_eq_true in E as ->. unfold CLIENT_IP_NOT_FOUND.
      split; [done|]. intros Hn. exfalso. apply Hn. by left.
    + apply bool_decide_eq_false in E. rewrite (IH Hl), not_elem_of_cons.
      split; [split; congruence|by intros [_ ?]].
Qed.

Lemma find_mac_some l m ip : find_mac l m = ip -> ip <> CLIENT_IP_NOT_FOUND -> (m, ip) ∈ l.
Proof.
  induction l as [|[m' i] l IH]; cbn; intros E Hne; [congruence|].
  destruct (bool_decide (m' = m)) eqn:Em.
  - apply bool_decide_eq_true in Em as ->. subst. by left.
  - right. by apply IH.
Qed.

Lemma live_nonzero d : dhcps_wf d -> Forall (fun b => snd b <> 0) (live d).
Proof.
  intros Hwf. eapply Forall_impl; [apply (dw_assignable d Hwf)|]. intros b.
  apply assignable_nonzero.
Qed.

(** A MAC looks up to an address exactly when it is bound to it. *)
Lemma lookup_mac_bound d m ip : dhcps_wf d -> ip <> 0 ->
  (ac_lookup_mac d m = ip <-> (m, ip) ∈ live d).
Proof.
  intros Hwf Hne. unfold ac_lookup_mac. split; [intros E; by apply find_mac_some|].
  pose proof (dw_macs d Hwf) as Hnd. revert Hnd. generalize (live d).
  intros l. induction l as [|[m' i] l IH]; cbn; intros Hnd Hin; [by apply elem_of_nil in Hin|].
  apply NoDup_cons in Hnd as [Hn Hnd].
  apply elem_of_cons in Hin as [[= <- <-]|Hin]; [by rewrite bool_decide_eq_true_2|].
  rewrite bool_decide_eq_false_2; [by apply IH|]. intros ->. apply Hn.
  apply list_elem_of_fmap. by exists (m, ip).
Qed.

Lemma lookup_mac_unbound d m : dhcps_wf d ->
  (ac_lookup_mac d m = CLIENT_IP_NOT_FOUND <-> m ∉ map fst (live d)).
Proof. intros Hwf. apply find_mac_none. by apply live_nonzero. Qed.

(** [ac_valid_ip]: assignable and free, for an address of the subnet. *)
Lemma ac_valid_ip_spec d ip : dhcps_wf d -> is_u32 ip ->
  ac_valid_ip d (bswap32 ip) = true <->
  ip <> my_ip d /\ ip <> Z.land (my_ip d) (netmask d) /\
  ip <> Z.lor (my_ip d) (not32 (netmask d)) /\ ip ∉ map snd (live d).
Proof.
  intros Hwf Hip. pose proof (dw_mask d Hwf) as Hm. pose proof (dw_me d Hwf) as Hme.
  assert (Heq : forall y, is_u32 y -> (bswap32 ip =? bswap32 y) = bool_decide (ip = y)).
  { intros y Hy. destruct (bool_decide (ip = y)) eqn:E.
    - apply bool_decide_eq_true in E as ->. apply Z.eqb_refl.
    - apply bool_decide_eq_false in E. apply Z.eqb_neq. intros E'.
      apply E. by apply bswap32_inj. }
  unfold ac_valid_ip. rewrite land_ones32 by auto with words.
  rewrite !Heq by auto with words. rewrite swap_swap by done.
  unfold ac_lookup_ip. rewrite <- find_ip_none.
  destruct (bool_decide (ip = my_ip d)) eqn:E1; [apply bool_decide_eq_true in E1; cbn; intuition congruence|].
  apply bool_decide_eq_false in E1. cbn.
  destruct (bool_decide (ip = Z.land (my_ip d) (netmask d))) eqn:E2;
    [apply bool_decide_eq_true in E2; cbn; intuition congruence|].
  apply bool_decide_eq_false in E2. cbn.
  destruct (bool_decide (ip = Z.lor (my_ip d) (not32 (netmask d)))) eqn:E3;
    [apply bool_decide_eq_true in E3; cbn; intuition congruence|].
  apply bool_decide_eq_false in E3. cbn.
  destruct (find_ip (live d) ip); intuition congruence.
Qed.

(** Adding a fresh binding. *)
Lemma ac_add_spec d m ip :
  dhcps_wf d -> assignable d ip -> m ∉ map fst (live d) -> ip ∉ map snd (live d) ->
  exists r d', ac_add d m ip = Done (r, d') /\ dhcps_wf d' /\
    live d' = (if ac_not_full d then live d ++ [(m, ip)] else live d) /\
    (r = 0 <-> ac_not_full d = true) /\
    exists n t, d' = set_mapping n t d.
Proof.
  intros Hwf Ha Hm Hi. pose proof Hwf as [H1 H2 H3 H4 H5 H6 H7].
  unfold ac_add. destruct (ac_not_full d) eqn:E.
  - unfold ac_not_full in E. zbool. unfold MAC_IP_CACHE_SIZE in *.
    unfold aset. rewrite (proj2 (Z.leb_le 0 _)), (proj2 (Z.ltb_lt _ (zlen _))) by lia. cbn.
    eexists _, _. split; [reflexivity|].
    assert (Hlive : live (set_mapping (count_clients d + 1)
      (<[Z.to_nat (count_clients d) := (m, ip)]> (ip_mac_mapping d)) d) = live d ++ [(m, ip)]).
    { unfold live. cbn. replace (Z.to_nat (count_clients d + 1))
        with (S (Z.to_nat (count_clients d))) by lia.
      erewrite take_S_r; [|apply list_lookup_insert_eq; unfold zlen in H4; lia].
      by rewrite take_insert_ge by lia. }
    rewrite Hlive. split_and!; [|done|done|by eexists _, _].
    split; cbn; unfold MAC_IP_CACHE_SIZE; rewrite ?Hlive; auto; try lia.
    + unfold zlen in *. by rewrite length_insert.
    + rewrite map_app. cbn. apply NoDup_app. split_and!; [done| |apply NoDup_singleton].
      intros x Hx Hx'. apply list_elem_of_singleton in Hx'. by subst.
    + rewrite map_app. cbn. apply NoDup_app. split_and!; [done| |apply NoDup_singleton].
      intros x Hx Hx'. apply list_elem_of_singleton in Hx'. by subst.
    + apply Forall_app. split; [done|]. by apply Forall_singleton.
  - exists 1, d. split_and!; auto; [done|].
    exists (count_clients d), (ip_mac_mapping d). by destruct d.
Qed.

(** ** The search for a free address *)

(** The [n] candidates from [cur] on. *)
Fixpoint candidates (d : dhcp_server_data) (n : nat) (cur : Z) : list Z :=
  match n with
  | O => []
  | S n' => cur :: candidates d n' (next_candidate d cur)
  end.

Fixpoint nth_candidate (d : dhcp_server_data) (n : nat) (cur : Z) : Z :=
  match n with
  | O => cur
  | S n' => nth_candidate d n' (next_candidate d cur)
  end.

Lemma nth_candidate_succ d n : forall cur,
  nth_candidate d (S n) cur = next_candidate d (nth_candidate d n cur).
Proof. induction n as [|n IH]; intros cur; [done|]. cbn in *. by rewrite IH. Qed.

Lemma nth_candidate_add d m n cur :
  nth_candidate d (m + n) cur = nth_candidate d m (nth_candidate d n cur).
Proof.
  induction m as [|m IH]; [done|]. change (S m + n)%nat with (S (m + n)).
  by rewrite !nth_candidate_succ, IH.
Qed.

Lemma candidates_lookup d n : forall cur i, (i < n)%nat ->
  candidates d n cur !! i = Some (nth_candidate d i cur).
Proof.
  induction n as [|n IH]; intros cur i Hi; [lia|].
  destruct i as [|i]; cbn; [done|]. by rewrite IH by lia.
Qed.

Lemma candidates_length d n cur : length (candidates d n cur) = n.
Proof. revert cur. induction n as [|n IH]; intros cur; cbn; [done|]. by rewrite IH. Qed.

Lemma search_spec d n : forall cur,
  (exists k, (k < n)%nat /\ search_ip d n cur = Done (nth_candidate d k cur) /\
     ac_valid_ip d (nth_candidate d k cur) = true) \/
  (search_ip d n cur = Spin /\ forall k, (k < n)%nat -> ac_valid_ip d (nth_candidate d k cur) = false).
Proof.
  induction n as [|n IH]; intros cur; cbn.
  { right. split; [done|lia]. }
  destruct (ac_valid_ip d cur) eqn:E.
  - left. exists 0%nat. split_and!; [lia|done|done].
  - destruct (IH (next_candidate d cur)) as [(k & Hk & Ek & Hv)|[Es Hall]].
    + left. exists (S k). split_and!; [lia|done|done].
    + right. split; [done|]. intros [|k] Hk; [done|]. apply Hall. lia.
Qed.

(** The addresses [ac_valid_ip] refuses, in host order: eleven at most. *)
Definition refused (d : dhcp_server_data) : list Z :=
  [bswap32 (my_ip d); bswap32 (Z.land (my_ip d) (netmask d));
   bswap32 (Z.lor (my_ip d) (Z.land 0xffffffff (not32 (netmask d))))]
  ++ map (fun b => bswap32 (snd b)) (live d).

Lemma refused_length d : dhcps_wf d -> (length (refused d) <= 11)%nat.
Proof.
  intros Hwf. unfold refused, live. cbn. rewrite length_map, length_take.
  destruct Hwf as [_ _ H3 H4 _ _ _]. unfold MAC_IP_CACHE_SIZE, zlen in *. lia.
Qed.

Lemma invalid_refused d x : is_u32 x -> ac_valid_ip d x = false -> x ∈ refused d.
Proof.
  unfold ac_valid_ip, refused. intros Hx.
  destruct (_ || _) eqn:E.
  - intros _. rewrite !orb_true_iff, !Z.eqb_eq in E. set_solver.
  - destruct (ac_lookup_ip d (bswap32 x)) as [m|] eqn:El; [|done]. intros _.
    apply elem_of_app. right.
    destruct (decide (bswap32 x ∈ map snd (live d))) as [Hin|Hn];
      [|apply find_ip_none in Hn; unfold ac_lookup_ip in El; congruence].
    apply list_elem_of_fmap in Hin as (b & Eb & Hb).
    apply list_elem_of_fmap. exists b. split; [|done]. by rewrite <- Eb, swap_swap.
Qed.

Lemma nth_candidate_range d n cur : dhcps_wf d -> is_u32 cur -> is_u32 (nth_candidate d n cur).
Proof.
  intros Hwf Hc. destruct n as [|n]; [done|]. rewrite nth_candidate_succ.
  apply candidate_range; [apply (dw_mask d Hwf)|apply (dw_me d Hwf)].
Qed.

Lemma not_NoDup_repeat (l : list Z) :
  ~ NoDup l -> exists i j x, (i < j)%nat /\ l !! i = Some x /\ l !! j = Some x.
Proof.
  induction l as [|a l IH]; intros Hn; [destruct Hn; constructor|].
  destruct (decide (a ∈ l)) as [Hin|Hin].
  - apply list_elem_of_lookup in Hin as (j & Hj). exists 0%nat, (S j), a. split_and!; [lia|done..].
  - destruct IH as (i & j & x & Hij & Hi & Hj); [intros Hd; apply Hn; by apply NoDup_cons|].
    exists (S i), (S j), x. split_and!; [lia|done..].
Qed.

(** Twelve refusals in a row contain a repetition. *)
Lemma refusals_repeat d cur :
  dhcps_wf d -> is_u32 cur ->
  (forall k, (k < 12)%nat -> ac_valid_ip d (nth_candidate d k cur) = false) ->
  exists i j, (i < j < 12)%nat /\ nth_candidate d i cur = nth_candidate d j cur.
Proof.
  intros Hwf Hc Hall.
  destruct (not_NoDup_repeat (candidates d 12 cur)) as (i & j & x & Hij & Hi & Hj).
  - intros Hnd.
    assert (Hsub : candidates d 12 cur ⊆+ refused d).
    { apply NoDup_submseteq; [done|]. intros x (k & Hk)%list_elem_of_lookup.
      pose proof (lookup_lt_Some _ _ _ Hk) as Hlt. rewrite candidates_length in Hlt.
      rewrite candidates_lookup in Hk by done. injection Hk as <-.
      apply invalid_refused; [by apply nth_candidate_range|by apply Hall]. }
    apply submseteq_length in Hsub. rewrite candidates_length in Hsub.
    pose proof (refused_length d Hwf). lia.
  - pose proof (lookup_lt_Some _ _ _ Hj) as Hlt. rewrite candidates_length in Hlt.
    rewrite candidates_lookup in Hi, Hj by lia. exists i, j. split; [lia|congruence].
Qed.

(** So the fuel of the search is exact: it gives up only on searches that
    never end. *)
Lemma search_fuel_exact d cur :
  dhcps_wf d -> is_u32 cur -> search_ip d SEARCH_FUEL cur = Spin ->
  forall n, search_ip d n cur = Spin.
Proof.
  intros Hwf Hc E n.
  destruct (search_spec d SEARCH_FUEL cur) as [(k & _ & E' & _)|[_ Hall]]; [congruence|].
  unfold SEARCH_FUEL in Hall.
  destruct (refusals_repeat d cur Hwf Hc Hall) as (i & j & Hij & Eij).
  assert (Hper : forall m, nth_candidate d (m + i) cur = nth_candidate d (m + j) cur).
  { intros m. by rewrite !nth_candidate_add, Eij. }
  assert (Hinv : forall m, ac_valid_ip d (nth_candidate d m cur) = false).
  { intros m. induction m as [m IH] using lt_wf_ind.
    destruct (decide (m < 12)%nat) as [Hm|Hm]; [by apply Hall|].
    replace m with (m - j + j)%nat by lia. rewrite <- Hper. apply IH. lia. }
  destruct (search_spec d n cur) as [(k & _ & _ & Hv)|[Es _]]; [|done].
  by rewrite Hinv in Hv.
Qed.

(** ... and with sixteen addresses or more in the subnet it never does. *)
Lemma candidate_offset d k y :
  dhcps_wf d -> host_bits d k -> next_candidate d y mod 2 ^ k = (y + 1) mod 2 ^ k.
Proof.
  intros Hwf [Hk Hmask]. pose proof (dw_mask d Hwf) as Hm. pose proof (dw_me d Hwf) as Hme.
  unfold next_candidate. set (base := bswap32 (Z.land (my_ip d) (netmask d))).
  assert (Hz : Z.land base (2 ^ k - 1) = 0).
  { rewrite <- Hmask. unfold base. rewrite <- swap_land by auto 10 with words.
    replace (Z.land _ (not32 (netmask d))) with 0; [done|].
    apply u32_eq; auto 10 with words; [vm_compute; intuition congruence|].
    intros n Hn. rewrite !Z.land_spec, not32_testbit, Z.bits_0 by lia.
    by destruct (Z.testbit (netmask d) n), (Z.testbit (my_ip d) n). }
  rewrite Hmask. replace (2 ^ k - 1) with (Z.ones k) in * by (rewrite Z.ones_equiv; lia).
  rewrite <- !Z.land_ones, Z.land_lor_distr_l, Hz, Z.lor_0_l by lia.
  rewrite <- Z.land_assoc, Z.land_diag, !Z.land_ones by lia.
  unfold u32. rewrite Z.mod_mod_divide; [done|].
  exists (2 ^ (32 - k)). rewrite <- Z.pow_add_r by lia. f_equal. lia.
Qed.

Lemma nth_candidate_offset d k n cur :
  dhcps_wf d -> host_bits d k ->
  nth_candidate d n cur mod 2 ^ k = (cur + Z.of_nat n) mod 2 ^ k.
Proof.
  intros Hwf Hk. induction n as [|n IH]; [by rewrite Z.add_0_r|].
  rewrite nth_candidate_succ, (candidate_offset d k) by done.
  rewrite <- Zplus_mod_idemp_l, IH, Zplus_mod_idemp_l. f_equal. lia.
Qed.

Lemma search_finds d k cur :
  dhcps_wf d -> host_bits d k -> 4 <= k -> is_u32 cur ->
  exists n, search_ip d SEARCH_FUEL cur = Done (nth_candidate d n cur) /\
    ac_valid_ip d (nth_candidate d n cur) = true.
Proof.
  intros Hwf Hk Hk4 Hc.
  destruct (search_spec d SEARCH_FUEL cur) as [(n & _ & E & Hv)|[_ Hall]]; [by exists n|].
  unfold SEARCH_FUEL in Hall.
  destruct (refusals_repeat d cur Hwf Hc Hall) as (i & j & Hij & Eij).
  apply (f_equal (fun x => x mod 2 ^ k)) in Eij.
  rewrite !(nth_candidate_offset d k) in Eij by done.
  exfalso. destruct Hk as [Hk _].
  assert (Hpow : 2 ^ 4 <= 2 ^ k) by (apply Z.pow_le_mono_r; lia).
  set (m := 2 ^ k) in *. change (2 ^ 4) with 16 in Hpow.
  pose proof (Z.div_mod (cur + Z.of_nat i) m ltac:(lia)) as H1.
  pose proof (Z.div_mod (cur + Z.of_nat j) m ltac:(lia)) as H2.
  assert (Hq : m * ((cur + Z.of_nat j) / m - (cur + Z.of_nat i) / m) = Z.of_nat j - Z.of_nat i) by lia.
  set (q := (cur + Z.of_nat j) / m - (cur + Z.of_nat i) / m) in *.
  assert (q <= 0 \/ 1 <= q) by lia. nia.
Qed.

(** Two addresses of the subnet with the same host bits are the same. *)
Lemma subnet_offset_eq d k x y :
  dhcps_wf d -> host_bits d k -> is_u32 x -> is_u32 y ->
  Z.land (bswap32 x) (netmask d) = Z.land (bswap32 y) (netmask d) ->
  x mod 2 ^ k = y mod 2 ^ k -> x = y.
Proof.
  intros Hwf [Hk Hmask] Hx Hy Hnet Hoff. pose proof (dw_mask d Hwf) as Hm.
  assert (Hsplit : forall z, is_u32 z -> bswap32 z =
    Z.lor (Z.land (bswap32 z) (netmask d)) (Z.land (bswap32 z) (not32 (netmask d)))).
  { intros z Hz. apply u32_eq; auto 10 with words. intros n Hn.
    rewrite Z.lor_spec, !Z.land_spec, not32_testbit by lia.
    by destruct (Z.testbit (bswap32 z) n), (Z.testbit (netmask d) n). }
  assert (Hhost : forall z, is_u32 z -> Z.land (bswap32 z) (not32 (netmask d)) = bswap32 (z mod 2 ^ k)).
  { intros z Hz. rewrite <- Z.land_ones, Z.ones_equiv, <- Z.sub_1_r, <- Hmask by lia.
    by rewrite swap_land, swap_swap by auto with words. }
  apply bswap32_inj; try done.
  by rewrite (Hsplit x Hx), (Hsplit y Hy), Hnet, !Hhost, Hoff.
Qed.

(** The candidates visit every address of the subnet. *)
Lemma candidates_sweep d k cur x :
  dhcps_wf d -> host_bits d k -> is_u32 x ->
  Z.land (bswap32 x) (netmask d) = Z.land (my_ip d) (netmask d) ->
  exists n, (Z.of_nat n < 2 ^ k) /\ nth_candidate d n (next_candidate d cur) = x.
Proof.
  intros Hwf Hk Hx Hnet. pose proof Hk as [Hk' _].
  assert (Hpow : 0 < 2 ^ k) by (apply Z.pow_pos_nonneg; lia).
  exists (Z.to_nat ((x - (cur + 1)) mod 2 ^ k)).
  pose proof (Z.mod_pos_bound (x - (cur + 1)) (2 ^ k) Hpow). split; [lia|].
  set (n := Z.to_nat _). change (nth_candidate d (S n) cur = x).
  apply (subnet_offset_eq d k); try done.
  - rewrite nth_candidate_succ. apply candidate_range; apply Hwf.
  - rewrite nth_candidate_succ, candidate_subnet; [done|apply Hwf..].
  - rewrite (nth_candidate_offset d k) by done. unfold n. rewrite Nat2Z.inj_succ, Z2Nat.id by lia.
    replace (cur + Z.succ ((x - (cur + 1)) mod 2 ^ k)) with (cur + 1 + (x - (cur + 1)) mod 2 ^ k) by lia.
    rewrite Z.add_mod_idemp_r by lia. f_equal. lia.
Qed.

(** The search of [next_yiaddr] ends exactly when an address is free. *)
Lemma search_decides d k cur :
  dhcps_wf d -> host_bits d k ->
  let c0 := next_candidate d cur in
  (exists ip, assignable d ip /\ ip ∉ map snd (live d)) ->
  exists n, search_ip d SEARCH_FUEL c0 = Done (nth_candidate d n c0) /\
    ac_valid_ip d (nth_candidate d n c0) = true.
Proof.
  intros Hwf Hk c0 (ip & (Hip & Hnet & A1 & A2 & A3) & Hfree).
  assert (Hc0 : is_u32 c0) by (apply candidate_range; apply Hwf).
  destruct (decide (4 <= k)) as [H4|H4]; [by apply (search_finds d k)|].
  destruct (search_spec d SEARCH_FUEL c0) as [(n & _ & E & Hv)|[_ Hall]]; [by exists n|].
  destruct (candidates_sweep d k cur (bswap32 ip) Hwf Hk) as (n & Hn & En);
    [auto with words|by rewrite swap_swap|].
  assert (2 ^ k <= 2 ^ 3) by (apply Z.pow_le_mono_r; lia).
  specialize (Hall n). unfold SEARCH_FUEL, c0 in Hall. rewrite En in Hall.
  assert (ac_valid_ip d (bswap32 ip) = true) by by apply ac_valid_ip_spec.
  rewrite Hall in *; [done|lia].
Qed.

Lemma assignable_same d d' ip :
  netmask d' = netmask d -> my_ip d' = my_ip d -> assignable d ip -> assignable d' ip.
Proof. unfold assignable. by intros -> ->. Qed.

Lemma wf_same d d' :
  dhcps_wf d -> netmask d' = netmask d -> my_ip d' = my_ip d ->
  count_clients d' = count_clients d -> ip_mac_mapping d' = ip_mac_mapping d -> dhcps_wf d'.
Proof.
  intros [H1 H2 H3 H4 H5 H6 H7] E1 E2 E3 E4.
  assert (El : live d' = live d) by (unfold live; by rewrite E3, E4).
  split; rewrite ?E1, ?E2, ?E3, ?E4, ?El; auto.
  eapply Forall_impl; [exact H7|]. intros b. by apply assignable_same.
Qed.

(** A valid candidate is a free address, and big subnets always have one. *)
Definition free_address (d : dhcp_server_data) (ip : Z) : Prop :=
  assignable d ip /\ ip ∉ map snd (live d).

Lemma candidate_free d n cur :
  dhcps_wf d -> let x := nth_candidate d n (next_candidate d cur) in
  ac_valid_ip d x = true -> free_address d (bswap32 x) /\ is_u32 x.
Proof.
  intros Hwf x Hv.
  assert (Ex : x = next_candidate d (nth_candidate d n cur))
    by (unfold x; by rewrite <- nth_candidate_succ).
  assert (Hx : is_u32 x) by (rewrite Ex; apply candidate_range; apply Hwf).
  split; [|done]. rewrite <- (swap_swap x Hx) in Hv.
  apply (ac_valid_ip_spec d (bswap32 x) Hwf) in Hv as (V1 & V2 & V3 & V4); [|auto with words].
  split; [|done]. split_and!; auto with words. rewrite Ex. apply candidate_subnet; apply Hwf.
Qed.

Lemma enough_room d k : dhcps_wf d -> host_bits d k -> 4 <= k -> exists ip, free_address d ip.
Proof.
  intros Hwf Hk Hk4.
  destruct (search_finds d k (next_candidate d 0) Hwf Hk Hk4) as (n & _ & Hv).
  { apply candidate_range; apply Hwf. }
  eexists. by apply (candidate_free d n 0 Hwf).
Qed.

(** [next_yiaddr]: the address a client gets: its own if it has one, else a
    free one, which is bound to it while there is room. *)
Definition leased (d : dhcp_server_data) (chaddr : list Z) (ip : Z) (d' : dhcp_server_data) : Prop :=
  dhcps_wf d' /\ assignable d ip /\
  (exists n t c, d' = set_mapping n t (set_current_ip c d)) /\
  ((chaddr, ip) ∈ live d /\ d' = d \/
   chaddr ∉ map fst (live d) /\ ip ∉ map snd (live d) /\
   live d' = if ac_not_full d then live d ++ [(chaddr, ip)] else live d).

Lemma next_yiaddr_spec d chaddr k :
  dhcps_wf d -> host_bits d k ->
  (chaddr ∉ map fst (live d) -> exists ip, free_address d ip) ->
  exists ip d', next_yiaddr d chaddr = Done (ip, d') /\ leased d chaddr ip d'.
Proof.
  intros Hwf Hk Hfree. unfold next_yiaddr.
  destruct (ac_lookup_mac d chaddr =? CLIENT_IP_NOT_FOUND) eqn:E; zbool.
  - apply (lookup_mac_unbound d chaddr Hwf) in E.
    destruct (search_decides d k (current_ip d) Hwf Hk (Hfree E)) as (n & Es & Hv).
    rewrite Es. cbn. destruct (candidate_free d n _ Hwf Hv) as [[Ha Hn] Hcur].
    set (cur := nth_candidate d n _) in *. set (d1 := set_current_ip cur d).
    assert (Hwf1 : dhcps_wf d1) by by apply (wf_same d).
    destruct (ac_add_spec d1 chaddr (bswap32 cur) Hwf1)
      as (r & d' & Eadd & Hwf' & Hl & _ & m & t & Ed'); [by apply (assignable_same d)|done|done|].
    rewrite Eadd. cbn. exists (bswap32 cur), d'. split; [done|]. split_and!; auto.
    by exists m, t, cur.
  - exists (ac_lookup_mac d chaddr), d. split; [done|].
    assert (Hin : (chaddr, ac_lookup_mac d chaddr) ∈ live d) by by apply lookup_mac_bound.
    split_and!; auto.
    + pose proof (dw_assignable d Hwf) as Hf. rewrite Forall_forall in Hf. apply (Hf _ Hin).
    + exists (count_clients d), (ip_mac_mapping d), (current_ip d). by destruct d.
Qed.

(** ** The message buffer *)

Section Messages.
Context {N : Type} `{Net N}.
Implicit Types (s : server N).
Abbreviation srv := (prog (server N)).

(** Offsets in the buffer. *)
Ltac offs :=
  unfold SERVER_BUFFER_SIZE, SIZEOF_bootp_header, SIZEOF_bootp_option, OFF_htype, OFF_hlen, OFF_hops,
    OFF_flags, OFF_ciaddr, OFF_yiaddr, OFF_siaddr, OFF_riaddr, OFF_chaddr in *;
  unfold le32, le16, write_u32; rewrite ?zlen_cons, ?(@zlen_nil Z); lia.

(** A server in service: bindings in order, a buffer of [B] bytes. *)
Record serving (s : server N) : Prop := {
  sv_wf : dhcps_wf (dhcps s);
  sv_client : is_u32 (client_ip (dhcps s));
  sv_msg : exists m, msg (dhcps s) = Some m /\ zlen m = SERVER_BUFFER_SIZE /\ Forall is_byte m
}.

Lemma rd_in s off n (Q : list Z -> server N -> Prop) :
  serving s -> 0 <= off -> 0 <= n -> off + n <= SERVER_BUFFER_SIZE ->
  (forall bs, zlen bs = n -> Forall is_byte bs ->
     (forall m, msg (dhcps s) = Some m -> bs = slice m off n) -> Q bs s) -> wp (rd off n) Q s.
Proof.
  intros [_ _ (m & Em & Hlen & Hb)] Ho Hn Hle Hq. unfold rd.
  apply wp_bind, wp_gets. rewrite Em. apply wp_bind. eapply wp_lift; [reflexivity|].
  eapply wp_lift; [by apply mem_read_in; lia|]. apply Hq.
  - apply zlen_slice; lia.
  - unfold slice. by apply Forall_take, Forall_drop.
  - rewrite Em. by intros ? [= <-].
Qed.

Lemma serving_msg s m : serving s -> zlen m = SERVER_BUFFER_SIZE -> Forall is_byte m ->
  serving (on_dhcps (set_msg (Some m)) s).
Proof. intros [Hwf Hc _] Hl Hb. split; [by apply (wf_same (dhcps s))|done|by exists m]. Qed.

Lemma wr_in s off bs (Q : unit -> server N -> Prop) :
  serving s -> 0 <= off -> off + zlen bs <= SERVER_BUFFER_SIZE -> Forall is_byte bs ->
  (forall m, msg (dhcps s) = Some m ->
     Q tt (on_dhcps (set_msg (Some (splice m off bs))) s)) -> wp (wr off bs) Q s.
Proof.
  intros [_ _ (m & Em & Hlen & Hb)] Ho Hle Hbs Hq. unfold wr.
  apply wp_bind, wp_gets. rewrite Em. apply wp_bind. eapply wp_lift; [reflexivity|].
  apply wp_bind. eapply wp_lift; [by apply mem_write_in; lia|]. apply wp_modify. by apply Hq.
Qed.

(** What serving a message leaves: the server in service, its configuration,
    and every binding it had. *)
Record after (s s' : server N) : Prop := {
  af_serving : serving s';
  af_mask : netmask (dhcps s') = netmask (dhcps s);
  af_me : my_ip (dhcps s') = my_ip (dhcps s);
  af_router : router_ip (dhcps s') = router_ip (dhcps s);
  af_timeout : dhcp_address_timeout s' = dhcp_address_timeout s;
  af_live : live (dhcps s) `prefix_of` live (dhcps s')
}.

Lemma after_refl s : serving s -> after s s.
Proof. by split. Qed.

Lemma after_trans s1 s2 s3 : after s1 s2 -> after s2 s3 -> after s1 s3.
Proof.
  intros [A1 A2 A3 A4 A5 A6] [B1 B2 B3 B4 B5 B6].
  split; [done|congruence..|by etrans].
Qed.

(** A program that always finishes, with what it should leave. *)
Definition keeps {A} (m : srv A) (R : A -> Prop) : Prop :=
  forall s k, serving s -> host_bits (dhcps s) k -> 4 <= k ->
    wp m (fun a s' => R a /\ after s s') s.

Lemma keeps_bind {A B} (m : srv A) (f : A -> srv B) (R : A -> Prop) (Q : B -> Prop) :
  keeps m R -> (forall a, R a -> keeps (f a) Q) -> keeps (m ≫= f) Q.
Proof.
  intros Hm Hf s k Hs Hk Hk4. apply wp_bind. eapply wp_mono; [by eapply Hm|].
  intros a s' [HR Ha]. eapply wp_mono.
  - eapply (Hf a HR s' k); [apply Ha| |done]. unfold host_bits. by rewrite (af_mask _ _ Ha).
  - intros b s'' [HQ Ha']. split; [done|]. by eapply after_trans.
Qed.

Lemma keeps_ret {A} (a : A) (R : A -> Prop) : R a -> keeps (mret a) R.
Proof. intros HR s k Hs _ _. apply wp_ret. split; [done|by apply after_refl]. Qed.

Lemma keeps_gets {A} (f : server N -> A) (R : A -> Prop) : (forall s, R (f s)) -> keeps (gets f) R.
Proof. intros HR s k Hs _ _. apply wp_gets. split; [done|by apply after_refl]. Qed.

Lemma keeps_get {A B} (f : server N -> A) (g : A -> srv B) (Q : B -> Prop) :
  (forall a, keeps (g a) Q) -> keeps (gets f ≫= g) Q.
Proof. intros Hg. eapply (keeps_bind _ _ (fun _ => True)); [by apply keeps_gets|auto]. Qed.

Lemma keeps_net (f : N -> N) : keeps (modify (on_net f)) (fun _ => True).
Proof. intros s k Hs _ _. apply wp_modify. split; [done|].
  destruct Hs. by split; [split|..]. Qed.

Lemma keeps_when (b : bool) (m : srv unit) :
  (b = true -> keeps m (fun _ => True)) -> keeps (when b m) (fun _ => True).
Proof. destruct b; intros Hm; [by apply Hm|by apply keeps_ret]. Qed.

Lemma keeps_weaken {A} (m : srv A) (R Q : A -> Prop) :
  (forall a, R a -> Q a) -> keeps m R -> keeps m Q.
Proof. intros Hi Hm s k Hs Hk Hk4. eapply wp_mono; [by eapply Hm|]. intros a s' []. auto. Qed.

Lemma keeps_rd off n : 0 <= off -> 0 <= n -> off + n <= SERVER_BUFFER_SIZE ->
  keeps (rd off n) (fun bs => zlen bs = n /\ Forall is_byte bs).
Proof.
  intros Ho Hn Hle s k Hs _ _. eapply rd_in; [done..|]. intros bs H1 H2 _.
  split; [done|by apply after_refl].
Qed.

Lemma keeps_wr off bs : 0 <= off -> off + zlen bs <= SERVER_BUFFER_SIZE -> Forall is_byte bs ->
  keeps (wr off bs) (fun _ => True).
Proof.
  intros Ho Hle Hb s k Hs _ _. eapply wr_in; try done. intros m Em. split; [done|].
  destruct (sv_msg s Hs) as (m' & Em' & Hl & Hm). rewrite Em in Em'. injection Em' as <-.
  split; try done. apply serving_msg; [done|rewrite zlen_splice by lia; done|].
  by apply splice_bytes.
Qed.

Lemma keeps_rd_le off n w : 0 <= off -> 0 <= n -> off + n <= SERVER_BUFFER_SIZE -> w = 256 ^ n ->
  keeps (bs ← rd off n; mret (of_le bs)) (fun v => 0 <= v < w).
Proof.
  intros Ho Hn Hle ->. eapply keeps_bind; [by apply keeps_rd|]. intros bs [Hl Hb].
  apply keeps_ret. rewrite <- Hl. by apply of_le_range.
Qed.

Lemma keeps_rd8 off : 0 <= off -> off + 1 <= SERVER_BUFFER_SIZE -> keeps (rd8 off) is_byte.
Proof. intros. by apply keeps_rd_le. Qed.

Lemma keeps_rd16 off : 0 <= off -> off + 2 <= SERVER_BUFFER_SIZE -> keeps (rd16 off) is_u16.
Proof. intros. by apply keeps_rd_le. Qed.

Lemma keeps_rd32 off : 0 <= off -> off + 4 <= SERVER_BUFFER_SIZE -> keeps (rd32 off) is_u32.
Proof. intros. by apply keeps_rd_le. Qed.

(** Changes of fields that the service does not depend on. *)
Lemma keeps_client ip : is_u32 ip -> keeps (setd (set_client_ip ip)) (fun _ => True).
Proof.
  intros Hip s k [Hwf Hc Hm] _ _. apply wp_modify. split; [done|].
  split; [split; [by apply (wf_same (dhcps s))|done..]|done..].
Qed.

Lemma keeps_uaddr ip : keeps (setd (set_uaddr_ip ip)) (fun _ => True).
Proof.
  intros s k [Hwf Hc Hm] _ _. apply wp_modify. split; [done|].
  split; [split; [by apply (wf_same (dhcps s))|done..]|done..].
Qed.

Lemma keeps_next_yiaddr chaddr :
  keeps (d ← getd id; '(ip, d) ← lift (next_yiaddr d chaddr); _ ← setd (fun _ => d); mret ip)
    (fun _ => True).
Proof.
  intros s k [Hwf Hc Hm] Hk Hk4.
  destruct (next_yiaddr_spec (dhcps s) chaddr k Hwf Hk)
    as (ip & d' & E & Hwf' & Ha & (n & t & c & Ed) & Hl); [intros _; by eapply enough_room|].
  apply wp_bind, wp_gets. apply wp_bind. eapply wp_lift; [exact E|]. cbn beta iota.
  apply wp_bind, wp_modify, wp_ret. split; [done|].
  split; cbn; rewrite ?Ed; try done.
  - split; cbn; rewrite ?Ed; try done. by rewrite <- Ed.
  - rewrite <- Ed. destruct Hl as [[_ ->]|(_ & _ & ->)]; [done|].
    destruct (ac_not_full (dhcps s)); [by apply prefix_app_r|done].
Qed.

Lemma keeps_put_option offset type value :
  0 <= offset -> offset + 2 + zlen value <= SERVER_BUFFER_SIZE -> is_byte type ->
  Forall is_byte value -> zlen value < 256 ->
  keeps (put_option offset type value) (fun o => o = offset + 2 + zlen value).
Proof.
  intros Ho Hle Ht Hv Hl. pose proof (zlen_nonneg value). unfold put_option.
  assert (Hb : forall z, is_byte z -> Forall is_byte [z]) by (intros; by apply Forall_singleton).
  assert (is_byte (zlen value)) by (unfold is_byte; lia).
  eapply keeps_bind; [apply keeps_wr; auto; offs|intros _ _].
  eapply keeps_bind; [apply keeps_wr; auto; offs|intros _ _].
  eapply keeps_bind; [apply keeps_wr; auto; offs|intros _ _].
  by apply keeps_ret.
Qed.

Lemma write_u32_bytes x : Forall is_byte (write_u32 x).
Proof.
  unfold write_u32, is_byte.
  repeat constructor; try apply u8_range; change 255 with (Z.ones 8);
    rewrite Z.land_ones by lia; apply Z.mod_pos_bound; lia.
Qed.

Lemma byte_bytes z : is_byte z -> Forall is_byte [z].
Proof. intros. by apply Forall_singleton. Qed.

Create HintDb bytes.
#[local] Hint Resolve le32_bytes le16_bytes write_u32_bytes byte_bytes : bytes.
#[local] Hint Extern 4 (is_byte _) => (unfold is_byte; vm_compute; intuition congruence) : bytes.

(** The next statement of a program. *)
Ltac keeps_next :=
  first
  [ apply keeps_get; intros ?
  | eapply keeps_bind; [apply keeps_wr; [offs|offs|auto with bytes]|intros _ _]
  | eapply keeps_bind; [apply keeps_rd8; offs|intros ? ?]
  | eapply keeps_bind; [apply keeps_rd16; offs|intros ? ?]
  | eapply keeps_bind; [apply keeps_rd32; offs|intros ? ?]
  | eapply keeps_bind; [apply keeps_rd; offs|intros ? [??]]
  | eapply keeps_bind; [apply keeps_net|intros _ _]
  | eapply keeps_bind; [apply keeps_uaddr|intros _ _]
  | eapply keeps_bind; [apply keeps_put_option; auto with bytes; offs|intros ? ->]
  | apply keeps_ret ].

(** The responses of the server: a message type and what [make_response] fills in. *)
Lemma keeps_make_response type :
  is_byte type -> keeps (make_response type) (fun n => 243 <= n <= 274).
Proof.
  intros Ht. unfold make_response. do 7 keeps_next.
  eapply (keeps_bind _ _ (fun _ => True)).
  { destruct (type =? DHCP_MESSAGE_OFFER).
    - keeps_next. apply keeps_next_yiaddr.
    - eapply keeps_weaken; [|apply keeps_rd32; offs]. done. }
  intros yiaddr _. do 4 keeps_next.
  destruct (type =? DHCP_MESSAGE_NAK); [keeps_next; offs|].
  do 12 keeps_next. offs.
Qed.

Lemma keeps_send_loop fuel sk addr len : forall sent,
  0 <= sent <= len -> len <= SERVER_BUFFER_SIZE -> len - sent <= Z.of_nat fuel ->
  keeps (send_loop fuel sk addr len sent) (fun _ => True).
Proof.
  induction fuel as [|fuel IH]; intros sent Hs Hlen Hf; cbn; destruct (sent <? len) eqn:E; cbn;
    zbool; try (by apply keeps_ret); [lia|].
  keeps_next. intros s k Hsv Hk Hk4. apply wp_bind, wp_gets.
  match goal with |- context [lwip_sendto ?n ?a ?b ?c] =>
    pose proof (lwip_sendto_whole n a b c) as Hw; destruct (lwip_sendto n a b c) as [nb n'] end.
  cbn in Hw. revert s k Hsv Hk Hk4.
  change (keeps (modify (on_net (fun _ => n')) ≫= fun _ =>
    if nb <? 0 then mret (-1) else send_loop fuel sk addr len (sent + nb)) (fun _ => True)).
  keeps_next. destruct (nb <? 0) eqn:En; zbool; [by apply keeps_ret|]. apply IH; lia.
Qed.

Lemma keeps_send_response sk addr len :
  0 <= len <= SERVER_BUFFER_SIZE -> keeps (send_response sk addr len) (fun _ => True).
Proof.
  intros Hlen. unfold send_response.
  eapply keeps_bind; [apply keeps_when; intros _; apply keeps_net|intros _ _].
  apply keeps_send_loop; lia.
Qed.

(** The option loop. *)
Definition scan_ok (c : scan) : Prop := is_byte (response_type c).

Lemma keeps_scan_message opt type length c :
  0 <= opt -> opt + 3 <= SERVER_BUFFER_SIZE -> scan_ok c ->
  keeps (scan_message opt type length c) scan_ok.
Proof.
  intros Ho Hle Hc. unfold scan_message.
  destruct (negb _); [by keeps_next|]. keeps_next.
  destruct (_ =? DHCP_MESSAGE_DISCOVER); [by keeps_next|].
  destruct (_ =? DHCP_MESSAGE_REQUEST); [|by keeps_next]. keeps_next.
  destruct (_ =? 0); [by keeps_next|].
  eapply keeps_bind; [by apply keeps_client|intros _ _]. by keeps_next.
Qed.

Lemma keeps_scan_requested opt type length c :
  0 <= opt -> opt + 6 <= SERVER_BUFFER_SIZE -> scan_ok c ->
  keeps (scan_requested opt type length c) scan_ok.
Proof.
  intros Ho Hle Hc. unfold scan_requested. destruct (negb _); [by keeps_next|]. keeps_next.
  eapply keeps_bind; [by apply keeps_client|intros _ _]. by keeps_next.
Qed.

(** An address is bound on request only when it is assignable, free, and the
    client has none. *)
Lemma grant_spec s chaddr :
  serving s ->
  Z.land (client_ip (dhcps s)) (netmask (dhcps s)) = Z.land (my_ip (dhcps s)) (netmask (dhcps s)) ->
  chaddr ∉ map fst (live (dhcps s)) -> ac_valid_ip (dhcps s) (bswap32 (client_ip (dhcps s))) = true ->
  exists r d', ac_add (dhcps s) chaddr (client_ip (dhcps s)) = Done (r, d') /\
    after s (on_dhcps (fun _ => d') s) /\
    live d' = (if ac_not_full (dhcps s) then live (dhcps s) ++ [(chaddr, client_ip (dhcps s))]
               else live (dhcps s)) /\
    (exists n t, d' = set_mapping n t (dhcps s)).
Proof.
  intros [Hwf Hc Hm] Hnet Hmac Hv.
  pose proof Hv as (V1 & V2 & V3 & V4)%(ac_valid_ip_spec _ _ Hwf Hc).
  destruct (ac_add_spec (dhcps s) chaddr (client_ip (dhcps s)) Hwf)
    as (r & d' & E & Hwf' & Hl & _ & n & t & Ed); [by split_and!|done|done|].
  exists r, d'. split_and!; [done| |done|by exists n, t].
  split; cbn; rewrite ?Ed; try done.
  - split; cbn; rewrite ?Ed; try done. by rewrite <- Ed.
  - rewrite <- Ed, Hl. destruct (ac_not_full _); [by apply prefix_app_r|done].
Qed.

Lemma keeps_scan_check c : scan_ok c -> keeps (scan_check c) scan_ok.
Proof.
  intros Hc s k Hs Hk Hk4. pose proof (after_refl s Hs) as Hr. unfold scan_check.
  destruct (negb (got_client_ip c)); [by apply wp_ret|].
  apply wp_bind, wp_gets. unfold id.
  destruct (negb (_ =? _)) eqn:Enet; [by apply wp_ret|]. zbool.
  apply wp_bind. eapply rd_in; [done|offs..|]. intros chaddr Hl Hb _.
  destruct (ac_lookup_mac _ chaddr =? CLIENT_IP_NOT_FOUND) eqn:El; cbn [negb]; [|by apply wp_ret].
  destruct (ac_valid_ip _ _) eqn:Ev; [|by apply wp_ret]. zbool.
  apply lookup_mac_unbound in El; [|apply Hs].
  destruct (grant_spec s chaddr Hs Enet El Ev) as (r & d' & E & Ha & _).
  apply wp_bind, wp_when; intros _; [|by apply wp_ret].
  apply wp_bind. eapply wp_lift; [exact E|]. cbn beta iota. apply wp_modify. by apply wp_ret.
Qed.

Lemma scan_answer_ok c : scan_ok c -> scan_ok (scan_answer c).
Proof.
  unfold scan_answer, scan_ok. destruct (need_ip c); [|done]. intros _. cbn.
  destruct (got_ip c); by vm_compute.
Qed.

Lemma keeps_scan_options fuel : forall opt len c,
  240 <= opt -> opt + len <= 1018 -> len <= Z.of_nat fuel -> scan_ok c ->
  keeps (scan_options fuel opt len c) scan_ok.
Proof.
  induction fuel as [|fuel IH]; intros opt len c Ho Hle Hf Hc; cbn;
    destruct (0 <? len) eqn:E; cbn; zbool; try (by apply keeps_ret); [lia|].
  eapply keeps_bind; [apply keeps_rd8; offs|]. intros type _.
  destruct (type =? BOOTP_END_OPTION); [by apply keeps_ret|].
  eapply keeps_bind; [apply keeps_rd8; offs|]. intros length Hlen. unfold is_byte in Hlen.
  eapply keeps_bind; [apply keeps_scan_message; [offs..|done]|]. intros c1 H1.
  eapply keeps_bind; [apply keeps_scan_requested; [offs..|done]|]. intros c2 H2.
  eapply keeps_bind; [by apply keeps_scan_check|]. intros c3 H3.
  apply IH; [offs..|by apply scan_answer_ok].
Qed.

(** The reply and the whole handler. *)
Lemma keeps_gratuitous_arp ip : keeps (send_gratuitous_arp ip) (fun _ => True).
Proof.
  unfold send_gratuitous_arp. keeps_next. destruct (lwip_socket _) as [sk n1]. keeps_next.
  destruct (sk <? 0); [by keeps_next|]. destruct (lwip_sendto _ _ _ _) as [nb n2]. keeps_next.
  eapply keeps_bind; [|intros ? _; by keeps_next].
  unfold close_sock. keeps_next. apply keeps_net.
Qed.

Lemma keeps_reply type : is_byte type -> keeps (reply type) (fun _ => True).
Proof.
  intros Ht. unfold reply.
  eapply keeps_bind; [by apply keeps_make_response|]. intros n Hn. cbn in Hn.
  assert (Hsend : forall sk a, keeps (send_response sk a n) (fun _ => True))
    by (intros; apply keeps_send_response; offs).
  keeps_next. eapply keeps_bind.
  { apply keeps_when. intros _. do 7 keeps_next.
    eapply keeps_bind; [apply Hsend|intros _ _]. apply keeps_net. }
  intros _ _. do 4 keeps_next.
  do 3 (eapply keeps_bind; [apply Hsend|intros _ _]). keeps_next.
  eapply keeps_bind; [|intros _ _; by keeps_next].
  apply keeps_when. intros _.
  eapply keeps_bind; [apply keeps_gratuitous_arp|intros _ _; by keeps_next].
Qed.

Lemma keeps_process_dhcp_message len :
  0 <= len <= 1018 -> keeps (process_dhcp_message len) (fun _ => True).
Proof.
  intros Hlen. unfold process_dhcp_message. keeps_next.
  destruct (bool_decide _); [by keeps_next|]. destruct (len <? _) eqn:El; [by keeps_next|]. zbool.
  keeps_next. destruct (negb _); [by keeps_next|]. do 2 keeps_next.
  destruct (_ || _); [by keeps_next|].
  eapply keeps_bind; [apply keeps_scan_options; try offs; by vm_compute|]. intros c Hc.
  destruct (_ =? DHCP_NO_RESPONSE); [by keeps_next|]. by apply keeps_reply.
Qed.

Lemma keeps_process_dns_message len from :
  0 <= len <= SERVER_BUFFER_SIZE -> keeps (process_dns_message len from) (fun _ => True).
Proof.
  intros Hlen. unfold process_dns_message. destruct (len <? _); [by keeps_next|].
  keeps_next. destruct (Z.testbit _ 15); [by keeps_next|]. keeps_next.
  destruct (_ <=? 0); [by keeps_next|]. do 6 keeps_next.
  eapply keeps_bind; [by apply keeps_send_response|intros _ _]. by keeps_next.
Qed.

Lemma keeps_socks a b c : keeps (setd (set_socks a b c)) (fun _ => True).
Proof.
  intros s k [Hwf Hc Hm] _ _. apply wp_modify. split; [done|].
  split; [split; [by apply (wf_same (dhcps s))|done..]|done..].
Qed.

Lemma keeps_close sk : keeps (close_sock sk) (fun _ => True).
Proof. unfold close_sock. keeps_next. apply keeps_net. Qed.

Lemma keeps_clean_sockets : keeps dhcp_clean_sockets (fun _ => True).
Proof.
  assert (Hc : forall sk a b c, keeps (_ ← close_sock sk; setd (set_socks a b c)) (fun _ => True)).
  { intros. eapply keeps_bind; [apply keeps_close|intros _ _]. apply keeps_socks. }
  unfold dhcp_clean_sockets. keeps_next.
  eapply keeps_bind; [apply keeps_when; intros _; apply Hc|intros _ _]. do 2 keeps_next.
  eapply keeps_bind; [apply keeps_when; intros _; apply Hc|intros _ _]. keeps_next.
  apply keeps_when. intros _. apply Hc.
Qed.

(** What the sockets deliver: datagrams of bytes that fit in the buffer; the
    bound of a DHCP one is that of [keeps_process_dhcp_message]. *)
Definition datagram (n : Z) (bs : list Z) : Prop := zlen bs <= n /\ Forall is_byte bs.

Definition event_ok (ev : option selected) : Prop :=
  match ev with
  | None => True
  | Some e => default True (datagram 1018 <$> on_sock e) /\
              default True ((fun p => datagram SERVER_BUFFER_SIZE p.1) <$> on_dnssock e) /\
              default True (datagram SERVER_BUFFER_SIZE <$> on_ctrlsock e)
  end.

Lemma keeps_turn ev : event_ok ev -> keeps (dhcp_server_turn ev) (fun _ => True).
Proof.
  assert (Hwr : forall n bs, datagram n bs -> n <= SERVER_BUFFER_SIZE -> keeps (wr 0 bs) (fun _ => True)).
  { intros n bs [Hl Hb] Hn. apply keeps_wr; [done|lia|done]. }
  destruct ev as [[os od oc]|]; cbn; [|intros _; by keeps_next].
  intros (Hs & Hd & Hc).
  eapply (keeps_bind _ _ (fun _ => True)).
  { destruct os as [bs|]; cbn in Hs; [|by keeps_next]. apply keeps_when. intros _.
    eapply keeps_bind; [by apply (Hwr 1018)|intros _ _].
    eapply keeps_bind; [|intros ? _; by keeps_next].
    destruct Hs. apply keeps_process_dhcp_message. pose proof (zlen_nonneg bs). lia. }
  intros _ _. keeps_next. eapply (keeps_bind _ _ (fun _ => True)).
  { destruct od as [[bs from]|]; cbn in Hd; [|by keeps_next]. apply keeps_when. intros _.
    eapply keeps_bind; [by eapply Hwr|intros _ _].
    eapply keeps_bind; [|intros ? _; by keeps_next].
    destruct Hd. apply keeps_process_dns_message. pose proof (zlen_nonneg bs). lia. }
  intros _ _. destruct oc as [bs|]; cbn in Hc; [|by keeps_next].
  destruct (0 <? zlen bs); [|by keeps_next].
  eapply keeps_bind; [by eapply Hwr|intros _ _].
  unfold is_halt. keeps_next. by keeps_next.
Qed.

Lemma keeps_server evs : Forall event_ok evs -> keeps (dhcp_server evs) (fun _ => True).
Proof.
  induction 1 as [|ev evs Hev _ IH]; cbn [dhcp_server]; [by keeps_next|].
  eapply keeps_bind; [by apply keeps_turn|]. intros [] _; [|done].
  eapply keeps_bind; [apply keeps_clean_sockets|intros _ _]. by keeps_next.
Qed.

(** Opening a socket only touches the network. *)
Lemma create_and_bind_run a s :
  exists r n, create_and_bind_udp_socket a s = Done (r, on_net (fun _ => n) s).
Proof.
  unfold create_and_bind_udp_socket, close_sock. prog_run.
  destruct (lwip_socket _) as [sk n1]. prog_run.
  destruct (sk =? -1); [by eexists _, _|]. prog_run.
  destruct (setsockopt_broadcast _ _) as [r n2]. prog_run.
  destruct (r =? -1); prog_run; [by eexists _, _|].
  destruct (lwip_bind _ _ _) as [r' n3]. prog_run.
  destruct (negb (r' =? 0)); prog_run; by eexists _, _.
Qed.

Lemma no_bindings_wf d :
  is_u32 (netmask d) -> is_u32 (my_ip d) -> count_clients d = 0 ->
  zlen (ip_mac_mapping d) = MAC_IP_CACHE_SIZE -> dhcps_wf d.
Proof.
  intros H1 H2 H3 H4. assert (El : live d = []) by (unfold live; by rewrite H3).
  split; rewrite ?El, ?H3; [done|done|by vm_compute|done|apply NoDup_nil_2|apply NoDup_nil_2|constructor].
Qed.

(** A server that comes up is in service, with nothing bound and the
    addresses of its interface. *)
Lemma init_serves m s s' ip mask gw :
  dhcp_server_init (Some m) 0 s = Done (0, s') ->
  net_get_if_ip_addr (net s) = (0, ip) -> net_get_if_ip_mask (net s) = (0, mask) ->
  net_get_if_gw_addr (net s) = (0, gw) ->
  is_u32 ip -> is_u32 mask -> zlen m = SERVER_BUFFER_SIZE -> Forall is_byte m ->
  serving s' /\ live (dhcps s') = [] /\
  netmask (dhcps s') = mask /\ my_ip (dhcps s') = ip /\ router_ip (dhcps s') = gw.
Proof.
  intros E Eip Emask Egw Hip Hmask Hlen Hb. revert E.
  unfold dhcp_server_init, init_out. cbn [negb Z.eqb]. unfold setd, getd. prog_run.
  cbn [net set_mutex on_dhcps]. rewrite Eip. cbn beta iota. prog_run. change (0 <? 0) with false.
  rewrite Emask. cbn beta iota. prog_run. change (0 <? 0) with false.
  rewrite Egw. cbn beta iota. prog_run. change (0 <? 0) with false. cbn beta iota.
  match goal with |- context [(create_and_bind_udp_socket ?a ≫= ?f) ?st] =>
    destruct (create_and_bind_run a st) as (r1 & n1 & E1); rewrite (run_bind _ f _ _ _ E1) end.
  prog_run. destruct (r1 <? 0); prog_run; [done|]. cbn [dns_handler on_dhcps on_net set_mutex].
  destruct (dns_handler s); prog_run.
  1: match goal with |- context [(create_and_bind_udp_socket ?a ≫= ?f) ?st] =>
    destruct (create_and_bind_run a st) as (r2 & n2 & E2); rewrite (run_bind _ f _ _ _ E2) end;
    prog_run; destruct (r2 <? 0); prog_run; [done|].
  all: change (0 <? 0) with false; cbn beta iota;
    match goal with |- context [(create_and_bind_udp_socket ?a ≫= ?f) ?st] =>
    destruct (create_and_bind_run a st) as (r3 & n3 & E3); rewrite (run_bind _ f _ _ _ E3) end;
    prog_run; destruct (r3 <? 0); prog_run; [done|]; intros [= <-]; cbn;
    (split_and!; [|done..]); split; [by apply no_bindings_wf|done|by exists m].
Qed.

(** ** The decision on a request *)

(** What a client may have: the address bound to it, or, with none bound, an
    assignable address that is free. *)
Definition may_have (d : dhcp_server_data) (chaddr : list Z) (ip : Z) : Prop :=
  (chaddr, ip) ∈ live d \/
  chaddr ∉ map fst (live d) /\ assignable d ip /\ ip ∉ map snd (live d).

(** The bindings once a request is granted. *)
Definition granted (d : dhcp_server_data) (chaddr : list Z) (ip : Z) : list (list Z * Z) :=
  if bool_decide (chaddr ∈ map fst (live d)) then live d
  else if ac_not_full d then live d ++ [(chaddr, ip)] else live d.

Lemma rd_at s m off n :
  msg (dhcps s) = Some m -> 0 <= off -> 0 <= n -> off + n <= zlen m ->
  rd off n s = Done (slice m off n, s).
Proof.
  intros Em Ho Hn Hle. unfold rd, getd. prog_run. rewrite Em. cbn. prog_run.
  by rewrite mem_read_in by lia.
Qed.

Lemma rd8_at s m off b :
  msg (dhcps s) = Some m -> slice m off 1 = [b] -> 0 <= off -> off + 1 <= zlen m ->
  rd8 off s = Done (b, s).
Proof.
  intros Em Es Ho Hle. unfold rd8. erewrite run_bind; [|apply rd_at; [exact Em|lia..]].
  prog_run. rewrite Es. cbn. by rewrite Z.add_0_r.
Qed.

Lemma rd32_at s m off ip :
  msg (dhcps s) = Some m -> slice m off 4 = le32 ip -> is_u32 ip -> 0 <= off -> off + 4 <= zlen m ->
  rd32 off s = Done (ip, s).
Proof.
  intros Em Es Hip Ho Hle. unfold rd32. erewrite run_bind; [|apply rd_at; [exact Em|lia..]].
  prog_run. rewrite Es. cbn [outcome_ret]. by rewrite of_le_le32.
Qed.

(** The check, also after an earlier one that granted the same address. *)
Lemma scan_check_decides s m rt got ni chaddr :
  serving s -> msg (dhcps s) = Some m -> slice m OFF_chaddr 6 = chaddr ->
  let ip := client_ip (dhcps s) in (got = true -> may_have (dhcps s) chaddr ip) ->
  exists s' (g : bool), scan_check (mk_scan rt got ni true) s = Done (mk_scan rt g ni true, s') /\
    after s s' /\ msg (dhcps s') = Some m /\ client_ip (dhcps s') = ip /\
    (g = true <-> may_have (dhcps s) chaddr ip) /\
    live (dhcps s') = (if g then granted (dhcps s) chaddr ip else live (dhcps s)).
Proof.
  intros Hs Em Ech ip Hgot. set (d := dhcps s) in *.
  pose proof (sv_wf s Hs) as Hwf. fold d in Hwf. pose proof (sv_client s Hs) as Hip. fold d ip in Hip.
  assert (Hlen : zlen m = SERVER_BUFFER_SIZE).
  { destruct (sv_msg s Hs) as (m' & Em' & Hl & _). fold d in Em'. congruence. }
  assert (Hbound : forall x, (chaddr, x) ∈ live d -> assignable d x).
  { intros x Hx. pose proof (dw_assignable d Hwf) as Hf. rewrite Forall_forall in Hf. apply (Hf _ Hx). }
  unfold scan_check, getd. cbn [got_client_ip negb]. prog_run. unfold id. fold d. fold ip.
  destruct (Z.land ip (netmask d) =? Z.land (my_ip d) (netmask d)) eqn:Enet; zbool; cbn [negb].
  2:{ prog_run. assert (Hout : ~ may_have d chaddr ip).
      { intros [Hb|(_ & (_ & Hn & _) & _)]; [apply Hbound in Hb as (_ & Hn & _)|]; congruence. }
      assert (got = false) as -> by (destruct got; [destruct (Hout (Hgot eq_refl))|done]).
      exists s, false. by split_and!. }
  rewrite (run_bind _ _ _ _ _ (rd_at s m OFF_chaddr 6 Em ltac:(offs) ltac:(lia) ltac:(rewrite Hlen; offs))), Ech. cbn zeta.
  destruct (ac_lookup_mac d chaddr =? CLIENT_IP_NOT_FOUND) eqn:El; zbool; cbn [negb].
  - pose proof El as Hun. apply (lookup_mac_unbound d chaddr Hwf) in Hun.
    assert (Hno : (chaddr, ip) ∉ live d).
    { intros Hin. apply Hun, list_elem_of_fmap. by exists (chaddr, ip). }
    destruct (ac_valid_ip d (bswap32 ip)) eqn:Ev.
    + destruct (grant_spec s chaddr Hs Enet Hun Ev) as (r & d' & E & Ha & Hl & n & t & Ed).
      fold d ip in E, Ha, Hl, Ed.
      pose proof Ev as (V1 & V2 & V3 & V4)%(ac_valid_ip_spec d ip Hwf Hip).
      assert (Hg : granted d chaddr ip = (if ac_not_full d then live d ++ [(chaddr, ip)] else live d)).
      { unfold granted. by rewrite bool_decide_eq_false_2. }
      destruct (ac_not_full d) eqn:Ef; prog_run.
      * rewrite E. cbn beta iota. unfold setd. prog_run. exists (on_dhcps (fun _ => d') s), true.
        split_and!; try done; [by rewrite Ed|by rewrite Ed| |by rewrite Hg].
        split; [|done]. intros _. right. by split_and!.
      * exists s, true. split_and!; try done. split; [|done]. intros _. right. by split_and!.
    + prog_run. assert (Hout : ~ may_have d chaddr ip).
      { intros [Hb|(_ & (_ & _ & V1 & V2 & V3) & V4)]; [done|].
        assert (ac_valid_ip d (bswap32 ip) = true) by by apply ac_valid_ip_spec. congruence. }
      assert (got = false) as -> by (destruct got; [destruct (Hout (Hgot eq_refl))|done]).
      exists s, false. by split_and!.
  - prog_run. exists s, (ac_lookup_mac d chaddr =? ip).
    split; [done|]. split; [by apply after_refl|]. split; [done|]. split; [done|]. split.
    + rewrite Z.eqb_eq. split.
      * intros E. left. apply lookup_mac_bound; [done| |done]. unfold CLIENT_IP_NOT_FOUND in El. congruence.
      * intros [Hb|(Hn & _)]; [|by apply (lookup_mac_unbound d chaddr Hwf) in Hn].
        apply lookup_mac_bound; [done|by apply (assignable_nonzero d), Hbound|done].
    + unfold granted. rewrite bool_decide_eq_true_2; [by destruct (_ =? _)|].
      destruct (decide (chaddr ∈ map fst (live d))) as [|Hn]; [done|].
      by apply (lookup_mac_unbound d chaddr Hwf) in Hn.
Qed.

(** ** Requests on the wire *)

(** A BOOTP message in the buffer: its operation, an Ethernet client, the
    options it carries. *)
Record bootp_msg (m : list Z) (op : Z) (ciaddr chaddr opts : list Z) : Prop := {
  bm_op : slice m 0 1 = [op];
  bm_htype : slice m OFF_htype 1 = [1];
  bm_hlen : slice m OFF_hlen 1 = [6];
  bm_ciaddr : slice m OFF_ciaddr 4 = ciaddr;
  bm_chaddr : slice m OFF_chaddr 6 = chaddr;
  bm_opts : slice m SIZEOF_bootp_header (zlen opts) = opts
}.

(** The options of a request: its message type, an address it asks for, and
    any others. *)
Inductive dhcp_option :=
  | Request
  | Asked (ip : Z)
  | Other (type : Z) (value : list Z).

Definition option_bytes (o : dhcp_option) : list Z :=
  match o with
  | Request => [53; 1; 3]
  | Asked ip => [50; 4] ++ le32 ip
  | Other t v => [t; zlen v] ++ v
  end.

Definition option_ok (o : dhcp_option) : Prop :=
  match o with
  | Request => True
  | Asked ip => is_u32 ip
  | Other t _ => t <> BOOTP_OPTION_DHCP_MESSAGE /\ t <> BOOTP_OPTION_REQUESTED_IP /\ t <> BOOTP_END_OPTION
  end.

Fixpoint options_bytes (os : list dhcp_option) : list Z :=
  match os with
  | [] => [BOOTP_END_OPTION]
  | o :: os' => option_bytes o ++ options_bytes os'
  end.

(** A request, new or renewing, that names the address [ip]: in options, in
    [ciaddr] or in both, and no other. *)
Record asks (ciaddr : Z) (os : list dhcp_option) (ip : Z) : Prop := {
  as_options : Forall option_ok os;
  as_request : Request ∈ os;
  as_named : ciaddr <> 0 \/ Asked ip ∈ os;
  as_ciaddr : is_u32 ciaddr /\ (ciaddr = 0 \/ ciaddr = ip);
  as_asked : forall ip', Asked ip' ∈ os -> ip' = ip
}.

Lemma scan_options_step s m f opt len c t l :
  msg (dhcps s) = Some m -> slice m opt 2 = [t; l] -> t <> BOOTP_END_OPTION -> 0 < len ->
  0 <= opt -> opt + 2 <= zlen m ->
  scan_options (S f) opt len c s =
  (c ← scan_message opt t l c; c ← scan_requested opt t l c; c ← scan_check c;
   scan_options f (opt + (SIZEOF_bootp_option + l)) (len - (SIZEOF_bootp_option + l)) (scan_answer c)) s.
Proof.
  intros Em Es Ht Hl Ho Hle. cbn [scan_options]. rewrite (proj2 (Z.ltb_lt 0 len)) by lia. cbn [negb].
  assert (E1 : slice m opt 1 = [t]).
  { rewrite <- (Z.add_0_r opt) at 1. rewrite <- (slice_slice m opt 2 0 1), Es by lia. done. }
  assert (E2 : slice m (opt + 1) 1 = [l]).
  { rewrite <- (slice_slice m opt 2 1 1), Es by lia. done. }
  rewrite (run_bind _ _ _ _ _ (rd8_at s m opt t Em E1 Ho ltac:(lia))).
  rewrite (proj2 (Z.eqb_neq t _)) by done.
  by rewrite (run_bind _ _ _ _ _ (rd8_at s m (opt + 1) l Em E2 ltac:(lia) ltac:(lia))).
Qed.

Lemma scan_options_end s m f opt len c :
  msg (dhcps s) = Some m -> slice m opt 1 = [BOOTP_END_OPTION] -> 0 <= opt -> opt + 1 <= zlen m ->
  scan_options f opt len c s = Done (c, s).
Proof.
  intros Em Es Ho Hle. destruct f; cbn [scan_options]; destruct (negb _); try done;
  by rewrite (run_bind _ _ _ _ _ (rd8_at s m opt _ Em Es Ho Hle)).
Qed.

Lemma scan_message_other opt t l c s : t <> BOOTP_OPTION_DHCP_MESSAGE ->
  scan_message opt t l c s = Done (c, s).
Proof. intros Ht. unfold scan_message. by rewrite (proj2 (Z.eqb_neq t _)). Qed.

Lemma scan_requested_other opt t l c s : t <> BOOTP_OPTION_REQUESTED_IP ->
  scan_requested opt t l c s = Done (c, s).
Proof. intros Ht. unfold scan_requested. by rewrite (proj2 (Z.eqb_neq t _)). Qed.

Lemma scan_requested_run s m opt c ip :
  msg (dhcps s) = Some m -> slice m (opt + 2) 4 = le32 ip -> is_u32 ip ->
  0 <= opt -> opt + 6 <= zlen m ->
  scan_requested opt BOOTP_OPTION_REQUESTED_IP 4 c s =
  Done (mk_scan (response_type c) (got_ip c) (need_ip c) true, on_dhcps (set_client_ip ip) s).
Proof.
  intros Em Es Hip Ho Hle. unfold scan_requested. rewrite !Z.eqb_refl. cbn [andb negb].
  change (opt + SIZEOF_bootp_option) with (opt + 2).
  rewrite (run_bind _ _ _ _ _ (rd32_at s m (opt + 2) ip Em Es Hip ltac:(lia) ltac:(lia))).
  unfold setd. by prog_run.
Qed.

Lemma scan_message_request s m opt c ciaddr :
  msg (dhcps s) = Some m -> slice m (opt + 2) 1 = [DHCP_MESSAGE_REQUEST] -> is_u32 ciaddr ->
  slice m OFF_ciaddr 4 = le32 ciaddr -> 0 <= opt -> opt + 3 <= zlen m -> 16 <= zlen m ->
  scan_message opt BOOTP_OPTION_DHCP_MESSAGE 1 c s =
  Done (mk_scan (response_type c) (got_ip c) true (negb (ciaddr =? 0) || got_client_ip c),
        if ciaddr =? 0 then s else on_dhcps (set_client_ip ciaddr) s).
Proof.
  intros Em Es Hci Eci Ho Hle Hm. unfold scan_message. rewrite !Z.eqb_refl. cbn [andb negb].
  change (opt + SIZEOF_bootp_option) with (opt + 2).
  rewrite (run_bind _ _ _ _ _ (rd8_at s m (opt + 2) _ Em Es ltac:(lia) ltac:(lia))).
  change (DHCP_MESSAGE_REQUEST =? DHCP_MESSAGE_DISCOVER) with false. rewrite Z.eqb_refl.
  rewrite (run_bind _ _ _ _ _ (rd32_at s m OFF_ciaddr ciaddr Em Eci Hci ltac:(offs) ltac:(offs))).
  destruct (ciaddr =? 0); [done|]. unfold setd. by prog_run.
Qed.

Lemma after_client s ip : serving s -> is_u32 ip -> after s (on_dhcps (set_client_ip ip) s).
Proof.
  intros [Hwf Hc Hm] Hip. split; [split; [by apply (wf_same (dhcps s))|done..]|done..].
Qed.

Lemma opts_at m op ci ch opts i k bs :
  bootp_msg m op ci ch opts -> (0 <=? i) && (0 <=? k) && (i + k <=? zlen opts) = true ->
  slice opts i k = bs -> slice m (240 + i) k = bs.
Proof.
  intros Hb Hi <-. zbool. rewrite <- (bm_opts _ _ _ _ _ Hb) at 1.
  unfold SIZEOF_bootp_header. by rewrite slice_slice by lia.
Qed.

Lemma serving_len s m : serving s -> msg (dhcps s) = Some m -> zlen m = SERVER_BUFFER_SIZE.
Proof. intros [_ _ (m' & Em' & Hl & _)] Em. congruence. Qed.

(** The first turn of the option loop, on the message type of a request. *)
Lemma scan_first s m op ciaddr chaddr tl f rest :
  serving s -> msg (dhcps s) = Some m -> bootp_msg m op (le32 ciaddr) chaddr ([53; 1; 3] ++ tl) ->
  is_u32 ciaddr -> 0 < rest ->
  scan_options (S f) 240 rest (mk_scan DHCP_NO_RESPONSE false false false) s =
  (c ← scan_check (mk_scan DHCP_NO_RESPONSE false true (negb (ciaddr =? 0)));
   scan_options f 243 (rest - 3) (scan_answer c))
    (if ciaddr =? 0 then s else on_dhcps (set_client_ip ciaddr) s).
Proof.
  intros Hs Em Hb Hci Hrest. pose proof (serving_len s m Hs Em) as Hlen.
  assert (Hat : forall i k, (0 <=? i) && (0 <=? k) && (i + k <=? 3) = true ->
    slice m (240 + i) k = slice [53; 1; 3] i k).
  { intros i k E. zbool. rewrite <- (slice_app_l [53; 1; 3] tl i k) by (try done; lia).
    apply (opts_at _ _ _ _ _ _ _ _ Hb); [|done].
    rewrite zlen_app. pose proof (zlen_nonneg tl). change (zlen [53; 1; 3]) with 3.
    rewrite !andb_true_iff, !Z.leb_le. lia. }
  rewrite (scan_options_step s m _ _ _ _ 53 1); [|done|by apply (Hat 0)|done|lia|lia|rewrite Hlen; offs].
  rewrite (run_bind _ _ _ _ _ (scan_message_request s m 240 _ ciaddr Em (Hat 2 1 eq_refl)
    Hci (bm_ciaddr _ _ _ _ _ Hb) ltac:(lia) ltac:(rewrite Hlen; offs) ltac:(rewrite Hlen; offs))).
  rewrite (run_bind _ _ _ _ _ (scan_requested_other _ 53 1 _ _ ltac:(done))).
  cbn [response_type got_ip got_client_ip]. by rewrite orb_false_r.
Qed.

(** What a client may have, and what a grant makes of the bindings, once the
    address was refused or granted. *)
Lemma not_full_live d : dhcps_wf d -> ac_not_full d = (zlen (live d) <? MAC_IP_CACHE_SIZE).
Proof.
  intros W. unfold ac_not_full, live, zlen. rewrite length_take. pose proof (dw_count d W). pose proof (dw_table d W) as Ht.
  unfold zlen in Ht. f_equal. lia.
Qed.

Lemma decision_stable s0 s chaddr ip :
  serving s0 -> after s0 s ->
  live (dhcps s) = live (dhcps s0) \/
    may_have (dhcps s0) chaddr ip /\ live (dhcps s) = granted (dhcps s0) chaddr ip ->
  (may_have (dhcps s) chaddr ip <-> may_have (dhcps s0) chaddr ip) /\
  (may_have (dhcps s0) chaddr ip -> granted (dhcps s) chaddr ip = granted (dhcps s0) chaddr ip).
Proof.
  intros Hs0 Ha Hl. set (d0 := dhcps s0) in *. set (d := dhcps s) in *.
  assert (Has : forall x, assignable d x <-> assignable d0 x)
    by (intros x; unfold assignable, d, d0; by rewrite (af_mask _ _ Ha), (af_me _ _ Ha)).
  assert (Hsame : live d = live d0 -> (may_have d chaddr ip <-> may_have d0 chaddr ip) /\
    (may_have d0 chaddr ip -> granted d chaddr ip = granted d0 chaddr ip)).
  { intros E. unfold may_have, granted. rewrite E, Has. split; [done|]. intros _.
    by rewrite !not_full_live, E by (apply Hs0 || apply Ha). }
  destruct Hl as [E|[Hm E]]; [by apply Hsame|]. pose proof E as E1. unfold granted in E1. fold d0 in E1.
  destruct (bool_decide (chaddr ∈ map fst (live d0))); [by apply Hsame|].
  destruct (ac_not_full d0); [|by apply Hsame].
  assert (Hb : (chaddr, ip) ∈ live d) by (rewrite E1; apply elem_of_app; right; by apply list_elem_of_singleton).
  split; [split; [done|by left]|]. intros _. rewrite <- E. unfold granted at 1.
  rewrite bool_decide_eq_true_2; [done|]. apply list_elem_of_fmap. by exists (chaddr, ip).
Qed.

(** The scan so far: whether it has come by an address, and by the message
    type; what it has answered and bound. *)
Record scanning (s0 s : server N) (m chaddr : list Z) (ip : Z) (known req : bool) (c : scan) : Prop := {
  sn_after : after s0 s;
  sn_msg : msg (dhcps s) = Some m;
  sn_got : got_client_ip c = known;
  sn_need : need_ip c = req;
  sn_client : known = true -> client_ip (dhcps s) = ip;
  sn_grant : got_ip c = true <-> known = true /\ may_have (dhcps s0) chaddr ip;
  sn_live : live (dhcps s) = if got_ip c then granted (dhcps s0) chaddr ip else live (dhcps s0)
}.

Definition answered (c : scan) : Prop :=
  response_type c = if need_ip c then (if got_ip c then DHCP_MESSAGE_ACK else DHCP_MESSAGE_NAK) else DHCP_NO_RESPONSE.

(** The check and the answer of a turn, after its option was read: [known0]
    is what was known before it. *)
Lemma turn_scanning s0 s m chaddr ip known0 req known c :
  serving s0 -> after s0 s -> msg (dhcps s) = Some m -> slice m OFF_chaddr 6 = chaddr ->
  (known = true -> client_ip (dhcps s) = ip) -> (known0 = true -> known = true) ->
  got_client_ip c = known -> need_ip c = req -> (req = true \/ response_type c = DHCP_NO_RESPONSE) ->
  (got_ip c = true <-> known0 = true /\ may_have (dhcps s0) chaddr ip) ->
  live (dhcps s) = (if got_ip c then granted (dhcps s0) chaddr ip else live (dhcps s0)) ->
  exists c' s', scan_check c s = Done (c', s') /\ scanning s0 s' m chaddr ip known req (scan_answer c') /\
    answered (scan_answer c').
Proof.
  intros Hs0 Ha Em Ech Hc Hk Egc En Hrt Hg Hl. destruct c as [rt got ni gc]. cbn in *. subst gc ni.
  assert (Hanswer : forall g s', after s0 s' -> msg (dhcps s') = Some m -> (known = true -> client_ip (dhcps s') = ip) ->
    (g = true <-> known = true /\ may_have (dhcps s0) chaddr ip) ->
    live (dhcps s') = (if g then granted (dhcps s0) chaddr ip else live (dhcps s0)) ->
    scanning s0 s' m chaddr ip known req (scan_answer (mk_scan rt g req known)) /\
    answered (scan_answer (mk_scan rt g req known))).
  { intros g s' A1 A2 A3 A4 A5. unfold scan_answer, answered. destruct req; cbn; (split; [by split|]); [done|].
    by destruct Hrt as [| ->]. }
  destruct known.
  2:{ assert (known0 = false) as -> by (destruct known0; [by rewrite Hk|done]).
      assert (got = false) as -> by (destruct got; [by destruct (proj1 Hg eq_refl)|done]).
      eexists _, s. split; [reflexivity|]. by apply Hanswer. }
  destruct (decision_stable s0 s chaddr ip Hs0 Ha) as [D1 D2].
  { destruct got; [right; split; [by apply Hg|done]|by left]. }
  specialize (Hc eq_refl).
  destruct (scan_check_decides s m rt got req chaddr (af_serving _ _ Ha) Em Ech) as (s' & g & E & A & Em' & Ec & Hg' & Hl').
  { intros ->. rewrite Hc. by apply D1, Hg. }
  rewrite Hc in Hg', Hl', Ec. exists (mk_scan rt g req true), s'. split; [exact E|].
  apply Hanswer; [by eapply after_trans|done|done|by rewrite Hg', D1; intuition|].
  rewrite Hl'. destruct g; [by apply D2, D1, Hg'|]. rewrite Hl. destruct got; [|done].
  destruct (proj1 Hg eq_refl) as [_ Hm]. by apply D1, Hg' in Hm.
Qed.

Definition is_request (o : dhcp_option) : bool := match o with Request => true | _ => false end.
Definition names (ciaddr : Z) (o : dhcp_option) : bool :=
  match o with Request => negb (ciaddr =? 0) | Asked _ => true | Other _ _ => false end.

(** The first bytes of an option, and those behind it. *)
Lemma option_at m opt o os : 0 <= opt ->
  slice m opt (zlen (options_bytes (o :: os))) = options_bytes (o :: os) ->
  slice m opt (zlen (option_bytes o)) = option_bytes o /\
  slice m (opt + zlen (option_bytes o)) (zlen (options_bytes os)) = options_bytes os.
Proof.
  intros Ho E. cbn [options_bytes] in E. rewrite zlen_app in E. pose proof (zlen_nonneg (option_bytes o)).
  pose proof (zlen_nonneg (options_bytes os)). rewrite <- slice_glue in E by lia.
  apply app_inj_1 in E; [done|]. apply (f_equal length) in E. rewrite !length_app in E.
  unfold slice, zlen in *. rewrite !length_take, !length_drop in *. lia.
Qed.

Lemma option_length o : 2 <= zlen (option_bytes o).
Proof. destruct o as [| |t v]; [done|done|]. cbn. rewrite !zlen_cons. pose proof (zlen_nonneg v). lia. Qed.

(** A turn per option is within the length, and a request has four bytes. *)
Lemma options_turns os : 1 + 2 * zlen os <= zlen (options_bytes os).
Proof.
  induction os as [|o os IH]; [done|]. cbn [options_bytes]. rewrite zlen_app, zlen_cons.
  pose proof (option_length o). lia.
Qed.

Lemma request_bytes os : Request ∈ os -> 4 <= zlen (options_bytes os).
Proof.
  intros (os1 & os2 & ->)%list_elem_of_split. induction os1 as [|o os1 IH]; cbn [app options_bytes]; rewrite zlen_app.
  - pose proof (options_turns os2). pose proof (zlen_nonneg os2). change (zlen (option_bytes Request)) with 3. lia.
  - pose proof (option_length o). lia.
Qed.

Lemma slice_within {A} (m : list A) off n : 0 <= off -> 0 < n -> zlen (slice m off n) = n -> off + n <= zlen m.
Proof. unfold slice, zlen. rewrite length_take, length_drop. lia. Qed.

(** What the two readers of a turn make of an option. *)
Lemma read_option s m ciaddr ip o opt c :
  msg (dhcps s) = Some m -> zlen m = SERVER_BUFFER_SIZE -> slice m OFF_ciaddr 4 = le32 ciaddr -> is_u32 ciaddr ->
  ciaddr = 0 \/ ciaddr = ip -> option_ok o -> (forall ip', o = Asked ip' -> ip' = ip) ->
  slice m opt (zlen (option_bytes o)) = option_bytes o -> 0 <= opt ->
  exists t l c1 s1, slice m opt 2 = [t; l] /\ t <> BOOTP_END_OPTION /\ SIZEOF_bootp_option + l = zlen (option_bytes o) /\
    opt + zlen (option_bytes o) <= zlen m /\
    scan_message opt t l c s = Done (c1, s1) /\
    scan_requested opt t l c1 s1 =
      Done (mk_scan (response_type c) (got_ip c) (need_ip c || is_request o) (got_client_ip c || names ciaddr o),
            if names ciaddr o then on_dhcps (set_client_ip ip) s else s).
Proof.
  intros Em Hm Eci Hci Hcip Hok Hip E Ho.
  pose proof (option_length o) as Hz.
  assert (Hle : opt + zlen (option_bytes o) <= zlen m) by (apply slice_within; [lia|lia|by rewrite E]).
  assert (Hat : forall i k, 0 <= i -> 0 <= k -> i + k <= zlen (option_bytes o) ->
    slice m (opt + i) k = slice (option_bytes o) i k)
    by (intros i k Hi Hk Hik; rewrite <- E; by rewrite slice_slice by lia).
  assert (E0 : slice m opt 2 = slice (option_bytes o) 0 2) by (rewrite <- (Z.add_0_r opt); apply Hat; lia).
  destruct c as [rt got ni gc].
  destruct o as [|ip'|t v]; cbn [option_bytes names is_request response_type got_ip need_ip got_client_ip] in *.
  - change (zlen [53; 1; 3]) with 3 in *. eexists 53, 1, _, _. split; [exact E0|]. split; [done|]. split; [done|].
    split; [done|].
    split; [apply (scan_message_request s m opt (mk_scan rt got ni gc) ciaddr Em); [by apply (Hat 2 1); lia|done|done|lia|lia|rewrite Hm; offs]|].
    rewrite scan_requested_other by done. cbn. rewrite orb_true_r, (orb_comm gc).
    destruct (Z.eqb_spec ciaddr 0); cbn; [done|]. by destruct Hcip as [| ->].
  - rewrite (Hip ip' eq_refl) in *. change (zlen (([50; 4] ++ le32 ip)%list)) with 6 in *.
    eexists 50, 4, _, _. split; [exact E0|]. split; [done|]. split; [done|]. split; [done|].
    split; [by apply scan_message_other|]. rewrite orb_false_r, orb_true_r.
    apply (scan_requested_run s m opt (mk_scan rt got ni gc) ip Em); [by apply (Hat 2 4); lia|done|done|lia].
  - destruct Hok as (H1 & H2 & H3). eexists t, (zlen v), _, _. split; [exact E0|]. split; [done|].
    split; [cbn; rewrite !zlen_cons; unfold SIZEOF_bootp_option; lia|]. split; [done|].
    split; [by apply scan_message_other|]. rewrite !orb_false_r. by apply scan_requested_other.
Qed.

(** One turn. *)
Lemma scan_turn s0 s m chaddr ciaddr ip known req c o f opt len :
  serving s0 -> is_u32 ip -> scanning s0 s m chaddr ip known req c -> answered c ->
  slice m OFF_chaddr 6 = chaddr -> slice m OFF_ciaddr 4 = le32 ciaddr -> is_u32 ciaddr ->
  ciaddr = 0 \/ ciaddr = ip -> option_ok o -> (forall ip', o = Asked ip' -> ip' = ip) ->
  slice m opt (zlen (option_bytes o)) = option_bytes o -> 0 <= opt -> 0 < len ->
  exists c' s', scanning s0 s' m chaddr ip (known || names ciaddr o) (req || is_request o) c' /\ answered c' /\
    scan_options (S f) opt len c s =
    scan_options f (opt + zlen (option_bytes o)) (len - zlen (option_bytes o)) c' s'.
Proof.
  intros Hs0 Hipr [Ha Em Egc En Hc Hg Hl] Hans Ech Eci Hci Hcip Hok Hip E Ho Hlen.
  pose proof (serving_len s m (af_serving _ _ Ha) Em) as Hm.
  destruct (read_option s m ciaddr ip o opt c Em Hm Eci Hci Hcip Hok Hip E Ho)
    as (t & l & c1 & s1 & E2 & Ht & Hl2 & Hle & R1 & R2).
  remember (mk_scan _ _ _ _) as c2 eqn:Ec2 in R2.
  set (s2 := if names ciaddr o then on_dhcps (set_client_ip ip) s else s) in *.
  assert (Ha2 : after s0 s2).
  { unfold s2. destruct (names ciaddr o); [|done]. eapply after_trans; [exact Ha|]. apply after_client; [apply Ha|done]. }
  pose proof (option_length o).
  destruct (turn_scanning s0 s2 m chaddr ip known (req || is_request o) (known || names ciaddr o) c2)
    as (c' & s' & R3 & Hsc & Hans'); try done.
  - unfold s2. by destruct (names ciaddr o).
  - unfold s2. destruct (names ciaddr o); [done|]. rewrite orb_false_r. done.
  - by intros ->.
  - rewrite Ec2. cbn. by rewrite Egc.
  - rewrite Ec2. cbn. by rewrite En.
  - rewrite Ec2. cbn. unfold answered in Hans. rewrite En in Hans. destruct req; [by left|]. by right.
  - rewrite Ec2. exact Hg.
  - rewrite Ec2. unfold s2. by destruct (names ciaddr o).
  - exists (scan_answer c'), s'. split; [exact Hsc|]. split; [exact Hans'|].
    rewrite (scan_options_step s m _ _ _ _ t l Em E2 Ht Hlen Ho) by (unfold SIZEOF_bootp_option in Hl2; lia).
    rewrite (run_bind _ _ _ _ _ R1), (run_bind _ _ _ _ _ R2), (run_bind _ _ _ _ _ R3). by rewrite Hl2.
Qed.

(** The option loop on a list of options. *)
Lemma scan_list s0 m chaddr ciaddr ip : forall os s known req c f opt len,
  serving s0 -> is_u32 ip -> scanning s0 s m chaddr ip known req c -> answered c ->
  slice m OFF_chaddr 6 = chaddr -> slice m OFF_ciaddr 4 = le32 ciaddr -> is_u32 ciaddr ->
  ciaddr = 0 \/ ciaddr = ip -> Forall option_ok os -> (forall ip', Asked ip' ∈ os -> ip' = ip) ->
  slice m opt (zlen (options_bytes os)) = options_bytes os -> 0 <= opt -> zlen (options_bytes os) <= len ->
  (length os <= f)%nat ->
  exists c' s', scanning s0 s' m chaddr ip (known || existsb (names ciaddr) os) (req || existsb is_request os) c' /\
    answered c' /\ scan_options f opt len c s = Done (c', s').
Proof.
  induction os as [|o os IH]; intros s known req c f opt len Hs0 Hipr Hsc Hans Ech Eci Hci Hcip Hok Hask E Ho Hlen Hf.
  - exists c, s. cbn [existsb]. rewrite !orb_false_r. split; [done|]. split; [done|].
    assert (Hle : opt + 1 <= zlen m) by (apply slice_within; [lia|lia|exact (f_equal zlen E)]).
    apply (scan_options_end s m); [apply Hsc|exact E|lia|lia].
  - apply Forall_cons in Hok as [Hok1 Hok]. destruct (option_at m opt o os Ho E) as [E1 E2]. cbn [options_bytes] in Hlen.
    rewrite zlen_app in Hlen. pose proof (zlen_nonneg (option_bytes o)).
    pose proof (options_turns os). pose proof (zlen_nonneg os).
    cbn [length] in Hf. destruct f as [|f]; [lia|].
    destruct (scan_turn s0 s m chaddr ciaddr ip known req c o f opt len) as (c1 & s1 & Hsc1 & Hans1 & R); try done; [|lia|].
    { intros ip' ->. apply Hask. set_solver. }
    destruct (IH s1 _ _ c1 f (opt + zlen (option_bytes o)) (len - zlen (option_bytes o)) Hs0 Hipr Hsc1 Hans1 Ech Eci Hci Hcip Hok) as (c2 & s2 & Hsc2 & Hans2 & R2);
      [intros ip' Hin; apply Hask; set_solver|exact E2|lia|lia|lia|].
    exists c2, s2. cbn [existsb]. rewrite !orb_assoc. by rewrite R.
Qed.

(** The option loop on a request. *)
Lemma scan_request s m op ciaddr chaddr os ip f rest :
  serving s -> msg (dhcps s) = Some m -> bootp_msg m op (le32 ciaddr) chaddr (options_bytes os) ->
  asks ciaddr os ip -> is_u32 ip -> zlen (options_bytes os) <= rest -> (length os <= f)%nat ->
  exists s' (g : bool) gc, scan_options f 240 rest (mk_scan DHCP_NO_RESPONSE false false false) s
    = Done (mk_scan (if g then DHCP_MESSAGE_ACK else DHCP_MESSAGE_NAK) g true gc, s') /\
    after s s' /\ msg (dhcps s') = Some m /\ client_ip (dhcps s') = ip /\
    (g = true <-> may_have (dhcps s) chaddr ip) /\
    live (dhcps s') = (if g then granted (dhcps s) chaddr ip else live (dhcps s)).
Proof.
  intros Hs Em Hb [A1 A2 A3 [A4 A5] A6] Hip Hrest Hf.
  destruct (scan_list s m chaddr ciaddr ip os s false false (mk_scan DHCP_NO_RESPONSE false false false) f 240 rest)
    as (c' & s' & [S1 S2 S3 S4 S5 S6 S7] & Hans & R); try done.
  - split; cbn; [by apply after_refl|done|done|done|done| |done]. split; [done|]. by intros [? _].
  - apply Hb.
  - apply Hb.
  - apply Hb.
  - assert (Hreq : existsb is_request os = true).
    { apply existsb_exists. exists Request. split; [by apply list_elem_of_In|done]. }
    assert (Hkn : existsb (names ciaddr) os = true).
    { apply existsb_exists. destruct A3 as [Hne|Hin].
      - exists Request. split; [by apply list_elem_of_In|]. cbn. by rewrite (proj2 (Z.eqb_neq _ _) Hne).
      - exists (Asked ip). split; [by apply list_elem_of_In|done]. }
    rewrite Hreq, Hkn in *. cbn [orb] in *. destruct c' as [rt got ni gc]. unfold answered in Hans. cbn in *. subst ni gc rt.
    exists s', got, true. split_and!; try done; [by apply S5|]. rewrite S6. intuition.
Qed.

(** The handler on a message that passes the checks of the header. *)
Lemma process_runs s m op ciaddr chaddr opts len :
  serving s -> msg (dhcps s) = Some m -> bootp_msg m op ciaddr chaddr opts ->
  (op = BOOTP_OP_REQUEST \/ op = BOOTP_OP_RESPONSE) -> 243 <= len ->
  process_dhcp_message len s =
  (c ← scan_options (Z.to_nat (len - 240)) 240 (len - 240) (mk_scan DHCP_NO_RESPONSE false false false);
   if response_type c =? DHCP_NO_RESPONSE then mret 0 else reply (response_type c)) s.
Proof.
  intros Hs Em [B1 B2 B3 _ _ _] Hop Hlen. pose proof (serving_len s m Hs Em) as Hm.
  unfold process_dhcp_message, getd. prog_run. rewrite Em. cbn [bool_decide].
  rewrite bool_decide_eq_false_2 by done.
  rewrite (proj2 (Z.ltb_ge _ _)) by offs.
  rewrite (run_bind _ _ _ _ _ (rd8_at s m 0 op Em B1 ltac:(lia) ltac:(rewrite Hm; offs))).
  replace (negb _) with false by (destruct Hop as [->| ->]; done).
  rewrite (run_bind _ _ _ _ _ (rd8_at s m _ 1 Em B2 ltac:(offs) ltac:(rewrite Hm; offs))).
  by rewrite (run_bind _ _ _ _ _ (rd8_at s m _ 6 Em B3 ltac:(offs) ltac:(rewrite Hm; offs))).
Qed.

(** ** The response on the wire *)

Definition with_msg (m : list Z) (s : server N) : server N := on_dhcps (set_msg (Some m)) s.

Lemma with_msg_same s m : msg (dhcps s) = Some m -> s = with_msg m s.
Proof. destruct s as [[] t h x n]. cbn. by intros ->. Qed.

Lemma wr_with s m off bs :
  0 <= off -> off + zlen bs <= zlen m -> wr off bs (with_msg m s) = Done (tt, with_msg (splice m off bs) s).
Proof.
  intros Ho Hle. unfold wr, getd, setd. prog_run. cbn [msg dhcps with_msg on_dhcps set_msg deref].
  prog_run. rewrite mem_write_in by lia. by prog_run.
Qed.

Lemma run_wr {B} s m off bs (f : unit -> srv B) :
  0 <= off -> off + zlen bs <= zlen m ->
  (wr off bs ≫= f) (with_msg m s) = f tt (with_msg (splice m off bs) s).
Proof. intros. by rewrite (run_bind _ _ _ _ _ (wr_with s m off bs ltac:(done) ltac:(done))). Qed.

Lemma run_wr_at {B} s m off bs (f : unit -> srv B) :
  msg (dhcps s) = Some m -> 0 <= off -> off + zlen bs <= zlen m ->
  (wr off bs ≫= f) s = f tt (with_msg (splice m off bs) s).
Proof. intros Em. rewrite (with_msg_same s m Em) at 1. apply run_wr. Qed.

Lemma slice_extend {A} (m : list A) off bs :
  0 <= off -> off + zlen bs <= zlen m ->
  slice (splice m off bs) 0 (off + zlen bs) = slice m 0 off ++ bs.
Proof.
  intros Ho Hle. pose proof (zlen_nonneg bs).
  rewrite <- (slice_glue _ 0 off (zlen bs)) by lia.
  rewrite slice_splice_before by lia. by rewrite Z.add_0_l, slice_splice_same by lia.
Qed.

(** The message after one option. *)
Definition put (m : list Z) (off type : Z) (value : list Z) : list Z :=
  splice (splice (splice m off [type]) (off + SIZEOF_bootp_option) value) (off + 1) [zlen value].

Lemma zlen_put m off t v : 0 <= off -> off + 2 + zlen v <= zlen m -> zlen (put m off t v) = zlen m.
Proof.
  intros Ho Hle. pose proof (zlen_nonneg v). unfold put, SIZEOF_bootp_option.
  assert (H1 : zlen (splice m off [t]) = zlen m) by (apply zlen_splice; offs).
  assert (H2 : zlen (splice (splice m off [t]) (off + 2) v) = zlen m) by (rewrite zlen_splice; lia).
  rewrite zlen_splice; offs.
Qed.

Lemma slice_put m off t v : 0 <= off -> off + 2 + zlen v <= zlen m ->
  slice (put m off t v) 0 (off + 2 + zlen v) = slice m 0 off ++ [t; zlen v] ++ v.
Proof.
  intros Ho Hle. pose proof (zlen_nonneg v). pose proof (zlen_put m off t v Ho Hle) as Hz.
  assert (H1 : zlen (splice m off [t]) = zlen m) by (apply zlen_splice; offs).
  assert (H2 : zlen (splice (splice m off [t]) (off + 2) v) = zlen m) by (rewrite zlen_splice; lia).
  replace (off + 2 + zlen v) with (off + (1 + (1 + zlen v))) by lia.
  rewrite <- (slice_glue _ 0 off), <- (slice_glue _ (0 + off) 1), <- (slice_glue _ (0 + off + 1) 1) by lia.
  rewrite !Z.add_0_l. unfold put, SIZEOF_bootp_option. f_equal.
  { rewrite !slice_splice_before by offs. done. }
  change ([t; zlen v] ++ v) with ([t] ++ [zlen v] ++ v). f_equal; [|f_equal].
  - rewrite !slice_splice_before by offs. apply slice_splice_same; offs.
  - apply slice_splice_same; offs.
  - rewrite slice_splice_after by offs. rewrite <- Z.add_assoc. apply slice_splice_same; offs.
Qed.

Lemma put_option_with s m off t v :
  0 <= off -> off + 2 + zlen v <= zlen m ->
  put_option off t v (with_msg m s) = Done (off + 2 + zlen v, with_msg (put m off t v) s).
Proof.
  intros Ho Hle. pose proof (zlen_nonneg v).
  assert (H1 : zlen (splice m off [t]) = zlen m) by (apply zlen_splice; offs).
  assert (H2 : zlen (splice (splice m off [t]) (off + 2) v) = zlen m) by (rewrite zlen_splice; lia).
  unfold put_option, put, SIZEOF_bootp_option.
  rewrite run_wr by offs. rewrite run_wr by lia. rewrite run_wr by offs. done.
Qed.

(** The header once filled in. *)
Definition header (m : list Z) (ip0 ip : Z) : list Z :=
  splice (splice (splice (splice (splice (splice (splice (splice (splice m
    0 [BOOTP_OP_RESPONSE]) OFF_htype [1]) OFF_hlen [6]) OFF_hops [0]) OFF_ciaddr (le32 0))
    OFF_yiaddr (le32 ip0)) OFF_yiaddr (le32 ip)) OFF_siaddr (le32 0)) OFF_riaddr (le32 0).

Definition header_bytes (m : list Z) (ip : Z) : list Z :=
  [BOOTP_OP_RESPONSE; 1; 6; 0] ++ slice m 4 8 ++ le32 0 ++ le32 ip ++ le32 0 ++ le32 0
  ++ slice m OFF_chaddr 212.

Lemma splice_len {A} k (m : list A) off bs :
  zlen m = k -> 0 <= off -> off + zlen bs <= k -> zlen (splice m off bs) = k.
Proof. intros <-. apply zlen_splice. Qed.

(** A part of the message through a chain of writes, all inside its length [k]. *)
Ltac lens := repeat (apply splice_len; [|offs..]); done.
Ltac in_buffer k :=
  try match goal with |- context [zlen (splice ?m ?a ?b)] =>
    replace (zlen (splice m a b)) with k by (symmetry; lens) end; offs.
Ltac through_writes k :=
  repeat first
  [ rewrite slice_splice_same by in_buffer k
  | rewrite slice_splice_before by in_buffer k
  | rewrite slice_splice_after by in_buffer k ].

Lemma header_slice m ip0 ip :
  zlen m = SERVER_BUFFER_SIZE ->
  zlen (header m ip0 ip) = SERVER_BUFFER_SIZE /\
  slice (header m ip0 ip) 0 SIZEOF_bootp_header = header_bytes m ip.
Proof.
  intros Hm. split; [unfold header; lens|].
  change SIZEOF_bootp_header with (1 + (1 + (1 + (1 + (8 + (4 + (4 + (4 + (4 + 212))))))))).
  do 9 (rewrite <- slice_glue by lia).
  unfold header_bytes. change [BOOTP_OP_RESPONSE; 1; 6; 0] with ([BOOTP_OP_RESPONSE] ++ [1] ++ [6] ++ [0]).
  rewrite <- !app_assoc.
  repeat (apply (f_equal2 app); [unfold header; through_writes SERVER_BUFFER_SIZE; done|]).
  unfold header; by through_writes SERVER_BUFFER_SIZE.
Qed.

(** The address a response carries, and the bindings once it has one. *)
Definition response_ip (type : Z) (d : dhcp_server_data) (chaddr : list Z)
    : outcome (Z * dhcp_server_data) :=
  if type =? DHCP_MESSAGE_OFFER then next_yiaddr d chaddr
  else Done (if type =? DHCP_MESSAGE_ACK then client_ip d else 0, d).

Lemma search_ip_msg d m n : forall cur, search_ip (set_msg m d) n cur = search_ip d n cur.
Proof. induction n as [|n IH]; intros cur; cbn; [done|]. by rewrite IH. Qed.

Lemma next_yiaddr_msg d m chaddr :
  next_yiaddr (set_msg m d) chaddr =
  '(ip, d') ← next_yiaddr d chaddr; Done (ip, set_msg m d').
Proof.
  unfold next_yiaddr. change (ac_lookup_mac (set_msg m d) chaddr) with (ac_lookup_mac d chaddr).
  destruct (_ =? CLIENT_IP_NOT_FOUND); [|done].
  rewrite search_ip_msg. change (current_ip (set_msg m d)) with (current_ip d).
  change (next_candidate (set_msg m d) (current_ip d)) with (next_candidate d (current_ip d)).
  destruct (search_ip d SEARCH_FUEL _) as [cur| | |]; try done. cbn.
  unfold ac_add, ac_not_full. cbn. destruct (_ <? MAC_IP_CACHE_SIZE); [|done].
  by destruct (aset _ _ _).
Qed.

(** The bytes of an address, as it lies in memory: network order.  [write_u32]
    puts them there one by one. *)
Lemma write_u32_le32 x : write_u32 x = le32 x.
Proof.
  unfold write_u32, le32, u8. change 0xFF with (Z.ones 8). by rewrite !Z.land_ones by lia.
Qed.

(** A byte of a word and of the swapped word. *)
Lemma byte_swapped x k : is_u32 x -> k = 0 \/ k = 1 \/ k = 2 \/ k = 3 ->
  u8 (Z.shiftr (bswap32 x) (8 * k)) = u8 (Z.shiftr x (24 - 8 * k)).
Proof.
  intros Hx Hk. apply Z.bits_inj'. intros n Hn. unfold u8. rewrite <- !Z.land_ones, !Z.land_spec by lia.
  destruct (Z.lt_ge_cases n 8) as [Hlt|Hge]; [|by rewrite !Z.testbit_ones_nonneg, (proj2 (Z.ltb_ge n 8)), !andb_false_r by lia].
  f_equal. rewrite !Z.shiftr_spec by lia. rewrite bswap32_bits by (unfold is_u32 in *; lia). f_equal.
  replace ((n + 8 * k) / 8) with k; [lia|]. apply Z.div_unique with n; lia.
Qed.

Lemma le32_bswap x : is_u32 x -> le32 (bswap32 x) = rev (le32 x).
Proof.
  intros Hx. unfold le32. cbn [rev app].
  assert (E0 : u8 (bswap32 x) = u8 (Z.shiftr x 24)) by (apply (byte_swapped x 0); auto).
  assert (E1 : u8 (Z.shiftr (bswap32 x) 8) = u8 (Z.shiftr x 16)) by (apply (byte_swapped x 1); auto).
  assert (E2 : u8 (Z.shiftr (bswap32 x) 16) = u8 (Z.shiftr x 8)) by (apply (byte_swapped x 2); auto).
  assert (E3 : u8 (Z.shiftr (bswap32 x) 24) = u8 x) by (apply (byte_swapped x 3); auto).
  by rewrite E0, E1, E2, E3.
Qed.

(** The options of a response, after the message type: the mask, the lease
    time (in network order), the server, the router and the name server. *)
Definition response_options (type : Z) (s : server N) : list Z :=
  let d := dhcps s in
  if type =? DHCP_MESSAGE_NAK then []
  else [1; 4] ++ le32 (netmask d)
       ++ [51; 4] ++ rev (le32 (dhcp_address_timeout s))
       ++ [54; 4] ++ le32 (my_ip d) ++ [3; 4] ++ le32 (router_ip d)
       ++ [6; 4] ++ le32 (if dns_handler s then router_ip d else 0) ++ [255].

Definition response_bytes (m : list Z) (type ip : Z) (s : server N) : list Z :=
  header_bytes m ip ++ [53; 1; type] ++ response_options type s.

Lemma yiaddr_run type s m ip d' :
  zlen m = SERVER_BUFFER_SIZE -> is_u32 (client_ip (dhcps s)) ->
  slice m OFF_yiaddr 4 = le32 (if type =? DHCP_MESSAGE_ACK then client_ip (dhcps s) else 0) ->
  response_ip type (dhcps s) (slice m OFF_chaddr 6) = Done (ip, d') ->
  (if type =? DHCP_MESSAGE_OFFER then
     chaddr ← rd OFF_chaddr 6; d ← getd id; '(ip, d) ← lift (next_yiaddr d chaddr);
     _ ← setd (fun _ => d); mret ip
   else rd32 OFF_yiaddr) (with_msg m s) = Done (ip, with_msg m (on_dhcps (fun _ => d') s)).
Proof.
  intros Hm Hc Hy E. unfold response_ip in E. destruct (type =? DHCP_MESSAGE_OFFER).
  - rewrite (run_bind _ _ _ _ _ (rd_at (with_msg m s) m OFF_chaddr 6 eq_refl ltac:(offs) ltac:(lia)
      ltac:(rewrite Hm; offs))). unfold getd, setd. prog_run. unfold id.
    cbn [dhcps with_msg on_dhcps]. rewrite next_yiaddr_msg, E. cbn. by prog_run.
  - injection E as <- <-. rewrite (rd32_at (with_msg m s) m OFF_yiaddr _ eq_refl Hy); [| |offs|rewrite Hm; offs].
    + by destruct s.
    + destruct (type =? DHCP_MESSAGE_ACK); [done|]. split; lia.
Qed.

Lemma run_put {B} s m off t v (f : Z -> srv B) :
  0 <= off -> off + 2 + zlen v <= zlen m ->
  (put_option off t v ≫= f) (with_msg m s) = f (off + 2 + zlen v) (with_msg (put m off t v) s).
Proof. intros. by rewrite (run_bind _ _ _ _ _ (put_option_with s m off t v ltac:(done) ltac:(done))). Qed.

Lemma run_put4 {B} s m off t x (f : Z -> srv B) :
  0 <= off -> off + 6 <= zlen m ->
  (put_option off t (write_u32 x) ≫= f) (with_msg m s) =
  f (off + 6) (with_msg (put m off t (write_u32 x)) s).
Proof.
  intros. rewrite run_put by (change (zlen (write_u32 x)) with 4; lia).
  change (zlen (write_u32 x)) with 4. by rewrite <- Z.add_assoc.
Qed.

Lemma slice_put4 m off t x k :
  0 <= off -> off + 6 <= zlen m -> k = off + 6 ->
  slice (put m off t (write_u32 x)) 0 k = slice m 0 off ++ [t; 4] ++ write_u32 x.
Proof.
  intros Ho Hle ->. assert (H4 : zlen (write_u32 x) = 4) by done.
  replace (off + 6) with (off + 2 + zlen (write_u32 x)) by lia. by rewrite slice_put by lia.
Qed.

Lemma zlen_put4 m off t x : 0 <= off -> off + 6 <= zlen m ->
  zlen (put m off t (write_u32 x)) = zlen m.
Proof. intros. apply zlen_put; [done|]. change (zlen (write_u32 x)) with 4. lia. Qed.

Lemma response_ip_config type d chaddr ip d' :
  response_ip type d chaddr = Done (ip, d') ->
  netmask d' = netmask d /\ my_ip d' = my_ip d /\ router_ip d' = router_ip d.
Proof.
  unfold response_ip, next_yiaddr. destruct (_ =? DHCP_MESSAGE_OFFER); [|by intros [= _ <-]].
  destruct (_ =? CLIENT_IP_NOT_FOUND); [|by intros [= _ <-]].
  destruct (search_ip _ _ _) as [cur| | |]; cbn; try done.
  unfold ac_add, ac_not_full. cbn. destruct (_ <? MAC_IP_CACHE_SIZE); [|by intros [= _ <-]].
  destruct (aset _ _ _); cbn; try done. by intros [= _ <-].
Qed.

(** The five options and the end mark, after [m0] bytes. *)
Lemma options_run s m off a b c d e :
  0 <= off -> off + 31 <= zlen m ->
  exists m', (o ← put_option off 1 (write_u32 a); o ← put_option o 51 (write_u32 b);
    o ← put_option o 54 (write_u32 c); o ← put_option o 3 (write_u32 d);
    o ← put_option o 6 (write_u32 e); _ ← wr o [BOOTP_END_OPTION]; mret (o + 1)) (with_msg m s)
    = Done (off + 31, with_msg m' s) /\ zlen m' = zlen m /\
    slice m' 0 (off + 31) = slice m 0 off ++ [1; 4] ++ write_u32 a ++ [51; 4] ++ write_u32 b
      ++ [54; 4] ++ write_u32 c ++ [3; 4] ++ write_u32 d ++ [6; 4] ++ write_u32 e ++ [255].
Proof.
  intros Ho Hle.
  rewrite run_put4 by lia. set (m1 := put m _ _ _).
  assert (L1 : zlen m1 = zlen m) by (apply zlen_put4; lia).
  rewrite run_put4 by lia. set (m2 := put m1 _ _ _).
  assert (L2 : zlen m2 = zlen m) by (rewrite <- L1; apply zlen_put4; lia).
  rewrite run_put4 by lia. set (m3 := put m2 _ _ _).
  assert (L3 : zlen m3 = zlen m) by (rewrite <- L2; apply zlen_put4; lia).
  rewrite run_put4 by lia. set (m4 := put m3 _ _ _).
  assert (L4 : zlen m4 = zlen m) by (rewrite <- L3; apply zlen_put4; lia).
  rewrite run_put4 by lia. set (m5 := put m4 _ _ _).
  assert (L5 : zlen m5 = zlen m) by (rewrite <- L4; apply zlen_put4; lia).
  rewrite run_wr by offs. eexists. split; [|split].
  - prog_run. f_equal. f_equal. lia.
  - rewrite zlen_splice; offs.
  - replace (off + 31) with (off + 6 + 6 + 6 + 6 + 6 + zlen [BOOTP_END_OPTION]) by offs.
    rewrite slice_extend by offs. unfold m5. rewrite slice_put4 by lia.
    unfold m4. rewrite slice_put4 by lia. unfold m3. rewrite slice_put4 by lia.
    unfold m2. rewrite slice_put4 by lia. unfold m1. rewrite slice_put4 by lia.
    by rewrite <- !app_assoc.
Qed.

(** ** DNS refusals *)

Definition dns_refusal (m : list Z) (b2 len : Z) : list Z :=
  slice m 0 2 ++ [0x81; Z.lor (Z.land b2 0x70) ERROR_REFUSED; 0; 1] ++ replicate 6 0
  ++ slice m 12 (len - 12).

Lemma byte_enum (P : Z -> bool) : forallb (fun n => P (Z.of_nat n)) (seq 0 256) = true ->
  forall b, is_byte b -> P b = true.
Proof.
  intros Hall b Hb. unfold is_byte in Hb. rewrite forallb_forall in Hall.
  rewrite <- (Z2Nat.id b) by lia. apply Hall, in_seq. lia.
Qed.

Lemma refused_flags b2 b3 : is_byte b2 -> is_byte b3 ->
  le16 (bswap16 (Z.lor (Z.land (of_le [b2; b3]) 0x70) (0x8100 + ERROR_REFUSED)))
  = [0x81; Z.lor (Z.land b2 0x70) ERROR_REFUSED].
Proof.
  intros H2 H3. assert (E : Z.land (of_le [b2; b3]) 0x70 = Z.land b2 0x70).
  { change 0x70 with (Z.land (Z.ones 8) 0x70). rewrite !Z.land_assoc, !Z.land_ones by lia.
    f_equal. cbn [of_le foldr]. rewrite Z.mul_0_r, Z.add_0_r. change (2 ^ 8) with 256.
    rewrite (Z.mul_comm 256). apply Z_mod_plus_full. }
  rewrite E. clear E H3.
  apply (bool_decide_eq_true_1 (le16 (bswap16 (Z.lor (Z.land b2 0x70) (0x8100 + ERROR_REFUSED)))
    = [0x81; Z.lor (Z.land b2 0x70) ERROR_REFUSED])).
  revert b2 H2. apply byte_enum. by vm_compute.
Qed.

Lemma flags_recursion b2 b3 : is_byte b2 -> is_byte b3 ->
  Z.testbit (of_le [b2; b3]) 15 = Z.testbit b3 7.
Proof.
  unfold is_byte. intros H2 H3. cbn [of_le foldr]. rewrite Z.mul_0_r, Z.add_0_r.
  change 15 with (7 + 8). rewrite <- (Z.shiftr_spec _ 8 7), Z.shiftr_div_pow2 by lia.
  f_equal. change (2 ^ 8) with 256. rewrite (Z.mul_comm 256), Z_div_plus by lia.
  rewrite Z.div_small by lia. lia.
Qed.

Lemma no_questions q1 q0 : is_byte q1 -> is_byte q0 ->
  (bswap16 (of_le [q1; q0]) <=? 0) = (q1 =? 0) && (q0 =? 0).
Proof.
  unfold is_byte. intros H1 H0. set (w := of_le [q1; q0]).
  assert (Ew : w = q1 + 256 * q0) by (unfold w; cbn [of_le foldr]; lia).
  assert (Hw : 0 <= w < 2 ^ 16) by lia. pose proof (bswap16_range w).
  apply eq_true_iff_eq. rewrite andb_true_iff, Z.leb_le, !Z.eqb_eq. split.
  - intros Hz. assert (E0 : bswap16 w = 0) by lia.
    pose proof (bswap16_involutive w Hw) as E. rewrite E0 in E. change (bswap16 0) with 0 in E. lia.
  - intros [-> ->]. change (bswap16 w <= 0). by rewrite Ew.
Qed.

Lemma rd16_at s m off bs :
  msg (dhcps s) = Some m -> slice m off 2 = bs -> 0 <= off -> off + 2 <= zlen m ->
  rd16 off s = Done (of_le bs, s).
Proof.
  intros Em <- Ho Hle. unfold rd16. rewrite (run_bind _ _ _ _ _ (rd_at s m off 2 Em Ho ltac:(lia) Hle)).
  done.
Qed.

Lemma dns_writes m b2 len fl :
  zlen m = SERVER_BUFFER_SIZE -> 12 <= len <= SERVER_BUFFER_SIZE ->
  fl = [0x81; Z.lor (Z.land b2 0x70) ERROR_REFUSED] ->
  slice (splice (splice (splice (splice (splice m 2 fl) 4 (le16 (bswap16 1))) 6 (le16 0)) 8 (le16 0))
    10 (le16 0)) 0 len = dns_refusal m b2 len.
Proof.
  intros Hm Hlen ->. replace len with (2 + (2 + (2 + (2 + (2 + (2 + (len - 12))))))) at 1 by lia.
  do 6 (rewrite <- slice_glue by lia). unfold dns_refusal.
  change [0x81; ?x; 0; 1] with ([0x81; x] ++ le16 (bswap16 1)).
  change (replicate 6 0) with (le16 0 ++ le16 0 ++ le16 0). rewrite <- !app_assoc.
  repeat (apply (f_equal2 app); [by through_writes SERVER_BUFFER_SIZE|]).
  by through_writes SERVER_BUFFER_SIZE.
Qed.

(** ** What the server keeps *)

(** C8: the DHCP server in service.  Once [dhcp_server_init] has succeeded on
    a subnet with at least sixteen addresses, the server handles whatever
    datagrams arrive on its sockets ([event_ok]: any bytes, up to 1018 of them
    on the DHCP socket): it always finishes, stays inside its buffer, keeps
    its configuration, binds no MAC and no address twice, binds only
    assignable addresses, and never drops a binding. *)
Theorem dhcp_server_keeps_bindings buf s s0 ip mask gw k evs1 evs2 :
  dhcp_server_init (Some buf) 0 s = Done (0, s0) ->
  net_get_if_ip_addr (net s) = (0, ip) -> net_get_if_ip_mask (net s) = (0, mask) ->
  net_get_if_gw_addr (net s) = (0, gw) -> is_u32 ip -> is_u32 mask ->
  zlen buf = SERVER_BUFFER_SIZE -> Forall is_byte buf ->
  4 <= k <= 32 -> bswap32 (not32 mask) = 2 ^ k - 1 ->
  Forall event_ok evs1 -> Forall event_ok evs2 ->
  exists b1 s1 b2 s2,
    dhcp_server evs1 s0 = Done (b1, s1) /\ dhcp_server evs2 s1 = Done (b2, s2) /\
    live (dhcps s1) `prefix_of` live (dhcps s2) /\
    NoDup (map fst (live (dhcps s2))) /\ NoDup (map snd (live (dhcps s2))) /\
    Forall (fun b => assignable (dhcps s2) (snd b)) (live (dhcps s2)) /\
    my_ip (dhcps s2) = ip /\ netmask (dhcps s2) = mask /\ router_ip (dhcps s2) = gw.
Proof.
  intros Ei E1 E2 E3 Hip Hmask Hl Hb Hk Hbits Ha Hb2.
  destruct (init_serves buf s s0 ip mask gw Ei E1 E2 E3 Hip Hmask Hl Hb) as (Hs & _ & <- & <- & <-).
  destruct (keeps_server evs1 Ha s0 k Hs) as (b1 & s1 & R1 & _ & A1); [by split; [lia|]|lia|].
  destruct (keeps_server evs2 Hb2 s1 k (af_serving _ _ A1)) as (b2 & s2 & R2 & _ & A2);
    [split; [lia|by rewrite (af_mask _ _ A1)]|lia|].
  exists b1, s1, b2, s2. pose proof (after_trans _ _ _ A1 A2) as [[W _ _] M1 M2 M3 _ _].
  split_and!; try done; [apply A2|apply W..].
Qed.

(** C14: the decision on a request.  A request is any list of options with
    the message type among them and, in options before or behind it, in
    [ciaddr] or in both, one and the same address ([asks]; a request that names
    two is not covered, see [dhcp_second_address_acknowledged]).  The server
    acknowledges exactly when the client may have the address: it is bound to
    this client, or the client has none and the address is assignable and
    free; otherwise it refuses, and no binding changes.  A new client's address
    is bound while there is room. *)
Theorem dhcp_request_decided s m op ciaddr chaddr os ip len :
  serving s -> msg (dhcps s) = Some m -> bootp_msg m op (le32 ciaddr) chaddr (options_bytes os) ->
  (op = BOOTP_OP_REQUEST \/ op = BOOTP_OP_RESPONSE) ->
  asks ciaddr os ip -> is_u32 ip -> 240 + zlen (options_bytes os) <= len ->
  exists s', serving s' /\ msg (dhcps s') = Some m /\ client_ip (dhcps s') = ip /\
    (may_have (dhcps s) chaddr ip /\ process_dhcp_message len s = reply DHCP_MESSAGE_ACK s' /\
       live (dhcps s') = granted (dhcps s) chaddr ip \/
     ~ may_have (dhcps s) chaddr ip /\ process_dhcp_message len s = reply DHCP_MESSAGE_NAK s' /\
       live (dhcps s') = live (dhcps s)).
Proof.
  intros Hs Em Hb Hop Hask Hip Hlen. pose proof (options_turns os) as Ht. unfold zlen at 1 in Ht.
  assert (Ho : 4 <= zlen (options_bytes os)) by apply request_bytes, Hask.
  rewrite (process_runs s m op (le32 ciaddr) chaddr (options_bytes os)) by (try done; lia).
  destruct (scan_request s m op ciaddr chaddr os ip (Z.to_nat (len - 240)) (len - 240))
    as (s' & g & gc & E & Ha & Em' & Ec & Hg & Hl); try done; [lia|lia|].
  rewrite (run_bind _ _ _ _ _ E). exists s'. split_and!; try done; [apply Ha|].
  destruct g; [left|right]; split_and!; try done; [by apply Hg|]. intros Hn%Hg. done.
Qed.

(** C25: the response on the wire.  For each of the three kinds of response
    the bytes to send are exactly the filled-in header, which keeps the
    client's transaction id, flags and hardware address, the message type, and
    for an offer or an acknowledgement the five options and the end mark: the
    address in [yiaddr] is the one [next_yiaddr] picks for an offer, the
    requested one for an acknowledgement, none for a refusal. *)
Theorem make_response_wire type s m ip d' :
  zlen m = SERVER_BUFFER_SIZE -> msg (dhcps s) = Some m -> is_u32 (client_ip (dhcps s)) ->
  is_byte type -> is_u32 (dhcp_address_timeout s) ->
  response_ip type (dhcps s) (slice m OFF_chaddr 6) = Done (ip, d') ->
  let bytes := response_bytes m type ip s in
  exists m', make_response type s = Done (zlen bytes, with_msg m' (on_dhcps (fun _ => d') s)) /\
    zlen m' = SERVER_BUFFER_SIZE /\ slice m' 0 (zlen bytes) = bytes.
Proof.
  intros Hm Em Hc Ht Hto E bytes. destruct (response_ip_config _ _ _ _ _ E) as (C1 & C2 & C3).
  enough (exists m', make_response type (with_msg m s) =
    Done (zlen bytes, with_msg m' (on_dhcps (fun _ => d') s)) /\
    zlen m' = SERVER_BUFFER_SIZE /\ slice m' 0 (zlen bytes) = bytes) as Hr
    by by rewrite <- (with_msg_same s m Em) in Hr.
  unfold make_response.
  set (ip0 := if type =? DHCP_MESSAGE_ACK then client_ip (dhcps s) else 0).
  do 5 (rewrite run_wr by in_buffer SERVER_BUFFER_SIZE).
  unfold getd. rewrite run_gets_bind.
  change (client_ip (dhcps (with_msg _ s))) with (client_ip (dhcps s)). fold ip0.
  rewrite run_wr by in_buffer SERVER_BUFFER_SIZE.
  match goal with |- context [with_msg ?mm s] => set (m0 := mm) end.
  assert (L0 : zlen m0 = SERVER_BUFFER_SIZE) by (unfold m0; lens).
  assert (Hch : slice m0 OFF_chaddr 6 = slice m OFF_chaddr 6)
    by (unfold m0; by through_writes SERVER_BUFFER_SIZE).
  assert (Hy : slice m0 OFF_yiaddr 4 = le32 ip0) by (unfold m0; by through_writes SERVER_BUFFER_SIZE).
  rewrite <- Hch in E. rewrite (run_bind _ _ _ _ _ (yiaddr_run type s m0 ip d' L0 Hc Hy E)).
  do 3 (rewrite run_wr by in_buffer SERVER_BUFFER_SIZE).
  match goal with |- context [with_msg ?mm _] => change mm with (header m ip0 ip) end.
  destruct (header_slice m ip0 ip Hm) as [Hl Hh].
  rewrite run_put by offs. set (m1 := put _ _ _ _).
  assert (L1 : zlen m1 = SERVER_BUFFER_SIZE) by (rewrite <- Hl; apply zlen_put; offs).
  assert (S1 : slice m1 0 243 = header_bytes m ip ++ [53; 1; type]).
  { change 243 with (SIZEOF_bootp_header + 2 + zlen [type]). unfold m1.
    rewrite slice_put by offs. by rewrite Hh. }
  change (SIZEOF_bootp_header + 2 + zlen [type]) with 243.
  unfold bytes, response_bytes, response_options. destruct (type =? DHCP_MESSAGE_NAK).
  - exists m1. rewrite app_nil_r, <- S1, zlen_slice by (rewrite ?L1; offs). done.
  - unfold getd. prog_run.
    set (s2 := on_dhcps (fun _ => d') s).
    destruct (options_run s2 m1 243 (netmask d') (bswap32 (dhcp_address_timeout s)) (my_ip d')
      (router_ip d') (if dns_handler s then router_ip d' else 0)) as (m' & R & Lm & Sm);
      [lia|rewrite L1; offs|].
    rewrite C1, C2, C3, S1, <- !app_assoc, !write_u32_le32, le32_bswap in Sm by done. exists m'.
    rewrite <- Sm, zlen_slice by (rewrite ?Lm, ?L1; offs). split_and!; [|congruence|done].
    rewrite <- R, C1, C2, C3. cbn -[write_u32]. by rewrite C1, C2, C3.
Qed.

(** C19: the address offered.  On any contiguous netmask, [next_yiaddr]
    gives a client the address it is bound to or, when it has none, an
    assignable one that no other client has, and binds it while there is room.
    It answers exactly when the client has an address or one is free: with
    every address of a small subnet taken, the search never ends. *)
Theorem next_yiaddr_exact d chaddr k :
  dhcps_wf d -> host_bits d k ->
  (chaddr ∈ map fst (live d) \/ (exists ip, free_address d ip)) /\
    (exists ip d', next_yiaddr d chaddr = Done (ip, d') /\ leased d chaddr ip d') \/
  chaddr ∉ map fst (live d) /\ (forall ip, ~ free_address d ip) /\
    next_yiaddr d chaddr = Spin /\
    (forall fuel, search_ip d fuel (next_candidate d (current_ip d)) = Spin).
Proof.
  intros Hwf Hk. destruct (decide (chaddr ∈ map fst (live d))) as [Hb|Hn].
  { left. split; [by left|]. by apply (next_yiaddr_spec d chaddr k). }
  destruct (search_spec d SEARCH_FUEL (next_candidate d (current_ip d)))
    as [(n & _ & _ & Hv)|[Es Hall]].
  - destruct (candidate_free d n _ Hwf Hv) as [Hf _].
    assert (exists ip, free_address d ip) by by eexists.
    left. split; [by right|]. by apply (next_yiaddr_spec d chaddr k).
  - right. split; [done|]. split; [|split].
    + intros ip Hf. destruct (search_decides d k (current_ip d) Hwf Hk) as (n & E & _);
        [by exists ip|congruence].
    + unfold next_yiaddr. rewrite (proj2 (lookup_mac_unbound d chaddr Hwf) Hn), Es. done.
    + intros fuel. apply (search_fuel_exact d); [done| |done]. apply candidate_range; apply Hwf.
Qed.

(** the refusing DNS server.  A message with a question is answered by
    itself with the header of a refusal, sent whole to where it came from.
    Since the flags are looked at before they are brought to host order, the
    message that is ignored as "not a query" is the one with the RA bit, the
    top bit of the fourth byte, whatever its QR bit says. *)
Theorem process_dns_message_answers s m b2 b3 q1 q0 len from :
  serving s -> msg (dhcps s) = Some m -> slice m 2 4 = [b2; b3; q1; q0] ->
  is_byte b2 -> is_byte b3 -> is_byte q1 -> is_byte q0 -> 12 <= len <= SERVER_BUFFER_SIZE ->
  if Z.testbit b3 7 || ((q1 =? 0) && (q0 =? 0))
  then process_dns_message len from s = Done (-1, s)
  else exists m', slice m' 0 len = dns_refusal m b2 len /\ zlen m' = zlen m /\
    process_dns_message len from s =
    (_ ← send_response (dnssock (dhcps s)) from len; mret (-1)) (with_msg m' s).
Proof.
  intros Hs Em Es H2 H3 Hq1 Hq0 Hlen. pose proof (serving_len s m Hs Em) as Hm.
  assert (Hf : slice m (2 + 0) 2 = [b2; b3]) by (by rewrite <- (slice_slice m 2 4 0 2), Es by lia).
  assert (Hq : slice m (2 + 2) 2 = [q1; q0]) by (by rewrite <- (slice_slice m 2 4 2 2), Es by lia).
  unfold process_dns_message, getd. rewrite (proj2 (Z.ltb_ge _ _)) by (unfold SIZEOF_dns_header; lia).
  rewrite (run_bind _ _ _ _ _ (rd16_at s m 2 _ Em Hf ltac:(lia) ltac:(rewrite Hm; offs))).
  rewrite flags_recursion by done. destruct (Z.testbit b3 7); cbn [orb]; [done|].
  rewrite (run_bind _ _ _ _ _ (rd16_at s m 4 _ Em Hq ltac:(lia) ltac:(rewrite Hm; offs))).
  rewrite no_questions by done. destruct (_ && _); [done|].
  eexists. rewrite (run_wr_at s m) by first [done | in_buffer SERVER_BUFFER_SIZE].
  do 4 (rewrite run_wr by in_buffer SERVER_BUFFER_SIZE). prog_run. split; [|split]; [| |done].
  - eapply dns_writes; [done|done|]. by rewrite refused_flags.
  - rewrite Hm. lens.
Qed.

(** Out of the subnet, the check leaves the answer as it was. *)
Lemma scan_check_outside c s :
  Z.land (client_ip (dhcps s)) (netmask (dhcps s)) <> Z.land (my_ip (dhcps s)) (netmask (dhcps s)) ->
  scan_check c s = Done (c, s).
Proof.
  intros Hne. unfold scan_check. destruct (negb (got_client_ip c)); [done|].
  unfold getd. prog_run. unfold id. by rewrite (proj2 (Z.eqb_neq _ _) Hne).
Qed.

(** One turn of the option loop on a REQUESTED_IP option. *)
Lemma scan_turn_requested s m opt ip f len c :
  msg (dhcps s) = Some m -> slice m opt 2 = [50; 4] -> slice m (opt + 2) 4 = le32 ip -> is_u32 ip ->
  0 < len -> 0 <= opt -> opt + 6 <= zlen m ->
  scan_options (S f) opt len c s =
  (c ← scan_check (mk_scan (response_type c) (got_ip c) (need_ip c) true);
   scan_options f (opt + 6) (len - 6) (scan_answer c)) (on_dhcps (set_client_ip ip) s).
Proof.
  intros Em E2 E4 Hip Hl Ho Hle. rewrite (scan_options_step s m _ _ _ _ 50 4) by (try done; lia).
  rewrite (run_bind _ _ _ _ _ (scan_message_other _ 50 4 _ s ltac:(done))).
  by rewrite (run_bind _ _ _ _ _ (scan_requested_run s m opt _ ip Em E4 Hip Ho Hle)).
Qed.

(** the answer outlives the address it was for.  A request that names an
    address the client may have and then one outside the subnet is
    acknowledged, with the second address in the acknowledgement: [got_ip] is
    not reset, and the check of an address outside the subnet changes
    nothing. *)
Theorem dhcp_second_address_acknowledged s m op chaddr ip1 ip2 len :
  serving s -> msg (dhcps s) = Some m ->
  bootp_msg m op (le32 0) chaddr ([53; 1; 3; 50; 4] ++ le32 ip1 ++ [50; 4] ++ le32 ip2 ++ [255]) ->
  (op = BOOTP_OP_REQUEST \/ op = BOOTP_OP_RESPONSE) -> is_u32 ip1 -> is_u32 ip2 -> 256 <= len ->
  may_have (dhcps s) chaddr ip1 ->
  Z.land ip2 (netmask (dhcps s)) <> Z.land (my_ip (dhcps s)) (netmask (dhcps s)) ->
  exists s', serving s' /\ msg (dhcps s') = Some m /\
    process_dhcp_message len s = reply DHCP_MESSAGE_ACK s' /\
    response_ip DHCP_MESSAGE_ACK (dhcps s') chaddr = Done (ip2, dhcps s').
Proof.
  intros Hs Em Hb Hop H1 H2 Hlen Hmay Hout. pose proof (serving_len s m Hs Em) as Hm.
  unfold SERVER_BUFFER_SIZE in Hm. pose proof (after_client s ip1 Hs H1) as Hac.
  rewrite (process_runs s m _ _ _ _ _ Hs Em Hb Hop) by lia.
  replace (Z.to_nat (len - 240)) with (S (S (S (Z.to_nat (len - 243))))) by lia.
  destruct (scan_check_decides _ m DHCP_MESSAGE_NAK false true chaddr (af_serving _ _ Hac) Em
    (bm_chaddr _ _ _ _ _ Hb) ltac:(done)) as (s1 & g & E & Ha & Em1 & _ & Hg & _).
  replace g with true in E by (symmetry; by apply Hg).
  set (s2 := on_dhcps (set_client_ip ip2) s1).
  assert (Hscan : scan_options (S (S (S (Z.to_nat (len - 243))))) 240 (len - 240)
    (mk_scan DHCP_NO_RESPONSE false false false) s =
    Done (mk_scan DHCP_MESSAGE_ACK true true true, s2)).
  { rewrite (scan_first s m op 0 chaddr ([50; 4] ++ le32 ip1 ++ [50; 4] ++ le32 ip2 ++ [255]))
      by (try done; lia).
    change (0 =? 0) with true. unfold scan_check at 1. cbn [got_client_ip negb]. prog_run.
    rewrite (scan_turn_requested s m _ ip1); [|done|by apply (opts_at _ _ _ _ _ 3 _ _ Hb)
      |by apply (opts_at _ _ _ _ _ 5 _ _ Hb)|done|lia..].
    cbn [scan_answer need_ip got_ip response_type]. rewrite (run_bind _ _ _ _ _ E).
    rewrite (scan_turn_requested s1 m _ ip2); [|done|by apply (opts_at _ _ _ _ _ 9 _ _ Hb)
      |by apply (opts_at _ _ _ _ _ 11 _ _ Hb)|done|lia..].
    rewrite (run_bind _ _ _ _ _ (scan_check_outside _ s2
      ltac:(unfold s2; cbn; by rewrite (af_mask _ _ Ha), (af_me _ _ Ha)))).
    apply (scan_options_end s2 m); [done|by apply (opts_at _ _ _ _ _ 15 _ _ Hb)|lia..]. }
  rewrite (run_bind _ _ _ _ _ Hscan). exists s2. split_and!; try done.
  apply (after_client s1); [apply Ha|done].
Qed.

(** *** Starting *)

(** What the network makes of opening a socket on an address: a socket, or a
    negative number and, when it was had but could not be set up, its
    closing. *)
Definition opened (n : N) (a : sockaddr_in) : Z * N :=
  let '(sk, n) := lwip_socket n in
  if sk =? -1 then (-1, n) else
  let '(r, n) := setsockopt_broadcast n sk in
  if r =? -1 then (-1, snd (lwip_close n sk)) else
  let '(r, n) := lwip_bind n sk a in
  if r =? 0 then (sk, n) else (-1, snd (lwip_close n sk)).

Lemma create_and_bind_opened a s :
  create_and_bind_udp_socket a s = Done (fst (opened (net s) a), on_net (fun _ => snd (opened (net s) a)) s).
Proof.
  unfold create_and_bind_udp_socket, opened, close_sock. prog_run.
  destruct (lwip_socket _) as [sk n1]. prog_run.
  destruct (sk =? -1); [done|]. prog_run. cbn [net on_net].
  destruct (setsockopt_broadcast _ _) as [r n2]. prog_run.
  destruct (r =? -1); prog_run; [done|]. cbn [net on_net].
  destruct (lwip_bind _ _ _) as [r' n3]. prog_run.
  by destruct (r' =? 0); cbn [negb]; prog_run.
Qed.

(** What a start leaves: its answer, whether the daemon runs, the buffer, the
    mutex, the three socket numbers and the network. *)
Record remains := mk_remains {
  rm_result : Z;
  rm_running : bool;
  rm_msg : option (list Z);
  rm_mutex : bool;
  rm_socks : Z * Z * Z;
  rm_net : N
}.

Definition observe (r : Z * daemon N) : remains :=
  let '(x, (s, running)) := r in
  mk_remains x running (msg (dhcps s)) (dhcpd_mutex s) (sock (dhcps s), dnssock (dhcps s), ctrlsock (dhcps s)) (net s).

(** The start, by what fails. *)
Definition start_remains (buf : option (list Z)) (mutex_ret thread_ret : Z) (s : server N) (running : bool) : remains :=
  let n := net s in
  if running then mk_remains (-1) true (msg (dhcps s)) (dhcpd_mutex s) (sock (dhcps s), dnssock (dhcps s), ctrlsock (dhcps s)) n else
  match buf with
  | None => mk_remains (-1) false None (dhcpd_mutex s) (0, 0, 0) n
  | Some m =>
      if negb (mutex_ret =? 0) then mk_remains (-1) false (Some m) (dhcpd_mutex s) (0, 0, 0) n else
      if (fst (net_get_if_ip_addr n) <? 0) || (fst (net_get_if_ip_mask n) <? 0) || (fst (net_get_if_gw_addr n) <? 0)
      then mk_remains (-1) false None false (0, 0, 0) n else
      let '(s1, n) := opened n (mk_addr 0 67) in
      if s1 <? 0 then mk_remains (-1) false None false (s1, 0, 0) n else
      let '(s2, n) := opened n (mk_addr 0 53) in
      if s2 <? 0 then mk_remains (-1) false (Some m) true (s1, s2, 0) n else
      let '(s3, n) := opened n (mk_addr (bswap32 0x7f000001) CTRL_PORT) in
      if s3 <? 0 then mk_remains (-1) false None false (s1, s2, s3) n else
      if thread_ret =? 0 then mk_remains 0 true (Some m) true (s1, s2, s3) n
      else mk_remains (-1) false None false (-1, -1, -1)
             (snd (lwip_close (snd (lwip_close (snd (lwip_close n s1)) s2)) s3))
  end.

(** The clean-up of three open sockets. *)
Lemma free_allocations_run s :
  dns_handler s = true -> 0 <= sock (dhcps s) -> 0 <= dnssock (dhcps s) -> 0 <= ctrlsock (dhcps s) ->
  exists s', dhcp_free_allocations s = Done (tt, s') /\ forall x r, observe (x, (s', r)) =
    mk_remains x r None false (-1, -1, -1)
      (snd (lwip_close (snd (lwip_close (snd (lwip_close (net s) (sock (dhcps s)))) (dnssock (dhcps s)))) (ctrlsock (dhcps s)))).
Proof.
  intros Hd H1 H2 H3. unfold dhcp_free_allocations, dhcp_clean_sockets, close_sock, setd, getd.
  pose proof (proj2 (Z.eqb_neq (sock (dhcps s)) (-1)) ltac:(lia)) as E1.
  pose proof (proj2 (Z.eqb_neq (dnssock (dhcps s)) (-1)) ltac:(lia)) as E2.
  pose proof (proj2 (Z.eqb_neq (ctrlsock (dhcps s)) (-1)) ltac:(lia)) as E3.
  destruct s as [d to dh mu n]. cbn in Hd, E1, E2, E3 |- *. subst dh.
  prog_run. unfold id. cbn. rewrite E1. cbn [negb]. prog_run. unfold id. cbn. rewrite E2. cbn [andb negb]. prog_run.
  unfold id. cbn. rewrite E3. cbn [negb]. prog_run. eexists. split; [reflexivity|]. done.
Qed.

Lemma run_on_server {A B} (m : srv A) (f : A -> prog (daemon N) B) s r a s' :
  m s = Done (a, s') -> (on_server m ≫= f) (s, r) = f a (s', r).
Proof. intros E. apply run_bind. unfold on_server. cbn. by rewrite E. Qed.

(** A start that fails here, whatever it leaves. *)
Ltac failed_start := prog_run; eexists _, _; split; [reflexivity|]; left; done.

Lemma init_remains buf mutex_ret thread_ret s :
  dns_handler s = true ->
  exists r s', dhcp_server_init buf mutex_ret s = Done (r, s') /\
    (r = -1 /\ observe (-1, (s', false)) = start_remains buf mutex_ret thread_ret s false \/
     r = 0 /\ dns_handler s' = true /\ 0 <= sock (dhcps s') /\ 0 <= dnssock (dhcps s') /\ 0 <= ctrlsock (dhcps s') /\
       start_remains buf mutex_ret thread_ret s false =
       if thread_ret =? 0 then observe (0, (s', true))
       else mk_remains (-1) false None false (-1, -1, -1)
         (snd (lwip_close (snd (lwip_close (snd (lwip_close (net s') (sock (dhcps s')))) (dnssock (dhcps s')))) (ctrlsock (dhcps s'))))).
Proof.
  intros Eh. destruct s as [d0 to dh mu n0]. cbn in Eh. subst dh.
  unfold dhcp_server_init, init_out, start_remains, setd, getd. cbn [net dhcpd_mutex].
  destruct buf as [m|]; [|failed_start].
  prog_run. destruct (mutex_ret =? 0); cbn [negb]; [|failed_start].
  prog_run. cbn [net set_mutex on_dhcps].
  destruct (net_get_if_ip_addr n0) as [r1 ip]. prog_run. cbn [fst].
  destruct (r1 <? 0); [failed_start|].
  destruct (net_get_if_ip_mask n0) as [r2 mask]. prog_run. cbn [fst].
  destruct (r2 <? 0); [failed_start|].
  destruct (net_get_if_gw_addr n0) as [r3 gw]. prog_run. cbn [fst].
  destruct (r3 <? 0); [failed_start|]. cbn [orb].
  rewrite (run_bind _ _ _ _ _ (create_and_bind_opened _ _)). prog_run. cbn [net set_mutex on_dhcps on_net].
  unfold DHCP_SERVER_PORT. destruct (opened n0 _) as [s1 n1] eqn:E1. cbn [fst snd].
  destruct (s1 <? 0) eqn:F1; [failed_start|]. prog_run.
  cbn [dns_handler on_dhcps on_net set_mutex]. prog_run.
  rewrite (run_bind _ _ _ _ _ (create_and_bind_opened _ _)). prog_run. cbn [net set_mutex on_dhcps on_net].
  unfold NAMESERVER_PORT. destruct (opened n1 _) as [s2 n2] eqn:E2. cbn [fst snd].
  destruct (s2 <? 0) eqn:F2; [failed_start|].
  rewrite (run_bind _ _ _ _ _ (create_and_bind_opened _ _)). prog_run. cbn [net set_mutex on_dhcps on_net].
  destruct (opened n2 _) as [s3 n3] eqn:E3. cbn [fst snd].
  destruct (s3 <? 0) eqn:F3; [failed_start|].
  prog_run. eexists _, _. split; [reflexivity|]. right. zbool. by split_and!.
Qed.

(** C35: starting the server, in every case.  A running one is left alone.
    Without the buffer, the mutex, the addresses of the interface, one of the
    three sockets (which may fail to be had, set up or bound; the failed one is
    closed) or the thread the answer is -1 and the daemon does not run; what
    is left is told exactly: the buffer is lost when there is no mutex, buffer
    and mutex are kept when the DNS socket fails and given back otherwise, the
    sockets opened before a failing one stay open, and only when there is no
    thread are all three closed.  With all of them the server is up. *)
Theorem dhcp_start_failures buf mutex_ret thread_ret s running :
  exists out, dhcp_server_start buf mutex_ret thread_ret (s, running) = Done out /\
    observe out = start_remains buf mutex_ret thread_ret s running.
Proof.
  unfold dhcp_server_start. unfold dhcp_enable_nack_dns_server.
  rewrite (run_on_server _ _ s running _ _ (run_modify _ s)). prog_run. cbn [snd].
  destruct running; [prog_run; eexists; split; [reflexivity|]; done|].
  set (s0 := mk_server _ _ true _ _).
  destruct (init_remains buf mutex_ret thread_ret s0 eq_refl) as (r & s1 & E & Hr).
  change (start_remains buf mutex_ret thread_ret s false) with (start_remains buf mutex_ret thread_ret s0 false).
  rewrite (run_on_server _ _ s0 false _ _ E).
  destruct Hr as [[-> Hr]|(-> & Hd & H1 & H2 & H3 & ->)]; cbn [negb Z.eqb].
  { prog_run. eexists. split; [reflexivity|]. exact Hr. }
  destruct (thread_ret =? 0); cbn [negb].
  { unfold set_running. prog_run. eexists. split; [reflexivity|]. done. }
  destruct (free_allocations_run s1 Hd H1 H2 H3) as (s2 & E2 & Ho).
  rewrite (run_on_server _ _ s1 false _ _ E2). prog_run. eexists. split; [reflexivity|]. apply Ho.
Qed.
End Messages.

(* ------------------------------------------------------------------ *)
(** ** Concrete inputs *)

(** A network that delivers every datagram and keeps a record of them; the
    access point is 192.168.0.1/24. *)
Definition wire : Type := list (sockaddr_in * list Z).

Definition AP_IP : Z := of_le [192; 168; 0; 1].
Definition AP_MASK : Z := of_le [255; 255; 255; 0].

Instance wire_net : Net wire.
Proof.
  refine {|
    lwip_sendto n _ a bs := (zlen bs, n ++ [(a, bs)]);
    ap_set_default_netif n := n;
    etharp_add_static_entry n _ _ := n;
    etharp_remove_static_entry n _ := n;
    lwip_socket n := (3, n);
    setsockopt_broadcast n _ := (0, n);
    lwip_bind n _ _ := (0, n);
    lwip_close n _ := (0, n);
    net_get_if_macaddr _ := [200; 71; 140; 0; 0; 1];
    net_get_if_ip_addr _ := (0, AP_IP);
    net_get_if_ip_mask _ := (0, AP_MASK);
    net_get_if_gw_addr _ := (0, AP_IP)
  |}.
  - intros n s a bs. by right.
  - done.
Defined.

Definition power_on : server wire :=
  mk_server (set_msg None (dhcps_fresh [] 0 0 0)) 120 false false [].

(** A client's message of [n] bytes: options at the end of a BOOTP header. *)
Definition client_mac : list Z := [2; 0; 0; 0; 0; 7].
Definition client_message (ciaddr opts : list Z) : list Z :=
  [1; 1; 6; 0] ++ replicate 8 0 ++ ciaddr ++ replicate 12 0 ++ client_mac ++ replicate 206 0 ++ opts.
Definition in_message_buffer (bs : list Z) : list Z :=
  bs ++ replicate (Z.to_nat (SERVER_BUFFER_SIZE - zlen bs)) 0.

Definition started (buf : list Z) : server wire :=
  match dhcp_server_init (Some buf) 0 power_on with Done (_, s) => s | _ => power_on end.

Definition HOST_7 : Z := of_le [192; 168; 0; 7].
Definition ELSEWHERE : Z := of_le [10; 0; 0; 9].
Definition discover : list Z := client_message (le32 0) [53; 1; 1; 255].
Definition request (ip : Z) : list Z :=
  client_message (le32 0) ([53; 1; 3; 50; 4] ++ le32 ip ++ [255]).

Lemma bytes_check l : forallb (fun b => (0 <=? b) && (b <? 256)) l = true -> Forall is_byte l.
Proof.
  intros Hl. apply Forall_forall. intros x Hx. rewrite forallb_forall in Hl.
  apply list_elem_of_In, Hl in Hx. unfold is_byte. lia.
Qed.

Lemma started_serving buf :
  dhcp_server_init (Some buf) 0 power_on = Done (0, started buf) ->
  zlen buf = SERVER_BUFFER_SIZE -> Forall is_byte buf -> serving (started buf).
Proof.
  intros E Hl Hb.
  apply (init_serves buf power_on (started buf) AP_IP AP_MASK AP_IP E); try done; by vm_compute.
Qed.

Lemma dhcp_server_keeps_bindings_witness :
  exists b1 s1 b2 s2,
    dhcp_server [Some (mk_selected (Some discover) None None)]
      (started (replicate 1024 0)) = Done (b1, s1) /\
    dhcp_server [Some (mk_selected (Some (request HOST_7)) None (Some HALT))] s1 = Done (b2, s2) /\
    live (dhcps s1) `prefix_of` live (dhcps s2) /\
    NoDup (map fst (live (dhcps s2))) /\ NoDup (map snd (live (dhcps s2))) /\
    Forall (fun b => assignable (dhcps s2) (snd b)) (live (dhcps s2)) /\
    my_ip (dhcps s2) = AP_IP /\ netmask (dhcps s2) = AP_MASK /\ router_ip (dhcps s2) = AP_IP.
Proof.
  apply (dhcp_server_keeps_bindings (replicate 1024 0) power_on _ AP_IP AP_MASK AP_IP 8);
    try (vm_compute; intuition congruence).
  - apply bytes_check. by vm_compute.
  - apply Forall_singleton. cbn. split_and!; try done. split; [by vm_compute|]. apply bytes_check. by vm_compute.
  - apply Forall_singleton. cbn.
    split_and!; try done; (split; [by vm_compute|]); apply bytes_check; by vm_compute.
Defined.

(** A request with a server identifier and the address, in that order. *)
Definition host_7_options : list dhcp_option := [Other 54 (le32 AP_IP); Request; Asked HOST_7].
Definition host_7_buffer : list Z := in_message_buffer (client_message (le32 0) (options_bytes host_7_options)).

Lemma dhcp_request_decided_witness :
  exists s', serving s' /\ msg (dhcps s') = Some host_7_buffer /\
    client_ip (dhcps s') = HOST_7 /\
    let s := started host_7_buffer in
    (may_have (dhcps s) client_mac HOST_7 /\
       process_dhcp_message 256 s = reply DHCP_MESSAGE_ACK s' /\
       live (dhcps s') = granted (dhcps s) client_mac HOST_7 \/
     ~ may_have (dhcps s) client_mac HOST_7 /\
       process_dhcp_message 256 s = reply DHCP_MESSAGE_NAK s' /\
       live (dhcps s') = live (dhcps s)).
Proof.
  apply (dhcp_request_decided (started host_7_buffer) _ 1 0
    client_mac
    host_7_options).
  - apply started_serving; [by vm_compute..|apply bytes_check; by vm_compute].
  - by vm_compute.
  - split; by vm_compute.
  - by left.
  - split; unfold host_7_options.
    + repeat constructor; (done || by vm_compute).
    + set_solver.
    + right. set_solver.
    + split; [by vm_compute|by left].
    + intros ip'. rewrite !elem_of_cons. intros [E|[E|[E|Hn]]]; by inversion E || inversion Hn.
  - by vm_compute.
  - by vm_compute.
Defined.

Lemma dhcp_second_address_acknowledged_witness :
  let opts := [53; 1; 3; 50; 4] ++ le32 HOST_7 ++ [50; 4] ++ le32 ELSEWHERE ++ [255] in
  let buf := in_message_buffer (client_message (le32 0) opts) in
  exists s', serving s' /\ msg (dhcps s') = Some buf /\
    process_dhcp_message 256 (started buf) = reply DHCP_MESSAGE_ACK s' /\
    response_ip DHCP_MESSAGE_ACK (dhcps s') client_mac = Done (ELSEWHERE, dhcps s').
Proof.
  intros opts buf.
  apply (dhcp_second_address_acknowledged (started buf) buf 1 client_mac HOST_7 ELSEWHERE).
  - apply started_serving; [by vm_compute..|apply bytes_check; by vm_compute].
  - by vm_compute.
  - split; by vm_compute.
  - by left.
  - by vm_compute.
  - by vm_compute.
  - done.
  - right. split_and!; try (by vm_compute); apply not_elem_of_nil.
  - by vm_compute.
Defined.

(** A subnet of four addresses whose only free one is taken. *)
Definition tiny_net : dhcp_server_data :=
  mk_dhcps 3 0 3 1 None (mk_addr 0 68) (mk_addr 0 68)
    ((replicate 6 1, of_le [192; 168; 0; 2]) :: replicate 7 (replicate 6 0, 0))
    (of_le [255; 255; 255; 252]) AP_IP 0 0 AP_IP.

Lemma tiny_wf : dhcps_wf tiny_net.
Proof.
  assert (El : live tiny_net = [(replicate 6 1, of_le [192; 168; 0; 2])]) by by vm_compute.
  split; rewrite ?El; cbn [map fst snd]; try apply NoDup_singleton.
  1,2,3,4: vm_compute; intuition congruence.
  apply Forall_singleton. split_and!; vm_compute; intuition congruence.
Qed.

Lemma next_yiaddr_exact_witness :
  (client_mac ∈ map fst (live tiny_net) \/ (exists ip, free_address tiny_net ip)) /\
    (exists ip d', next_yiaddr tiny_net client_mac = Done (ip, d') /\ leased tiny_net client_mac ip d') \/
  client_mac ∉ map fst (live tiny_net) /\ (forall ip, ~ free_address tiny_net ip) /\
    next_yiaddr tiny_net client_mac = Spin /\
    (forall fuel, search_ip tiny_net fuel (next_candidate tiny_net (current_ip tiny_net)) = Spin).
Proof.
  apply (next_yiaddr_exact tiny_net client_mac 2).
  - apply tiny_wf.
  - split; [lia|by vm_compute].
Defined.

Lemma make_response_wire_witness :
  let buf := in_message_buffer discover in let s := started buf in
  exists ip d', response_ip DHCP_MESSAGE_OFFER (dhcps s) (slice buf OFF_chaddr 6) = Done (ip, d') /\
  let bytes := response_bytes buf DHCP_MESSAGE_OFFER ip s in
  exists m', make_response DHCP_MESSAGE_OFFER s = Done (zlen bytes, with_msg m' (on_dhcps (fun _ => d') s)) /\
    zlen m' = SERVER_BUFFER_SIZE /\ slice m' 0 (zlen bytes) = bytes.
Proof.
  intros buf s. eexists _, _. split; [by vm_compute|].
  apply (make_response_wire DHCP_MESSAGE_OFFER s buf); by vm_compute.
Defined.

Lemma process_dns_message_answers_witness :
  let buf := in_message_buffer [17; 34; 1; 0; 0; 1; 0; 0; 0; 0; 0; 0; 1; 97; 0; 0; 1; 0; 1] in
  let s := started buf in let from := mk_addr HOST_7 5353 in
  exists m', slice m' 0 19 = dns_refusal buf 1 19 /\ zlen m' = zlen buf /\
    process_dns_message 19 from s =
    (_ ← send_response (dnssock (dhcps s)) from 19; mret (-1)) (with_msg m' s).
Proof.
  intros buf s from. apply (process_dns_message_answers s buf 1 0 0 1 19 from); try (by vm_compute).
  apply started_serving; [by vm_compute..|apply bytes_check; by vm_compute].
Defined.

(** A datagram of the buffer's 1024 bytes whose last byte starts an option. *)
Definition cut_option : list Z :=
  client_message (le32 0) ((0 :: 255 :: replicate 255 0) ++ (0 :: 255 :: replicate 255 0)
    ++ (0 :: 255 :: replicate 255 0) ++ (0 :: 10 :: replicate 10 0) ++ [BOOTP_OPTION_ROUTER]).

(** the bound on the size of a DHCP message is needed.  The option loop
    reads the length of an option, and its value, without checking that they
    were received: a datagram that fills the buffer and ends in the type of an
    option makes it read past the buffer. *)
Theorem dhcp_cut_option_overruns :
  zlen cut_option = SERVER_BUFFER_SIZE /\
  process_dhcp_message (zlen cut_option) (started cut_option) = Wild.
Proof. split; by vm_compute. Qed.

(** The same network with another server on the DNS port. *)
Definition dns_busy : Net wire.
Proof.
  refine (Build_Net wire (fun n _ a bs => (zlen bs, n ++ [(a, bs)])) (fun n => n) (fun n _ _ => n)
    (fun n _ => n) (fun n => (3, n)) (fun n _ => (0, n))
    (fun n _ a => (if sin_port a =? NAMESERVER_PORT then -1 else 0, n)) (fun n _ => (0, n))
    (fun _ => [200; 71; 140; 0; 0; 1]) (fun _ => (0, AP_IP)) (fun _ => (0, AP_MASK))
    (fun _ => (0, AP_IP)) _ _).
  - intros n s a bs. by right.
  - done.
Defined.
