(* ===== verification/Base64.v ===== *)
(** Base64: beken378/func/base64/base_64.c.

    The input is a byte list read at an index, the output a byte list written
    at [pos], every access bounds-checked; the decoding table is built as the
    code builds it.  [base64_encode] is proved equal to a reference that cuts
    24-bit numbers into six-bit digits and lines of 72 characters,
    [base64_decode] to a reference on the characters of the alphabet, and the
    second to undo the first. *)

From S2P Require Import Prelude.

Definition DTABLE_LEN : Z := 256.
Definition LINE : Z := 72.
Definition NL : Z := 10.
Definition PAD : Z := 61.
Definition INVALID : Z := 0x80.

Definition base_64_table : list Z :=
  [65; 66; 67; 68; 69; 70; 71; 72; 73; 74; 75; 76; 77; 78; 79; 80; 81; 82;
   83; 84; 85; 86; 87; 88; 89; 90; 97; 98; 99; 100; 101; 102; 103; 104; 105; 106;
   107; 108; 109; 110; 111; 112; 113; 114; 115; 116; 117; 118; 119; 120; 121; 122; 48; 49;
   50; 51; 52; 53; 54; 55; 56; 57; 43; 47].

(** The output buffer and [pos]. *)
Record cursor := mk_cursor { out : list Z; pos : Z }.

(** [*pos++ = b]. *)
Definition emit (b : Z) : prog cursor unit :=
  c ← gets id;
  m ← lift (mem_write (out c) (pos c) [u8 b]);
  modify (fun _ => mk_cursor m (pos c + 1)).

(** ** Encoding *)

Definition base64_calc_encode_length (src_Len : Z) : Z :=
  let enc_len := u32 (u32 (src_Len * 4) / 3 + 4) in
  let enc_len := u32 (enc_len + enc_len / 72) in
  u32 (enc_len + 1).

Definition digit (i : Z) : prog cursor unit := t ← lift (aget base_64_table i); emit t.

(** One turn of the [while]: three bytes into four characters, and a line
    feed after 72. *)
Definition encode_block (src : list Z) (i line_len : Z) : prog cursor Z :=
  in0 ← lift (aget src i);
  _ ← digit (Z.shiftr in0 2);
  in1 ← lift (aget src (i + 1));
  _ ← digit (Z.lor (Z.shiftl (Z.land in0 0x03) 4) (Z.shiftr in1 4));
  in2 ← lift (aget src (i + 2));
  _ ← digit (Z.lor (Z.shiftl (Z.land in1 0x0f) 2) (Z.shiftr in2 6));
  _ ← digit (Z.land in2 0x3f);
  let line_len := line_len + 4 in
  if LINE <=? line_len then _ ← emit NL; mret 0 else mret line_len.

(** [len / 3] turns are enough. *)
Fixpoint encode_loop (fuel : nat) (src : list Z) (len i line_len : Z) : prog cursor (Z * Z) :=
  if negb (3 <=? len - i) then mret (i, line_len) else
  match fuel with
  | O => lift Spin
  | S fuel' =>
      line_len ← encode_block src i line_len;
      encode_loop fuel' src len (i + 3) line_len
  end.

(** What is left: one or two bytes. *)
Definition encode_rest (src : list Z) (len i line_len : Z) : prog cursor Z :=
  if negb (len - i =? 0) then
    in0 ← lift (aget src i);
    _ ← digit (Z.shiftr in0 2);
    _ ← (if len - i =? 1 then
           _ ← digit (Z.shiftl (Z.land in0 0x03) 4);
           emit PAD
         else
           in1 ← lift (aget src (i + 1));
           _ ← digit (Z.lor (Z.shiftl (Z.land in0 0x03) 4) (Z.shiftr in1 4));
           digit (Z.shiftl (Z.land in1 0x0f) 2));
    _ ← emit PAD;
    mret (line_len + 4)
  else mret line_len.

(** The result, [*out_len] when it succeeds, and the buffer. *)
Definition base64_encode (src : list Z) (len : Z) (o : option (list Z))
    : outcome (Z * option Z * option (list Z)) :=
  match o with
  | None => Done (0, None, None)
  | Some m =>
      '(out_len, c) ← (
        '(i, line_len) ← encode_loop (Z.to_nat (len / 3)) src len 0 0;
        line_len ← encode_rest src len i line_len;
        _ ← when (negb (line_len =? 0)) (emit NL);
        c ← gets id;
        m ← lift (mem_write (out c) (pos c) [0]);
        _ ← modify (fun _ => mk_cursor m (pos c));
        mret (pos c)) (mk_cursor m 0);
      Done (1, Some out_len, Some (out c))
  end.

(** ** Decoding *)

(** The table: every byte invalid, then the alphabet, then the padding. *)
Fixpoint fill_dtable (chars : list Z) (i : Z) (dtable : list Z) : outcome (list Z) :=
  match chars with
  | [] => Done dtable
  | ch :: chars' => t ← aset dtable ch i; fill_dtable chars' (i + 1) t
  end.

Definition build_dtable : outcome (list Z) :=
  t ← fill_dtable base_64_table 0 (replicate (Z.to_nat DTABLE_LEN) INVALID);
  aset t PAD 0.

(** The counting loop, over [n] characters from [i] on. *)
Fixpoint count_valid (n : nat) (dtable src : list Z) (i count : Z) : outcome Z :=
  match n with
  | O => Done count
  | S n' =>
      ch ← aget src i;
      v ← aget dtable ch;
      count_valid n' dtable src (i + 1) (if negb (v =? INVALID) then u32 (count + 1) else count)
  end.

(** [alloc] tells whether [os_zalloc] succeeds. *)
Definition base64_calc_decode_length (alloc : bool) (src : list Z) (src_Len : Z) : outcome Z :=
  if negb alloc then Done 0 else
  t ← build_dtable;
  dec_len ← count_valid (Z.to_nat src_Len) t src 0 0;
  Done (if dec_len mod 4 =? 0 then dec_len else 0).

(** The decoding loop: [in] and [block] collect the characters and values of a
    group, [count] says how many. *)
Record group := mk_group { in_ : list Z; block : list Z; count : Z }.

Definition decode_char (dtable src : list Z) (i : Z) (g : group) : prog cursor group :=
  ch ← lift (aget src i);
  tmp ← lift (aget dtable ch);
  if tmp =? INVALID then mret g else
  in' ← lift (aset (in_ g) (count g) ch);
  block' ← lift (aset (block g) (count g) tmp);
  if count g + 1 =? 4 then
    b0 ← lift (aget block' 0); b1 ← lift (aget block' 1);
    b2 ← lift (aget block' 2); b3 ← lift (aget block' 3);
    _ ← emit (Z.lor (Z.shiftl b0 2) (Z.shiftr b1 4));
    _ ← emit (Z.lor (Z.shiftl b1 4) (Z.shiftr b2 2));
    _ ← emit (Z.lor (Z.shiftl b2 6) b3);
    mret (mk_group in' block' 0)
  else mret (mk_group in' block' (count g + 1)).

Fixpoint decode_loop (n : nat) (dtable src : list Z) (i : Z) (g : group) : prog cursor group :=
  match n with
  | O => mret g
  | S n' => g ← decode_char dtable src i g; decode_loop n' dtable src (i + 1) g
  end.

(** The last group's padding moves [pos] back. *)
Definition drop_padding (g : group) : prog cursor Z :=
  c ← gets id;
  if 0 <? pos c then
    ch2 ← lift (aget (in_ g) 2);
    if ch2 =? PAD then mret (pos c - 2) else
    ch3 ← lift (aget (in_ g) 3);
    if ch3 =? PAD then mret (pos c - 1) else mret (pos c)
  else mret (pos c).

(** The result, [*out_len] when it is written, and the buffer.  The two local
    arrays are not initialised by the code; it only reads what it wrote. *)
Definition base64_decode (alloc : bool) (src : list Z) (len : Z) (o : option (list Z))
    : outcome (Z * option Z * option (list Z)) :=
  if negb alloc then Done (0, Some 0, o) else
  t ← build_dtable;
  cnt ← count_valid (Z.to_nat len) t src 0 0;
  if negb (cnt mod 4 =? 0) then Done (0, None, o) else
  match o with
  | None => Done (0, Some (u32 (cnt * 3) / 4), None)
  | Some m =>
      '(n, c) ← (g ← decode_loop (Z.to_nat len) t src 0 (mk_group [0; 0; 0; 0] [0; 0; 0; 0] 0);
                 drop_padding g) (mk_cursor m 0);
      Done (1, Some n, Some (out c))
  end.

(* ------------------------------------------------------------------ *)
(** ** The reference *)

(** The alphabet: A to Z, a to z, 0 to 9, plus and slash. *)
Definition alphabet : list Z := seqZ 65 26 ++ seqZ 97 26 ++ seqZ 48 10 ++ [43; 47].
Definition char (d : Z) : Z := nth (Z.to_nat d) alphabet 0.

Lemma table_is_alphabet : base_64_table = alphabet.
Proof. reflexivity. Qed.

(** The four six-bit digits of a 24-bit number. *)
Definition digits (n : Z) : list Z :=
  [n / 2 ^ 18 mod 64; n / 2 ^ 12 mod 64; n / 2 ^ 6 mod 64; n mod 64].

Fixpoint ref_groups (l : list Z) : list (list Z) :=
  match l with
  | a :: b :: c :: l' => map char (digits (a * 2 ^ 16 + b * 2 ^ 8 + c)) :: ref_groups l'
  | [a; b] => [map char (take 3 (digits (a * 2 ^ 16 + b * 2 ^ 8))) ++ [PAD]]
  | [a] => [map char (take 2 (digits (a * 2 ^ 16))) ++ [PAD; PAD]]
  | [] => []
  end.

(** Lines of eighteen groups. *)
Fixpoint lines (fuel : nat) (gs : list (list Z)) : list (list (list Z)) :=
  match gs, fuel with
  | [], _ | _, O => []
  | _, S f => take 18 gs :: lines f (drop 18 gs)
  end.

Definition ref_encode (l : list Z) : list Z :=
  let gs := ref_groups l in
  concat (map (fun line => concat line ++ [NL]) (lines (length gs) gs)).

(* ------------------------------------------------------------------ *)
(** ** Writing to the buffer *)

Definition put (c : cursor) (bs : list Z) : cursor :=
  mk_cursor (splice (out c) (pos c) bs) (pos c + zlen bs).

Definition room (c : cursor) (n : Z) : Prop := 0 <= pos c /\ pos c + n <= zlen (out c).

Lemma put_nil c : put c [] = c.
Proof. unfold put. rewrite splice_nil. destruct c. cbn. f_equal. change (zlen (@nil Z)) with 0. lia. Qed.

Lemma put_put c a b : room c (zlen a) -> put (put c a) b = put c (a ++ b).
Proof.
  intros [H1 H2]. unfold put. cbn [out pos]. rewrite splice_splice_next by done.
  f_equal. rewrite zlen_app. lia.
Qed.

Lemma room_put c a n : room c (zlen a + n) -> 0 <= n -> room (put c a) n.
Proof.
  intros [H1 H2] Hn. pose proof (zlen_nonneg a). unfold room, put. cbn [out pos].
  rewrite zlen_splice by lia. lia.
Qed.

Lemma room_le c n k : room c n -> k <= n -> room c k.
Proof. unfold room. lia. Qed.

Lemma emit_done b c : room c 1 -> is_byte b -> emit b c = Done (tt, put c [b]).
Proof.
  intros [H1 H2] Hb. unfold emit. prog_run. unfold id. rewrite u8_small by done.
  rewrite mem_write_in by (change (zlen [b]) with 1; lia). by prog_run.
Qed.

Lemma run_emit {B} b (f : unit -> prog cursor B) c :
  room c 1 -> is_byte b -> (emit b ≫= f) c = f tt (put c [b]).
Proof. intros. by rewrite (run_bind _ _ _ _ _ (emit_done b c ltac:(done) ltac:(done))). Qed.

Lemma char_byte d : is_byte (char d).
Proof.
  unfold char. rewrite <- table_is_alphabet. destruct (nth_in_or_default (Z.to_nat d) base_64_table 0) as [Hin| ->]; [|by split].
  revert Hin. generalize (nth (Z.to_nat d) base_64_table 0). apply List.Forall_forall.
  unfold is_byte. repeat constructor; lia.
Qed.

Lemma run_digit {B} d (f : unit -> prog cursor B) c :
  room c 1 -> 0 <= d < 64 -> (digit d ≫= f) c = f tt (put c [char d]).
Proof.
  intros Hr Hd. unfold digit.
  assert (E : aget base_64_table d = Done (char d)).
  { unfold aget, char. rewrite <- table_is_alphabet, (proj2 (Z.leb_le 0 d)) by lia.
    destruct (base_64_table !! Z.to_nat d) eqn:El; [by rewrite (nth_lookup_Some _ _ _ _ El)|].
    apply lookup_ge_None in El. change (length base_64_table) with 64%nat in El. lia. }
  rewrite E. prog_run. apply run_emit; [done|apply char_byte].
Qed.

(** Side conditions on room, from what is known of the first cursor. *)
Ltac room :=
  first [ eapply room_put; [eapply room_le; [eassumption|]|] | eapply room_le; [eassumption|] ];
  rewrite ?zlen_app, ?zlen_cons, ?(@zlen_nil Z) in *; try destruct (_ =? _)%nat;
  rewrite ?zlen_app, ?zlen_cons, ?(@zlen_nil Z); lia.

(* ------------------------------------------------------------------ *)
(** ** The encoder is the reference *)

(** The four digits as the code computes them. *)
Lemma code_digits a b c : is_byte a -> is_byte b -> is_byte c ->
  [Z.shiftr a 2; Z.lor (Z.shiftl (Z.land a 0x03) 4) (Z.shiftr b 4);
   Z.lor (Z.shiftl (Z.land b 0x0f) 2) (Z.shiftr c 6); Z.land c 0x3f]
  = digits (a * 2 ^ 16 + b * 2 ^ 8 + c).
Proof.
  unfold is_byte. intros Ha Hb Hc. unfold digits.
  change 0x03 with (Z.ones 2). change 0x0f with (Z.ones 4). change 0x3f with (Z.ones 6).
  rewrite !Z.land_ones, !Z.shiftr_div_pow2 by lia.
  rewrite !lor_shift by (change (2 ^ 2) with 4; change (2 ^ 4) with 16; change (2 ^ 6) with 64;
    Z.to_euclidean_division_equations; lia).
  change (2 ^ 16) with 65536. change (2 ^ 8) with 256. change (2 ^ 18) with 262144.
  change (2 ^ 12) with 4096. change (2 ^ 6) with 64. change (2 ^ 4) with 16. change (2 ^ 2) with 4.
  repeat (apply (f_equal2 cons); [Z.to_euclidean_division_equations; lia|]). done.
Qed.

Lemma code_digits_range a b c d : is_byte a -> is_byte b -> is_byte c ->
  d ∈ digits (a * 2 ^ 16 + b * 2 ^ 8 + c) -> 0 <= d < 64.
Proof.
  unfold is_byte, digits. intros Ha Hb Hc Hd.
  repeat (apply elem_of_cons in Hd as [-> |Hd]; [apply Z.mod_pos_bound; lia|]).
  by apply elem_of_nil in Hd.
Qed.

Lemma aget_drop {A} (src : list A) i a l :
  drop (Z.to_nat i) src = a :: l -> 0 <= i -> aget src i = Done a /\ drop (Z.to_nat (i + 1)) src = l.
Proof.
  intros E Hi. split.
  - unfold aget. rewrite (proj2 (Z.leb_le 0 i)) by lia.
    by rewrite <- (Nat.add_0_r (Z.to_nat i)), <- lookup_drop, E.
  - rewrite Z2Nat.inj_add by lia. by rewrite <- drop_drop, E.
Qed.

(** The text from the [k]-th group of a line on. *)
Fixpoint wrap (k : nat) (gs : list (list Z)) : list Z :=
  match gs with
  | [] => if (k =? 0)%nat then [] else [NL]
  | g :: gs' => g ++ (if (k =? 17)%nat then NL :: wrap 0 gs' else wrap (S k) gs')
  end.

Lemma run_encode_block {B} src i a b c l k (f : Z -> prog cursor B) cu :
  drop (Z.to_nat i) src = a :: b :: c :: l -> 0 <= i -> is_byte a -> is_byte b -> is_byte c ->
  (k <= 17)%nat ->
  let g := map char (digits (a * 2 ^ 16 + b * 2 ^ 8 + c)) in
  room cu (zlen (g ++ if (k =? 17)%nat then [NL] else [])) ->
  (encode_block src i (4 * Z.of_nat k) ≫= f) cu =
  f (if (k =? 17)%nat then 0 else 4 * Z.of_nat (S k)) (put cu (g ++ if (k =? 17)%nat then [NL] else [])).
Proof.
  intros E0 Hi Ha Hb Hc Hk g Hr. unfold encode_block.
  destruct (aget_drop _ _ _ _ E0 Hi) as [G0 E1].
  destruct (aget_drop _ _ _ _ E1 ltac:(lia)) as [G1 E2].
  destruct (aget_drop _ _ _ _ E2 ltac:(lia)) as [G2 _].
  replace (i + 1 + 1) with (i + 2) in G2 by lia.
  pose proof (code_digits a b c Ha Hb Hc) as Hd.
  assert (Hrange := fun d => code_digits_range a b c d Ha Hb Hc).
  unfold g in *. revert Hr. rewrite <- Hd in *. cbn [map app].
  set (d0 := Z.shiftr a 2) in *. set (d1 := Z.lor _ (Z.shiftr b 4)) in *.
  set (d2 := Z.lor _ (Z.shiftr c 6)) in *. set (d3 := Z.land c 0x3f) in *. intros Hr.
  assert (H0 : 0 <= d0 < 64 /\ 0 <= d1 < 64 /\ 0 <= d2 < 64 /\ 0 <= d3 < 64)
    by (split_and!; apply Hrange; set_solver).
  rewrite G0. prog_run. rewrite run_digit by (lia || room). rewrite G1. prog_run.
  rewrite run_digit, put_put by (lia || room). rewrite G2. prog_run.
  do 2 (prog_run; rewrite run_digit, put_put by (lia || room)). prog_run. cbn [app].
  unfold LINE. destruct (k =? 17)%nat eqn:Ek.
  - apply Nat.eqb_eq in Ek as ->. change (72 <=? 4 * Z.of_nat 17 + 4) with true. cbn [app].
    rewrite run_assoc, run_emit, put_put by (lia || room || done). prog_run. done.
  - apply Nat.eqb_neq in Ek. rewrite (proj2 (Z.leb_gt 72 _)) by lia. prog_run. f_equal. lia.
Qed.

(** The last, short group. *)
Lemma code_digits_1 a : is_byte a ->
  [Z.shiftr a 2; Z.shiftl (Z.land a 0x03) 4] = take 2 (digits (a * 2 ^ 16)).
Proof.
  intros Ha. pose proof (code_digits a 0 0 Ha ltac:(by split) ltac:(by split)) as E.
  rewrite !Z.add_0_r in E. change (Z.shiftr 0 4) with 0 in E. rewrite Z.lor_0_r in E.
  apply (f_equal (take 2)) in E. exact E.
Qed.

Lemma code_digits_2 a b : is_byte a -> is_byte b ->
  [Z.shiftr a 2; Z.lor (Z.shiftl (Z.land a 0x03) 4) (Z.shiftr b 4); Z.shiftl (Z.land b 0x0f) 2]
  = take 3 (digits (a * 2 ^ 16 + b * 2 ^ 8)).
Proof.
  intros Ha Hb. pose proof (code_digits a b 0 Ha Hb ltac:(by split)) as E.
  rewrite Z.add_0_r in E. change (Z.shiftr 0 6) with 0 in E. rewrite Z.lor_0_r in E.
  apply (f_equal (take 3)) in E. exact E.
Qed.

Lemma digits_range n d : d ∈ digits n -> 0 <= d < 64.
Proof.
  unfold digits. intros Hd.
  repeat (apply elem_of_cons in Hd as [-> |Hd]; [apply Z.mod_pos_bound; lia|]).
  by apply elem_of_nil in Hd.
Qed.

Definition encode_end (src : list Z) (len i line_len : Z) : prog cursor unit :=
  line_len ← encode_rest src len i line_len; when (negb (line_len =? 0)) (emit NL).

Lemma run_encode_end src len i k l cu :
  drop (Z.to_nat i) src = l -> zlen src = len -> 0 <= i -> len - i = zlen l -> zlen l < 3 ->
  Forall is_byte l -> (k <= 17)%nat -> room cu (zlen (wrap k (ref_groups l))) ->
  encode_end src len i (4 * Z.of_nat k) cu = Done (tt, put cu (wrap k (ref_groups l))).
Proof.
  intros E Hlen Hi Hl H3 Hb Hk Hr. unfold encode_end, encode_rest. rewrite Hl.
  assert (Hend : forall g, wrap k [g] = g ++ [NL]).
  { intros g. cbn. by destruct (k =? 17)%nat. }
  destruct l as [|a [|b [|c l]]].
  - change (zlen (@nil Z)) with 0. cbn [Z.eqb negb]. prog_run. cbn [ref_groups wrap] in *.
    destruct k as [|k]; [cbn; by rewrite put_nil|]. change (room cu (zlen [NL])) in Hr.
    rewrite (proj2 (Z.eqb_neq _ 0)) by lia. cbn [negb when].
    by apply emit_done; [room|].
  - change (zlen [a]) with 1. change (1 =? 0) with false. change (1 =? 1) with true. cbn [negb].
    pose proof (proj1 (Forall_singleton is_byte a) Hb) as Ha. destruct (aget_drop _ _ _ _ E Hi) as [G0 _].
    assert (Hd := digits_range (a * 2 ^ 16)). pose proof (code_digits_1 a Ha) as Ec.
    cbn [ref_groups] in *. rewrite Hend, <- Ec in *.
    assert (H0 : 0 <= Z.shiftr a 2 < 64 /\ 0 <= Z.shiftl (Z.land a 0x03) 4 < 64).
    { rewrite <- (take_drop 2 (digits _)), <- Ec in Hd. split; apply Hd; set_solver. }
    cbn [map app] in *. rewrite G0. prog_run. rewrite run_digit by (lia || room). prog_run.
    rewrite run_digit, put_put by (lia || room). prog_run.
    do 2 (rewrite run_emit, put_put by (lia || room || done); prog_run).
    rewrite (proj2 (Z.eqb_neq (4 * Z.of_nat k + 4) 0)) by lia. cbn [negb when].
    rewrite emit_done, put_put by (room || done). done.
  - change (zlen [a; b]) with 2. change (2 =? 0) with false. change (2 =? 1) with false. cbn [negb].
    apply Forall_cons in Hb as [Ha Hb]. apply (proj1 (Forall_singleton is_byte b)) in Hb.
    destruct (aget_drop _ _ _ _ E Hi) as [G0 E1].
    destruct (aget_drop _ _ _ _ E1 ltac:(lia)) as [G1 _].
    assert (Hd := digits_range (a * 2 ^ 16 + b * 2 ^ 8)). pose proof (code_digits_2 a b Ha Hb) as Ec.
    cbn [ref_groups] in *. rewrite Hend, <- Ec in *.
    assert (H0 : 0 <= Z.shiftr a 2 < 64 /\ 0 <= Z.lor (Z.shiftl (Z.land a 0x03) 4) (Z.shiftr b 4) < 64 /\
      0 <= Z.shiftl (Z.land b 0x0f) 2 < 64).
    { rewrite <- (take_drop 3 (digits _)), <- Ec in Hd. split_and!; apply Hd; set_solver. }
    cbn [map app] in *. rewrite G0. prog_run. rewrite run_digit by (lia || room). prog_run.
    rewrite G1. prog_run. do 2 (rewrite run_digit, put_put by (lia || room); prog_run).
    rewrite run_emit, put_put by (lia || room || done). prog_run.
    rewrite (proj2 (Z.eqb_neq (4 * Z.of_nat k + 4) 0)) by lia. cbn [negb when].
    rewrite emit_done, put_put by (room || done). done.
  - rewrite !zlen_cons in H3. pose proof (zlen_nonneg l). lia.
Qed.

Lemma run_encode_text src len fuel : forall i k l cu,
  drop (Z.to_nat i) src = l -> zlen src = len -> 0 <= i -> len - i = zlen l ->
  zlen l / 3 <= Z.of_nat fuel -> Forall is_byte l -> (k <= 17)%nat ->
  room cu (zlen (wrap k (ref_groups l))) ->
  ('(i', line_len) ← encode_loop fuel src len i (4 * Z.of_nat k); encode_end src len i' line_len) cu
  = Done (tt, put cu (wrap k (ref_groups l))).
Proof.
  induction fuel as [|fuel IH]; intros i k l cu E Hlen Hi Hl Hf Hb Hk Hr; cbn [encode_loop];
    rewrite Hl; destruct (3 <=? zlen l) eqn:E3; cbn [negb]; zbool;
    try (prog_run; by apply run_encode_end).
  - exfalso. assert (3 / 3 <= zlen l / 3) by (apply Z.div_le_mono; lia). change (3 / 3) with 1 in *. lia.
  - destruct l as [|a [|b [|c l]]]; try (exfalso; revert E3; by vm_compute).
    apply Forall_cons in Hb as [Ha Hb]. apply Forall_cons in Hb as [Hb1 Hb].
    apply Forall_cons in Hb as [Hc Hb].
    destruct (aget_drop _ _ _ _ E Hi) as [_ E1].
    destruct (aget_drop _ _ _ _ E1 ltac:(lia)) as [_ E2].
    destruct (aget_drop _ _ _ _ E2 ltac:(lia)) as [_ E4].
    replace (i + 1 + 1 + 1) with (i + 3) in E4 by lia. rewrite !zlen_cons in *.
    cbn [ref_groups wrap] in *. set (g := map char _) in *.
    set (rest := if (k =? 17)%nat then _ else _) in Hr |- *.
    assert (Hrest : rest = (if (k =? 17)%nat then [NL] else []) ++
      wrap (if (k =? 17)%nat then 0%nat else S k) (ref_groups l))
      by (unfold rest; by destruct (k =? 17)%nat).
    rewrite Hrest, app_assoc in *. set (gl := g ++ _) in *.
    rewrite run_assoc, (run_encode_block src i a b c l k) by
      (first [done | lia | eapply room_le; [exact Hr|]; fold g; fold gl; rewrite zlen_app;
        pose proof (zlen_nonneg (wrap (if (k =? 17)%nat then 0%nat else S k) (ref_groups l))); lia]).
    fold g. fold gl. rewrite <- put_put by (eapply room_le; [exact Hr|]; rewrite zlen_app;
      pose proof (zlen_nonneg (wrap (if (k =? 17)%nat then 0%nat else S k) (ref_groups l))); lia).
    replace (if (k =? 17)%nat then 0 else 4 * Z.of_nat (S k))
      with (4 * Z.of_nat (if (k =? 17)%nat then 0 else S k)%nat) by (by destruct (k =? 17)%nat).
    apply IH; try done; try lia.
    + assert (zlen l / 3 = (1 + (1 + (1 + zlen l))) / 3 - 1); [|lia].
      replace (1 + (1 + (1 + zlen l))) with (zlen l + 1 * 3) by lia. rewrite Z.div_add by lia. lia.
    + destruct (k =? 17)%nat eqn:Ek; [lia|]. apply Nat.eqb_neq in Ek. lia.
    + apply room_put; [by rewrite <- zlen_app|apply zlen_nonneg].
Qed.

(** The lines of the reference. *)
Lemma wrap_line gs : forall k, (k <= 17)%nat ->
  wrap k gs = match gs with
              | [] => if (k =? 0)%nat then [] else [NL]
              | _ => concat (take (18 - k) gs) ++ NL :: wrap 0 (drop (18 - k) gs)
              end.
Proof.
  induction gs as [|g gs IH]; intros k Hk; [done|]. cbn [wrap].
  destruct (k =? 17)%nat eqn:Ek.
  - apply Nat.eqb_eq in Ek as ->. cbn. by rewrite take_0, drop_0, app_nil_r.
  - apply Nat.eqb_neq in Ek. replace (18 - k)%nat with (S (18 - S k)) by lia. cbn [take drop concat].
    rewrite IH by lia. destruct gs as [|g' gs]; [|by rewrite <- app_assoc].
    cbn [Nat.eqb]. by rewrite take_nil, drop_nil, app_nil_r.
Qed.

Lemma wrap_lines fuel : forall gs, (length gs <= fuel)%nat ->
  wrap 0 gs = concat (map (fun line => concat line ++ [NL]) (lines fuel gs)).
Proof.
  induction fuel as [|fuel IH]; intros [|g gs] Hl; try done; [cbn in Hl; lia|].
  rewrite wrap_line by lia. change (18 - 0)%nat with 18%nat.
  cbn [lines map concat]. rewrite IH; [by rewrite <- app_assoc|].
  rewrite length_drop. cbn [length] in *. lia.
Qed.

(** The encoder, given room for the text and its NUL. *)
Lemma encode_writes src m :
  Forall is_byte src -> zlen (ref_encode src) + 1 <= zlen m ->
  base64_encode src (zlen src) (Some m) =
    Done (1, Some (zlen (ref_encode src)), Some (splice m 0 (ref_encode src ++ [0]))).
Proof.
  intros Hb Hroom. unfold base64_encode.
  assert (Et : wrap 0 (ref_groups src) = ref_encode src) by (by apply wrap_lines).
  set (cu := mk_cursor m 0).
  assert (Hr : room cu (zlen (wrap 0 (ref_groups src)))) by (rewrite Et; unfold room, cu; cbn; lia).
  pose proof (run_encode_text src (zlen src) (Z.to_nat (zlen src / 3)) 0 0 src cu eq_refl eq_refl
    ltac:(lia) ltac:(lia)) as Hrun.
  pose proof (zlen_nonneg src). pose proof (Z.div_pos (zlen src) 3).
  specialize (Hrun ltac:(lia) Hb ltac:(lia) Hr). rewrite Et in Hrun.
  change (4 * Z.of_nat 0) with 0 in Hrun.
  destruct (encode_loop (Z.to_nat (zlen src / 3)) src (zlen src) 0 0 cu) as [[[i ll] c1]| | |] eqn:El;
    try (unfold mbind, prog_bind in Hrun; rewrite El in Hrun; discriminate).
  rewrite (run_bind _ _ _ _ _ El) in Hrun. rewrite (run_bind _ _ _ _ _ El). cbn beta iota in Hrun |- *.
  unfold encode_end in Hrun. rewrite <- run_assoc, (run_bind _ _ _ _ _ Hrun). prog_run. unfold id.
  unfold put, cu. cbn [out pos]. pose proof (zlen_nonneg (ref_encode src)).
  rewrite mem_write_in by (change (zlen [0]) with 1; rewrite ?zlen_splice; lia). prog_run.
  cbn [mbind outcome_bind out pos]. rewrite splice_splice_next by lia. by rewrite Z.add_0_l.
Qed.

(** ** The size of the text *)

Lemma ref_groups_four l : Forall (fun g => zlen g = 4) (ref_groups l) /\
  zlen (ref_groups l) = (zlen l + 2) / 3.
Proof.
  induction l as [l IH] using (induction_ltof1 _ (@length Z)). unfold ltof in IH.
  destruct l as [|a [|b [|c l]]]; cbn [ref_groups];
    try (split; [repeat constructor|rewrite ?zlen_cons, ?(@zlen_nil Z), ?(@zlen_nil (list Z)); done]).
  destruct (IH l) as [H1 H2]; [cbn; lia|]. split; [by constructor|].
  rewrite !zlen_cons, H2. replace (1 + (1 + (1 + zlen l)) + 2) with (zlen l + 2 + 1 * 3) by lia.
  rewrite Z.div_add by lia. lia.
Qed.

Lemma zlen_wrap gs : forall k, (k <= 17)%nat -> Forall (fun g => zlen g = 4) gs ->
  zlen (wrap k gs) = 4 * zlen gs + (zlen gs + Z.of_nat k + 17) / 18.
Proof.
  induction gs as [|g gs IH]; intros k Hk Hg; cbn [wrap].
  - rewrite (@zlen_nil (list Z)). destruct k as [|k]; [done|]. cbn [Nat.eqb].
    change (zlen [NL]) with 1. Z.to_euclidean_division_equations; lia.
  - apply Forall_cons in Hg as [Hg Hgs]. rewrite zlen_app, zlen_cons, Hg.
    destruct (k =? 17)%nat eqn:Ek.
    + apply Nat.eqb_eq in Ek as ->. rewrite zlen_cons, IH by (done || lia).
      Z.to_euclidean_division_equations; lia.
    + apply Nat.eqb_neq in Ek. rewrite IH by (done || lia).
      replace (1 + zlen gs + Z.of_nat k + 17) with (zlen gs + Z.of_nat (S k) + 17) by lia. lia.
Qed.

Lemma zlen_ref_encode l :
  zlen (ref_encode l) = let g := (zlen l + 2) / 3 in 4 * g + (g + 17) / 18.
Proof.
  destruct (ref_groups_four l) as [H1 H2]. unfold ref_encode. rewrite <- wrap_lines by lia.
  rewrite zlen_wrap, H2 by (done || lia). by rewrite Z.add_0_r.
Qed.

Lemma calc_encode_length_enough l :
  zlen l < 2 ^ 30 -> zlen (ref_encode l) + 1 <= base64_calc_encode_length (zlen l).
Proof.
  intros Hl. pose proof (zlen_nonneg l). rewrite zlen_ref_encode.
  unfold base64_calc_encode_length.
  rewrite (u32_small (zlen l * 4)) by lia.
  rewrite (u32_small (zlen l * 4 / 3 + 4)) by (Z.to_euclidean_division_equations; lia).
  rewrite !u32_small by (rewrite ?u32_small; Z.to_euclidean_division_equations; lia).
  cbn zeta. Z.to_euclidean_division_equations; lia.
Qed.

(** C22: the encoder is the reference encoder.  A buffer of
    [base64_calc_encode_length] bytes always has room, for inputs below 2^30
    bytes; there [base64_encode] writes exactly the reference text of the
    bytes, in lines of 72 characters each ended by a line feed, and the NUL
    after it, changes nothing else of the buffer, and reports the length of
    the text.  Without a buffer it fails. *)
Theorem base64_encode_is_reference src m :
  Forall is_byte src -> zlen src < 2 ^ 30 -> base64_calc_encode_length (zlen src) <= zlen m ->
  base64_encode src (zlen src) (Some m) =
    Done (1, Some (zlen (ref_encode src)), Some (splice m 0 (ref_encode src ++ [0]))) /\
  base64_encode src (zlen src) None = Done (0, None, None).
Proof.
  intros Hb Hl Hm. split; [|done]. apply encode_writes; [done|].
  pose proof (calc_encode_length_enough src Hl). lia.
Qed.

(* ------------------------------------------------------------------ *)
(** ** The reference decoder *)

(** The value of a character: its place in the alphabet, 0 for the padding. *)
Definition within (lo hi ch : Z) : bool := (lo <=? ch) && (ch <=? hi).
Definition value (ch : Z) : Z :=
  if within 65 90 ch then ch - 65
  else if within 97 122 ch then ch - 97 + 26
  else if within 48 57 ch then ch - 48 + 52
  else if ch =? 43 then 62
  else if ch =? 47 then 63
  else if ch =? PAD then 0
  else INVALID.
Definition valid (ch : Z) : bool := negb (value ch =? INVALID).

(** The three bytes of each complete group of four characters. *)
Fixpoint ungroup (cs : list Z) : list Z :=
  match cs with
  | a :: b :: c :: d :: cs' =>
      let n := value a * 2 ^ 18 + value b * 2 ^ 12 + value c * 2 ^ 6 + value d in
      [n / 2 ^ 16; n / 2 ^ 8 mod 256; n mod 256] ++ ungroup cs'
  | _ => []
  end.

(** How many bytes the padding of the last group drops. *)
Definition padding (cs : list Z) : Z :=
  match drop (length cs - 4) cs with
  | [_; _; c; d] => if c =? PAD then 2 else if d =? PAD then 1 else 0
  | _ => 0
  end.

Definition ref_decode (src : list Z) : list Z :=
  let cs := List.filter valid src in
  let bs := ungroup cs in take (Z.to_nat (zlen bs - padding cs)) bs.

(* ------------------------------------------------------------------ *)
(** ** The decoder is the reference *)

#[local] Arguments value : simpl never.

Definition byte_values : list Z := map Z.of_nat (seq 0 256).

(** The table the code builds holds the values. *)
Definition dtable : list Z := map value byte_values.
#[local] Arguments dtable : simpl never.

Lemma build_dtable_run : build_dtable = Done dtable.
Proof. by vm_compute. Qed.

Lemma byte_in b : is_byte b -> b ∈ byte_values.
Proof.
  unfold is_byte, byte_values. intros Hb. apply list_elem_of_fmap. exists (Z.to_nat b).
  split; [lia|]. apply elem_of_seq. lia.
Qed.

Lemma bytes_forallb (P : Z -> bool) : forallb P byte_values = true -> forall b, is_byte b -> P b = true.
Proof.
  intros Hall b Hb. rewrite forallb_forall in Hall. apply Hall, list_elem_of_In, byte_in, Hb.
Qed.

Lemma dtable_get ch : is_byte ch -> aget dtable ch = Done (value ch).
Proof.
  intros Hc. unfold is_byte in Hc. apply aget_in; [lia|]. unfold dtable, byte_values. rewrite !list_lookup_fmap.
  rewrite lookup_seq_lt by lia. cbn. by rewrite Z2Nat.id by lia.
Qed.

Lemma value_range ch : is_byte ch -> valid ch = true -> 0 <= value ch < 64.
Proof.
  intros Hc Hv.
  pose proof (bytes_forallb (fun b => negb (valid b) || ((0 <=? value b) && (value b <? 64)))
    ltac:(by vm_compute) ch Hc) as H. cbn beta in H. rewrite Hv in H.
  cbn [negb orb] in H. apply andb_true_iff in H as [H1 H2]. zbool. lia.
Qed.

Lemma value_char d : 0 <= d < 64 -> value (char d) = d /\ valid (char d) = true /\ char d <> PAD.
Proof.
  intros Hd.
  pose proof (bytes_forallb (fun d => negb (d <? 64) || ((value (char d) =? d) && valid (char d)
    && negb (char d =? PAD))) ltac:(by vm_compute) d ltac:(unfold is_byte; lia)) as H. cbn beta in H.
  rewrite (proj2 (Z.ltb_lt d 64)) in H by lia. cbn [negb orb] in H.
  apply andb_true_iff in H as [H H3]. apply andb_true_iff in H as [H1 H2]. zbool. by split_and!.
Qed.

#[local] Opaque value dtable.

(** The counting loop. *)
Lemma count_valid_run src : forall n i cnt l,
  drop (Z.to_nat i) src = l -> 0 <= i -> n = length l -> Forall is_byte l ->
  0 <= cnt -> cnt + zlen l < 2 ^ 32 ->
  count_valid n dtable src i cnt = Done (cnt + zlen (List.filter valid l)).
Proof.
  induction n as [|n IH]; intros i cnt l E Hi Hn Hb Hc Hl; destruct l as [|ch l]; try done; cbn [count_valid].
  - cbn. rewrite (@zlen_nil Z). by rewrite Z.add_0_r.
  - apply Forall_cons in Hb as [Hch Hb]. destruct (aget_drop _ _ _ _ E Hi) as [G E1].
    rewrite zlen_cons in Hl. pose proof (zlen_nonneg l).
    rewrite G. cbn [mbind outcome_bind]. rewrite dtable_get by done. cbn [mbind outcome_bind List.filter].
    fold (valid ch). cbn [length] in Hn.
    rewrite (IH (i + 1) _ l E1) by (first [lia | exact Hb | destruct (valid ch); words; lia]).
    destruct (valid ch); words; rewrite ?zlen_cons; f_equal; lia.
Qed.

(** The group being collected: [q] are the characters of the complete groups,
    [p] the others; the arrays keep the last group until it is overwritten. *)
Record collects (q p : list Z) (g : group) : Prop := {
  co_q : (4 | zlen q);
  co_p : zlen p < 4;
  co_in : length (in_ g) = 4%nat;
  co_block : length (block g) = 4%nat;
  co_count : count g = zlen p;
  co_chars : take (length p) (in_ g) = p;
  co_values : take (length p) (block g) = map value p;
  co_last : p = [] -> q <> [] -> in_ g = drop (length q - 4) q
}.

Lemma ungroup_app q p : (4 | zlen q) -> ungroup (q ++ p) = ungroup q ++ ungroup p.
Proof.
  induction q as [q IH] using (induction_ltof1 _ (@length Z)). unfold ltof in IH.
  intros Hd. destruct q as [|a [|b [|c [|d q]]]]; [done| | | |].
  1-3: exfalso; rewrite ?zlen_cons, ?(@zlen_nil Z) in Hd; destruct Hd as [z Hz]; lia.
  cbn [ungroup app]. rewrite IH; [done|cbn; lia|].
  rewrite !zlen_cons in Hd. replace (zlen q) with (1 + (1 + (1 + (1 + zlen q))) - 4) by lia.
  apply Z.divide_sub_r; [done|by exists 1].
Qed.

(** The three bytes as the code computes them. *)
Lemma code_bytes a b c d : 0 <= a < 64 -> 0 <= b < 64 -> 0 <= c < 64 -> 0 <= d < 64 ->
  let n := a * 2 ^ 18 + b * 2 ^ 12 + c * 2 ^ 6 + d in
  [u8 (Z.lor (Z.shiftl a 2) (Z.shiftr b 4)); u8 (Z.lor (Z.shiftl b 4) (Z.shiftr c 2));
   u8 (Z.lor (Z.shiftl c 6) d)] = [n / 2 ^ 16; n / 2 ^ 8 mod 256; n mod 256].
Proof.
  intros Ha Hb Hc Hd n. unfold n. rewrite !Z.shiftr_div_pow2 by lia.
  change (2 ^ 18) with 262144. change (2 ^ 12) with 4096. change (2 ^ 16) with 65536.
  change (2 ^ 8) with 256. change (2 ^ 4) with 16. change (2 ^ 2) with 4. change (2 ^ 6) with 64.
  rewrite (lor_shift a (b / 16) 2), (lor_shift c d 6) by
    (change (2 ^ 2) with 4; change (2 ^ 6) with 64; Z.to_euclidean_division_equations; lia).
  rewrite (lor_shift b (c / 4) 4) by
    (change (2 ^ 4) with 16; Z.to_euclidean_division_equations; lia).
  unfold u8. change (2 ^ 8) with 256. change (2 ^ 4) with 16. change (2 ^ 2) with 4. change (2 ^ 6) with 64.
  repeat (apply (f_equal2 cons); [Z.to_euclidean_division_equations; lia|]). done.
Qed.

Lemma emit_u8 {B} b (f : unit -> prog cursor B) c :
  room c 1 -> (emit b ≫= f) c = f tt (put c [u8 b]).
Proof.
  intros Hr. rewrite <- (run_emit (u8 b)) by (done || apply u8_range).
  unfold mbind, prog_bind, emit. do 2 f_equal. by rewrite (u8_small (u8 b)) by apply u8_range.
Qed.

(** [injection] looks into the table; this does not. *)
Lemma cons_eq_inv {A} (a b : A) l k : a :: l = b :: k -> a = b /\ l = k.
Proof. by intros [= -> ->]. Qed.

Lemma aget_four {A} (a b c d : A) :
  aget [a; b; c; d] 0 = Done a /\ aget [a; b; c; d] 1 = Done b /\
  aget [a; b; c; d] 2 = Done c /\ aget [a; b; c; d] 3 = Done d.
Proof. done. Qed.

(** A group that is not complete yet. *)
Lemma collects_more q p ch (cu : cursor) i0 i1 i2 i3 b0 b1 b2 b3 :
  (4 | zlen q) -> (length p < 3)%nat -> take (length p) [i0; i1; i2; i3] = p ->
  take (length p) [b0; b1; b2; b3] = map value p -> is_byte ch -> valid ch = true ->
  Forall (fun x => is_byte x /\ valid x = true) p ->
  let g := mk_group (<[length p := ch]> [i0; i1; i2; i3]) (<[length p := value ch]> [b0; b1; b2; b3])
             (zlen p + 1) in
  exists q' p' g', Done (g, cu) = Done (g', cu) /\ q' ++ p' = q ++ p ++ [ch] /\ collects q' p' g' /\
    ungroup q' = ungroup q ++ [] /\ Forall (fun x => is_byte x /\ valid x = true) p'.
Proof.
  intros Hq Hl Hi Hb Hch Hv Hp g. exists q, (p ++ [ch]), g. split_and!; try done.
  - split; cbn [g in_ block count].
    + done.
    + rewrite zlen_snoc. unfold zlen. lia.
    + by rewrite length_insert.
    + by rewrite length_insert.
    + by rewrite zlen_snoc.
    + rewrite length_app. cbn [length]. erewrite Nat.add_1_r, take_S_r;
        [|apply list_lookup_insert_eq; cbn; lia]. by rewrite take_insert_ge, Hi by lia.
    + rewrite length_app, map_app. cbn [length map]. erewrite Nat.add_1_r, take_S_r;
        [|apply list_lookup_insert_eq; cbn; lia]. by rewrite take_insert_ge, Hb by lia.
    + by destruct p.
  - by rewrite app_nil_r.
  - apply Forall_app. split; [done|]. by apply Forall_singleton.
Qed.

(** One character of the alphabet. *)
Lemma run_decode_char src i ch q p g cu l :
  drop (Z.to_nat i) src = ch :: l -> 0 <= i -> is_byte ch -> valid ch = true ->
  Forall (fun x => is_byte x /\ valid x = true) p -> collects q p g ->
  room cu (zlen (ungroup (p ++ [ch]))) ->
  exists q' p' g', decode_char dtable src i g cu = Done (g', put cu (ungroup (p ++ [ch]))) /\
    q' ++ p' = q ++ p ++ [ch] /\ collects q' p' g' /\
    ungroup q' = ungroup q ++ ungroup (p ++ [ch]) /\
    Forall (fun x => is_byte x /\ valid x = true) p'.
Proof.
  intros E Hi Hch Hv Hp [Hq Hp4 Hin Hbl Hcnt Hchars Hvals Hlast] Hr.
  destruct (aget_drop _ _ _ _ E Hi) as [G _]. unfold decode_char. rewrite G. prog_run.
  rewrite dtable_get by done. prog_run. pose proof Hv as Hv'. unfold valid in Hv'.
  apply negb_true_iff in Hv'. rewrite Hv'.
  destruct g as [ig bg cg]. cbn [in_ block count] in *.
  destruct ig as [|i0 [|i1 [|i2 [|i3 [|]]]]]; try discriminate Hin.
  destruct bg as [|b0 [|b1 [|b2 [|b3 [|]]]]]; try discriminate Hbl.
  assert (Hset : forall (l4 : list Z) x, length l4 = 4%nat ->
    aset l4 cg x = Done (<[Z.to_nat cg := x]> l4)).
  { intros l4 x H4. unfold aset, zlen. rewrite H4. pose proof (zlen_nonneg p).
    rewrite (proj2 (Z.leb_le 0 cg)), (proj2 (Z.ltb_lt cg _)) by lia. done. }
  rewrite !Hset by done. prog_run. clear Hset. subst cg.
  destruct p as [|x [|y [|z [|w p]]]]; cbn [length] in *.
  4: { cbn [take map] in Hchars, Hvals. injection Hchars as -> -> ->. apply cons_eq_inv in Hvals as [-> Hvals]. apply cons_eq_inv in Hvals as [-> Hvals].
    apply cons_eq_inv in Hvals as [-> _].
    apply Forall_cons in Hp as [[Hx Vx] Hp]. apply Forall_cons in Hp as [[Hy Vy] Hp].
    apply Forall_cons in Hp as [[Hz Vz] _].
    pose proof (code_bytes _ _ _ _ (value_range x Hx Vx) (value_range y Hy Vy)
      (value_range z Hz Vz) (value_range ch Hch Hv)) as Hbytes.
    change (zlen [x; y; z] + 1 =? 4) with true. change (Z.to_nat (zlen [x; y; z])) with 3%nat.
    change (<[3%nat:=ch]> [x; y; z; i3]) with [x; y; z; ch].
    change (<[3%nat:=value ch]> [value x; value y; value z; b3]) with [value x; value y; value z; value ch].
    destruct (aget_four (value x) (value y) (value z) (value ch)) as (-> & -> & -> & ->). prog_run.
    cbn [ungroup app] in Hr |- *. rewrite <- Hbytes in Hr |- *.
    rewrite emit_u8 by room. prog_run. do 2 (rewrite emit_u8, put_put by room; prog_run).
    exists (q ++ [x; y; z; ch]), [], (mk_group [x; y; z; ch] [value x; value y; value z; value ch] 0).
    split_and!; [done|by rewrite app_nil_r| |by rewrite ungroup_app, Hbytes|constructor].
    split; [|done..|].
    - rewrite zlen_app. apply Z.divide_add_r; [done|by exists 1].
    - intros _ _. cbn [in_]. rewrite length_app. change (length [x; y; z; ch]) with 4%nat.
      replace (length q + 4 - 4)%nat with (length q) by lia. by rewrite drop_app_length. }
  4: { rewrite !zlen_cons in Hp4. pose proof (zlen_nonneg p). lia. }
  1: { change (zlen (@nil Z) + 1 =? 4) with false. prog_run. rewrite put_nil.
    apply (collects_more q [] ch cu i0 i1 i2 i3 b0 b1 b2 b3); first [done | cbn; lia]. }
  1: { change (zlen [x] + 1 =? 4) with false. prog_run. change (ungroup ([x] ++ [ch])) with (@nil Z).
    rewrite put_nil. apply (collects_more q [x] ch cu i0 i1 i2 i3 b0 b1 b2 b3); first [done | cbn; lia]. }
  change (zlen [x; y] + 1 =? 4) with false. prog_run. change (ungroup ([x; y] ++ [ch])) with (@nil Z).
  rewrite put_nil. apply (collects_more q [x; y] ch cu i0 i1 i2 i3 b0 b1 b2 b3); first [done | cbn; lia].
Qed.

Lemma run_decode_skip src i ch g cu l :
  drop (Z.to_nat i) src = ch :: l -> 0 <= i -> is_byte ch -> valid ch = false ->
  decode_char dtable src i g cu = Done (g, cu).
Proof.
  intros E Hi Hch Hv. destruct (aget_drop _ _ _ _ E Hi) as [G _].
  unfold decode_char. rewrite G. prog_run. rewrite dtable_get by done. prog_run.
  unfold valid in Hv. apply negb_false_iff in Hv. by rewrite Hv.
Qed.

Lemma run_decode_loop src n : forall i l q p g cu,
  drop (Z.to_nat i) src = l -> 0 <= i -> n = length l -> Forall is_byte l ->
  Forall (fun x => is_byte x /\ valid x = true) p -> collects q p g ->
  room cu (zlen (ungroup (p ++ List.filter valid l))) ->
  exists q' p' g', decode_loop n dtable src i g cu =
      Done (g', put cu (ungroup (p ++ List.filter valid l))) /\
    q' ++ p' = q ++ p ++ List.filter valid l /\ collects q' p' g'.
Proof.
  induction n as [|n IH]; intros i l q p g cu E Hi Hn Hb Hp Hg Hr; destruct l as [|ch l];
    try discriminate Hn; cbn [decode_loop List.filter] in *.
  - exists q, p, g. rewrite app_nil_r in *. split_and!; try done.
    replace (ungroup p) with (@nil Z); [by rewrite put_nil|].
    pose proof (co_p _ _ _ Hg) as H4. destruct p as [|? [|? [|? [|? p]]]]; try done.
    rewrite !zlen_cons in H4. pose proof (zlen_nonneg p). lia.
  - apply Forall_cons in Hb as [Hch Hb]. destruct (aget_drop _ _ _ _ E Hi) as [_ E1].
    injection Hn as Hn. destruct (valid ch) eqn:Hv.
    2:{ rewrite (run_bind _ _ _ _ _ (run_decode_skip src i ch g cu l E Hi Hch Hv)).
        by apply (IH (i + 1) l q p g cu E1 ltac:(lia)). }
    assert (Hsplit : forall q' p', (4 | zlen q') -> q' ++ p' = q ++ p ++ [ch] ->
      ungroup q' = ungroup q ++ ungroup (p ++ [ch]) ->
      ungroup (p ++ ch :: List.filter valid l) = ungroup (p ++ [ch]) ++ ungroup (p' ++ List.filter valid l)).
    { intros q' p' Hq' Eqp Equ. apply (app_inv_head (ungroup q)).
      transitivity (ungroup (q' ++ p' ++ List.filter valid l)).
      - rewrite <- ungroup_app by apply Hg. by rewrite (app_assoc q'), Eqp, <- !app_assoc.
      - rewrite ungroup_app, Equ by done. by rewrite <- app_assoc. }
    assert (Hroom : room cu (zlen (ungroup (p ++ [ch])))).
    { eapply room_le; [exact Hr|]. clear -Hg Hch Hv.
      pose proof (co_p _ _ _ Hg) as H4. destruct p as [|x [|y [|z [|w p]]]]; cbn [app ungroup];
        try apply zlen_nonneg; rewrite ?zlen_cons, ?zlen_app, ?(@zlen_nil Z) in *;
        pose proof (zlen_nonneg (ungroup (List.filter valid l))) as Hnn;
        [change (zlen [_ / _; _; _]) with 3; lia|].
      pose proof (zlen_nonneg p). lia. }
    destruct (run_decode_char src i ch q p g cu l E Hi Hch Hv Hp Hg Hroom)
      as (q1 & p1 & g1 & E2 & Eqp & Hg1 & Equ & Hp1).
    rewrite (run_bind _ _ _ _ _ E2). rewrite (Hsplit q1 p1) in Hr |- * by (done || apply Hg1).
    destruct (IH (i + 1) l q1 p1 g1 (put cu (ungroup (p ++ [ch])))) as (q2 & p2 & g2 & E3 & Eqp2 & Hg2);
      try done; try lia.
    { apply room_put; [by rewrite <- zlen_app|apply zlen_nonneg]. }
    exists q2, p2, g2. split_and!; [|by rewrite Eqp2, !app_assoc, Eqp, <- !app_assoc|done].
    rewrite E3. by rewrite put_put by done.
Qed.

Lemma zlen_ungroup cs : (4 | zlen cs) -> zlen (ungroup cs) = 3 * (zlen cs / 4).
Proof.
  induction cs as [cs IH] using (induction_ltof1 _ (@length Z)). unfold ltof in IH.
  intros Hd. destruct cs as [|a [|b [|c [|d cs]]]]; [done| | | |].
  1-3: exfalso; rewrite ?zlen_cons, ?(@zlen_nil Z) in Hd; destruct Hd as [z Hz]; lia.
  rewrite !zlen_cons in Hd |- *. cbn [ungroup app]. rewrite !zlen_cons.
  replace (1 + (1 + (1 + (1 + zlen cs)))) with (zlen cs + 1 * 4) in * by lia.
  rewrite IH, Z.div_add by first [cbn; lia | lia
    | replace (zlen cs) with (zlen cs + 1 * 4 - 4) by lia; apply Z.divide_sub_r; [done|by exists 1]].
  lia.
Qed.

Lemma padding_range cs : 0 <= padding cs <= 2.
Proof. unfold padding. repeat case_match; lia. Qed.

Lemma run_drop_padding q g cu :
  collects q [] g -> pos cu = zlen (ungroup q) ->
  drop_padding g cu = Done (zlen (ungroup q) - padding q, cu).
Proof.
  intros Hg Hp. unfold drop_padding. prog_run. unfold id. rewrite Hp.
  pose proof (zlen_ungroup q (co_q _ _ _ Hg)) as Hz. pose proof (zlen_nonneg q).
  destruct (co_q _ _ _ Hg) as [z Hq]. rewrite Hq, Z.div_mul in Hz by lia.
  destruct (0 <? zlen (ungroup q)) eqn:E; zbool.
  - assert (Hne : q <> []) by (intros ->; rewrite (@zlen_nil Z) in Hq; lia).
    unfold padding. rewrite <- (co_last _ _ _ Hg eq_refl Hne).
    pose proof (co_in _ _ _ Hg) as Hin. destruct g as [ig bg cg]. cbn [in_] in *.
    destruct ig as [|i0 [|i1 [|i2 [|i3 [|]]]]]; try discriminate Hin.
    destruct (aget_four i0 i1 i2 i3) as (_ & _ & -> & ->). prog_run.
    destruct (i2 =? PAD); [by prog_run|]. prog_run. destruct (i3 =? PAD); prog_run; [done|].
    by rewrite Z.sub_0_r.
  - assert (zlen q = 0) by lia. destruct q as [|x q]; [done|].
    rewrite zlen_cons in *. pose proof (zlen_nonneg q). lia.
Qed.

(** The decoder, on complete groups. *)
Lemma decode_writes src m :
  Forall is_byte src -> zlen src < 2 ^ 30 ->
  let cs := List.filter valid src in
  zlen (ungroup cs) <= zlen m -> (4 | zlen cs) ->
  base64_decode true src (zlen src) (Some m) =
    Done (1, Some (zlen (ref_decode src)), Some (splice m 0 (ungroup cs))).
Proof.
  intros Hb Hlen cs Hroom Hdiv. unfold base64_decode. cbn [negb].
  rewrite build_dtable_run. cbn [mbind outcome_bind]. pose proof (zlen_nonneg src).
  assert (Hcs : 0 <= zlen cs <= zlen src).
  { pose proof (List.filter_length_le valid src). unfold zlen, cs. lia. }
  rewrite (count_valid_run src _ 0 0 src) by (first [done | lia | unfold zlen; lia]).
  fold cs. rewrite Z.add_0_l. cbn [mbind outcome_bind].
  rewrite (proj2 (Z.mod_divide (zlen cs) 4 ltac:(lia)) Hdiv). cbn [Z.eqb negb].
  pose proof (zlen_ungroup cs Hdiv) as Hun.
  destruct (run_decode_loop src (Z.to_nat (zlen src)) 0 src [] [] (mk_group [0; 0; 0; 0] [0; 0; 0; 0] 0)
    (mk_cursor m 0)) as (q & p & g & El & Eqp & Hg); try done.
  { unfold zlen. lia. }
  { split; try done. by exists 0. }
  cbn [app] in El, Eqp. fold cs in El, Eqp.
  assert (p = []) as ->.
  { pose proof (co_p _ _ _ Hg). destruct (co_q _ _ _ Hg) as [z Hz], Hdiv as [w Hw].
    rewrite <- Eqp, zlen_app in Hw. destruct p as [|x p]; [done|]. rewrite zlen_cons in *.
    pose proof (zlen_nonneg p). lia. }
  rewrite app_nil_r in Eqp. subst q. rewrite (run_bind _ _ _ _ _ El).
  rewrite (run_drop_padding cs) by (done || by rewrite Z.add_0_l). cbn [mbind outcome_bind put out].
  unfold ref_decode. fold cs. rewrite zlen_take; [done| |].
  - pose proof (padding_range cs). rewrite Hun. destruct Hdiv as [z Hz].
    rewrite Hz, Z.div_mul by lia. clearbody cs. destruct cs as [|x cs].
    + rewrite (@zlen_nil Z) in Hz. change (padding []) with 0. lia.
    + rewrite zlen_cons in Hz. pose proof (zlen_nonneg cs). lia.
  - pose proof (padding_range cs). lia.
Qed.

(** C15: the decoder is the reference decoder, on any text of fewer than 2^30
    characters and a buffer with room for its groups: only the characters of
    the alphabet (A to Z, a to z, 0 to 9, plus, slash, and the equals sign)
    count; if their number is not a multiple of
    four it fails without writing the length, and otherwise it writes the
    bytes of all groups at the start of the buffer and reports their number
    less what the padding of the last group drops; without a buffer it reports
    the number of bytes to provide, and without memory for its table 0. *)
Theorem base64_decode_is_reference src m :
  Forall is_byte src -> zlen src < 2 ^ 30 ->
  let cs := List.filter valid src in
  zlen (ungroup cs) <= zlen m ->
  base64_decode false src (zlen src) (Some m) = Done (0, Some 0, Some m) /\
  if zlen cs mod 4 =? 0 then
    base64_decode true src (zlen src) None = Done (0, Some (zlen (ungroup cs)), None) /\
    base64_decode true src (zlen src) (Some m) =
      Done (1, Some (zlen (ref_decode src)), Some (splice m 0 (ungroup cs)))
  else base64_decode true src (zlen src) (Some m) = Done (0, None, Some m).
Proof.
  intros Hb Hlen cs Hroom. split; [done|].
  assert (Hcount : count_valid (Z.to_nat (zlen src)) dtable src 0 0 = Done (zlen cs)).
  { pose proof (zlen_nonneg src).
    by rewrite (count_valid_run src _ 0 0 src) by (first [done | lia | unfold zlen; lia]). }
  assert (Hcs : 0 <= zlen cs <= zlen src).
  { pose proof (List.filter_length_le valid src). unfold zlen, cs. lia. }
  destruct (zlen cs mod 4 =? 0) eqn:E4.
  - pose proof E4 as Hdiv. apply Z.eqb_eq, Z.mod_divide in Hdiv; [|lia].
    split; [|by apply decode_writes]. unfold base64_decode. cbn [negb].
    rewrite build_dtable_run. cbn [mbind outcome_bind]. rewrite Hcount. cbn [mbind outcome_bind].
    rewrite E4. cbn [negb]. rewrite u32_small, zlen_ungroup by (done || lia). destruct Hdiv as [z Hz].
    replace (zlen cs * 3) with (z * 3 * 4) by lia. by rewrite Hz, !Z.div_mul, Z.mul_comm by lia.
  - unfold base64_decode. cbn [negb].
    rewrite build_dtable_run. cbn [mbind outcome_bind]. rewrite Hcount. cbn [mbind outcome_bind].
    by rewrite E4.
Qed.

(* ------------------------------------------------------------------ *)
(** ** Decoding undoes encoding *)

Lemma pad_value : value PAD = 0 /\ valid PAD = true /\ valid NL = false.
Proof. by vm_compute. Qed.

(** The text consists of bytes. *)
Lemma wrap_bytes l : forall k, Forall is_byte (wrap k (ref_groups l)).
Proof.
  assert (Hd : forall n j, Forall is_byte (map char (take j (digits n)))).
  { intros n j. apply Forall_map, Forall_take, Forall_forall. intros d _. apply char_byte. }
  assert (Hc : is_byte PAD /\ is_byte NL) by (split; by vm_compute). destruct Hc as [Hp Hn].
  assert (Hg : Forall (Forall is_byte) (ref_groups l)).
  { induction l as [l IH] using (induction_ltof1 _ (@length Z)). unfold ltof in IH.
    destruct l as [|a [|b [|c l]]]; cbn [ref_groups]; [constructor| | |].
    - apply Forall_singleton, Forall_app. split; [apply Hd|]. by repeat (apply Forall_cons; split).
    - apply Forall_singleton, Forall_app. split; [apply Hd|]. by apply Forall_singleton.
    - apply Forall_cons. split; [exact (Hd _ 4%nat)|]. apply IH. cbn. lia. }
  induction Hg as [|g gs Hgb _ IH]; intros k; cbn [wrap].
  - destruct (k =? 0)%nat; [constructor|]. by apply Forall_singleton.
  - apply Forall_app. split; [done|]. destruct (k =? 17)%nat; [|apply IH].
    apply Forall_cons. split; [done|apply IH].
Qed.

(** The padding of the groups of [l]: two, one or no characters. *)
Definition pad_of (l : list Z) : Z := (- zlen l) mod 3.

Lemma ungroup_full n cs : 0 <= n < 2 ^ 24 ->
  ungroup (map char (digits n) ++ cs) = [n / 2 ^ 16; n / 2 ^ 8 mod 256; n mod 256] ++ ungroup cs.
Proof.
  intros Hn. unfold digits. cbn [map app ungroup].
  rewrite !(proj1 (value_char _ ltac:(apply Z.mod_pos_bound; lia))).
  replace (n / 2 ^ 18 mod 64 * 2 ^ 18 + n / 2 ^ 12 mod 64 * 2 ^ 12 + n / 2 ^ 6 mod 64 * 2 ^ 6 + n mod 64)
    with n; [done|].
  change (2 ^ 24) with 16777216 in Hn.
  change (2 ^ 18) with 262144. change (2 ^ 12) with 4096. change (2 ^ 6) with 64.
  Z.to_euclidean_division_equations; lia.
Qed.

Lemma triple_bytes a b c : is_byte a -> is_byte b -> is_byte c ->
  let n := a * 2 ^ 16 + b * 2 ^ 8 + c in
  0 <= n < 2 ^ 24 /\ [n / 2 ^ 16; n / 2 ^ 8 mod 256; n mod 256] = [a; b; c].
Proof.
  unfold is_byte. intros Ha Hb Hc. cbn zeta. change (2 ^ 24) with 16777216.
  change (2 ^ 16) with 65536. change (2 ^ 8) with 256. split; [lia|].
  repeat (apply (f_equal2 cons); [Z.to_euclidean_division_equations; lia|]). done.
Qed.

Lemma digits_char n d : d ∈ digits n -> value (char d) = d /\ valid (char d) = true /\ char d <> PAD.
Proof. intros Hd. by apply value_char, (digits_range n). Qed.

(** A short group decodes as the full group of the number, whose last digits
    are zero. *)
Lemma ungroup_padded n x y z w :
  digits n = [x; y; z; 0] -> w = (if z =? 0 then PAD else char z) ->
  ungroup [char x; char y; w; PAD] = ungroup (map char (digits n)) /\
  ungroup [char x; char y; char z; PAD] = ungroup (map char (digits n)).
Proof.
  intros E ->. destruct pad_value as (P0 & _). rewrite E. cbn [map ungroup].
  pose proof (proj1 (value_char 0 ltac:(lia))) as Z0. rewrite Z0, P0.
  split; [|done]. destruct (z =? 0) eqn:E0; [|done]. zbool. subst z. by rewrite P0, Z0.
Qed.

Lemma ungroup_groups l : Forall is_byte l ->
  ungroup (concat (ref_groups l)) = l ++ replicate (Z.to_nat (pad_of l)) 0.
Proof.
  induction l as [l IH] using (induction_ltof1 _ (@length Z)). unfold ltof in IH. intros Hb.
  destruct l as [|a [|b [|c l]]]; [done| | |]; cbn [ref_groups concat].
  - apply Forall_cons in Hb as [Ha _].
    destruct (triple_bytes a 0 0 Ha ltac:(by split) ltac:(by split)) as [Hn E]. rewrite !Z.add_0_r in *.
    rewrite app_nil_r. change (take 2 (digits (a * 2 ^ 16))) with
      [a * 2 ^ 16 / 2 ^ 18 mod 64; a * 2 ^ 16 / 2 ^ 12 mod 64]. cbn [map app].
    assert (Ed : digits (a * 2 ^ 16) = [a * 2 ^ 16 / 2 ^ 18 mod 64; a * 2 ^ 16 / 2 ^ 12 mod 64; 0; 0]).
    { unfold digits. do 2 f_equal. change (2 ^ 16) with 65536. change (2 ^ 6) with 64.
      repeat (apply (f_equal2 cons); [Z.to_euclidean_division_equations; lia|]). done. }
    rewrite (proj1 (ungroup_padded (a * 2 ^ 16) _ _ 0 PAD Ed eq_refl)).
    rewrite <- (app_nil_r (map char _)), ungroup_full, E by done. done.
  - apply Forall_cons in Hb as [Ha Hb]. apply Forall_cons in Hb as [Hb1 _].
    destruct (triple_bytes a b 0 Ha Hb1 ltac:(by split)) as [Hn E]. rewrite !Z.add_0_r in *.
    set (n := a * 2 ^ 16 + b * 2 ^ 8) in *. rewrite app_nil_r.
    change (take 3 (digits n)) with [n / 2 ^ 18 mod 64; n / 2 ^ 12 mod 64; n / 2 ^ 6 mod 64]. cbn [map app].
    assert (Ed : digits n = [n / 2 ^ 18 mod 64; n / 2 ^ 12 mod 64; n / 2 ^ 6 mod 64; 0]).
    { unfold digits, n. do 3 f_equal. change (2 ^ 16) with 65536. change (2 ^ 8) with 256.
      apply (f_equal2 cons); [Z.to_euclidean_division_equations; lia|done]. }
    rewrite (proj2 (ungroup_padded n _ _ _ _ Ed eq_refl)).
    rewrite <- (app_nil_r (map char _)), ungroup_full, E by done. done.
  - apply Forall_cons in Hb as [Ha Hb]. apply Forall_cons in Hb as [Hb1 Hb].
    apply Forall_cons in Hb as [Hc Hb]. destruct (triple_bytes a b c Ha Hb1 Hc) as [Hn E].
    rewrite ungroup_full, E, IH by (done || (cbn; lia)). cbn [app]. do 5 f_equal.
    unfold pad_of. rewrite !zlen_cons.
    replace (- (1 + (1 + (1 + zlen l)))) with (- zlen l + -1 * 3) by lia. by rewrite Z.mod_add by lia.
Qed.

Lemma groups_valid l : Forall (fun g => Forall (fun ch => valid ch = true) g) (ref_groups l).
Proof.
  destruct pad_value as (_ & Pv & _).
  assert (Hd : forall n k, Forall (fun ch => valid ch = true) (map char (take k (digits n)))).
  { intros n k. apply Forall_map, Forall_take, Forall_forall. intros d Hd.
    by apply (digits_char n d). }
  induction l as [l IH] using (induction_ltof1 _ (@length Z)). unfold ltof in IH.
  destruct l as [|a [|b [|c l]]]; cbn [ref_groups]; [constructor| | |].
  - apply Forall_singleton, Forall_app. split; [apply Hd|]. by repeat (apply Forall_cons; split).
  - apply Forall_singleton, Forall_app. split; [apply Hd|]. by apply Forall_singleton.
  - apply Forall_cons. split; [exact (Hd _ 4%nat)|]. apply IH. cbn. lia.
Qed.

Lemma filter_all (P : Z -> bool) l : Forall (fun x => P x = true) l -> List.filter P l = l.
Proof. induction 1 as [|x l Hx _ IH]; cbn; [done|]. by rewrite Hx, IH. Qed.

Lemma filter_wrap gs : forall k, Forall (fun g => Forall (fun ch => valid ch = true) g) gs ->
  List.filter valid (wrap k gs) = concat gs.
Proof.
  destruct pad_value as (_ & _ & Nv).
  induction gs as [|g gs IH]; intros k Hg; cbn [wrap concat].
  - destruct (k =? 0)%nat; [done|]. cbn [List.filter]. by rewrite Nv.
  - apply Forall_cons in Hg as [Hg Hgs]. rewrite List.filter_app, filter_all by done. f_equal.
    destruct (k =? 17)%nat; [|by apply IH]. cbn [List.filter]. rewrite Nv. by apply IH.
Qed.

Lemma length_concat_groups l : zlen (concat (ref_groups l)) = 4 * ((zlen l + 2) / 3).
Proof.
  destruct (ref_groups_four l) as [H4 <-]. induction H4 as [|g gs Hg _ IH]; [done|].
  cbn [concat]. rewrite zlen_app, zlen_cons, Hg, IH. lia.
Qed.

Lemma padding_groups l : padding (concat (ref_groups l)) = pad_of l.
Proof.
  induction l as [l IH] using (induction_ltof1 _ (@length Z)). unfold ltof in IH.
  assert (Hc : forall n d, d ∈ digits n -> (char d =? PAD) = false).
  { intros n d Hd. apply Z.eqb_neq. by apply (digits_char n d). }
  destruct l as [|a [|b [|c l]]]; [done| | |]; cbn [ref_groups concat].
  - done.
  - set (n := a * 2 ^ 16 + b * 2 ^ 8). unfold padding, digits. cbn [take map app length drop Nat.sub].
    rewrite (Hc n) by (unfold digits; set_solver). done.
  - assert (Hp : pad_of (a :: b :: c :: l) = pad_of l).
    { unfold pad_of. rewrite !zlen_cons.
      replace (- (1 + (1 + (1 + zlen l)))) with (- zlen l + -1 * 3) by lia. by rewrite Z.mod_add by lia. }
    rewrite Hp, <- IH by (cbn; lia). set (n := _ + c). set (cs := concat (ref_groups l)).
    destruct (decide (l = [])) as [-> |Hne].
    + unfold cs. cbn [ref_groups concat]. rewrite app_nil_r. unfold padding, digits.
      cbn [map app length drop Nat.sub]. rewrite !(Hc n) by (unfold digits; set_solver). done.
    + assert (H4 : (4 <= length cs)%nat).
      { pose proof (length_concat_groups l) as Hl. unfold zlen in Hl. fold cs in Hl.
        destruct l as [|x l]; [done|]. cbn [length] in Hl. Z.to_euclidean_division_equations; lia. }
      unfold padding. rewrite length_app. replace (length (map char (digits n))) with 4%nat by done.
      replace (4 + length cs - 4)%nat with (4 + (length cs - 4))%nat by lia.
      by rewrite <- drop_drop, (drop_app_length' (map char (digits n)) cs 4) by done.
Qed.

(** C23: decoding undoes encoding: for any bytes, the text that
    [base64_encode] writes, given to [base64_decode] with the length reported
    for it, gives back the bytes, and the length reported is theirs.  The
    decoder's buffer needs room for whole groups, up to two bytes more. *)
Theorem base64_round_trip src m m' :
  Forall is_byte src -> zlen src < 2 ^ 29 ->
  base64_calc_encode_length (zlen src) <= zlen m -> zlen src + 2 <= zlen m' ->
  exists text rest,
    base64_encode src (zlen src) (Some m) =
      Done (1, Some (zlen text), Some (splice m 0 (text ++ [0]))) /\
    base64_decode true text (zlen text) (Some m') =
      Done (1, Some (zlen src), Some (splice m' 0 (src ++ rest))) /\ zlen rest <= 2.
Proof.
  intros Hb Hl Hm Hm'. exists (ref_encode src), (replicate (Z.to_nat (pad_of src)) 0).
  pose proof (calc_encode_length_enough src ltac:(lia)) as Henough. pose proof (zlen_nonneg src).
  assert (Hpad : 0 <= pad_of src <= 2) by (pose proof (Z.mod_pos_bound (- zlen src) 3); unfold pad_of; lia).
  assert (Hrest : zlen (replicate (Z.to_nat (pad_of src)) 0) = pad_of src)
    by (unfold zlen; rewrite length_replicate; lia).
  assert (Hf : List.filter valid (ref_encode src) = concat (ref_groups src)).
  { unfold ref_encode. rewrite <- wrap_lines by lia. apply filter_wrap, groups_valid. }
  pose proof (ungroup_groups src Hb) as Hu.
  split; [by apply encode_writes; [|lia]|]. split; [|lia].
  rewrite decode_writes.
  - unfold ref_decode. rewrite Hf, Hu, padding_groups, zlen_app, Hrest.
    replace (zlen src + pad_of src - pad_of src) with (zlen src) by lia.
    do 2 f_equal. unfold zlen at 2. rewrite Nat2Z.id, take_app_length. done.
  - unfold ref_encode. rewrite <- wrap_lines by lia. apply wrap_bytes.
  - rewrite zlen_ref_encode. cbn zeta. Z.to_euclidean_division_equations; lia.
  - rewrite Hf, Hu, zlen_app, Hrest. lia.
  - rewrite Hf, length_concat_groups. exists ((zlen src + 2) / 3). lia.
Qed.

(* ------------------------------------------------------------------ *)
(** ** Concrete inputs *)

(** "hello". *)
Definition hello : list Z := [104; 101; 108; 108; 111].
Definition hello_text : list Z := [97; 71; 86; 115; 98; 71; 56; 61; 10].

Lemma hello_bytes : Forall is_byte hello /\ Forall is_byte hello_text.
Proof. unfold is_byte. split; repeat (apply Forall_cons; split; [lia|]); constructor. Qed.

Lemma base64_encode_is_reference_witness :
  base64_encode hello 5 (Some (replicate 20 7)) =
    Done (1, Some 9, Some (hello_text ++ [0] ++ replicate 10 7)) /\
  base64_encode hello 5 None = Done (0, None, None).
Proof.
  apply (base64_encode_is_reference hello (replicate 20 7)); [apply hello_bytes|done|by vm_compute].
Defined.

Lemma base64_decode_is_reference_witness :
  base64_decode false hello_text 9 (Some (replicate 8 7)) = Done (0, Some 0, Some (replicate 8 7)) /\
  base64_decode true hello_text 9 None = Done (0, Some 6, None) /\
  base64_decode true hello_text 9 (Some (replicate 8 7)) =
    Done (1, Some 5, Some (hello ++ [0; 7; 7])).
Proof.
  apply (base64_decode_is_reference hello_text (replicate 8 7)); [apply hello_bytes|done|by vm_compute].
Defined.

Lemma base64_round_trip_witness :
  exists text rest,
    base64_encode hello 5 (Some (replicate 20 7)) =
      Done (1, Some (zlen text), Some (splice (replicate 20 7) 0 (text ++ [0]))) /\
    base64_decode true text (zlen text) (Some (replicate 7 7)) =
      Done (1, Some 5, Some (splice (replicate 7 7) 0 (hello ++ rest))) /\ zlen rest <= 2.
Proof.
  apply (base64_round_trip hello (replicate 20 7) (replicate 7 7));
    [apply hello_bytes|done|by vm_compute|by vm_compute].
Defined.
