(* ===== verification/Flash.v ===== *)
(** The flash driver: the data paths and block protection of
    beken378/driver/flash/flash.c, and the partitions of
    beken378/func/user_driver/BkDriverFlash.c.

    The chip behind the controller is an interface ([Nor]): a page program
    only clears bits, a sector erase sets them, and the status registers hold
    the block-protect bits.  The driver's loops over 32-byte pages are proved
    to read and write exactly the bytes asked for, and the protection calls
    to set exactly the configured bits. *)

From S2P Require Import Prelude.

Definition PAGE : Z := 32.
Definition SECTOR : Z := 4096.
(** The address field of [REG_FLASH_OPERATE_SW] has 24 bits. *)
Definition CHIP : Z := 2 ^ 24.

Inductive PROTECT_TYPE :=
| FLASH_PROTECT_NONE
| FLASH_PROTECT_ALL
| FLASH_PROTECT_HALF
| FLASH_UNPROTECT_LAST_BLOCK.

#[export] Instance PROTECT_TYPE_eq_dec : EqDecision PROTECT_TYPE.
Proof. solve_decision. Defined.

Record flash_config_t := mk_config {
  flash_id : Z;
  sr_size : Z;
  flash_size : Z;
  line_mode : Z;
  cmp_post : Z;
  protect_post : Z;
  protect_mask : Z;
  protect_all : Z;
  protect_none : Z;
  protect_half : Z;
  unprotect_last_block : Z;
  qe_bit_post : Z;
  qe_bit : Z;
  m_value : Z;
  mode_sel : Z
}.

(** The table of a build without [CFG_SUPPORT_ALIOS]. *)
Definition flash_config : list flash_config_t := [
  mk_config 0x1C7016 1 0x400000 2  0 2 0x1F 0x1F 0x00 0x16 0x01B 0 0 0xA5 0x01;
  mk_config 0x1C7015 1 0x200000 2  0 2 0x1F 0x1F 0x00 0x0d 0x0d  0 0 0xA5 0x01;
  mk_config 0x0B4014 2 0x100000 2 14 2 0x1F 0x1F 0x00 0x0C 0x101 9 1 0xA0 0x01;
  mk_config 0x0B4015 2 0x200000 2 14 2 0x1F 0x1F 0x00 0x0D 0x101 9 1 0xA0 0x01;
  mk_config 0x0B4016 2 0x400000 2 14 2 0x1F 0x1F 0x00 0x0E 0x101 9 1 0xA0 0x01;
  mk_config 0x0B4017 2 0x800000 2 14 2 0x1F 0x05 0x00 0x0E 0x109 9 1 0xA0 0x01;
  mk_config 0x0E4016 2 0x400000 2 14 2 0x1F 0x1F 0x00 0x0E 0x101 9 1 0xA0 0x01;
  mk_config 0xC84015 2 0x200000 2 14 2 0x1F 0x1F 0x00 0x0D 0x101 9 1 0xA0 0x01;
  mk_config 0xC84016 2 0x400000 2 14 2 0x1F 0x1F 0x00 0x0E 0x101 9 1 0xA0 0x01;
  mk_config 0xEF4016 2 0x400000 2 14 2 0x1F 0x1F 0x00 0x00 0x101 9 1 0xA0 0x01;
  mk_config 0x204016 2 0x400000 2 14 2 0x1F 0x1F 0x00 0x0E 0x101 9 1 0xA0 0x01;
  mk_config 0xC22315 1 0x200000 2  0 2 0x0F 0x0F 0x00 0x0A 0x00E 6 1 0xA5 0x01;
  mk_config 0x000000 2 0x400000 2  0 2 0x1F 0x00 0x00 0x00 0x000 0 0 0x00 0x01 ].

Definition default_config : flash_config_t :=
  mk_config 0x000000 2 0x400000 2  0 2 0x1F 0x00 0x00 0x00 0x000 0 0 0x00 0x01.

(** The loop stops before the last row, which is the default. *)
Definition flash_get_current_flash_config (id : Z) : flash_config_t :=
  default (List.last flash_config default_config)
    (list_find (fun c => id = flash_id c) (removelast flash_config) ≫= fun p => Some p.2).

(** [protect_none], [protect_all], ... of a level, and [set_flash_protect]'s
    [default] case. *)
Definition setting (c : flash_config_t) (type : PROTECT_TYPE) : Z :=
  match type with
  | FLASH_PROTECT_NONE => protect_none c
  | FLASH_PROTECT_ALL => protect_all c
  | FLASH_PROTECT_HALF => protect_half c
  | FLASH_UNPROTECT_LAST_BLOCK => unprotect_last_block c
  end.

(** [flash_read_sr] from the two registers the chip returns. *)
Definition sr_of (sr1 sr2 width : Z) : Z :=
  let sr := Z.land sr1 0xFF in
  if width =? 2 then u16 (Z.lor sr (Z.shiftl (Z.land sr2 0xFF) 8)) else sr.

(** The [value] of [get_flash_protect]: [cmp << 8 | param]. *)
Definition protect_value (c : flash_config_t) (sr_value : Z) : Z :=
  let param := Z.land (Z.shiftr sr_value (protect_post c)) (protect_mask c) in
  let cmp := Z.land (Z.shiftr sr_value (cmp_post c)) 1 in
  Z.lor (Z.shiftl cmp 8) param.

(** A serial NOR flash of configuration [c]: programs of aligned 32-byte
    pages, 4 KB erases, and two status registers whose two lowest bits (busy,
    write enable) read 0 when the chip is idle.  Writes are only sure to
    happen with no block protected. *)
Class Nor (c : flash_config_t) (F : Type) := {
  cell : F -> Z -> Z;
  rdsr : F -> Z;
  rdsr2 : F -> Z;
  page_program : F -> Z -> list Z -> F;
  sector_erase : F -> Z -> F;
  wrsr : F -> Z -> F;
  wrsr2 : F -> Z -> F;
  cell_byte : forall f a, is_byte (cell f a);
  cell_program : forall f p bs a, protect_value c (sr_of (rdsr f) (rdsr2 f) (sr_size c)) = protect_none c ->
    zlen bs = PAGE -> 0 <= p < CHIP -> p mod PAGE = 0 ->
    cell (page_program f p bs) a =
      (if (p <=? a) && (a <? p + PAGE) then Z.land (cell f a) (nth (Z.to_nat (a - p)) bs 0) else cell f a);
  cell_erase : forall f s a, protect_value c (sr_of (rdsr f) (rdsr2 f) (sr_size c)) = protect_none c ->
    0 <= s < CHIP -> s mod SECTOR = 0 ->
    cell (sector_erase f s) a = (if (s <=? a) && (a <? s + SECTOR) then 255 else cell f a);
  cell_wrsr : forall f v a, cell (wrsr f v) a = cell f a;
  cell_wrsr2 : forall f v a, cell (wrsr2 f v) a = cell f a;
  rdsr_range : forall f, is_byte (rdsr f);
  rdsr2_range : forall f, is_byte (rdsr2 f);
  rdsr_idle : forall f, Z.land (rdsr f) 3 = 0;
  rdsr_program : forall f p bs, rdsr (page_program f p bs) = rdsr f;
  rdsr2_program : forall f p bs, rdsr2 (page_program f p bs) = rdsr2 f;
  rdsr_erase : forall f s, rdsr (sector_erase f s) = rdsr f;
  rdsr2_erase : forall f s, rdsr2 (sector_erase f s) = rdsr2 f;
  rdsr_wrsr : forall f v, rdsr (wrsr f v) = Z.land v 0xFC;
  rdsr2_wrsr : forall f v, rdsr2 (wrsr f v) = rdsr2 f;
  rdsr_wrsr2 : forall f v, rdsr (wrsr2 f v) = Z.land v 0xFC;
  rdsr2_wrsr2 : forall f v, rdsr2 (wrsr2 f v) = Z.land (Z.shiftr v 8) 0xFF
}.

Section Code.
(** [flash_current_config] and its chip. *)
Variable c : flash_config_t.
Context {F : Type} `{Nor c F}.

(* ------------------------------------------------------------------ *)
(** ** flash.c *)

Definition flash_read_sr (f : F) (sr_width : Z) : Z := sr_of (rdsr f) (rdsr2 f) sr_width.

Definition flash_write_sr (f : F) (sr_width val : Z) : F :=
  if sr_width =? 1 then wrsr f val
  else if sr_width =? 2 then wrsr2 f val
  else f.

(** [None] is the -1 of a setting no level has. *)
Definition get_flash_protect (f : F) : option PROTECT_TYPE :=
  let value := protect_value c (flash_read_sr f (sr_size c)) in
  if value =? protect_all c then Some FLASH_PROTECT_ALL
  else if value =? protect_none c then Some FLASH_PROTECT_NONE
  else if value =? protect_half c then Some FLASH_PROTECT_HALF
  else if value =? unprotect_last_block c then Some FLASH_UNPROTECT_LAST_BLOCK
  else None.

Definition set_flash_protect (f : F) (type : PROTECT_TYPE) : F :=
  let param := Z.land (setting c type) 0xff in
  let cmp := Z.land (Z.shiftr (setting c type) 8) 0xff in
  let value := flash_read_sr f (sr_size c) in
  if negb (Z.shiftl param (protect_post c)
           =? Z.land value (Z.shiftl (protect_mask c) (protect_post c)))
     || negb (Z.shiftl cmp (cmp_post c) =? Z.land value (Z.shiftl 1 (cmp_post c))) then
    let value := Z.lor (Z.land value (Z.lnot (Z.shiftl (protect_mask c) (protect_post c))))
                       (Z.shiftl param (protect_post c)) in
    let value := Z.land value (Z.lnot (Z.shiftl 1 (cmp_post c))) in
    let value := Z.lor value (Z.shiftl (Z.land cmp 1) (cmp_post c)) in
    flash_write_sr f (sr_size c) (u16 value)
  else f.

(** [address & (~0x1F)]. *)
Definition page_of (address : Z) : Z := Z.land address 0xFFFFFFE0.

(** What the controller returns for a page, and a page program.  An address
    beyond the register's field would land in the operation code. *)
Definition read_page (f : F) (addr : Z) : outcome (list Z) :=
  if addr <? CHIP then Done (map (fun i => cell f (addr + i)) (seqZ 0 PAGE)) else Wild.

Definition program_page (f : F) (addr : Z) (pb : list Z) : outcome F :=
  if addr <? CHIP then Done (page_program f addr pb) else Wild.

Definition flash_erase_sector (f : F) (address : Z) : F :=
  let erase_addr := Z.land address 0xFFF000 in
  if flash_size c <=? erase_addr then f else sector_erase f erase_addr.

(** The inner [for]: [n] is [32 - i]; it stops when [len] is 0. *)
Fixpoint read_copy (n : nat) (pb : list Z) (i address len : Z) (buffer : list Z)
    : outcome (Z * Z * list Z) :=
  match n with
  | O => Done (address, len, buffer)
  | S n' =>
      b ← aget pb i;
      let buffer := buffer ++ [b] in
      let address := u32 (address + 1) in
      let len := u32 (len - 1) in
      if len =? 0 then Done (address, len, buffer) else read_copy n' pb (i + 1) address len buffer
  end.

(** [while(len)]: every turn reads at least a byte. *)
Fixpoint read_loop (fuel : nat) (f : F) (addr address len : Z) (buffer : list Z) : outcome (list Z) :=
  if len =? 0 then Done buffer else
  match fuel with
  | O => Spin
  | S fuel' =>
      pb ← read_page f addr;
      let i := address mod 32 in
      '(address, len, buffer) ← read_copy (Z.to_nat (32 - i)) pb i address len buffer;
      read_loop fuel' f (u32 (addr + 32)) address len buffer
  end.

(** The bytes stored at [buffer]. *)
Definition flash_read_data (f : F) (address len : Z) : outcome (list Z) :=
  if len =? 0 then Done [] else read_loop (Z.to_nat len) f (page_of address) address len [].

Fixpoint write_copy (n : nat) (pb : list Z) (i : Z) (buffer : list Z) (k address len : Z)
    : outcome (list Z * Z * Z * Z) :=
  match n with
  | O => Done (pb, k, address, len)
  | S n' =>
      b ← aget buffer k;
      pb ← aset pb i b;
      let address := u32 (address + 1) in
      let len := u32 (len - 1) in
      if len =? 0 then Done (pb, k + 1, address, len)
      else write_copy n' pb (i + 1) buffer (k + 1) address len
  end.

Fixpoint write_loop (fuel : nat) (f : F) (pb : list Z) (addr : Z) (buffer : list Z) (k address len : Z)
    : outcome F :=
  if len =? 0 then Done f else
  match fuel with
  | O => Spin
  | S fuel' =>
      pb ← (if len <? 32 then flash_read_data f addr 32 else Done pb);
      let i := address mod 32 in
      '(pb, k, address, len) ← write_copy (Z.to_nat (32 - i)) pb i buffer k address len;
      f ← program_page f addr pb;
      write_loop fuel' f (replicate 32 0xFF) (u32 (addr + 32)) buffer k address len
  end.

Definition flash_write_data (f : F) (buffer : list Z) (address len : Z) : outcome F :=
  let addr := page_of address in
  if (flash_size c <=? addr) || (flash_size c <? len) || (flash_size c <? u32 (addr + len)) then Done f else
  pb ← (if negb (address mod 32 =? 0) then flash_read_data f addr 32 else Done (replicate 32 0xFF));
  write_loop (Z.to_nat len) f pb addr buffer 0 address len.

(* ------------------------------------------------------------------ *)
(** ** BkDriverFlash.c *)

Inductive bk_partition_t :=
| BK_PARTITION_BOOTLOADER
| BK_PARTITION_APPLICATION
| BK_PARTITION_RF_FIRMWARE
| BK_PARTITION_NET_PARAM
| BK_PARTITION_USR_CONFIG.

Record bk_logic_partition_t := mk_partition {
  partition_start_addr : Z;
  partition_length : Z
}.

(** The table names no [BK_PARTITION_USR_CONFIG]: its row is all zeros. *)
Definition bk_flash_get_info (p : bk_partition_t) : bk_logic_partition_t :=
  match p with
  | BK_PARTITION_BOOTLOADER => mk_partition 0x00000000 0x0F000
  | BK_PARTITION_APPLICATION => mk_partition 0x11000 0x143000
  | BK_PARTITION_RF_FIRMWARE => mk_partition 0x1e0000 0x1000
  | BK_PARTITION_NET_PARAM => mk_partition 0x1e1000 0x1000
  | BK_PARTITION_USR_CONFIG => mk_partition 0 0
  end.

(** The sectors [i], [i + 1], ... of the partition, [n] of them. *)
Fixpoint erase_loop (n : nat) (f : F) (start i : Z) : F :=
  match n with
  | O => f
  | S n' => erase_loop n' (flash_erase_sector f (u32 (start + u32 (Z.shiftl i 12)))) start (i + 1)
  end.

Definition bk_flash_erase (f : F) (p : bk_partition_t) (off_set size : Z) : F :=
  let start_sector := Z.shiftr off_set 12 in
  let end_sector := Z.shiftr (u32 (off_set + size - 1)) 12 in
  erase_loop (Z.to_nat (end_sector - start_sector + 1)) f
    (partition_start_addr (bk_flash_get_info p)) start_sector.

Definition bk_flash_write (f : F) (p : bk_partition_t) (off_set : Z) (inBuffer : list Z)
    (inBufferLength : Z) : outcome F :=
  flash_write_data f inBuffer (u32 (partition_start_addr (bk_flash_get_info p) + off_set)) inBufferLength.

Definition bk_flash_read (f : F) (p : bk_partition_t) (off_set inBufferLength : Z) : outcome (list Z) :=
  flash_read_data f (u32 (partition_start_addr (bk_flash_get_info p) + off_set)) inBufferLength.

Definition bk_flash_enable_security (f : F) (type : PROTECT_TYPE) : F := set_flash_protect f type.
End Code.

(* ------------------------------------------------------------------ *)
(** ** Pages *)

Lemma page_of_mod address : is_u32 address -> page_of address = address - address mod 32.
Proof.
  unfold is_u32, page_of. intros Ha.
  assert (E : Z.land address 0xFFFFFFE0 = Z.ldiff (Z.land address (Z.ones 32)) (Z.ones 5)).
  { change 0xFFFFFFE0 with (Z.ldiff (Z.ones 32) (Z.ones 5)). Z.bitwise. by rewrite andb_assoc. }
  rewrite E, Z.land_ones, Z.mod_small, Z.ldiff_ones_r, Z.shiftl_mul_pow2, Z.shiftr_div_pow2 by lia.
  change (2 ^ 5) with 32. pose proof (Z.div_mod address 32). lia.
Qed.


Section Pages.
Context {c : flash_config_t} {F : Type} `{Nor c F}.
Implicit Types (f : F).

(** The bytes of the chip in a range. *)
Definition cells (f : F) (a n : Z) : list Z := map (fun i => cell f (a + i)) (seqZ 0 n).

Lemma zlen_cells f a n : 0 <= n -> zlen (cells f a n) = n.
Proof. intros Hn. unfold cells, zlen. rewrite length_map, length_seqZ. lia. Qed.

Lemma cells_lookup f a n i : 0 <= i < n -> cells f a n !! Z.to_nat i = Some (cell f (a + i)).
Proof.
  intros Hi. unfold cells. apply list_lookup_fmap_Some. exists i. split; [reflexivity|].
  apply lookup_seqZ. lia.
Qed.

Lemma list_eq_cells f a (l : list Z) :
  (forall i, 0 <= i < zlen l -> l !! Z.to_nat i = Some (cell f (a + i))) -> l = cells f a (zlen l).
Proof.
  intros Hl. pose proof (zlen_nonneg l). pose proof (zlen_cells f a (zlen l)) as Hz.
  unfold zlen in *. apply list_eq_same_length with (length l); [lia|lia|].
  intros i x y Hi Hx Hy. rewrite <- (Nat2Z.id i) in Hx, Hy.
  rewrite Hl in Hx by lia. rewrite cells_lookup in Hy by lia. congruence.
Qed.

Lemma slice_cells f a n off k :
  0 <= off -> 0 <= k -> off + k <= n -> slice (cells f a n) off k = cells f (a + off) k.
Proof.
  intros Ho Hk Hle. assert (Hz : zlen (slice (cells f a n) off k) = k)
    by (rewrite zlen_slice; rewrite ?zlen_cells; lia).
  rewrite <- Hz at 2. apply list_eq_cells. rewrite Hz. intros i Hi.
  rewrite lookup_slice, cells_lookup by lia. do 2 f_equal. lia.
Qed.

Lemma cells_app f a n m : 0 <= n -> 0 <= m -> cells f a n ++ cells f (a + n) m = cells f a (n + m).
Proof.
  intros Hn Hm. rewrite <- (slice_cells f a (n + m) n m) by lia.
  assert (E : cells f a n = slice (cells f a (n + m)) 0 n) by (rewrite slice_cells by lia; by rewrite Z.add_0_r).
  rewrite E, slice_glue by lia. apply slice_all. rewrite zlen_cells; lia.
Qed.

Lemma cells_ext f f' a n : (forall x, a <= x < a + n -> cell f x = cell f' x) -> cells f a n = cells f' a n.
Proof.
  intros He. unfold cells. apply map_ext_in. intros i Hi%list_elem_of_In%elem_of_seqZ. apply He. lia.
Qed.

(** Copying out of a page: until the page or the request ends. *)
Lemma read_copy_run n pb i a len buf :
  0 <= i -> (0 < n)%nat -> i + Z.of_nat n <= zlen pb -> 0 < len < 2 ^ 32 -> 0 <= a ->
  read_copy n pb i a len buf =
    Done (u32 (a + Z.min (Z.of_nat n) len), len - Z.min (Z.of_nat n) len,
          buf ++ slice pb i (Z.min (Z.of_nat n) len)).
Proof.
  revert i a len buf. induction n as [|n IH]; intros i a len buf Hi Hn Hz Hlen Ha; [lia|]. cbn [read_copy].
  destruct (lookup_lt_is_Some_2 pb (Z.to_nat i)) as [b Eb]; [unfold zlen in Hz; lia|].
  rewrite (aget_in _ _ _ Hi Eb). cbn [mbind outcome_bind]. rewrite (u32_small (len - 1)) by lia.
  assert (E1 : slice pb i 1 = [b]).
  { unfold slice. change (Z.to_nat 1) with 1%nat. by rewrite (drop_S _ _ _ Eb). }
  zcase.
  - replace (Z.min (Z.of_nat (S n)) len) with 1 by lia. rewrite E1. do 3 f_equal.
  - assert (Hn' : (n = 0)%nat \/ (0 < n)%nat) by lia. destruct Hn' as [->|Hn'].
    { cbn [read_copy]. replace (Z.min (Z.of_nat 1) len) with 1 by lia. by rewrite E1. }
    rewrite IH by (try (pose proof (u32_range (a + 1))); lia).
    replace (Z.min (Z.of_nat (S n)) len) with (1 + Z.min (Z.of_nat n) (len - 1)) by lia.
    assert (0 <= Z.min (Z.of_nat n) (len - 1)) by lia.
    rewrite <- slice_glue by lia. rewrite E1, <- app_assoc.
    do 3 f_equal; [|lia]. unfold u32. rewrite Z.add_mod_idemp_l by lia. f_equal. lia.
Qed.

Lemma read_page_cells f addr : addr < CHIP -> read_page c f addr = Done (cells f addr 32).
Proof. intros Ha. unfold read_page. by rewrite (proj2 (Z.ltb_lt _ _)) by lia. Qed.

Lemma read_loop_cells fuel f a len buf :
  0 <= a -> 0 <= len -> a + len <= CHIP -> (Z.to_nat len <= fuel)%nat ->
  read_loop c fuel f (a - a mod 32) a len buf = Done (buf ++ cells f a len).
Proof.
  unfold CHIP. revert a len buf. induction fuel as [|fuel IH]; intros a len buf Ha Hlen Hin Hfuel; cbn [read_loop].
  { replace len with 0 by lia. cbn. by rewrite app_nil_r. }
  zcase; [subst; cbn; by rewrite app_nil_r|].
  pose proof (Z.mod_pos_bound a 32).
  rewrite read_page_cells by (unfold CHIP; lia). cbn [mbind outcome_bind].
  rewrite read_copy_run by (rewrite ?zlen_cells; lia). cbn [mbind outcome_bind].
  set (m := Z.min (Z.of_nat (Z.to_nat (32 - a mod 32))) len).
  assert (0 < m) by lia. rewrite slice_cells by lia.
  replace (a - a mod 32 + a mod 32) with a by lia. rewrite !u32_small by lia.
  destruct (Z.eq_dec m len) as [Em|Em].
  - rewrite Em, Z.sub_diag. destruct fuel; reflexivity.
  - replace (a - a mod 32 + 32) with (a + m - (a + m) mod 32) by (Z.to_euclidean_division_equations; lia).
    rewrite IH by lia. rewrite <- app_assoc, cells_app by lia. do 3 f_equal. lia.
Qed.

Lemma read_exact f address len :
  0 <= address -> 0 <= len -> address + len <= CHIP ->
  flash_read_data c f address len = Done (cells f address len).
Proof.
  unfold flash_read_data. intros Ha Hlen Hin. zcase; [by subst|].
  rewrite page_of_mod by (unfold is_u32, CHIP in *; lia). by rewrite read_loop_cells by lia.
Qed.

(** A read returns exactly the [len] bytes of the chip from [address],
    whatever their alignment in the controller's 32-byte pages, and its loop
    always ends, for every range below the 24-bit address limit. *)
Theorem flash_read_data_exact f address len :
  0 <= address -> 0 <= len -> address + len <= CHIP ->
  flash_read_data c f address len = Done (cells f address len).
Proof. apply read_exact. Qed.

(* ------------------------------------------------------------------ *)
(** ** Programs *)

Lemma splice_insert {A} (l : list A) i x src :
  0 <= i -> i + 1 + zlen src <= zlen l -> splice (<[Z.to_nat i := x]> l) (i + 1) src = splice l i (x :: src).
Proof.
  unfold zlen, splice. intros Hi Hz. replace (Z.to_nat (i + 1)) with (S (Z.to_nat i)) by lia. cbn [length].
  erewrite take_S_r; [|apply list_lookup_insert_eq; lia]. rewrite take_insert_ge by lia.
  rewrite drop_insert_lt by lia. rewrite <- app_assoc. cbn. do 4 f_equal. lia.
Qed.

(** Copying into the page buffer: until the page or the request ends. *)
Lemma write_copy_run n pb i buffer k a len :
  0 <= i -> (0 < n)%nat -> i + Z.of_nat n <= zlen pb -> 0 < len < 2 ^ 32 -> 0 <= a ->
  0 <= k -> k + len <= zlen buffer ->
  write_copy n pb i buffer k a len =
    Done (splice pb i (slice buffer k (Z.min (Z.of_nat n) len)), k + Z.min (Z.of_nat n) len,
          u32 (a + Z.min (Z.of_nat n) len), len - Z.min (Z.of_nat n) len).
Proof.
  revert pb i k a len. induction n as [|n IH]; intros pb i k a len Hi Hn Hz Hlen Ha Hk Hb; [lia|].
  cbn [write_copy].
  destruct (lookup_lt_is_Some_2 buffer (Z.to_nat k)) as [b Eb]; [unfold zlen in Hb; lia|].
  rewrite (aget_in _ _ _ Hk Eb). cbn [mbind outcome_bind]. rewrite aset_in by lia. cbn [mbind outcome_bind].
  rewrite (u32_small (len - 1)) by lia.
  assert (E1 : slice buffer k 1 = [b]).
  { unfold slice. change (Z.to_nat 1) with 1%nat. by rewrite (drop_S _ _ _ Eb). }
  assert (Hone : splice pb i [b] = <[Z.to_nat i := b]> pb).
  { rewrite <- splice_insert by (change (zlen (@nil Z)) with 0; lia). by rewrite splice_nil. }
  zcase.
  - replace (Z.min (Z.of_nat (S n)) len) with 1 by lia. rewrite E1, Hone. do 3 f_equal.
  - assert (Hn' : (n = 0)%nat \/ (0 < n)%nat) by lia. destruct Hn' as [->|Hn'].
    { cbn [write_copy]. replace (Z.min (Z.of_nat 1) len) with 1 by lia. by rewrite E1, Hone. }
    rewrite IH by (try (pose proof (u32_range (a + 1))); unfold zlen in *; rewrite ?length_insert; lia).
    replace (Z.min (Z.of_nat (S n)) len) with (1 + Z.min (Z.of_nat n) (len - 1)) by lia.
    assert (0 <= Z.min (Z.of_nat n) (len - 1)) by lia.
    rewrite <- (slice_glue buffer k 1) by lia. rewrite E1. cbn [app].
    rewrite splice_insert by (rewrite ?zlen_slice by lia; lia).
    rewrite Z.sub_add_distr, !Z.add_assoc. unfold u32. rewrite (Z.add_mod_idemp_l (a + 1)) by lia. done.
Qed.

(** What a driver call does to the chip: each cell and the status. *)
Definition unprotected (f : F) : Prop := protect_value c (flash_read_sr c f (sr_size c)) = protect_none c.

Definition programmed (f : F) (a : Z) (bs : list Z) (x : Z) : Z :=
  if (a <=? x) && (x <? a + zlen bs) then Z.land (cell f x) (nth (Z.to_nat (x - a)) bs 0) else cell f x.

Lemma unprotected_program f p bs : unprotected f -> unprotected (page_program f p bs).
Proof. unfold unprotected, flash_read_sr. by rewrite rdsr_program, rdsr2_program. Qed.

Lemma unprotected_erase f s : unprotected f -> unprotected (sector_erase f s).
Proof. unfold unprotected, flash_read_sr. by rewrite rdsr_erase, rdsr2_erase. Qed.

(** A page buffer whose bytes change nothing: the page itself, or all ones. *)
Definition neutral (f : F) (addr : Z) (pb : list Z) : Prop :=
  zlen pb = PAGE /\ forall x, addr <= x < addr + PAGE -> Z.land (cell f x) (nth (Z.to_nat (x - addr)) pb 0) = cell f x.

Lemma neutral_ones f addr : neutral f addr (replicate 32 0xFF).
Proof.
  split; [done|]. intros x Hx. unfold PAGE in *. rewrite nth_lookup, lookup_replicate_2 by lia.
  change (default 0 (Some 255)) with (Z.ones 8). rewrite Z.land_ones by lia. apply Z.mod_small.
  pose proof (cell_byte f x) as Hb. unfold is_byte in Hb. lia.
Qed.

Lemma neutral_page f addr : neutral f addr (cells f addr 32).
Proof.
  split; [by rewrite zlen_cells|]. intros x Hx. unfold PAGE in *.
  rewrite nth_lookup, cells_lookup by lia. cbn [from_option id].
  replace (addr + (x - addr)) with x by lia. apply Z.land_diag.
Qed.

(** Programming a neutral page with the request's bytes spliced in. *)
Lemma program_splice f addr pb i bs x :
  unprotected f -> neutral f addr pb -> 0 <= addr < CHIP -> addr mod PAGE = 0 ->
  0 <= i -> i + zlen bs <= PAGE ->
  cell (page_program f addr (splice pb i bs)) x = programmed f (addr + i) bs x.
Proof.
  intros Hu [Hz Hn] Ha Hm Hi Hl. pose proof (zlen_nonneg bs).
  rewrite cell_program by (try done; rewrite zlen_splice by lia; done). unfold programmed.
  destruct ((addr <=? x) && (x <? addr + PAGE)) eqn:E.
  - zbool. rewrite nth_splice by lia.
    replace ((i <=? x - addr) && (x - addr <? i + zlen bs)) with ((addr + i <=? x) && (x <? addr + i + zlen bs))
      by (apply eq_true_iff_eq; rewrite !andb_true_iff, !Z.leb_le, !Z.ltb_lt; lia).
    destruct (_ && _); [do 2 f_equal; lia|]. apply Hn. lia.
  - apply andb_false_iff in E. rewrite Z.leb_gt, Z.ltb_ge in E.
    destruct ((addr + i <=? x) && _) eqn:E'; [|done]. zbool. lia.
Qed.

(** Two requests that follow each other are one. *)
Lemma programmed_app f f' a bs bs' x :
  (forall y, cell f' y = programmed f a bs y) ->
  programmed f' (a + zlen bs) bs' x = programmed f a (bs ++ bs') x.
Proof.
  intros Hc. unfold programmed. rewrite Hc. unfold programmed. rewrite zlen_app.
  pose proof (zlen_nonneg bs). pose proof (zlen_nonneg bs').
  destruct (decide (a <= x < a + zlen bs)) as [Hin|Hout].
  - rewrite (proj2 (Z.leb_gt (a + zlen bs) x)) by lia. cbn [andb].
    rewrite (proj2 (Z.leb_le a x)), (proj2 (Z.ltb_lt x (a + zlen bs))), (proj2 (Z.ltb_lt x (a + (zlen bs + zlen bs')))) by lia.
    cbn [andb]. by rewrite app_nth1 by (unfold zlen in *; lia).
  - replace ((a <=? x) && (x <? a + zlen bs)) with false
      by (symmetry; apply andb_false_iff; rewrite Z.leb_gt, Z.ltb_ge; lia).
    replace ((a <=? x) && (x <? a + (zlen bs + zlen bs'))) with ((a + zlen bs <=? x) && (x <? a + zlen bs + zlen bs'))
      by (apply eq_true_iff_eq; rewrite !andb_true_iff, !Z.leb_le, !Z.ltb_lt; lia).
    destruct (_ && _) eqn:E; [|done]. zbool. rewrite app_nth2 by (unfold zlen in *; lia).
    do 2 f_equal. unfold zlen. lia.
Qed.

(** A call whose whole effect on the chip is to program [bs] at [a]. *)
Definition programs (f f' : F) (a : Z) (bs : list Z) : Prop :=
  rdsr f' = rdsr f /\ rdsr2 f' = rdsr2 f /\ forall x, cell f' x = programmed f a bs x.

Lemma unprotected_status f f' : rdsr f' = rdsr f -> rdsr2 f' = rdsr2 f -> unprotected f -> unprotected f'.
Proof. unfold unprotected, flash_read_sr. by intros -> ->. Qed.

Lemma programs_nil f a : programs f f a [].
Proof.
  split_and!; [done..|]. intros x. unfold programmed. rewrite zlen_nil.
  destruct (_ && _) eqn:E; [zbool; lia|done].
Qed.

Lemma programs_app f f' f'' a bs bs' :
  programs f f' a bs -> programs f' f'' (a + zlen bs) bs' -> programs f f'' a (bs ++ bs').
Proof.
  intros (H1 & H2 & H3) (H1' & H2' & H3'). split_and!; [congruence..|].
  intros x. rewrite H3'. by apply programmed_app.
Qed.

Lemma program_page_splice f addr pb i bs :
  unprotected f -> neutral f addr pb -> 0 <= addr < CHIP -> addr mod PAGE = 0 ->
  0 <= i -> i + zlen bs <= PAGE ->
  exists f', program_page c f addr (splice pb i bs) = Done f' /\ programs f f' (addr + i) bs.
Proof.
  intros Hu Hn Ha Hm Hi Hl. exists (page_program f addr (splice pb i bs)). split.
  - unfold program_page. by rewrite (proj2 (Z.ltb_lt addr CHIP)) by lia.
  - split_and!; [apply rdsr_program|apply rdsr2_program|]. intros x. by apply program_splice.
Qed.

Lemma write_loop_run fuel f pb buffer k a len :
  unprotected f -> neutral f (a - a mod 32) pb -> 0 <= a -> 0 <= len -> a + len <= CHIP ->
  0 <= k -> k + len <= zlen buffer -> (Z.to_nat len <= fuel)%nat ->
  exists f', write_loop c fuel f pb (a - a mod 32) buffer k a len = Done f' /\
    programs f f' a (slice buffer k len).
Proof.
  revert f pb k a len. induction fuel as [|fuel IH]; intros f pb k a len Hu Hn Ha Hlen Hin Hk Hb Hfuel;
    cbn [write_loop].
  { replace len with 0 by lia. exists f. split; [done|]. apply programs_nil. }
  zcase; [subst; exists f; split; [done|apply programs_nil]|].
  pose proof (Z.mod_pos_bound a 32). unfold CHIP in Hin.
  assert (Hpb : exists pb', (if len <? 32 then flash_read_data c f (a - a mod 32) 32 else Done pb) = Done pb'
                            /\ neutral f (a - a mod 32) pb').
  { destruct (len <? 32) eqn:El; [|by exists pb]. exists (cells f (a - a mod 32) 32). split; [|apply neutral_page].
    apply read_exact; unfold CHIP; zbool; Z.to_euclidean_division_equations; lia. }
  destruct Hpb as (pb' & -> & Hn'). cbn [mbind outcome_bind].
  rewrite write_copy_run by (rewrite ?(proj1 Hn'); unfold PAGE; lia). cbn [mbind outcome_bind].
  set (m := Z.min (Z.of_nat (Z.to_nat (32 - a mod 32))) len).
  assert (0 < m) by lia.
  destruct (program_page_splice f (a - a mod 32) pb' (a mod 32) (slice buffer k m)) as (f1 & -> & Hp1);
    [done..|unfold CHIP; Z.to_euclidean_division_equations; lia|unfold PAGE; Z.to_euclidean_division_equations; lia|lia|
     rewrite zlen_slice by lia; unfold PAGE; lia|]. cbn [mbind outcome_bind].
  replace (a - a mod 32 + a mod 32) with a in Hp1 by lia. rewrite !u32_small by lia.
  assert (Hu1 : unprotected f1) by (destruct Hp1 as (? & ? & _); by apply (unprotected_status f)).
  destruct (Z.eq_dec m len) as [Em|Em].
  - exists f1. rewrite Em in *. rewrite Z.sub_diag. split; [by destruct fuel|done].
  - replace (a - a mod 32 + 32) with (a + m - (a + m) mod 32) by (Z.to_euclidean_division_equations; lia).
    destruct (IH f1 (replicate 32 255) (k + m) (a + m) (len - m)) as (f2 & -> & Hp2);
      [done|apply neutral_ones|unfold CHIP; lia..|].
    exists f2. split; [done|]. rewrite (slice_split buffer k m len) by lia.
    apply (programs_app f f1); [done|]. by rewrite zlen_slice by lia.
Qed.

(** A write takes the first [len] bytes at [buffer]. *)
Lemma write_prefix f buffer address len :
  unprotected f -> flash_size c <= CHIP -> 0 <= address -> 0 <= len -> len <= zlen buffer ->
  address + len <= flash_size c -> address < flash_size c ->
  exists f', flash_write_data c f buffer address len = Done f' /\ programs f f' address (slice buffer 0 len).
Proof.
  intros Hu Hc Ha Hlen Hz Hin Hlt. unfold flash_write_data, CHIP in *.
  rewrite page_of_mod by (unfold is_u32; lia). pose proof (Z.mod_pos_bound address 32).
  rewrite u32_small by (Z.to_euclidean_division_equations; lia).
  rewrite !(proj2 (Z.leb_gt _ _)), !(proj2 (Z.ltb_ge _ _)) by lia. cbn [orb].
  assert (Hpb : exists pb, (if negb (address mod 32 =? 0) then flash_read_data c f (address - address mod 32) 32
                            else Done (replicate 32 0xFF)) = Done pb
                           /\ neutral f (address - address mod 32) pb).
  { destruct (negb _); [|exists (replicate 32 255); split; [done|apply neutral_ones]].
    exists (cells f (address - address mod 32) 32). split; [|apply neutral_page].
    apply read_exact; unfold CHIP; Z.to_euclidean_division_equations; lia. }
  destruct Hpb as (pb & -> & Hn). cbn [mbind outcome_bind].
  destruct (write_loop_run (Z.to_nat len) f pb buffer 0 address len) as (f' & -> & Hp);
    [done|done|unfold CHIP; lia..|].
  by exists f'.
Qed.

Lemma write_exact f buffer address len :
  unprotected f -> flash_size c <= CHIP -> 0 <= address -> 0 <= len -> zlen buffer = len ->
  address + len <= flash_size c -> address < flash_size c ->
  exists f', flash_write_data c f buffer address len = Done f' /\ programs f f' address buffer.
Proof.
  intros Hu Hc Ha Hlen Hz Hin Hlt. destruct (write_prefix f buffer address len) as (f' & E & Hp); [done..|lia|done|done|].
  exists f'. by rewrite slice_all in Hp by lia.
Qed.

(** C17: On an unprotected chip a write programs exactly the [len] bytes from
    [address] (each cell becomes the AND of its old value and the new byte,
    so an erased cell gets the byte), leaves every other cell of the chip as
    it was - the rest of the first and last page included - and always
    ends. *)
Theorem flash_write_data_exact f buffer address len :
  unprotected f -> flash_size c <= CHIP -> 0 <= address -> 0 <= len -> zlen buffer = len ->
  address + len <= flash_size c -> address < flash_size c ->
  exists f', flash_write_data c f buffer address len = Done f' /\ programs f f' address buffer.
Proof. apply write_exact. Qed.

(* ------------------------------------------------------------------ *)
(** ** Erases *)

Definition erased (f : F) (a b x : Z) : Z := if (a <=? x) && (x <? b) then 255 else cell f x.

Definition erases (f f' : F) (a b : Z) : Prop :=
  rdsr f' = rdsr f /\ rdsr2 f' = rdsr2 f /\ forall x, cell f' x = erased f a b x.

Lemma sector_of_mod a : 0 <= a < CHIP -> Z.land a 0xFFF000 = a - a mod SECTOR.
Proof.
  unfold CHIP, SECTOR. intros Ha.
  assert (E : Z.land a 0xFFF000 = Z.ldiff (Z.land a (Z.ones 24)) (Z.ones 12)).
  { change 0xFFF000 with (Z.ldiff (Z.ones 24) (Z.ones 12)). Z.bitwise. by rewrite andb_assoc. }
  rewrite E, Z.land_ones, Z.mod_small, Z.ldiff_ones_r, Z.shiftl_mul_pow2, Z.shiftr_div_pow2 by lia.
  change (2 ^ 12) with 4096. pose proof (Z.div_mod a 4096). lia.
Qed.

Lemma flash_erase_sector_run f a :
  unprotected f -> flash_size c <= CHIP -> 0 <= a < flash_size c -> a mod SECTOR = 0 ->
  erases f (flash_erase_sector c f a) a (a + SECTOR).
Proof.
  intros Hu Hc Ha Hm. unfold flash_erase_sector. rewrite sector_of_mod by lia.
  rewrite Hm, Z.sub_0_r, (proj2 (Z.leb_gt _ _)) by lia.
  split_and!; [apply rdsr_erase|apply rdsr2_erase|]. intros x. apply cell_erase; [done|lia|done].
Qed.

Lemma erase_loop_run n f start i :
  unprotected f -> flash_size c <= CHIP -> 0 <= start -> start mod SECTOR = 0 -> 0 <= i ->
  start + (i + Z.of_nat n) * SECTOR <= flash_size c ->
  erases f (erase_loop c n f start i) (start + i * SECTOR) (start + (i + Z.of_nat n) * SECTOR).
Proof.
  unfold CHIP, SECTOR. revert f i. induction n as [|n IH]; intros f i Hu Hc Hs Hm Hi Hin; cbn [erase_loop].
  { split_and!; [done..|]. intros x. unfold erased. destruct (_ && _) eqn:E; [zbool; lia|done]. }
  rewrite Z.shiftl_mul_pow2 by lia. change (2 ^ 12) with 4096. rewrite (u32_small (i * 4096)), u32_small by lia.
  destruct (flash_erase_sector_run f (start + i * 4096)) as (H1 & H2 & H3);
    [done|unfold CHIP; lia|lia|unfold SECTOR; Z.to_euclidean_division_equations; lia|].
  destruct (IH (flash_erase_sector c f (start + i * 4096)) (i + 1)) as (H1' & H2' & H3');
    [by apply (unprotected_status f)|lia..|].
  split_and!; [congruence..|]. intros x. rewrite H3'. unfold erased. rewrite H3. unfold erased, SECTOR.
  destruct (_ && _) eqn:E; [zbool|destruct ((start + i * 4096 <=? x) && (x <? _ + 4096)) eqn:E2; [zbool|]].
  - by rewrite (proj2 (Z.leb_le _ _)), (proj2 (Z.ltb_lt _ _)) by lia.
  - by rewrite (proj2 (Z.leb_le _ _)), (proj2 (Z.ltb_lt _ _)) by lia.
  - destruct (_ && (x <? start + (i + Z.of_nat (S n)) * 4096)) eqn:E3; [|done].
    apply andb_false_iff in E, E2. zbool. rewrite ?Z.leb_gt, ?Z.ltb_ge in E, E2. lia.
Qed.

Lemma partition_aligned p : 0 <= partition_start_addr (bk_flash_get_info p) <= 0x1e1000 /\
  partition_start_addr (bk_flash_get_info p) mod SECTOR = 0.
Proof. destruct p; decide_closed. Qed.

Lemma erase_exact f p off_set size :
  unprotected f -> flash_size c <= CHIP -> 0 <= off_set -> 0 < size ->
  partition_start_addr (bk_flash_get_info p) + off_set + size <= flash_size c ->
  flash_size c mod SECTOR = 0 ->
  erases f (bk_flash_erase c f p off_set size)
    (partition_start_addr (bk_flash_get_info p) + off_set / SECTOR * SECTOR)
    (partition_start_addr (bk_flash_get_info p) + ((off_set + size - 1) / SECTOR + 1) * SECTOR).
Proof.
  intros Hu Hc Ho Hs Hin Hm. destruct (partition_aligned p) as [Hp Hpm].
  unfold bk_flash_erase, CHIP, SECTOR in *. rewrite !Z.shiftr_div_pow2 by lia. change (2 ^ 12) with 4096.
  rewrite u32_small by lia.
  assert (off_set / 4096 <= (off_set + size - 1) / 4096) by (apply Z.div_le_mono; lia).
  pose proof (erase_loop_run (Z.to_nat ((off_set + size - 1) / 4096 - off_set / 4096 + 1)) f
    (partition_start_addr (bk_flash_get_info p)) (off_set / 4096)) as Hrun. unfold CHIP, SECTOR in Hrun.
  rewrite Z2Nat.id in Hrun by lia.
  replace (off_set / 4096 + ((off_set + size - 1) / 4096 - off_set / 4096 + 1)) with
    ((off_set + size - 1) / 4096 + 1) in Hrun by lia.
  apply Hrun; [done|done|lia|done|apply Z.div_pos; lia|].
  Z.to_euclidean_division_equations. lia.
Qed.

(** Erasing a byte range of a partition erases exactly the 4 KB sectors
    the range touches: a cell of the chip becomes 255 when its sector holds a
    byte of the range and keeps its value otherwise. *)
Theorem bk_flash_erase_sectors f p off_set size :
  unprotected f -> flash_size c <= CHIP -> 0 <= off_set -> 0 < size ->
  partition_start_addr (bk_flash_get_info p) + off_set + size <= flash_size c ->
  flash_size c mod SECTOR = 0 ->
  erases f (bk_flash_erase c f p off_set size)
    (partition_start_addr (bk_flash_get_info p) + off_set / SECTOR * SECTOR)
    (partition_start_addr (bk_flash_get_info p) + ((off_set + size - 1) / SECTOR + 1) * SECTOR).
Proof. apply erase_exact. Qed.
End Pages.

(* ------------------------------------------------------------------ *)
(** ** Block protection *)

(** What every row of the table satisfies: the protect field lies in the low
    byte above the two volatile bits, every setting fits it, and a level with
    [CMP] has that bit in the second register. *)
Definition row_ok (c : flash_config_t) : bool :=
  (protect_mask c =? Z.ones (Z.log2 (protect_mask c + 1)))
  && (2 <=? protect_post c) && (protect_post c + Z.log2 (protect_mask c + 1) <=? 8)
  && ((cmp_post c =? 0) || ((8 <=? cmp_post c) && (cmp_post c <? 16) && (sr_size c =? 2)))
  && ((sr_size c =? 1) || (sr_size c =? 2))
  && forallb (fun t =>
       (Z.land (setting c t) 0xff <=? protect_mask c)
       && ((setting c t <? 256) || ((setting c t <? 512) && (8 <=? cmp_post c)))
       && (0 <=? setting c t))
     [FLASH_PROTECT_NONE; FLASH_PROTECT_ALL; FLASH_PROTECT_HALF; FLASH_UNPROTECT_LAST_BLOCK].

Lemma flash_config_ok c : c ∈ flash_config -> row_ok c = true.
Proof.
  intros Hin. assert (Hall : forallb row_ok flash_config = true) by reflexivity.
  rewrite forallb_forall in Hall. by apply Hall, list_elem_of_In.
Qed.

(** Writing a [k]-bit field at [pp] and a bit at [cp]. *)
Definition put_field (s pp k param cp cmp : Z) : Z :=
  Z.lor (Z.land (Z.lor (Z.land s (Z.lnot (Z.shiftl (Z.ones k) pp))) (Z.shiftl param pp))
                (Z.lnot (Z.shiftl 1 cp)))
        (Z.shiftl cmp cp).

Lemma testbit_one n : 0 <= n -> Z.testbit 1 n = (n =? 0).
Proof.
  intros Hn. destruct (Z.eqb_spec n 0) as [->|]; [done|]. by apply (testbit_high 1); lia.
Qed.

Lemma put_field_bits s pp k param cp cmp n :
  0 <= n -> 0 <= pp -> 0 <= k -> 0 <= cp -> ~ pp <= cp < pp + k -> 0 <= param < 2 ^ k -> 0 <= cmp < 2 ->
  Z.testbit (put_field s pp k param cp cmp) n =
    if (pp <=? n) && (n <? pp + k) then Z.testbit param (n - pp)
    else if n =? cp then Z.testbit cmp 0 else Z.testbit s n.
Proof.
  intros Hn Hpp Hk Hcp Hdis Hpar Hcmp. unfold put_field.
  rewrite !Z.lor_spec, !Z.land_spec, Z.lor_spec, !Z.land_spec, !Z.lnot_spec, !Z.shiftl_spec by lia.
  destruct ((pp <=? n) && (n <? pp + k)) eqn:E; zbool.
  - rewrite Z.testbit_ones_nonneg, (proj2 (Z.ltb_lt (n - pp) k)) by lia.
    assert (Hc : forall x, 0 <= x < 2 -> Z.testbit x (n - cp) = false).
    { intros x Hx. destruct (decide (n < cp)); [apply Z.testbit_neg_r; lia|apply (testbit_high 1); lia]. }
    rewrite !Hc by lia. cbn. by rewrite andb_false_r, andb_true_r, orb_false_r.
  - assert (Ho : Z.testbit (Z.ones k) (n - pp) = false /\ Z.testbit param (n - pp) = false).
    { apply andb_false_iff in E. rewrite Z.leb_gt, Z.ltb_ge in E. destruct (decide (n < pp)).
      - by rewrite !Z.testbit_neg_r by lia.
      - rewrite Z.testbit_ones_nonneg, (proj2 (Z.ltb_ge (n - pp) k)) by lia.
        split; [done|]. apply (testbit_high k); lia. }
    destruct Ho as [-> ->]. destruct (Z.eqb_spec n cp) as [->|Hne].
    + rewrite Z.sub_diag. cbn. by rewrite andb_false_r.
    + assert (Hc : forall x, 0 <= x < 2 -> Z.testbit x (n - cp) = false).
      { intros x Hx. destruct (decide (n < cp)); [apply Z.testbit_neg_r; lia|apply (testbit_high 1); lia]. }
      rewrite !Hc by lia. cbn. by rewrite andb_true_r, !orb_false_r, andb_true_r.
Qed.

Section Protection.
Context {c : flash_config_t} {F : Type} `{Nor c F}.
Implicit Types (f : F).

(** The status word [set_flash_protect] leaves. *)
Definition protected_sr (s : Z) (t : PROTECT_TYPE) : Z :=
  put_field s (protect_post c) (Z.log2 (protect_mask c + 1)) (Z.land (setting c t) 0xff)
    (cmp_post c) (Z.land (Z.shiftr (setting c t) 8) 1).

(** What [row_ok] gives for one level. *)
Lemma row_ok_level t : row_ok c = true ->
  let k := Z.log2 (protect_mask c + 1) in
  protect_mask c = Z.ones k /\ 0 <= k /\ 2 <= protect_post c /\ protect_post c + k <= 8 /\
  (cmp_post c = 0 /\ setting c t < 256 \/ 8 <= cmp_post c < 16 /\ sr_size c = 2) /\
  (sr_size c = 1 \/ sr_size c = 2) /\
  0 <= Z.land (setting c t) 0xff < 2 ^ k /\
  Z.land (Z.shiftr (setting c t) 8) 0xff = Z.land (Z.shiftr (setting c t) 8) 1 /\
  0 <= setting c t < 512.
Proof.
  unfold row_ok. intros Hok. zbool. set (k := Z.log2 (protect_mask c + 1)) in *.
  assert (0 <= k) by apply Z.log2_nonneg.
  match goal with H : forallb _ _ = true |- _ => rewrite forallb_forall in H; rename H into Hall end.
  specialize (Hall t). rewrite !andb_true_iff, orb_true_iff, andb_true_iff in Hall.
  rewrite !Z.leb_le, !Z.ltb_lt in Hall. destruct Hall as [[Hm Hs] Hnn]; [destruct t; cbn; tauto|].
  match goal with H : (cmp_post c =? 0) || _ = true |- _ => rename H into Hcp end.
  match goal with H : (sr_size c =? 1) || _ = true |- _ => rename H into Hsz end.
  match goal with H : protect_mask c = Z.ones k |- _ => rename H into Hk end.
  rewrite !orb_true_iff, ?andb_true_iff, !Z.eqb_eq, ?Z.leb_le, ?Z.ltb_lt in Hcp, Hsz.
  assert (Hlt : setting c t < 512) by lia.
  assert (Hsh : 0 <= setting c t / 2 ^ 8 < 2).
  { change (2 ^ 8) with 256. Z.to_euclidean_division_equations. lia. }
  rewrite Z.shiftr_div_pow2 by lia. rewrite Hk, Z.ones_equiv in Hm.
  assert (Hland : forall m, 0 < m -> Z.land (setting c t / 2 ^ 8) (Z.ones m) = setting c t / 2 ^ 8).
  { intros m Hpos. rewrite Z.land_ones by lia. apply Z.mod_small. split; [lia|].
    apply Z.lt_le_trans with (2 ^ 1); [lia|]. apply Z.pow_le_mono_r; lia. }
  split_and!; try done; try lia.
  - apply Z.land_nonneg. lia.
  - pose proof (Hland 8) as E8. pose proof (Hland 1) as E1. change (Z.ones 8) with 0xff in E8.
    change (Z.ones 1) with 1 in E1. by rewrite E8, E1 by lia.
Qed.

(** The status word of an idle chip. *)
Lemma flash_read_sr_idle f : (sr_size c = 1 \/ sr_size c = 2) ->
  let s := flash_read_sr c f (sr_size c) in
  0 <= s < 2 ^ (8 * sr_size c) /\ Z.testbit s 0 = false /\ Z.testbit s 1 = false.
Proof.
  intros Hsz. unfold flash_read_sr, sr_of.
  pose proof (rdsr_range f) as Hr. pose proof (rdsr2_range f) as Hr2. unfold is_byte in *.
  assert (H01 : Z.testbit (rdsr f) 0 = false /\ Z.testbit (rdsr f) 1 = false).
  { split; [pose proof (f_equal (fun z => Z.testbit z 0) (rdsr_idle f)) as E
            |pose proof (f_equal (fun z => Z.testbit z 1) (rdsr_idle f)) as E];
      cbn beta in E; rewrite Z.land_spec, Z.bits_0 in E; by rewrite andb_true_r in E. }
  destruct H01 as [H0 H1].
  change 0xff with (Z.ones 8). rewrite !Z.land_ones, !Z.mod_small by lia.
  destruct Hsz as [-> | ->]; cbn [Z.eqb Pos.eqb]; [change (8 * 1) with 8; split_and!; (done || lia)|].
  change (8 * 2) with 16. split_and!; [apply u16_range..| |];
    rewrite u16_testbit, Z.lor_spec, Z.shiftl_spec_low, ?H0, ?H1 by lia; done.
Qed.

(** Writing a status word and reading it back. *)
Lemma flash_write_sr_read f v : (sr_size c = 1 \/ sr_size c = 2) ->
  0 <= v < 2 ^ (8 * sr_size c) -> Z.testbit v 0 = false -> Z.testbit v 1 = false ->
  flash_read_sr c (flash_write_sr c f (sr_size c) v) (sr_size c) = v.
Proof.
  intros Hsz Hv H0 H1. unfold flash_read_sr, flash_write_sr, sr_of.
  assert (Hbit : forall n, 0 <= n -> Z.testbit (Z.land (Z.land v 0xFC) 0xFF) n = (n <? 8) && Z.testbit v n).
  { intros n Hn. change 0xFC with (Z.lxor (Z.ones 8) (Z.ones 2)). change 0xff with (Z.ones 8).
    rewrite !Z.land_spec, Z.lxor_spec, !Z.testbit_ones_nonneg by lia.
    assert (Hc : n = 0 \/ n = 1 \/ 2 <= n) by lia. destruct Hc as [->|[->|Hge]]; [by rewrite H0|by rewrite H1|].
    rewrite (proj2 (Z.ltb_ge n 2)) by lia. destruct (n <? 8); cbn; by rewrite ?andb_true_r, ?andb_false_r. }
  destruct Hsz as [E|E]; rewrite E in *; cbn [Z.eqb Pos.eqb]; rewrite ?rdsr_wrsr, ?rdsr_wrsr2, ?rdsr2_wrsr2.
  - change (8 * 1) with 8 in Hv. apply Z.bits_inj'. intros n Hn. rewrite Hbit by done.
    destruct (n <? 8) eqn:En; zbool; [done|]. symmetry. by apply (testbit_high 8).
  - change (8 * 2) with 16 in Hv. apply (bits_below_eq 16); [lia|apply u16_range|lia|].
    intros n Hn. rewrite u16_testbit, Z.lor_spec, Hbit by lia. rewrite (proj2 (Z.ltb_lt n 16)) by lia. cbn [andb].
    destruct (n <? 8) eqn:En; zbool; cbn [andb].
    + by rewrite Z.shiftl_spec_low, orb_false_r by lia.
    + change 0xff with (Z.ones 8). rewrite Z.shiftl_spec, !Z.land_spec, Z.shiftr_spec, Z.testbit_ones_nonneg by lia.
      rewrite (proj2 (Z.ltb_lt (n - 8) 8)) by lia. rewrite !andb_true_r.
      cbn [orb]. f_equal. lia.
Qed.

(** The bit of [protected_sr], level by level. *)
Lemma protected_sr_bits s t n : row_ok c = true -> 0 <= n ->
  Z.testbit (protected_sr s t) n =
    if (protect_post c <=? n) && (n <? protect_post c + Z.log2 (protect_mask c + 1))
    then Z.testbit (Z.land (setting c t) 0xff) (n - protect_post c)
    else if n =? cmp_post c then Z.testbit (Z.land (Z.shiftr (setting c t) 8) 1) 0 else Z.testbit s n.
Proof.
  intros Hok Hn. pose proof (row_ok_level t Hok) as Hl. cbn beta zeta in Hl. unfold protected_sr.
  apply put_field_bits; try lia. pose proof (Z.land_spec (setting c t / 2 ^ 8) 1) as _.
  change 1 with (Z.ones 1). rewrite Z.land_ones by lia. apply Z.mod_pos_bound. lia.
Qed.

(** The level's [CMP] is 0 when the bit has no place of its own. *)
Lemma row_ok_cmp t : row_ok c = true -> cmp_post c = 0 -> Z.land (Z.shiftr (setting c t) 8) 1 = 0.
Proof.
  intros Hok Hc. pose proof (row_ok_level t Hok) as Hl. cbn beta zeta in Hl.
  rewrite Z.shiftr_div_pow2, Z.div_small by lia. done.
Qed.

Lemma protected_sr_wf s t : row_ok c = true ->
  0 <= s < 2 ^ (8 * sr_size c) -> Z.testbit s 0 = false -> Z.testbit s 1 = false ->
  0 <= protected_sr s t < 2 ^ (8 * sr_size c) /\
  Z.testbit (protected_sr s t) 0 = false /\ Z.testbit (protected_sr s t) 1 = false.
Proof.
  intros Hok Hs H0 H1. pose proof (row_ok_level t Hok) as Hl. cbn beta zeta in Hl.
  pose proof (row_ok_cmp t Hok) as Hcmp. split; [|split].
  - assert (0 <= protected_sr s t).
    { unfold protected_sr, put_field. apply Z.lor_nonneg. split.
      - apply Z.land_nonneg. left. apply Z.lor_nonneg. split; [apply Z.land_nonneg; lia|].
        apply Z.shiftl_nonneg. lia.
      - apply Z.shiftl_nonneg, Z.land_nonneg. lia. }
    split; [done|]. assert (E : protected_sr s t = protected_sr s t mod 2 ^ (8 * sr_size c)); [|rewrite E; apply Z.mod_pos_bound; lia].
    apply Z.bits_inj'. intros n Hn. rewrite Z.testbit_mod_pow2 by lia.
    destruct (n <? 8 * sr_size c) eqn:En; [done|]. zbool. cbn [andb]. rewrite protected_sr_bits by done.
    rewrite (proj2 (Z.ltb_ge n (protect_post c + _))) by lia. rewrite andb_false_r.
    rewrite (proj2 (Z.eqb_neq n (cmp_post c))) by lia. apply (testbit_high (8 * sr_size c)); lia.
  - rewrite protected_sr_bits by (done || lia). rewrite (proj2 (Z.leb_gt (protect_post c) 0)) by lia. cbn [andb].
    destruct (Z.eqb_spec 0 (cmp_post c)); [|done]. by rewrite Hcmp.
  - rewrite protected_sr_bits by (done || lia). rewrite (proj2 (Z.leb_gt (protect_post c) 1)) by lia. cbn [andb].
    destruct (Z.eqb_spec 1 (cmp_post c)); [lia|done].
Qed.

(** A status word that already has the level is left as it is. *)
Lemma protected_sr_same s t : row_ok c = true ->
  Z.shiftl (Z.land (setting c t) 0xff) (protect_post c) = Z.land s (Z.shiftl (protect_mask c) (protect_post c)) ->
  Z.shiftl (Z.land (Z.shiftr (setting c t) 8) 0xff) (cmp_post c) = Z.land s (Z.shiftl 1 (cmp_post c)) ->
  protected_sr s t = s.
Proof.
  intros Hok Hf Hcb. pose proof (row_ok_level t Hok) as Hl. cbn beta zeta in Hl.
  apply Z.bits_inj'. intros n Hn. rewrite protected_sr_bits by done.
  destruct ((protect_post c <=? n) && _) eqn:E; [zbool|destruct (Z.eqb_spec n (cmp_post c)) as [->|]; [|done]].
  - pose proof (f_equal (fun z => Z.testbit z n) Hf) as Eb. cbn beta in Eb.
    rewrite Z.land_spec, !Z.shiftl_spec in Eb by lia. rewrite Eb, (proj1 Hl), Z.testbit_ones_nonneg by lia.
    by rewrite (proj2 (Z.ltb_lt _ _)), andb_true_r by lia.
  - pose proof (f_equal (fun z => Z.testbit z (cmp_post c)) Hcb) as Eb. cbn beta in Eb.
    rewrite Z.land_spec, !Z.shiftl_spec, Z.sub_diag in Eb by lia.
    destruct Hl as (_ & _ & _ & _ & _ & _ & _ & Ec & _). rewrite <- Ec, Eb. by rewrite andb_true_r.
Qed.

Lemma set_flash_protect_sr f t : row_ok c = true ->
  flash_read_sr c (set_flash_protect c f t) (sr_size c) = protected_sr (flash_read_sr c f (sr_size c)) t /\
  forall a, cell (set_flash_protect c f t) a = cell f a.
Proof.
  intros Hok. pose proof (row_ok_level t Hok) as Hl. cbn beta zeta in Hl.
  destruct (flash_read_sr_idle f) as (Hs & H0 & H1); [tauto|].
  destruct (protected_sr_wf (flash_read_sr c f (sr_size c)) t Hok Hs H0 H1) as (Hp & Hp0 & Hp1).
  unfold set_flash_protect. destruct (_ || _) eqn:E.
  - assert (Ev : forall s, Z.lor (Z.land (Z.lor (Z.land s (Z.lnot (Z.shiftl (protect_mask c) (protect_post c))))
                                 (Z.shiftl (Z.land (setting c t) 0xff) (protect_post c)))
                                (Z.lnot (Z.shiftl 1 (cmp_post c))))
                         (Z.shiftl (Z.land (Z.land (Z.shiftr (setting c t) 8) 0xff) 1) (cmp_post c))
                         = protected_sr s t).
    { intros s. unfold protected_sr, put_field. rewrite <- (proj1 Hl). do 2 f_equal. by rewrite <- Z.land_assoc. }
    rewrite Ev. assert (2 ^ (8 * sr_size c) <= 2 ^ 16) by (apply Z.pow_le_mono_r; lia).
    rewrite u16_small by lia. split; [apply flash_write_sr_read; tauto|].
    intros a. unfold flash_write_sr. repeat case_match; by rewrite ?cell_wrsr, ?cell_wrsr2.
  - zbool. split; [|done]. symmetry. by apply protected_sr_same.
Qed.

Lemma protected_sr_value s t : row_ok c = true -> protect_value c (protected_sr s t) = setting c t.
Proof.
  intros Hok. pose proof (row_ok_level t Hok) as Hl. cbn beta zeta in Hl. unfold protect_value.
  set (k := Z.log2 (protect_mask c + 1)) in *.
  assert (Ep : Z.land (Z.shiftr (protected_sr s t) (protect_post c)) (protect_mask c) = Z.land (setting c t) 0xff).
  { rewrite (proj1 Hl). apply Z.bits_inj'. intros n Hn.
    rewrite Z.land_spec, Z.shiftr_spec, Z.testbit_ones_nonneg, protected_sr_bits by (done || lia). fold k.
    rewrite (proj2 (Z.leb_le _ _)) by lia. cbn [andb]. destruct (n <? k) eqn:En; zbool.
    - rewrite (proj2 (Z.ltb_lt _ _)) by lia. rewrite andb_true_r. f_equal. lia.
    - rewrite andb_false_r. symmetry. apply (testbit_high k); lia. }
  assert (Ec : Z.land (Z.shiftr (protected_sr s t) (cmp_post c)) 1 = Z.land (Z.shiftr (setting c t) 8) 1).
  { apply Z.bits_inj'. intros n Hn. rewrite !Z.land_spec, !Z.shiftr_spec, testbit_one by lia.
    destruct (Z.eqb_spec n 0) as [->|]; [|by rewrite !andb_false_r]. rewrite !andb_true_r, !Z.add_0_l.
    rewrite protected_sr_bits by (done || lia). fold k. rewrite Z.eqb_refl.
    destruct ((_ <=? _) && _) eqn:E; [zbool; lia|]. rewrite Z.land_spec, andb_true_r.
    rewrite Z.shiftr_spec by lia. done. }
  rewrite Ep, Ec. destruct Hl as (_ & _ & _ & _ & _ & _ & _ & <- & Hlt).
  apply (bits_below_eq 9); [lia| |lia|].
  - apply lor_word; [lia| |].
    + assert (0 <= Z.land (setting c t ≫ 8) 255 < 2); [|rewrite Z.shiftl_mul_pow2; lia].
      rewrite Z.shiftr_div_pow2 by lia. apply (land_word 1); [lia| |lia]. Z.to_euclidean_division_equations. lia.
    + pose proof (land_word 8 255 (setting c t)) as Hw. rewrite Z.land_comm. lia.
  - intros n Hn. change 0xff with (Z.ones 8).
    rewrite Z.lor_spec, Z.shiftl_spec, !Z.land_spec, !(Z.testbit_ones_nonneg 8 n) by lia.
    destruct (n <? 8) eqn:En; zbool.
    + rewrite Z.testbit_neg_r by lia. by rewrite andb_true_r.
    + rewrite Z.shiftr_spec, Z.testbit_ones_nonneg by lia. replace (n - 8 + 8) with n by lia.
      rewrite (proj2 (Z.ltb_lt (n - 8) 8)) by lia. by rewrite andb_true_r, andb_false_r, orb_false_r.
Qed.

(** C24: For every flash type of the driver's table and every protection
    level: setting the level makes the chip's protect and [CMP] bits exactly
    the configured ones, changes no other status bit and no data, and reading
    the level back gives a level with that same setting. *)
Theorem set_flash_protect_level f type : c ∈ flash_config ->
  let f' := set_flash_protect c f type in
  protect_value c (flash_read_sr c f' (sr_size c)) = setting c type /\
  (exists t, get_flash_protect c f' = Some t /\ setting c t = setting c type) /\
  (forall n, 0 <= n -> n <> cmp_post c ->
     ~ protect_post c <= n < protect_post c + Z.log2 (protect_mask c + 1) ->
     Z.testbit (flash_read_sr c f' (sr_size c)) n = Z.testbit (flash_read_sr c f (sr_size c)) n) /\
  (forall a, cell f' a = cell f a).
Proof.
  intros Hok%flash_config_ok. cbn zeta. destruct (set_flash_protect_sr f type Hok) as [Es Ec].
  assert (Ev : protect_value c (flash_read_sr c (set_flash_protect c f type) (sr_size c)) = setting c type)
    by (rewrite Es; by apply protected_sr_value).
  split_and!; [done| | |done].
  - unfold get_flash_protect. rewrite Ev. unfold setting.
    destruct type; cbn beta iota; rewrite ?Z.eqb_refl; repeat (case_match; zbool; [eexists; split; [reflexivity|cbn; congruence]|]);
      eexists; (split; [reflexivity|cbn; congruence]).
  - intros n Hn Hc Hf. rewrite Es, protected_sr_bits by done. rewrite (proj2 (Z.eqb_neq n (cmp_post c))) by done.
    destruct (_ && _) eqn:E; [zbool; lia|done].
Qed.
End Protection.

(* ------------------------------------------------------------------ *)
(** ** An erase of no bytes *)

Section Empty.
Context {c : flash_config_t} {F : Type} `{Nor c F}.
Implicit Types (f : F).

Lemma u32_shift_sector start i : 0 <= start -> start mod SECTOR = 0 -> 0 <= i ->
  Z.land (u32 (start + u32 (Z.shiftl i 12))) 0xFFF000 = (start + i * SECTOR) mod CHIP.
Proof.
  unfold SECTOR, CHIP. intros Hs Hm Hi. rewrite Z.shiftl_mul_pow2 by lia. change (2 ^ 12) with 4096.
  unfold u32. rewrite Z.add_mod_idemp_r by lia.
  assert (E : Z.land ((start + i * 4096) mod 2 ^ 32) 0xFFF000
              = Z.land ((start + i * 4096) mod 2 ^ 24) 0xFFF000).
  { apply Z.bits_inj'. intros n Hn. rewrite !Z.land_spec, !Z.testbit_mod_pow2 by lia.
    change 0xFFF000 with (Z.ldiff (Z.ones 24) (Z.ones 12)). rewrite Z.ldiff_spec, !Z.testbit_ones_nonneg by lia.
    destruct (n <? 24) eqn:E; zbool.
    - by rewrite (proj2 (Z.ltb_lt n 32)) by lia.
    - by rewrite !andb_false_r. }
  rewrite E. pose proof (Z.mod_pos_bound (start + i * 4096) (2 ^ 24)).
  rewrite sector_of_mod by (unfold CHIP; lia). unfold SECTOR. change (2 ^ 24) with 16777216.
  Z.to_euclidean_division_equations. lia.
Qed.

(** The sectors a loop of erases hits are blank, whatever the order. *)
Lemma erase_loop_hits n f start i x :
  unprotected f -> flash_size c <= CHIP -> 0 <= start -> start mod SECTOR = 0 -> 0 <= i -> x < flash_size c ->
  cell f x = 255 \/ (exists j, i <= j < i + Z.of_nat n /\
     (start + j * SECTOR) mod CHIP <= x < (start + j * SECTOR) mod CHIP + SECTOR) ->
  cell (erase_loop c n f start i) x = 255.
Proof.
  revert f i. induction n as [|n IH]; intros f i Hu Hc Hs Hm Hi Hx Hhit; cbn [erase_loop].
  { destruct Hhit as [|(j & ? & _)]; [done|lia]. }
  pose proof (u32_shift_sector start i Hs Hm Hi) as Ea. unfold flash_erase_sector. rewrite Ea.
  set (a := (start + i * SECTOR) mod CHIP) in *.
  assert (Ha : 0 <= a < CHIP) by (apply Z.mod_pos_bound; done).
  assert (Ham : a mod SECTOR = 0).
  { unfold a, CHIP, SECTOR in *. change (2 ^ 24) with 16777216. Z.to_euclidean_division_equations. lia. }
  destruct (flash_size c <=? a) eqn:E; zbool.
  - apply IH; [done..|lia|done|]. destruct Hhit as [|(j & Hj & Hin)]; [by left|].
    destruct (Z.eq_dec j i) as [->|]; [fold a in Hin; lia|]. right. exists j. split; [lia|done].
  - apply IH; [by apply unprotected_erase|done..|lia|done|].
    rewrite cell_erase by done. destruct ((a <=? x) && (x <? a + SECTOR)) eqn:E'; [by left|].
    destruct Hhit as [|(j & Hj & Hin)]; [by left|].
    destruct (Z.eq_dec j i) as [->|]; [|right; exists j; split; [lia|done]].
    fold a in Hin. rewrite (proj2 (Z.leb_le _ _)), (proj2 (Z.ltb_lt _ _)) in E' by lia. done.
Qed.

(** Asking for no bytes at all to be erased erases the whole chip, the
    boot loader included: [off_set + size - 1] wraps, and the sectors of the
    loop wrap around the 24-bit address. *)
Theorem bk_flash_erase_nothing f p x :
  unprotected f -> flash_size c <= CHIP -> 0 <= x < flash_size c ->
  cell (bk_flash_erase c f p 0 0) x = 255.
Proof.
  intros Hu Hc Hx. destruct (partition_aligned p) as [Hp Hpm]. unfold bk_flash_erase.
  set (start := partition_start_addr (bk_flash_get_info p)) in *.
  change (u32 (0 + 0 - 1)) with 4294967295. change (Z.shiftr 0 12) with 0.
  change (Z.shiftr 4294967295 12) with 1048575.
  apply erase_loop_hits; [done|done|lia|done|lia|lia|]. right.
  exists ((x - x mod SECTOR - start) mod CHIP / SECTOR). rewrite Z2Nat.id by lia.
  unfold CHIP, SECTOR in *. change (2 ^ 24) with 16777216 in *.
  assert (Es : start mod 4096 = 0) by done. split; [Z.to_euclidean_division_equations; lia|].
  assert (E : (start + (x - x mod 4096 - start) mod 16777216 / 4096 * 4096) mod 16777216 = x - x mod 4096);
    [|rewrite E; Z.to_euclidean_division_equations; lia].
  Z.to_euclidean_division_equations; lia.
Qed.
End Empty.

(* ------------------------------------------------------------------ *)
(** ** A concrete chip *)

Record chip := mk_chip { chip_mem : Z -> Z; chip_sr1 : Z; chip_sr2 : Z }.

Definition chip_program (f : chip) (p : Z) (bs : list Z) : chip :=
  mk_chip (fun a => if (p <=? a) && (a <? p + PAGE)
                    then Z.land (u8 (chip_mem f a)) (nth (Z.to_nat (a - p)) bs 0) else chip_mem f a)
          (chip_sr1 f) (chip_sr2 f).

Definition chip_erase (f : chip) (s : Z) : chip :=
  mk_chip (fun a => if (s <=? a) && (a <? s + SECTOR) then 255 else chip_mem f a) (chip_sr1 f) (chip_sr2 f).

(** It takes every write, protected or not: the laws leave that open. *)
#[export, program] Instance chip_nor (c : flash_config_t) : Nor c chip := {
  cell := fun f a => u8 (chip_mem f a);
  rdsr := fun f => Z.land (chip_sr1 f) 0xFC;
  rdsr2 := fun f => u8 (chip_sr2 f);
  page_program := chip_program;
  sector_erase := chip_erase;
  wrsr := fun f v => mk_chip (chip_mem f) v (chip_sr2 f);
  wrsr2 := fun f v => mk_chip (chip_mem f) v (Z.shiftr v 8)
}.
Next Obligation. intros c f a. apply u8_range. Qed.
Next Obligation.
  intros c f p bs a _ _ _ _. cbn. destruct (_ && _); [|done]. unfold u8. rewrite <- !Z.land_ones by lia.
  set (b := nth _ _ _). rewrite <- (Z.land_assoc _ b), (Z.land_comm b), Z.land_assoc.
  by rewrite <- (Z.land_assoc _ (Z.ones 8) (Z.ones 8)), Z.land_diag.
Qed.
Next Obligation. intros c f s a _ _ _. cbn. by destruct (_ && _). Qed.
Next Obligation. done. Qed.
Next Obligation. done. Qed.
Next Obligation.
  intros c f. cbn. unfold is_byte. assert (E : Z.land (chip_sr1 f) 252 = Z.land (chip_sr1 f mod 2 ^ 8) 252).
  { rewrite <- Z.land_ones, <- Z.land_assoc by lia. done. }
  rewrite E. apply (land_word 8); [lia|apply Z.mod_pos_bound; lia|lia].
Qed.
Next Obligation. intros c f. apply u8_range. Qed.
Next Obligation. intros c f. cbn. by rewrite <- Z.land_assoc, Z.land_0_r. Qed.
Next Obligation. done. Qed.
Next Obligation. done. Qed.
Next Obligation. done. Qed.
Next Obligation. done. Qed.
Next Obligation. done. Qed.
Next Obligation. done. Qed.
Next Obligation. done. Qed.
Next Obligation.
  intros c f v. cbn. unfold u8. change 0xff with (Z.ones 8). by rewrite Z.land_ones by lia.
Qed.

(** The GD25Q16C row, a chip of it with every cell at its address' low byte
    and nothing protected. *)
Definition gd_25q16c : flash_config_t := flash_get_current_flash_config 0xC84015.
Definition fresh : chip := mk_chip (fun a => u8 a) 0 0.

Lemma flash_read_data_exact_witness :
  flash_read_data gd_25q16c fresh 0x1e101e 5 = Done [0x1e; 0x1f; 0x20; 0x21; 0x22].
Proof.
  rewrite (flash_read_data_exact (c := gd_25q16c) fresh 0x1e101e 5) by (vm_compute; intuition discriminate).
  vm_compute. reflexivity.
Defined.

Lemma flash_write_data_exact_witness :
  exists f', flash_write_data gd_25q16c fresh [0x0f; 0xf0] 0x1e101f 2 = Done f' /\
    programs (c := gd_25q16c) fresh f' 0x1e101f [0x0f; 0xf0].
Proof.
  apply (flash_write_data_exact (c := gd_25q16c) fresh [0x0f; 0xf0] 0x1e101f 2);
    vm_compute; first [reflexivity | intuition discriminate].
Defined.

Lemma bk_flash_erase_sectors_witness :
  erases (c := gd_25q16c) fresh (bk_flash_erase gd_25q16c fresh BK_PARTITION_NET_PARAM 4000 200)
    (0x1e1000 + 0) (0x1e1000 + 8192).
Proof.
  apply (bk_flash_erase_sectors (c := gd_25q16c) fresh BK_PARTITION_NET_PARAM 4000 200);
    vm_compute; first [reflexivity | intuition discriminate].
Defined.

Lemma bk_flash_erase_nothing_witness :
  cell (c := gd_25q16c) (bk_flash_erase gd_25q16c fresh BK_PARTITION_NET_PARAM 0 0) 0 = 255.
Proof.
  apply (bk_flash_erase_nothing (c := gd_25q16c) fresh BK_PARTITION_NET_PARAM 0);
    vm_compute; first [reflexivity | intuition discriminate].
Defined.

Lemma set_flash_protect_level_witness :
  protect_value gd_25q16c (flash_read_sr gd_25q16c
    (set_flash_protect gd_25q16c fresh FLASH_UNPROTECT_LAST_BLOCK) 2) = 0x101.
Proof.
  apply (set_flash_protect_level (c := gd_25q16c) fresh FLASH_UNPROTECT_LAST_BLOCK).
  apply list_elem_of_In. cbn. tauto.
Defined.
