(* ===== verification/NetParam.v ===== *)
(** The network parameter table of beken378/func/net_param_intf/net_param.c
    (types in beken378/func/include/net_param_pub.h): a header and a list of
    typed items at the start of the NET_PARAM partition, read and rewritten
    through the flash driver ([Flash]).

    The abstract table is a list of items; saving is shown to refine putting
    an item into that list, reading to refine looking one up. *)

From S2P Require Import Prelude Flash.

Definition INFO_TLV_HEADER : Z := 0x00564c54.

Definition AUTO_CONNECT_ITEM : Z := 0x11111111.
Definition WIFI_MODE_ITEM : Z := 0x22222222.
Definition DHCP_MODE_ITEM : Z := 0x33333333.
Definition WIFI_MAC_ITEM : Z := 0x44444444.
Definition SSID_KEY_ITEM : Z := 0x55555555.
Definition IP_CONFIG_ITEM : Z := 0x66666666.
Definition RF_CFG_TSSI_ITEM : Z := 0x77777777.
Definition RF_CFG_DIST_ITEM : Z := 0x88888888.
Definition RF_CFG_MODE_ITEM : Z := 0x99999999.
Definition CHARGE_CONFIG_ITEM : Z := 0xaaaaaaaa.
Definition RF_CFG_TSSI_B_ITEM : Z := 0xbbbbbbbb.

(** [sizeof] of the structures: the common head is two words. *)
Definition sizeof_INFO_ITEM_ST : Z := 8.
Definition sizeof_TLV_HEADER_ST : Z := 8.
Definition sizeof_ITEM_COMM_ST : Z := 8 + 4.
Definition sizeof_ITEM_MAC_ADDR_ST : Z := 8 + 6 + 2.
Definition sizeof_ITEM_CHARGE_ST : Z := 8 + 4.
Definition sizeof_ITEM_SSIDKEY_ST : Z := 8 + 32 + 64.
Definition sizeof_ITEM_IP_CONFIG_ST : Z := 8 + 16 + 16 + 16.

(** The [case] labels the functions share. *)
Definition word_item (item : Z) : bool :=
  (item =? AUTO_CONNECT_ITEM) || (item =? WIFI_MODE_ITEM) || (item =? DHCP_MODE_ITEM) ||
  (item =? RF_CFG_TSSI_ITEM) || (item =? RF_CFG_DIST_ITEM) || (item =? RF_CFG_MODE_ITEM) ||
  (item =? RF_CFG_TSSI_B_ITEM).

Section Code.
Variable c : flash_config_t.
Context {F : Type} `{Nor c F}.

(** [ddev_read] of a two-word head: its type and length. *)
Definition read_head (f : F) (addr : Z) : outcome (Z * Z) :=
  bs ← flash_read_data c f addr sizeof_INFO_ITEM_ST;
  Done (of_le (slice bs 0 4), of_le (slice bs 4 4)).

Definition pt : bk_logic_partition_t := bk_flash_get_info BK_PARTITION_NET_PARAM.

(** The result, [*cfg_len] and, when [buf] is not [NULL], what it receives. *)
Definition search_info_tbl (f : F) (buf : bool) : outcome (Z * Z * list Z) :=
  '(type, len) ← read_head f (partition_start_addr pt);
  if INFO_TLV_HEADER =? type then
    let cfg_len := u32 (len + sizeof_TLV_HEADER_ST) in
    bs ← (if buf then flash_read_data c f (partition_start_addr pt) cfg_len else Done []);
    Done (1, cfg_len, bs)
  else Done (0, 0, []).

(** [while(addr < end_addr)]. *)
Fixpoint search_loop (fuel : nat) (f : F) (type addr end_addr : Z) : outcome Z :=
  if addr <? end_addr then
    match fuel with
    | O => Spin
    | S fuel' =>
        '(t, len) ← read_head f addr;
        if negb (type =? t) then search_loop fuel' f type (u32 (u32 (addr + sizeof_INFO_ITEM_ST) + len)) end_addr
        else Done addr
    end
  else Done 0.

Definition search_info_item (fuel : nat) (f : F) (type start_addr : Z) : outcome Z :=
  '(_, len) ← read_head f start_addr;
  let addr := u32 (start_addr + sizeof_TLV_HEADER_ST) in
  let end_addr := u32 (addr + len) in
  search_loop fuel f type addr end_addr.

Definition info_item_len (item : Z) : Z :=
  if word_item item then sizeof_ITEM_COMM_ST
  else if item =? WIFI_MAC_ITEM then sizeof_ITEM_MAC_ADDR_ST
  else if item =? CHARGE_CONFIG_ITEM then sizeof_ITEM_CHARGE_ST
  else if item =? SSID_KEY_ITEM then sizeof_ITEM_SSIDKEY_ST
  else if item =? IP_CONFIG_ITEM then sizeof_ITEM_IP_CONFIG_ST
  else sizeof_ITEM_COMM_ST.

(** [ptr0], [ptr1], [ptr2] are whether the pointers are not [NULL]; the result
    comes with what is stored at each, in order. *)
Definition get_info_item (fuel : nat) (f : F) (item : Z) (ptr0 ptr1 ptr2 : bool)
    : outcome (Z * list (list Z)) :=
  '(found, _, _) ← search_info_tbl f false;
  if found =? 0 then Done (0, []) else
  addr_start ← search_info_item fuel f item (partition_start_addr pt);
  if addr_start =? 0 then Done (0, []) else
  '(_, len) ← read_head f addr_start;
  let addr_start := u32 (addr_start + sizeof_INFO_ITEM_ST) in
  if word_item item || (item =? WIFI_MAC_ITEM) || (item =? CHARGE_CONFIG_ITEM) then
    if ptr0 then
      d0 ← flash_read_data c f addr_start len;
      Done (1, [d0])
    else Done (0, [])
  else if item =? SSID_KEY_ITEM then
    if ptr0 && ptr1 then
      d0 ← flash_read_data c f addr_start 32;
      d1 ← flash_read_data c f (u32 (addr_start + 32)) 64;
      Done (1, [d0; d1])
    else Done (0, [])
  else if item =? IP_CONFIG_ITEM then
    if ptr0 && ptr1 && ptr2 then
      d0 ← flash_read_data c f addr_start 16;
      let addr_start := u32 (addr_start + 16) in
      d1 ← flash_read_data c f addr_start 16;
      d2 ← flash_read_data c f (u32 (addr_start + 16)) 16;
      Done (1, [d0; d1; d2])
    else Done (0, [])
  else Done (0, []).

(** [os_memcpy(item_buf + off, ptr, n)], in the table's buffer. *)
Definition copy_item (wrbuf : list Z) (off : Z) (ptr : list Z) (n : Z) : outcome (list Z) :=
  bs ← mem_read ptr 0 n;
  mem_write wrbuf off bs.

(** The [switch] that fills the item. *)
Definition fill_item (item : Z) (wrbuf : list Z) (item_buf : Z) (ptr0 ptr1 ptr2 : list Z) : outcome (list Z) :=
  if word_item item then copy_item wrbuf item_buf ptr0 4
  else if item =? WIFI_MAC_ITEM then copy_item wrbuf item_buf ptr0 6
  else if item =? SSID_KEY_ITEM then
    wrbuf ← copy_item wrbuf item_buf ptr0 32;
    copy_item wrbuf (item_buf + 32) ptr1 64
  else if item =? IP_CONFIG_ITEM then
    wrbuf ← copy_item wrbuf item_buf ptr0 16;
    wrbuf ← copy_item wrbuf (item_buf + 16) ptr1 16;
    copy_item wrbuf (item_buf + 32) ptr2 16
  else if item =? CHARGE_CONFIG_ITEM then copy_item wrbuf item_buf ptr0 4
  else copy_item wrbuf item_buf ptr0 4.

(** The item with its head, then the table's header. *)
Definition fill_table (item : Z) (tmpptr : list Z) (addr_offset item_len head_len : Z) (ptr0 ptr1 ptr2 : list Z)
    : outcome (list Z) :=
  tmpptr ← fill_item item tmpptr (addr_offset + sizeof_INFO_ITEM_ST) ptr0 ptr1 ptr2;
  tmpptr ← mem_write tmpptr addr_offset (le32 item);
  tmpptr ← mem_write tmpptr (addr_offset + 4) (le32 (item_len - sizeof_INFO_ITEM_ST));
  mem_write tmpptr 0 (le32 INFO_TLV_HEADER ++ le32 head_len).

(** The end of [save_info_item]: the table replaces the old one. *)
Definition write_table (f : F) (tmpptr : list Z) (cfg_tbl_len : Z) : outcome F :=
  let f := bk_flash_enable_security c f FLASH_PROTECT_NONE in
  let f := bk_flash_erase c f BK_PARTITION_NET_PARAM 0 cfg_tbl_len in
  f ← bk_flash_write c f BK_PARTITION_NET_PARAM 0 tmpptr cfg_tbl_len;
  Done (bk_flash_enable_security c f FLASH_UNPROTECT_LAST_BLOCK).

(** [zalloc] tells whether [os_zalloc] finds that much memory. *)
Definition save_info_item (fuel : nat) (zalloc : Z -> bool) (f : F) (item : Z) (ptr0 ptr1 ptr2 : list Z)
    : outcome (Z * F) :=
  let item_len := info_item_len item in
  '(found, cfg_tbl_len, _) ← search_info_tbl f false;
  '(addr_offset, cfg_tbl_len, head_len, wrbuf) ←
    (if found =? 0 then
       let cfg_tbl_len := sizeof_INFO_ITEM_ST + item_len in
       Done (sizeof_INFO_ITEM_ST, cfg_tbl_len, item_len,
             if zalloc cfg_tbl_len then Some (replicate (Z.to_nat cfg_tbl_len) 0) else None)
     else
       addr_offset ← search_info_item fuel f item (partition_start_addr pt);
       let '(addr_offset, cfg_tbl_len) :=
         if addr_offset =? 0 then (cfg_tbl_len, u32 (cfg_tbl_len + item_len))
         else (u32 (addr_offset - partition_start_addr pt), cfg_tbl_len) in
       if zalloc cfg_tbl_len then
         '(_, _, bs) ← search_info_tbl f true;
         wrbuf ← mem_write (replicate (Z.to_nat cfg_tbl_len) 0) 0 bs;
         Done (addr_offset, cfg_tbl_len, u32 (cfg_tbl_len - sizeof_TLV_HEADER_ST), Some wrbuf)
       else Done (addr_offset, cfg_tbl_len, 0, None));
  match wrbuf with
  | None => Done (0, f)
  | Some tmpptr =>
      tmpptr ← fill_table item tmpptr addr_offset item_len head_len ptr0 ptr1 ptr2;
      f ← write_table f tmpptr cfg_tbl_len;
      Done (1, f)
  end.

(** The result and what [ptr] receives. *)
Definition test_get_whole_tbl (f : F) : outcome (Z * list Z) :=
  '(ret, _, bs) ← search_info_tbl f true;
  Done (ret, bs).
End Code.

(* ------------------------------------------------------------------ *)
(** ** The table as a list of items *)

Definition item_codes : list Z :=
  [AUTO_CONNECT_ITEM; WIFI_MODE_ITEM; DHCP_MODE_ITEM; WIFI_MAC_ITEM; SSID_KEY_ITEM; IP_CONFIG_ITEM;
   RF_CFG_TSSI_ITEM; RF_CFG_DIST_ITEM; RF_CFG_MODE_ITEM; CHARGE_CONFIG_ITEM; RF_CFG_TSSI_B_ITEM].

(** The payload's length. *)
Definition payload (t : Z) : Z := info_item_len t - sizeof_INFO_ITEM_ST.

Notation entry := (Z * list Z)%type.

Definition enc_item (e : entry) : list Z := le32 e.1 ++ le32 (zlen e.2) ++ e.2.
Definition enc (tbl : list entry) : list Z := concat (map enc_item tbl).
Definition image (tbl : list entry) : list Z := le32 INFO_TLV_HEADER ++ le32 (zlen (enc tbl)) ++ enc tbl.

Definition wf_entry (e : entry) : Prop :=
  e.1 ∈ item_codes /\ zlen e.2 = payload e.1 /\ Forall is_byte e.2.
Definition wf (tbl : list entry) : Prop := Forall wf_entry tbl /\ NoDup (map fst tbl).

Fixpoint assoc (t : Z) (tbl : list entry) : option (list Z) :=
  match tbl with
  | [] => None
  | (t', d) :: r => if t =? t' then Some d else assoc t r
  end.

(** Saving [data]: over the item's old payload, or over zeros in a new item
    at the end. *)
Fixpoint put (t : Z) (data : list Z) (tbl : list entry) : list entry :=
  match tbl with
  | [] => [(t, splice (replicate (Z.to_nat (payload t)) 0) 0 data)]
  | (t', d) :: r => if t =? t' then (t', splice d 0 data) :: r else (t', d) :: put t data r
  end.

(** What the caller's buffers hold for an item, and which must be given. *)
Definition new_data (t : Z) (p0 p1 p2 : list Z) : list Z :=
  if t =? WIFI_MAC_ITEM then slice p0 0 6
  else if t =? SSID_KEY_ITEM then slice p0 0 32 ++ slice p1 0 64
  else if t =? IP_CONFIG_ITEM then slice p0 0 16 ++ slice p1 0 16 ++ slice p2 0 16
  else slice p0 0 4.

Definition sources_ok (t : Z) (p0 p1 p2 : list Z) : Prop :=
  (if t =? WIFI_MAC_ITEM then 6 <= zlen p0
   else if t =? SSID_KEY_ITEM then 32 <= zlen p0 /\ 64 <= zlen p1
   else if t =? IP_CONFIG_ITEM then 16 <= zlen p0 /\ 16 <= zlen p1 /\ 16 <= zlen p2
   else 4 <= zlen p0) /\
  Forall is_byte p0 /\ Forall is_byte p1 /\ Forall is_byte p2.

Definition ptrs_ok (t : Z) (p0 p1 p2 : bool) : bool :=
  if t =? SSID_KEY_ITEM then p0 && p1 else if t =? IP_CONFIG_ITEM then p0 && p1 && p2 else p0.

(** How a payload is handed to the caller's buffers. *)
Definition parts (t : Z) (d : list Z) : list (list Z) :=
  if t =? SSID_KEY_ITEM then [slice d 0 32; slice d 32 64]
  else if t =? IP_CONFIG_ITEM then [slice d 0 16; slice d 16 16; slice d 32 16]
  else [d].

Ltac each_code H :=
  unfold item_codes in H;
  repeat (apply elem_of_cons in H; destruct H as [H|H]; [subst|]);
  try by apply not_elem_of_nil in H.

Lemma payload_range t : t ∈ item_codes -> 4 <= payload t <= 96.
Proof. intros Ht. each_code Ht; decide_closed. Qed.

Lemma code_u32 t : t ∈ item_codes -> is_u32 t.
Proof. intros Ht. unfold is_u32. each_code Ht; decide_closed. Qed.

Lemma zlen_le32 x : zlen (le32 x) = 4.
Proof. done. Qed.

Lemma zlen_enc_item e : zlen (enc_item e) = 8 + zlen e.2.
Proof. unfold enc_item. rewrite !zlen_app, !zlen_le32. lia. Qed.

Lemma enc_cons e tbl : enc (e :: tbl) = enc_item e ++ enc tbl.
Proof. done. Qed.

Lemma enc_app tbl tbl' : enc (tbl ++ tbl') = enc tbl ++ enc tbl'.
Proof. unfold enc. by rewrite map_app, concat_app. Qed.

Lemma zlen_image tbl : zlen (image tbl) = 8 + zlen (enc tbl).
Proof. unfold image. rewrite !zlen_app, !zlen_le32. lia. Qed.

(** A table of known items is small: eleven items of at most 104 bytes. *)
Lemma enc_small tbl : wf tbl -> zlen (enc tbl) <= 11 * 104.
Proof.
  intros [Hwf Hnd].
  assert (Hlen : (length tbl <= 11)%nat).
  { rewrite <- (length_map fst tbl). change 11%nat with (length item_codes).
    apply submseteq_length, NoDup_submseteq; [done|]. intros t Ht.
    apply list_elem_of_fmap in Ht as (e & -> & He). rewrite Forall_forall in Hwf. by apply Hwf. }
  assert (H : zlen (enc tbl) <= Z.of_nat (length tbl) * 104); [|lia]. clear Hlen Hnd.
  induction Hwf as [|e tbl (He & Hl & _) _ IH]; [done|].
  rewrite enc_cons, zlen_app, zlen_enc_item. pose proof (payload_range _ He). cbn [length]. lia.
Qed.

Lemma enc_bytes tbl : Forall wf_entry tbl -> Forall is_byte (enc tbl).
Proof.
  induction 1 as [|e tbl (_ & _ & He) _ IH]; [constructor|]. rewrite enc_cons. apply Forall_app. split; [|done].
  unfold enc_item. rewrite !Forall_app. split_and!; [apply le32_bytes..|done].
Qed.

Lemma image_bytes tbl : Forall wf_entry tbl -> Forall is_byte (image tbl).
Proof. intros Hwf. unfold image. rewrite !Forall_app. split_and!; [apply le32_bytes..|by apply enc_bytes]. Qed.

Lemma assoc_split t tbl d : assoc t tbl = Some d ->
  exists l1 l2, tbl = l1 ++ (t, d) :: l2 /\ t ∉ map fst l1 /\
    forall data, put t data tbl = l1 ++ (t, splice d 0 data) :: l2.
Proof.
  induction tbl as [|[t' d'] r IH]; cbn; [done|]. destruct (Z.eqb_spec t t') as [->|Hne].
  - intros [= ->]. exists [], r. split_and!; [done|by apply not_elem_of_nil|done].
  - intros (l1 & l2 & -> & Hn & Hp)%IH. exists ((t', d') :: l1), l2. split_and!; [done| |].
    + cbn. rewrite not_elem_of_cons. done.
    + intros data. by rewrite Hp.
Qed.

Lemma assoc_none t tbl : assoc t tbl = None ->
  t ∉ map fst tbl /\ forall data, put t data tbl = tbl ++ [(t, splice (replicate (Z.to_nat (payload t)) 0) 0 data)].
Proof.
  induction tbl as [|[t' d'] r IH]; cbn; [split; [by apply not_elem_of_nil|done]|].
  destruct (Z.eqb_spec t t') as [->|Hne]; [done|]. intros [Hn Hp]%IH. split.
  - by rewrite not_elem_of_cons.
  - intros data. by rewrite Hp.
Qed.

Lemma assoc_put_same t data tbl :
  assoc t (put t data tbl) = Some (splice (default (replicate (Z.to_nat (payload t)) 0) (assoc t tbl)) 0 data).
Proof.
  induction tbl as [|[t' d] r IH]; cbn; [by rewrite Z.eqb_refl|].
  destruct (t =? t') eqn:E; cbn; by rewrite E.
Qed.

Lemma assoc_put_other t t' data tbl : t' <> t -> assoc t' (put t data tbl) = assoc t' tbl.
Proof.
  intros Hne. induction tbl as [|[t2 d] r IH]; cbn; [by rewrite (proj2 (Z.eqb_neq t' t))|].
  destruct (t =? t2) eqn:E; cbn; [|by rewrite IH].
  zbool. subst t2. by rewrite (proj2 (Z.eqb_neq t' t)).
Qed.

Lemma slice_mid {A} (a b k : list A) off n :
  off = zlen a -> n = zlen b -> slice (a ++ b ++ k) off n = b.
Proof.
  intros -> ->. unfold slice, zlen. rewrite !Nat2Z.id, drop_app_length. apply take_app_length.
Qed.

Lemma splice_mid {A} (a old k : list A) off bs :
  0 <= off -> off + zlen bs <= zlen old ->
  splice (a ++ old ++ k) (zlen a + off) bs = a ++ splice old off bs ++ k.
Proof.
  intros Ho Hle. unfold splice, zlen in *.
  replace (Z.to_nat (Z.of_nat (length a) + off)) with (length a + Z.to_nat off)%nat by lia.
  rewrite take_app_add, <- !app_assoc, <- Nat.add_assoc, drop_app_add. do 2 f_equal.
  - apply take_app_le. lia.
  - f_equal. apply drop_app_le. lia.
Qed.

Lemma mem_write_mid {A} (a old k : list A) at' off bs :
  at' = zlen a + off -> 0 <= off -> off + zlen bs <= zlen old ->
  mem_write (a ++ old ++ k) at' bs = Done (a ++ splice old off bs ++ k).
Proof.
  intros -> Ho Hle. pose proof (zlen_nonneg a). pose proof (zlen_nonneg k).
  rewrite mem_write_in by (rewrite ?zlen_app; lia). by rewrite splice_mid by lia.
Qed.

Lemma splice_whole {A} (old bs : list A) : zlen bs = zlen old -> splice old 0 bs = bs.
Proof.
  unfold splice, zlen. intros E. cbn. rewrite drop_ge by lia. by rewrite app_nil_r.
Qed.

Definition START : Z := partition_start_addr pt.

Section Table.
Context {c : flash_config_t} {F : Type} `{Nor c F}.
Implicit Types (f : F).

(** The table is on the chip. *)
Definition stored f (tbl : list entry) : Prop := cells f START (zlen (image tbl)) = image tbl.

(** What the partition holds: no table, or one that is well formed. *)
Definition holds f (o : option (list entry)) : Prop :=
  match o with
  | None => of_le (cells f START 4) <> INFO_TLV_HEADER
  | Some tbl => stored f tbl /\ wf tbl
  end.

Lemma read_start f o n : 0 <= o -> 0 <= n -> o + n <= SECTOR ->
  flash_read_data c f (START + o) n = Done (cells f (START + o) n).
Proof. unfold SECTOR. intros Ho Hn Hle. apply read_exact; change START with 0x1e1000; unfold CHIP; lia. Qed.

Lemma stored_cells f tbl o n : stored f tbl -> 0 <= o -> 0 <= n -> o + n <= zlen (image tbl) ->
  cells f (START + o) n = slice (image tbl) o n.
Proof. unfold stored. intros E Ho Hn Hle. rewrite <- E. symmetry. by apply slice_cells. Qed.

Lemma stored_read f tbl o n : stored f tbl -> wf tbl -> 0 <= o -> 0 <= n -> o + n <= zlen (image tbl) ->
  flash_read_data c f (START + o) n = Done (slice (image tbl) o n).
Proof.
  intros Hs Hwf Ho Hn Hle. pose proof (enc_small tbl Hwf). rewrite zlen_image in Hle.
  rewrite read_start by (unfold SECTOR; lia). f_equal. apply stored_cells; [done..|by rewrite zlen_image].
Qed.

Lemma image_items l1 l2 : image (l1 ++ l2) =
  (le32 INFO_TLV_HEADER ++ le32 (zlen (enc (l1 ++ l2))) ++ enc l1) ++ enc l2.
Proof. unfold image. by rewrite enc_app, <- !app_assoc. Qed.

(** Reading the head of an item of the table. *)
Lemma read_head_item f l1 t d l2 : stored f (l1 ++ (t, d) :: l2) -> wf (l1 ++ (t, d) :: l2) ->
  read_head c f (START + (8 + zlen (enc l1))) = Done (t, zlen d).
Proof.
  intros Hs Hwf. set (tbl := l1 ++ (t, d) :: l2) in *. pose proof (zlen_nonneg (enc l1)).
  assert (Hz : zlen (enc tbl) = zlen (enc l1) + (8 + zlen d) + zlen (enc l2))
    by (unfold tbl; rewrite enc_app, enc_cons, !zlen_app, zlen_enc_item; cbn; lia).
  pose proof (zlen_nonneg d). pose proof (zlen_nonneg (enc l2)). pose proof (enc_small tbl Hwf).
  unfold read_head, sizeof_INFO_ITEM_ST. erewrite stored_read; [|done..|lia|lia|rewrite zlen_image; lia].
  assert (Es : slice (image tbl) (8 + zlen (enc l1)) 8 = le32 t ++ le32 (zlen d)).
  { unfold tbl. rewrite image_items, enc_cons. unfold enc_item. cbn [fst snd].
    rewrite <- (app_assoc (le32 t)), <- (app_assoc (le32 (zlen d))), (app_assoc (le32 t)).
    apply slice_mid; rewrite !zlen_app, !zlen_le32; lia. }
  rewrite Es. cbn [mbind outcome_bind].
  change (slice (le32 t ++ le32 (zlen d)) 0 4) with (le32 t). change (slice (le32 t ++ le32 (zlen d)) 4 4) with (le32 (zlen d)).
  destruct Hwf as [Hwf _]. unfold tbl in Hwf. apply Forall_app in Hwf as [_ [(Hc & _ & _) _]%Forall_cons].
  rewrite !of_le_le32; [done|unfold is_u32; lia|by apply code_u32].
Qed.

Lemma read_head_start f tbl : stored f tbl -> wf tbl ->
  read_head c f START = Done (INFO_TLV_HEADER, zlen (enc tbl)).
Proof.
  intros Hs Hwf. pose proof (zlen_nonneg (enc tbl)). pose proof (enc_small tbl Hwf).
  unfold read_head, sizeof_INFO_ITEM_ST. rewrite <- (Z.add_0_r START).
  erewrite stored_read; [|done..|lia|lia|rewrite zlen_image; lia]. cbn [mbind outcome_bind].
  change (slice (slice (image tbl) 0 8) 0 4) with (le32 INFO_TLV_HEADER).
  change (slice (slice (image tbl) 0 8) 4 4) with (le32 (zlen (enc tbl))).
  rewrite (of_le_le32 (zlen _)) by (unfold is_u32; lia). done.
Qed.

Lemma search_info_tbl_found f tbl buf : stored f tbl -> wf tbl ->
  search_info_tbl c f buf = Done (1, 8 + zlen (enc tbl), if buf then image tbl else []).
Proof.
  intros Hs Hwf. pose proof (zlen_nonneg (enc tbl)). pose proof (enc_small tbl Hwf).
  unfold search_info_tbl. change (partition_start_addr pt) with START.
  rewrite (read_head_start f tbl) by done. cbn [mbind outcome_bind]. rewrite Z.eqb_refl.
  unfold sizeof_TLV_HEADER_ST. rewrite u32_small by lia. rewrite (Z.add_comm _ 8).
  destruct buf; [|done]. rewrite <- (Z.add_0_r START).
  erewrite stored_read; [|done..|lia|lia|rewrite zlen_image; lia]. cbn [mbind outcome_bind].
  by rewrite slice_all by (rewrite zlen_image; lia).
Qed.

Lemma search_info_tbl_none f buf : of_le (cells f START 4) <> INFO_TLV_HEADER ->
  search_info_tbl c f buf = Done (0, 0, []).
Proof.
  intros Hne. unfold search_info_tbl, read_head, sizeof_INFO_ITEM_ST. change (partition_start_addr pt) with START.
  rewrite <- (Z.add_0_r START) at 1. rewrite read_start by (unfold SECTOR; lia). cbn [mbind outcome_bind].
  rewrite slice_cells by lia. rewrite !Z.add_0_r.
  by rewrite (proj2 (Z.eqb_neq INFO_TLV_HEADER _)) by congruence.
Qed.

(** The offset of an item, from the start of the items. *)
Fixpoint pos (t : Z) (tbl : list entry) : option Z :=
  match tbl with
  | [] => None
  | (t', d) :: r => if t =? t' then Some 0 else (fun o => 8 + zlen d + o) <$> pos t r
  end.

Lemma pos_assoc t tbl :
  match pos t tbl with
  | Some o => exists l1 d l2, tbl = l1 ++ (t, d) :: l2 /\ o = zlen (enc l1) /\ assoc t tbl = Some d /\
      forall data, put t data tbl = l1 ++ (t, splice d 0 data) :: l2
  | None => assoc t tbl = None
  end.
Proof.
  induction tbl as [|[t' d'] r IH]; [done|]. cbn [pos assoc put]. destruct (Z.eqb_spec t t') as [->|Hne].
  - exists [], d', r. done.
  - destruct (pos t r) as [o|]; cbn; [|done]. destruct IH as (l1 & d & l2 & -> & -> & Ha & Hp).
    exists ((t', d') :: l1), d, l2. split_and!; [done| |done|].
    + rewrite enc_cons, zlen_app, zlen_enc_item. done.
    + intros data. by rewrite Hp.
Qed.

Lemma search_loop_run fuel f t pre suf :
  stored f (pre ++ suf) -> wf (pre ++ suf) -> (length suf < fuel)%nat ->
  search_loop c fuel f t (START + (8 + zlen (enc pre))) (START + (8 + zlen (enc (pre ++ suf)))) =
    Done (match pos t suf with Some o => START + (8 + zlen (enc pre) + o) | None => 0 end).
Proof.
  revert pre fuel. induction suf as [|[t' d] r IH]; intros pre fuel Hs Hwf Hfuel;
    pose proof (enc_small _ Hwf) as Hsmall; pose proof (zlen_nonneg (enc pre)).
  - rewrite app_nil_r. destruct fuel; [lia|]. cbn [search_loop]. by rewrite Z.ltb_irrefl.
  - destruct fuel as [|fuel]; [cbn in Hfuel; lia|]. cbn [search_loop pos].
    pose proof (zlen_nonneg d). pose proof (zlen_nonneg (enc r)).
    assert (Hz : zlen (enc (pre ++ (t', d) :: r)) = zlen (enc pre) + (8 + zlen d) + zlen (enc r))
      by (rewrite enc_app, enc_cons, !zlen_app, zlen_enc_item; cbn; lia).
    rewrite (proj2 (Z.ltb_lt _ _)) by lia. rewrite (read_head_item f pre t' d r) by done. cbn [mbind outcome_bind].
    destruct (Z.eqb_spec t t') as [->|Hne]; cbn [negb]; [do 2 f_equal; lia|].
    unfold sizeof_INFO_ITEM_ST. change START with 0x1e1000 in *.
    rewrite (u32_small (_ + 8)), u32_small by lia.
    assert (Ez : zlen (enc (pre ++ [(t', d)])) = zlen (enc pre) + (8 + zlen d)).
    { rewrite enc_app, zlen_app, enc_cons, zlen_app, zlen_enc_item. change (enc []) with (@nil Z). rewrite zlen_nil. cbn. lia. }
    specialize (IH (pre ++ [(t', d)]) fuel). rewrite <- app_assoc in IH. cbn [app] in IH.
    replace (0x1e1000 + (8 + zlen (enc pre)) + 8 + zlen d) with (0x1e1000 + (8 + zlen (enc (pre ++ [(t', d)])))) by lia.
    rewrite IH by (done || (cbn in Hfuel; lia)). rewrite Ez.
    destruct (pos t r); cbn [fmap option_fmap option_map]; f_equal; lia.
Qed.

Lemma search_info_item_run fuel f t tbl : stored f tbl -> wf tbl -> (length tbl < fuel)%nat ->
  search_info_item c fuel f t START = Done (match pos t tbl with Some o => START + (8 + o) | None => 0 end).
Proof.
  intros Hs Hwf Hfuel. unfold search_info_item. rewrite (read_head_start f tbl) by done. cbn [mbind outcome_bind].
  pose proof (enc_small _ Hwf). pose proof (zlen_nonneg (enc tbl)).
  unfold sizeof_TLV_HEADER_ST. rewrite (u32_small (START + 8)) by (change START with 0x1e1000; lia).
  rewrite u32_small by (change START with 0x1e1000; lia).
  pose proof (search_loop_run fuel f t [] tbl) as Hrun. cbn [app] in Hrun. change (zlen (enc [])) with 0 in Hrun.
  rewrite Z.add_0_r, Z.add_assoc in Hrun. rewrite Hrun by done. by destruct (pos t tbl).
Qed.

(** A payload where the table says it is. *)
Lemma read_payload f l1 t d l2 o n : stored f (l1 ++ (t, d) :: l2) -> wf (l1 ++ (t, d) :: l2) ->
  0 <= o -> 0 <= n -> o + n <= zlen d ->
  flash_read_data c f (START + (8 + zlen (enc l1)) + 8 + o) n = Done (slice d o n).
Proof.
  intros Hs Hwf Ho Hn Hle. pose proof (zlen_nonneg (enc l1)). pose proof (zlen_nonneg (enc l2)).
  replace (START + (8 + zlen (enc l1)) + 8 + o) with (START + (16 + zlen (enc l1) + o)) by lia.
  assert (Hz : zlen (enc (l1 ++ (t, d) :: l2)) = zlen (enc l1) + (8 + zlen d) + zlen (enc l2))
    by (rewrite enc_app, enc_cons, !zlen_app, zlen_enc_item; cbn; lia).
  erewrite stored_read; [|done..|lia|lia|rewrite zlen_image; lia]. f_equal.
  rewrite <- (slice_slice (image _) (16 + zlen (enc l1)) (zlen d)) by lia. f_equal.
  rewrite image_items, enc_cons. unfold enc_item. cbn [fst snd].
  rewrite <- (app_assoc (le32 t)), <- (app_assoc (le32 (zlen d))), (app_assoc (le32 t)), app_assoc.
  apply slice_mid; rewrite ?zlen_app, ?zlen_le32; lia.
Qed.

Lemma known_item t : t ∈ item_codes ->
  word_item t || (t =? WIFI_MAC_ITEM) || (t =? CHARGE_CONFIG_ITEM) = negb (t =? SSID_KEY_ITEM) && negb (t =? IP_CONFIG_ITEM).
Proof. intros Ht. each_code Ht; reflexivity. Qed.

(** What reading an item of the table gives. *)
Definition answer (tbl : list entry) (t : Z) (p0 p1 p2 : bool) : Z * list (list Z) :=
  match assoc t tbl with
  | Some d => if ptrs_ok t p0 p1 p2 then (1, parts t d) else (0, [])
  | None => (0, [])
  end.

Lemma get_exact fuel f o t p0 p1 p2 :
  holds f o -> t ∈ item_codes -> (length (default [] o) < fuel)%nat ->
  get_info_item c fuel f t p0 p1 p2 = Done (answer (default [] o) t p0 p1 p2).
Proof.
  intros Hh Ht Hfuel. unfold get_info_item. destruct o as [tbl|]; cbn [default from_option id] in *.
  2:{ by rewrite search_info_tbl_none. }
  destruct Hh as [Hs Hwf]. rewrite (search_info_tbl_found f tbl) by done. cbn [mbind outcome_bind].
  change (1 =? 0) with false. cbn [negb]. change (partition_start_addr pt) with START.
  rewrite (search_info_item_run fuel f t tbl) by done. cbn [mbind outcome_bind]. unfold answer.
  pose proof (pos_assoc t tbl) as Hp. destruct (pos t tbl) as [o|]; [|by rewrite Hp].
  destruct Hp as (l1 & d & l2 & -> & -> & -> & _). pose proof (zlen_nonneg (enc l1)).
  pose proof (enc_small _ Hwf) as Hsmall. rewrite enc_app, enc_cons, !zlen_app, zlen_enc_item in Hsmall.
  cbn [snd] in Hsmall. pose proof (zlen_nonneg d). pose proof (zlen_nonneg (enc l2)).
  assert (Hnz : START + (8 + zlen (enc l1)) =? 0 = false) by (apply Z.eqb_neq; change START with 0x1e1000; lia).
  rewrite Hnz. rewrite (read_head_item f l1 t d l2) by done. cbn [mbind outcome_bind].
  unfold sizeof_INFO_ITEM_ST. change (2 ^ 32) with 4294967296 in *.
  assert (Hu : forall k, 0 <= k <= 1000 -> u32 (START + (8 + zlen (enc l1)) + 8 + k) = START + (8 + zlen (enc l1)) + 8 + k)
    by (intros; apply u32_small; change START with 0x1e1000; lia).
  pose proof (Hu 0 ltac:(lia)) as Hu0. rewrite Z.add_0_r in Hu0. rewrite Hu0.
  assert (Hd : zlen d = payload t).
  { destruct Hwf as [Hwf _]. by apply Forall_app in Hwf as [_ [(_ & E & _) _]%Forall_cons]. }
  pose proof (read_payload f l1 t d l2 0) as Hr. rewrite Z.add_0_r in Hr.
  rewrite known_item by done. unfold ptrs_ok, parts.
  destruct (Z.eqb_spec t SSID_KEY_ITEM) as [->|Hn1]; [|destruct (Z.eqb_spec t IP_CONFIG_ITEM) as [->|Hn2]]; cbn [negb andb].
  - change (payload SSID_KEY_ITEM) with 96 in Hd. destruct (p0 && p1); [|done].
    rewrite Hu by lia. rewrite Hr by (done || lia). cbn [mbind outcome_bind].
    by rewrite (read_payload f l1 SSID_KEY_ITEM d l2) by (done || lia).
  - change (payload IP_CONFIG_ITEM) with 48 in Hd. destruct (p0 && p1 && p2); [|done].
    rewrite Hu by lia. rewrite <- (Z.add_assoc _ 16 16). rewrite Hu by lia. rewrite Hr by (done || lia). cbn [mbind outcome_bind].
    rewrite (read_payload f l1 IP_CONFIG_ITEM d l2) by (done || lia). cbn [mbind outcome_bind].
    by rewrite (read_payload f l1 IP_CONFIG_ITEM d l2) by (done || lia).
  - destruct p0; [|done]. rewrite Hr by (done || lia). cbn [mbind outcome_bind]. by rewrite slice_all by lia.
Qed.

(** Reading an item is looking it up in the table the partition holds:
    with no table, no such item or a missing pointer the call returns 0, and
    otherwise 1 with the item's payload split over the caller's buffers. *)
Theorem get_info_item_refines fuel f o t p0 p1 p2 :
  holds f o -> t ∈ item_codes -> (length (default [] o) < fuel)%nat ->
  get_info_item c fuel f t p0 p1 p2 = Done (answer (default [] o) t p0 p1 p2).
Proof. apply get_exact. Qed.

(* ------------------------------------------------------------------ *)
(** ** Saving *)

Lemma copy_item_mid (a old k : list Z) at' off p n :
  at' = zlen a + off -> 0 <= off -> 0 <= n <= zlen p -> off + n <= zlen old ->
  copy_item (a ++ old ++ k) at' p n = Done (a ++ splice old off (slice p 0 n) ++ k).
Proof.
  intros -> Ho Hn Hle. unfold copy_item. rewrite mem_read_in by lia. cbn [mbind outcome_bind].
  apply mem_write_mid; [done|done|]. rewrite zlen_slice by lia. lia.
Qed.

Lemma fill_item_mid t (a old k : list Z) p0 p1 p2 :
  t ∈ item_codes -> zlen old = payload t -> sources_ok t p0 p1 p2 ->
  fill_item t (a ++ old ++ k) (zlen a) p0 p1 p2 = Done (a ++ splice old 0 (new_data t p0 p1 p2) ++ k).
Proof.
  intros Ht Hold [Hsrc _]. pose proof (zlen_nonneg a).
  assert (Hone : forall p n, n <= zlen p -> 0 <= n <= zlen old ->
            copy_item (a ++ old ++ k) (zlen a) p n = Done (a ++ splice old 0 (slice p 0 n) ++ k))
    by (intros; apply copy_item_mid; lia).
  unfold item_codes in Ht.
  repeat (apply elem_of_cons in Ht as [->|Ht]); [..|by apply not_elem_of_nil in Ht];
    unfold fill_item, new_data; cbn in Hsrc;
    cbn -[splice slice copy_item];
    (match type of Hold with _ = ?n => let v := eval vm_compute in n in change n with v in Hold end);
    try (rewrite Hone by lia; done).
  - rewrite Hone by lia. cbn [mbind outcome_bind].
    rewrite (copy_item_mid a _ k _ 32) by (rewrite ?zlen_splice; rewrite ?zlen_slice; lia).
    pose proof (splice_splice_next old 0 (slice p0 0 32) (slice p1 0 64)) as E.
    rewrite !zlen_slice in E by lia. change (0 + 32) with 32 in E. by rewrite E by lia.
  - rewrite Hone by lia. cbn [mbind outcome_bind].
    assert (Hs : forall p : list Z, 16 <= zlen p -> zlen (slice p 0 16) = 16) by (intros; by apply zlen_slice; lia).
    rewrite (copy_item_mid a _ k _ 16) by (rewrite ?zlen_splice; rewrite ?Hs; lia). cbn [mbind outcome_bind].
    rewrite (copy_item_mid a _ k _ 32) by (rewrite ?zlen_splice; rewrite ?zlen_splice; rewrite ?Hs; lia).
    do 2 f_equal. destruct Hsrc as (Hp0 & Hp1 & Hp2).
    pose proof (splice_splice_next old 0 (slice p0 0 16) (slice p1 0 16)) as E1.
    pose proof (splice_splice_next old 0 (slice p0 0 16 ++ slice p1 0 16) (slice p2 0 16)) as E2.
    rewrite !zlen_app, !Hs in E2 by lia. rewrite Hs in E1 by lia. cbn [Z.add] in E1, E2.
    change (0 + (16 + 16)) with 32 in E2. change (0 + 16) with 16 in E1.
    by rewrite E1, E2, <- app_assoc by lia.
Qed.

Lemma fill_table_mid t (hd a h old k : list Z) head_len p0 p1 p2 :
  t ∈ item_codes -> zlen hd = 8 -> zlen h = 8 -> zlen old = payload t -> sources_ok t p0 p1 p2 ->
  fill_table t (hd ++ a ++ h ++ old ++ k) (8 + zlen a) (info_item_len t) head_len p0 p1 p2 =
    Done (le32 INFO_TLV_HEADER ++ le32 head_len ++ a ++ enc_item (t, splice old 0 (new_data t p0 p1 p2)) ++ k).
Proof.
  intros Ht Hhd Hh Hold Hsrc. unfold fill_table, sizeof_INFO_ITEM_ST. pose proof (payload_range t Ht).
  assert (Hnew : zlen (splice old 0 (new_data t p0 p1 p2)) = payload t).
  { destruct Hsrc as [Hsrc _]. rewrite zlen_splice; [done|lia|]. rewrite Hold. unfold new_data.
    each_code Ht; cbn in Hsrc; cbn -[splice slice]; rewrite ?zlen_app, ?zlen_slice by lia; vm_compute; discriminate. }
  replace (hd ++ a ++ h ++ old ++ k) with ((hd ++ a ++ h) ++ old ++ k) by (by rewrite <- !app_assoc).
  replace (8 + zlen a + 8) with (zlen (hd ++ a ++ h)) by (rewrite !zlen_app; lia).
  rewrite fill_item_mid by done. cbn [mbind outcome_bind]. set (d := splice old 0 _) in *.
  replace ((hd ++ a ++ h) ++ d ++ k) with ((hd ++ a) ++ h ++ d ++ k) by (by rewrite <- !app_assoc).
  rewrite (mem_write_mid (hd ++ a) h _ _ 0) by (rewrite ?zlen_app, ?zlen_le32; lia). cbn [mbind outcome_bind].
  rewrite (mem_write_mid (hd ++ a) _ _ _ 4) by (rewrite ?zlen_splice, ?zlen_app; rewrite ?zlen_le32; lia).
  cbn [mbind outcome_bind].
  pose proof (splice_splice_next h 0 (le32 t) (le32 (info_item_len t - 8))) as E. rewrite zlen_le32 in E.
  change (0 + 4) with 4 in E. rewrite E by lia. rewrite splice_whole by (rewrite zlen_app, !zlen_le32; lia).
  rewrite <- (app_assoc hd). change (hd ++ ?x) with ([] ++ hd ++ x).
  rewrite (mem_write_mid [] hd _ 0 0) by (rewrite ?zlen_app, ?zlen_le32; change (zlen (@nil Z)) with 0; lia).
  rewrite splice_whole by (rewrite zlen_app, !zlen_le32; lia).
  unfold enc_item. cbn [fst snd app]. rewrite Hnew. unfold payload, sizeof_INFO_ITEM_ST. by rewrite <- !app_assoc.
Qed.

(** A chip of the driver's table that reaches beyond the partition. *)
Definition big_enough : Prop := c ∈ flash_config /\ START + SECTOR <= flash_size c.

Lemma config_size : big_enough -> row_ok c = true /\ flash_size c <= CHIP /\ flash_size c mod SECTOR = 0.
Proof.
  intros [Hin _]. split; [by apply flash_config_ok|].
  assert (Hall : forallb (fun c => (flash_size c <=? CHIP) && (flash_size c mod SECTOR =? 0)) flash_config = true)
    by reflexivity.
  rewrite forallb_forall in Hall. specialize (Hall c). rewrite andb_true_iff, Z.leb_le, Z.eqb_eq in Hall.
  apply Hall. by apply list_elem_of_In.
Qed.

(** The state after a table is written: the bytes, the rest of the
    partition's sector erased, the other sectors as they were, and the
    protection at the level of the running firmware. *)
Definition rewritten f f' (bs : list Z) : Prop :=
  cells f' START (zlen bs) = bs /\
  (forall x, START + zlen bs <= x < START + SECTOR -> cell f' x = 0xFF) /\
  (forall x, ~ START <= x < START + SECTOR -> cell f' x = cell f x) /\
  protect_value c (flash_read_sr c f' (sr_size c)) = setting c FLASH_UNPROTECT_LAST_BLOCK.

Lemma write_table_run f bs :
  big_enough -> Forall is_byte bs -> 0 < zlen bs <= SECTOR ->
  exists f', write_table c f bs (zlen bs) = Done f' /\ rewritten f f' bs.
Proof.
  intros Hbig Hb Hz. pose proof Hbig as [_ Hsize]. destruct (config_size Hbig) as (Hok & Hchip & Hmod).
  unfold write_table, bk_flash_enable_security, bk_flash_write.
  destruct (set_flash_protect_sr f FLASH_PROTECT_NONE Hok) as [Es Ec].
  set (f1 := set_flash_protect c f FLASH_PROTECT_NONE) in *.
  assert (Hu1 : unprotected (c := c) f1) by (unfold unprotected; rewrite Es; by apply (protected_sr_value _ FLASH_PROTECT_NONE)).
  change (partition_start_addr (bk_flash_get_info BK_PARTITION_NET_PARAM)) with START.
  assert (HS : START = 0x1e1000) by done. unfold SECTOR, CHIP in *.
  destruct (erase_exact f1 BK_PARTITION_NET_PARAM 0 (zlen bs)) as (He1 & He2 & He3);
    change (partition_start_addr (bk_flash_get_info BK_PARTITION_NET_PARAM)) with START in *; [done|done|lia|lia|lia|done|].
  set (f2 := bk_flash_erase c f1 BK_PARTITION_NET_PARAM 0 (zlen bs)) in *.
  assert (Hu2 : unprotected (c := c) f2) by by apply (unprotected_status f1).
  rewrite Z.add_0_r, u32_small by lia.
  destruct (write_exact f2 bs START (zlen bs)) as (f3 & -> & _ & _ & Hp3); [done|unfold CHIP; lia|lia|lia|done|lia|lia|].
  cbn [mbind outcome_bind]. destruct (set_flash_protect_sr f3 FLASH_UNPROTECT_LAST_BLOCK Hok) as [Es4 Ec4].
  eexists. split; [reflexivity|]. unfold SECTOR in He3. unfold erased in He3.
  change (0 / 4096 * 4096) with 0 in He3. replace (0 + zlen bs - 1) with (zlen bs - 1) in He3 by lia.
  rewrite (Z.div_small (zlen bs - 1)) in He3 by lia. split_and!.
  - symmetry. apply list_eq_cells. intros i Hi. rewrite Ec4, Hp3. unfold programmed.
    rewrite (proj2 (Z.leb_le START _)), (proj2 (Z.ltb_lt _ (START + zlen bs))) by lia. cbn [andb].
    rewrite He3, (proj2 (Z.leb_le _ _)), (proj2 (Z.ltb_lt _ _)) by lia. cbn [andb].
    replace (START + i - START) with i by lia.
    destruct (lookup_lt_is_Some_2 bs (Z.to_nat i)) as [b Eb]; [unfold zlen in Hi; lia|].
    rewrite nth_lookup, Eb. cbn [from_option id]. f_equal.
    rewrite Forall_lookup in Hb. specialize (Hb _ _ Eb). unfold is_byte in Hb.
    rewrite Z.land_comm. change 255 with (Z.ones 8). rewrite Z.land_ones by lia. symmetry. by apply Z.mod_small.
  - intros x Hx. rewrite Ec4, Hp3. unfold programmed. unfold SECTOR in Hx.
    rewrite (proj2 (Z.ltb_ge x (START + zlen bs))), andb_false_r, He3 by lia.
    by rewrite (proj2 (Z.leb_le _ _)), (proj2 (Z.ltb_lt _ _)) by lia.
  - intros x Hx. rewrite Ec4, Hp3, <- Ec. unfold programmed. unfold SECTOR in Hx.
    case_match; [zbool; lia|]. rewrite He3. case_match; [zbool; lia|done].
  - rewrite Es4. by apply protected_sr_value.
Qed.

Lemma new_data_bytes t p0 p1 p2 : sources_ok t p0 p1 p2 -> Forall is_byte (new_data t p0 p1 p2).
Proof.
  intros (_ & H0 & H1 & H2). unfold new_data, slice.
  repeat case_match; rewrite ?Forall_app; repeat split; by apply Forall_take, Forall_drop.
Qed.

Lemma new_data_fits t p0 p1 p2 : t ∈ item_codes -> sources_ok t p0 p1 p2 -> zlen (new_data t p0 p1 p2) <= payload t.
Proof.
  intros Ht [Hsrc _]. unfold new_data.
  each_code Ht; cbn in Hsrc; cbn -[slice]; rewrite ?zlen_app, ?zlen_slice by lia; vm_compute; discriminate.
Qed.

Lemma wf_put t tbl p0 p1 p2 : t ∈ item_codes -> sources_ok t p0 p1 p2 -> wf tbl ->
  wf (put t (new_data t p0 p1 p2) tbl).
Proof.
  intros Ht Hsrc [Hwf Hnd]. pose proof (new_data_bytes t _ _ _ Hsrc) as Hb.
  pose proof (new_data_fits t _ _ _ Ht Hsrc) as Hfit. pose proof (payload_range t Ht).
  assert (Hrep : zlen (replicate (Z.to_nat (payload t)) 0) = payload t) by (unfold zlen; rewrite length_replicate; lia).
  destruct (assoc t tbl) as [d|] eqn:E.
  - apply assoc_split in E as (l1 & l2 & -> & Hn & ->). rewrite map_app, map_cons in *.
    split; [|by rewrite map_app]. apply Forall_app in Hwf as [H1 [(Hc & Hz & Hd) H2]%Forall_cons]. cbn [fst snd] in *.
    apply Forall_app. split; [done|]. apply Forall_cons. split; [|done]. split_and!; cbn [fst snd]; [done| |by apply splice_bytes].
    by rewrite zlen_splice by lia.
  - apply assoc_none in E as [Hn ->]. split.
    + apply Forall_app. split; [done|]. apply Forall_singleton. split_and!; cbn [fst snd]; [done| |].
      * by rewrite zlen_splice by lia.
      * apply splice_bytes; [|done]. apply Forall_replicate. unfold is_byte. lia.
    + rewrite map_app. apply NoDup_app. split_and!; [done| |apply NoDup_singleton].
      intros x Hx [->|Hin]%elem_of_cons; [done|by apply not_elem_of_nil in Hin].
Qed.

(** The buffer the item is written into, for each of the three cases: no
    table, no such item, and an item to overwrite. *)
Lemma save_buffer t tbl p0 p1 p2 : t ∈ item_codes -> sources_ok t p0 p1 p2 -> wf tbl ->
  let tbl' := put t (new_data t p0 p1 p2) tbl in
  match pos t tbl with
  | Some o => fill_table t (image tbl) (8 + o) (info_item_len t) (zlen (enc tbl)) p0 p1 p2 = Done (image tbl') /\
              zlen (enc tbl') = zlen (enc tbl)
  | None => forall hd, zlen hd = 8 ->
      fill_table t (hd ++ enc tbl ++ replicate (Z.to_nat (info_item_len t)) 0) (8 + zlen (enc tbl))
        (info_item_len t) (zlen (enc tbl) + info_item_len t) p0 p1 p2 = Done (image tbl') /\
      zlen (enc tbl') = zlen (enc tbl) + info_item_len t
  end.
Proof.
  intros Ht Hsrc Hwf. cbn zeta. pose proof (pos_assoc t tbl) as Hp. pose proof (payload_range t Ht).
  assert (Hi : info_item_len t = 8 + payload t) by (unfold payload, sizeof_INFO_ITEM_ST; lia).
  pose proof (new_data_fits t _ _ _ Ht Hsrc) as Hfit.
  destruct (pos t tbl) as [o|].
  - destruct Hp as (l1 & d & l2 & -> & -> & _ & ->).
    assert (Hd : zlen d = payload t).
    { destruct Hwf as [Hwf _]. by apply Forall_app in Hwf as [_ [(_ & E & _) _]%Forall_cons]. }
    assert (Ez : zlen (enc (l1 ++ (t, splice d 0 (new_data t p0 p1 p2)) :: l2)) = zlen (enc (l1 ++ (t, d) :: l2))).
    { rewrite !enc_app, !enc_cons, !zlen_app, !zlen_enc_item. cbn [snd]. by rewrite zlen_splice by lia. }
    split; [|done]. rewrite !image_items, Ez, !enc_cons. set (n := zlen (enc (l1 ++ (t, d) :: l2))).
    unfold enc_item at 1. cbn [fst snd].
    replace (((le32 INFO_TLV_HEADER ++ le32 n ++ enc l1) ++ (le32 t ++ le32 (zlen d) ++ d) ++ enc l2))
      with ((le32 INFO_TLV_HEADER ++ le32 n) ++ enc l1 ++ (le32 t ++ le32 (zlen d)) ++ d ++ enc l2)
      by (by rewrite <- !app_assoc).
    rewrite fill_table_mid by done. by rewrite <- !app_assoc.
  - intros hd Hhd. pose proof (proj2 (assoc_none t tbl Hp) (new_data t p0 p1 p2)) as Eput.
    assert (Hrep : zlen (replicate (Z.to_nat (payload t)) 0) = payload t) by (unfold zlen; rewrite length_replicate; lia).
    assert (Ez : zlen (enc (put t (new_data t p0 p1 p2) tbl)) = zlen (enc tbl) + info_item_len t).
    { rewrite Eput, enc_app, zlen_app, enc_cons, zlen_app, zlen_enc_item. change (enc []) with (@nil Z).
      change (zlen (@nil Z)) with 0. cbn [snd]. rewrite zlen_splice by lia. lia. }
    split; [|done]. unfold image. rewrite Ez, Eput, enc_app, enc_cons. change (enc []) with (@nil Z).
    assert (Erep : replicate (Z.to_nat (info_item_len t)) 0 = replicate 8 0 ++ replicate (Z.to_nat (payload t)) 0 ++ []).
    { rewrite app_nil_r, <- replicate_add. f_equal. lia. }
    rewrite Erep. by rewrite fill_table_mid by done.
Qed.

Definition all_memory (zalloc : Z -> bool) : Prop := forall n, n <= SECTOR -> zalloc n = true.

Lemma write_zeros (bs : list Z) n : zlen bs <= n ->
  mem_write (replicate (Z.to_nat n) 0) 0 bs = Done (bs ++ replicate (Z.to_nat (n - zlen bs)) 0).
Proof.
  intros Hn. unfold zlen in Hn. replace (Z.to_nat n) with (length bs + Z.to_nat (n - zlen bs))%nat by (unfold zlen; lia).
  rewrite replicate_add. change (replicate (length bs) 0 ++ ?x) with ([] ++ replicate (length bs) 0 ++ x).
  rewrite (mem_write_mid [] _ _ 0 0) by (unfold zlen; rewrite ?length_replicate; cbn; lia).
  by rewrite splice_whole by (unfold zlen; by rewrite length_replicate).
Qed.

Lemma pos_range t tbl o : wf tbl -> pos t tbl = Some o -> 0 <= o < 11 * 104.
Proof.
  intros Hwf E. pose proof (pos_assoc t tbl) as Hp. rewrite E in Hp. destruct Hp as (l1 & d & l2 & -> & -> & _).
  pose proof (enc_small _ Hwf) as Hs. rewrite enc_app, enc_cons, !zlen_app, zlen_enc_item in Hs. cbn [snd] in Hs.
  pose proof (zlen_nonneg (enc l1)). pose proof (zlen_nonneg (enc l2)). pose proof (zlen_nonneg d). lia.
Qed.

(** Up to the flash, saving builds the image of the new table. *)
Lemma save_builds fuel zalloc f o t p0 p1 p2 :
  all_memory zalloc -> holds f o -> t ∈ item_codes -> sources_ok t p0 p1 p2 ->
  (length (default [] o) < fuel)%nat ->
  let tbl' := put t (new_data t p0 p1 p2) (default [] o) in
  save_info_item c fuel zalloc f t p0 p1 p2 =
    (f' ← write_table c f (image tbl') (8 + zlen (enc tbl')); Done (1, f')) /\ wf tbl'.
Proof.
  intros Hmem Hh Ht Hsrc Hfuel. cbn zeta. set (tbl := default [] o) in *.
  assert (Hwf : wf tbl) by (destruct o as [tb|]; [apply Hh|split; constructor]).
  split; [|by apply wf_put].
  pose proof (save_buffer t tbl p0 p1 p2 Ht Hsrc Hwf) as Hbuf. cbn zeta in Hbuf.
  set (tbl' := put t (new_data t p0 p1 p2) tbl) in *.
  pose proof (enc_small _ Hwf) as Hs1. pose proof (zlen_nonneg (enc tbl)). pose proof (payload_range t Ht).
  assert (Hi : info_item_len t = 8 + payload t) by (unfold payload, sizeof_INFO_ITEM_ST; lia).
  unfold save_info_item, sizeof_INFO_ITEM_ST, sizeof_TLV_HEADER_ST.
  destruct o as [tb|]; cbn [default from_option id] in tbl; subst tbl.
  - destruct Hh as [Hst _]. rewrite (search_info_tbl_found f tb false) by done. cbn [mbind outcome_bind].
    change (1 =? 0) with false. cbn iota. change (partition_start_addr pt) with START.
    rewrite (search_info_item_run fuel f t tb) by done. cbn [mbind outcome_bind].
    destruct (pos t tb) as [ofs|] eqn:Epos.
    + destruct Hbuf as [Hfill Ez]. pose proof (pos_range t tb ofs Hwf Epos).
      rewrite (proj2 (Z.eqb_neq _ 0)) by (change START with 0x1e1000; lia).
      replace (START + (8 + ofs) - START) with (8 + ofs) by lia. rewrite (u32_small (8 + ofs)) by lia.
      rewrite Hmem by (unfold SECTOR; lia). rewrite (search_info_tbl_found f tb true) by done. cbn [mbind outcome_bind].
      rewrite write_zeros, zlen_image, Z.sub_diag by (rewrite ?zlen_image; lia).
      cbn [mbind outcome_bind replicate Z.to_nat]. rewrite app_nil_r.
      replace (8 + zlen (enc tb) - 8) with (zlen (enc tb)) by lia. rewrite (u32_small (zlen _)) by lia.
      rewrite Hfill. cbn [mbind outcome_bind]. by rewrite Ez.
    + destruct (Hbuf (le32 INFO_TLV_HEADER ++ le32 (zlen (enc tb))) eq_refl) as [Hfill Ez].
      rewrite Z.eqb_refl. rewrite (u32_small (8 + zlen (enc tb) + info_item_len t)) by lia.
      rewrite Hmem by (unfold SECTOR; lia). rewrite (search_info_tbl_found f tb true) by done. cbn [mbind outcome_bind].
      rewrite write_zeros, zlen_image by (rewrite ?zlen_image; lia). cbn [mbind outcome_bind].
      replace (8 + zlen (enc tb) + info_item_len t - (8 + zlen (enc tb))) with (info_item_len t) by lia.
      replace (8 + zlen (enc tb) + info_item_len t - 8) with (zlen (enc tb) + info_item_len t) by lia.
      rewrite (u32_small (zlen _ + _)) by lia. unfold image at 1. rewrite <- !app_assoc in *.
      rewrite Hfill. cbn [mbind outcome_bind]. by rewrite Ez, Z.add_assoc.
  - rewrite (search_info_tbl_none f false) by done. cbn [mbind outcome_bind]. rewrite Z.eqb_refl.
    destruct (Hbuf (replicate 8 0) eq_refl) as [Hfill Ez]. cbn [pos] in Hfill. change (enc []) with (@nil Z) in *.
    rewrite Hmem by (unfold SECTOR; lia). cbn [app] in Hfill. change (zlen (@nil Z)) with 0 in *.
    rewrite Z.add_0_l, Z.add_0_r in *.
    replace (Z.to_nat (8 + info_item_len t)) with (8 + Z.to_nat (info_item_len t))%nat by lia.
    rewrite replicate_add. cbn [mbind outcome_bind]. rewrite Hfill. cbn [mbind outcome_bind]. by rewrite Ez.
Qed.

Lemma save_exact fuel zalloc f o t p0 p1 p2 :
  big_enough -> all_memory zalloc -> holds f o -> t ∈ item_codes -> sources_ok t p0 p1 p2 ->
  (length (default [] o) < fuel)%nat ->
  let tbl' := put t (new_data t p0 p1 p2) (default [] o) in
  exists f', save_info_item c fuel zalloc f t p0 p1 p2 = Done (1, f') /\
    holds f' (Some tbl') /\ rewritten f f' (image tbl').
Proof.
  intros Hbig Hmem Hh Ht Hsrc Hfuel. cbn zeta.
  destruct (save_builds fuel zalloc f o t p0 p1 p2) as [-> Hwf']; [done..|].
  set (tbl' := put _ _ _) in *. pose proof (enc_small _ Hwf'). pose proof (zlen_nonneg (enc tbl')).
  destruct (write_table_run f (image tbl') Hbig) as (f' & Hw & Hr);
    [apply image_bytes, Hwf'|rewrite zlen_image; unfold SECTOR; lia|].
  rewrite zlen_image in Hw. rewrite Hw. exists f'. split; [done|]. split; [|done]. split; [apply Hr|done].
Qed.

(** C10: On a chip that reaches beyond the partition and with memory to be had,
    saving an item puts it into the table the partition holds: the call
    returns 1; the partition then holds the old table with the item's payload
    overwritten in place, or with the item appended when it was not there (a
    fresh table when there was none); the rest of the partition's 4096-byte
    sector is left erased (0xFF), no byte outside that sector changes, and the
    chip's protection is set to the level UNPROTECT_LAST_BLOCK, whatever it was
    before. *)
Theorem save_info_item_refines fuel zalloc f o t p0 p1 p2 :
  big_enough -> all_memory zalloc -> holds f o -> t ∈ item_codes -> sources_ok t p0 p1 p2 ->
  (length (default [] o) < fuel)%nat ->
  let tbl' := put t (new_data t p0 p1 p2) (default [] o) in
  exists f', save_info_item c fuel zalloc f t p0 p1 p2 = Done (1, f') /\
    holds f' (Some tbl') /\ rewritten f f' (image tbl').
Proof. apply save_exact. Qed.

Lemma length_put t data tbl : (length (put t data tbl) <= S (length tbl))%nat.
Proof. induction tbl as [|[t' d] r IH]; cbn; [done|]. destruct (_ =? _); cbn; lia. Qed.

(** C18: After an item is saved, reading it gives the caller's data back (at
    the start of a payload of the item's length), and reading any other item
    gives what it gave before. *)
Theorem save_then_get fuel zalloc f o t p0 p1 p2 :
  big_enough -> all_memory zalloc -> holds f o -> t ∈ item_codes -> sources_ok t p0 p1 p2 ->
  (S (length (default [] o)) < fuel)%nat ->
  exists f' d, save_info_item c fuel zalloc f t p0 p1 p2 = Done (1, f') /\
    get_info_item c fuel f' t true true true = Done (1, parts t d) /\
    zlen d = payload t /\ slice d 0 (zlen (new_data t p0 p1 p2)) = new_data t p0 p1 p2 /\
    (forall t' q0 q1 q2, t' ∈ item_codes -> t' <> t ->
       get_info_item c fuel f' t' q0 q1 q2 = get_info_item c fuel f t' q0 q1 q2).
Proof.
  intros Hbig Hmem Hh Ht Hsrc Hfuel.
  destruct (save_exact fuel zalloc f o t p0 p1 p2) as (f' & Hs & Hh' & _); [done..|lia|].
  set (tbl' := put _ _ _) in *. pose proof (payload_range t Ht).
  assert (Hl : (length tbl' < fuel)%nat) by (pose proof (length_put t (new_data t p0 p1 p2) (default [] o)); unfold tbl'; lia).
  set (old := default (replicate (Z.to_nat (payload t)) 0) (assoc t (default [] o))).
  assert (Hold : zlen old = payload t).
  { unfold old. destruct (assoc t (default [] o)) as [d|] eqn:E; cbn [default from_option id].
    - destruct o as [tb|]; [|done]. cbn [default from_option id] in E. destruct Hh as [_ [Hwf _]].
      apply assoc_split in E as (l1 & l2 & -> & _). by apply Forall_app in Hwf as [_ [(_ & E & _) _]%Forall_cons].
    - unfold zlen. rewrite length_replicate. lia. }
  pose proof (new_data_fits t _ _ _ Ht Hsrc).
  exists f', (splice old 0 (new_data t p0 p1 p2)). split_and!; [done| | | |].
  - rewrite (get_exact fuel f' (Some tbl')) by done. cbn [default from_option id]. unfold answer, tbl'.
    rewrite assoc_put_same. by replace (ptrs_ok t true true true) with true by (by unfold ptrs_ok; repeat case_match).
  - by rewrite zlen_splice by lia.
  - by apply slice_splice_same; lia.
  - intros t' q0 q1 q2 Ht' Hne. rewrite (get_exact fuel f' (Some tbl')), (get_exact fuel f o) by (done || lia).
    cbn [default from_option id]. unfold answer, tbl'. by rewrite assoc_put_other.
Qed.

(** When the table's buffer cannot be allocated, saving returns 0 and
    the chip is left exactly as it was. *)
Theorem save_info_item_no_memory fuel f o t p0 p1 p2 :
  holds f o -> (length (default [] o) < fuel)%nat ->
  save_info_item c fuel (fun _ => false) f t p0 p1 p2 = Done (0, f).
Proof.
  intros Hh Hfuel. unfold save_info_item. destruct o as [tbl|]; cbn [default from_option id] in Hfuel.
  - destruct Hh as [Hs Hwf]. rewrite (search_info_tbl_found f tbl false) by done. cbn [mbind outcome_bind].
    change (1 =? 0) with false. cbn iota. change (partition_start_addr pt) with START.
    rewrite (search_info_item_run fuel f t tbl) by done. cbn [mbind outcome_bind]. by destruct (_ =? 0).
  - by rewrite (search_info_tbl_none f false).
Qed.

(** A damaged length field hangs every reader: with an item whose length
    is 0xFFFFFFF8 before the one looked for, [search_info_item] reads the
    same head for ever, however long it is left to run. *)
Theorem damaged_length_spins fuel f len t t' p0 p1 p2 :
  read_head c f START = Done (INFO_TLV_HEADER, len) -> 0 < len < 2 ^ 24 ->
  read_head c f (START + 8) = Done (t', 0xFFFFFFF8) -> t' <> t ->
  get_info_item c fuel f t p0 p1 p2 = Spin.
Proof.
  intros Hh Hlen Hi Hne.
  assert (Ht : search_info_tbl c f false = Done (1, u32 (len + 8), [])).
  { unfold search_info_tbl. change (partition_start_addr pt) with START. by rewrite Hh. }
  unfold get_info_item, search_info_item. change (partition_start_addr pt) with START.
  rewrite Ht. cbn [mbind outcome_bind]. change (1 =? 0) with false. cbn iota. rewrite Hh. cbn [mbind outcome_bind].
  unfold sizeof_TLV_HEADER_ST. rewrite (u32_small (START + 8)), u32_small by (change START with 0x1e1000; lia).
  assert (Hspin : search_loop c fuel f t (START + 8) (START + 8 + len) = Spin).
  { induction fuel as [|fuel IH]; cbn [search_loop]; rewrite (proj2 (Z.ltb_lt _ _)) by lia; [done|].
    rewrite Hi. cbn [mbind outcome_bind]. rewrite (proj2 (Z.eqb_neq t t')) by congruence. cbn [negb].
    by replace (u32 (u32 (START + 8 + sizeof_INFO_ITEM_ST) + 0xFFFFFFF8)) with (START + 8) by reflexivity. }
  by rewrite Hspin.
Qed.

(** On a chip of the table that ends before the partition (the 1 MB
    one) saving an item still returns 1, but no byte of the chip changes. *)
Theorem save_on_small_chip fuel zalloc f o t p0 p1 p2 :
  c ∈ flash_config -> flash_size c <= START -> all_memory zalloc -> holds f o -> t ∈ item_codes ->
  sources_ok t p0 p1 p2 -> (length (default [] o) < fuel)%nat ->
  exists f', save_info_item c fuel zalloc f t p0 p1 p2 = Done (1, f') /\ forall a, cell f' a = cell f a.
Proof.
  intros Hin Hsize Hmem Hh Ht Hsrc Hfuel. pose proof (flash_config_ok c Hin) as Hok.
  destruct (save_builds fuel zalloc f o t p0 p1 p2) as [-> Hwf']; [done..|].
  set (tbl' := put _ _ _) in *. pose proof (enc_small _ Hwf'). pose proof (zlen_nonneg (enc tbl')).
  unfold write_table, bk_flash_enable_security, bk_flash_erase, bk_flash_write.
  change (partition_start_addr (bk_flash_get_info BK_PARTITION_NET_PARAM)) with START.
  replace (0 + (8 + zlen (enc tbl')) - 1) with (7 + zlen (enc tbl')) by lia. rewrite u32_small by lia.
  rewrite Z.shiftr_div_pow2, Z.div_small by lia.
  change (Z.shiftr 0 12) with 0. change (Z.to_nat (0 - 0 + 1)) with 1%nat. cbn [erase_loop].
  change (u32 (START + u32 (Z.shiftl 0 12))) with START. unfold flash_erase_sector.
  change (Z.land START 0xFFF000) with START. rewrite (proj2 (Z.leb_le _ _)) by done.
  unfold flash_write_data. change (page_of (u32 (START + 0))) with START. rewrite (proj2 (Z.leb_le _ START)) by done.
  cbn [orb mbind outcome_bind]. eexists. split; [reflexivity|]. intros a.
  rewrite (proj2 (set_flash_protect_sr _ FLASH_UNPROTECT_LAST_BLOCK Hok)).
  apply (proj2 (set_flash_protect_sr _ FLASH_PROTECT_NONE Hok)).
Qed.
End Table.

(* ------------------------------------------------------------------ *)
(** ** Concrete tables *)

(** A chip whose partition starts with [bs]. *)
Definition chip_with (bs : list Z) : chip := mk_chip (fun a => nth (Z.to_nat (a - START)) bs 255) 0 0.

Definition a_table : list entry := [(DHCP_MODE_ITEM, [1; 0; 0; 0]); (WIFI_MAC_ITEM, [0xc8; 0x47; 0x8c; 1; 2; 3; 0; 0])].

Lemma code_in n : (n < 11)%nat -> nth n item_codes 0 ∈ item_codes.
Proof. intros Hn. apply list_elem_of_In, nth_In. done. Qed.

Lemma a_table_wf : wf a_table.
Proof.
  split.
  - apply Forall_cons. split; [|apply Forall_singleton]; split_and!; cbn [fst snd].
    + apply (code_in 2). lia.
    + reflexivity.
    + repeat constructor; unfold is_byte; lia.
    + apply (code_in 3). lia.
    + reflexivity.
    + repeat constructor; unfold is_byte; lia.
  - apply NoDup_cons. split; [|apply NoDup_singleton]. intros [E|E%not_elem_of_nil]%elem_of_cons; [discriminate E|done].
Defined.

Lemma a_table_held : holds (c := gd_25q16c) (chip_with (image a_table)) (Some a_table).
Proof. split; [by vm_compute|apply a_table_wf]. Defined.

Lemma fresh_held : holds (c := gd_25q16c) fresh None.
Proof. by vm_compute. Defined.

Lemma gd_25q16c_big : big_enough (c := gd_25q16c).
Proof. split; [apply list_elem_of_In; cbn; tauto|by vm_compute]. Defined.

Lemma get_info_item_refines_witness :
  get_info_item gd_25q16c 5 (chip_with (image a_table)) WIFI_MAC_ITEM true false false =
    Done (1, [[0xc8; 0x47; 0x8c; 1; 2; 3; 0; 0]]).
Proof.
  rewrite (get_info_item_refines (c := gd_25q16c) 5 (chip_with (image a_table)) (Some a_table) WIFI_MAC_ITEM
    true false false a_table_held (code_in 3 ltac:(lia))); [reflexivity|cbn; lia].
Defined.

Lemma save_info_item_refines_witness :
  exists f', save_info_item gd_25q16c 5 (fun _ => true) (chip_with (image a_table)) DHCP_MODE_ITEM [2; 0; 0; 0] [] [] =
      Done (1, f') /\
    holds (c := gd_25q16c) f' (Some [(DHCP_MODE_ITEM, [2; 0; 0; 0]); (WIFI_MAC_ITEM, [0xc8; 0x47; 0x8c; 1; 2; 3; 0; 0])]).
Proof.
  destruct (save_info_item_refines (c := gd_25q16c) 5 (fun _ => true) (chip_with (image a_table)) (Some a_table)
    DHCP_MODE_ITEM [2; 0; 0; 0] [] [] gd_25q16c_big) as (f' & H1 & H2 & _).
  - intros n _. reflexivity.
  - apply a_table_held.
  - apply (code_in 2). lia.
  - split_and!; [vm_compute; discriminate|repeat constructor; unfold is_byte; lia|constructor|constructor].
  - cbn. lia.
  - exists f'. split; [exact H1|exact H2].
Defined.

Lemma save_then_get_witness :
  exists f' d, save_info_item gd_25q16c 5 (fun _ => true) fresh WIFI_MAC_ITEM [1; 2; 3; 4; 5; 6] [] [] = Done (1, f') /\
    get_info_item gd_25q16c 5 f' WIFI_MAC_ITEM true true true = Done (1, [d]) /\ slice d 0 6 = [1; 2; 3; 4; 5; 6].
Proof.
  destruct (save_then_get (c := gd_25q16c) 5 (fun _ => true) fresh None
    WIFI_MAC_ITEM [1; 2; 3; 4; 5; 6] [] [] gd_25q16c_big) as (f' & d & H1 & H2 & _ & H3 & _).
  - intros n _. reflexivity.
  - apply fresh_held.
  - apply (code_in 3). lia.
  - split_and!; [vm_compute; discriminate|repeat constructor; unfold is_byte; lia|constructor|constructor].
  - cbn. lia.
  - exists f', d. split_and!; [exact H1|exact H2|exact H3].
Defined.

Lemma save_info_item_no_memory_witness :
  save_info_item gd_25q16c 5 (fun _ => false) (chip_with (image a_table)) SSID_KEY_ITEM [] [] [] =
    Done (0, chip_with (image a_table)).
Proof.
  apply (save_info_item_no_memory (c := gd_25q16c) 5 (chip_with (image a_table)) (Some a_table)).
  - apply a_table_held.
  - cbn. lia.
Defined.

(** A table whose first item claims 0xFFFFFFF8 bytes. *)
Definition damaged : list Z := le32 INFO_TLV_HEADER ++ le32 24 ++ le32 DHCP_MODE_ITEM ++ le32 0xFFFFFFF8.

Lemma damaged_length_spins_witness :
  get_info_item gd_25q16c 1000 (chip_with damaged) WIFI_MAC_ITEM true false false = Spin.
Proof.
  apply (damaged_length_spins (c := gd_25q16c) 1000 (chip_with damaged) 24 WIFI_MAC_ITEM DHCP_MODE_ITEM);
    [by vm_compute|lia|by vm_compute|by vm_compute].
Defined.

Definition xtx_25f08b : flash_config_t := flash_get_current_flash_config 0x0B4014.

Lemma save_on_small_chip_witness :
  exists f', save_info_item xtx_25f08b 5 (fun _ => true) fresh DHCP_MODE_ITEM [1; 0; 0; 0] [] [] = Done (1, f') /\
    cell (c := xtx_25f08b) f' 0x1e1000 = 0.
Proof.
  destruct (save_on_small_chip (c := xtx_25f08b) 5 (fun _ => true) fresh None
    DHCP_MODE_ITEM [1; 0; 0; 0] [] []) as (f' & H1 & H2).
  - apply list_elem_of_In. cbn. tauto.
  - by vm_compute.
  - intros n _. reflexivity.
  - by vm_compute.
  - apply (code_in 2). lia.
  - split_and!; [vm_compute; discriminate|repeat constructor; unfold is_byte; lia|constructor|constructor].
  - cbn. lia.
  - exists f'. split; [exact H1|]. rewrite H2. reflexivity.
Defined.
