(* ===== verification/MultiButton.v ===== *)
(** The key driver's button machine: beken378/func/key/multi_button.c.

    [BUTTON_S] keeps the widths of its bit-fields; a tick reads the pin,
    debounces it and steps the state machine, and its result lists the
    callbacks made, in order.  Callbacks are application code: they are the
    observable events here and are assumed not to change the button.

    The work list is the chain of [next] fields over a heap of handles. *)

From S2P Require Import Prelude.

Definition DEBOUNCE_TICKS : Z := 6.
Definition SHORT_TICKS : Z := 400 / 5.
Definition LONG_TICKS : Z := 1000 / 5.

Inductive PRESS_EVT :=
| PRESS_DOWN
| PRESS_UP
| PRESS_REPEAT
| SINGLE_CLICK
| DOUBLE_CLICK
| LONG_PRESS_START
| LONG_PRESS_HOLD
| NONE_PRESS.

(** [cb ev] tells whether a callback is attached; [user_data] and [next] are
    pointers. *)
Record BUTTON_S := mk_button {
  ticks : Z;
  repeat : Z;
  event : PRESS_EVT;
  state : Z;
  debounce_cnt : Z;
  active_level : Z;
  button_level : Z;
  user_data : Z;
  cb : PRESS_EVT -> bool;
  next : option Z
}.

Definition set_ticks (h : BUTTON_S) (x : Z) : BUTTON_S :=
  mk_button x (repeat h) (event h) (state h) (debounce_cnt h) (active_level h) (button_level h) (user_data h) (cb h) (next h).
Definition set_repeat (h : BUTTON_S) (x : Z) : BUTTON_S :=
  mk_button (ticks h) x (event h) (state h) (debounce_cnt h) (active_level h) (button_level h) (user_data h) (cb h) (next h).
Definition set_event (h : BUTTON_S) (x : PRESS_EVT) : BUTTON_S :=
  mk_button (ticks h) (repeat h) x (state h) (debounce_cnt h) (active_level h) (button_level h) (user_data h) (cb h) (next h).
Definition set_state (h : BUTTON_S) (x : Z) : BUTTON_S :=
  mk_button (ticks h) (repeat h) (event h) x (debounce_cnt h) (active_level h) (button_level h) (user_data h) (cb h) (next h).
Definition set_debounce_cnt (h : BUTTON_S) (x : Z) : BUTTON_S :=
  mk_button (ticks h) (repeat h) (event h) (state h) x (active_level h) (button_level h) (user_data h) (cb h) (next h).
Definition set_button_level (h : BUTTON_S) (x : Z) : BUTTON_S :=
  mk_button (ticks h) (repeat h) (event h) (state h) (debounce_cnt h) (active_level h) x (user_data h) (cb h) (next h).
Definition set_cb (h : BUTTON_S) (x : PRESS_EVT -> bool) : BUTTON_S :=
  mk_button (ticks h) (repeat h) (event h) (state h) (debounce_cnt h) (active_level h) (button_level h) (user_data h) x (next h).
Definition set_next (h : BUTTON_S) (x : option Z) : BUTTON_S :=
  mk_button (ticks h) (repeat h) (event h) (state h) (debounce_cnt h) (active_level h) (button_level h) (user_data h) (cb h) x.

#[export] Instance PRESS_EVT_eq_dec : EqDecision PRESS_EVT.
Proof. solve_decision. Defined.

(* ------------------------------------------------------------------ *)
(** ** One button *)

(** [level] is what the pin reads. *)
Definition button_init (level active : Z) (data : Z) : BUTTON_S :=
  mk_button 0 0 NONE_PRESS 0 0 (active mod 2) (level mod 2) data (fun _ => false) None.

Definition button_attach (handle : BUTTON_S) (ev : PRESS_EVT) : BUTTON_S :=
  set_cb handle (fun e => if decide (e = ev) then true else cb handle e).

Definition button_get_event (handle : BUTTON_S) : PRESS_EVT := event handle.

(** [EVENT_CB(ev)]. *)
Definition EVENT_CB (handle : BUTTON_S) (ev : PRESS_EVT) : list PRESS_EVT :=
  if cb handle ev then [ev] else [].

(** The debounce part of [button_handler]. *)
Definition debounce (handle : BUTTON_S) (read_gpio_level : Z) : BUTTON_S :=
  if negb (read_gpio_level =? button_level handle) then
    let handle := set_debounce_cnt handle ((debounce_cnt handle + 1) mod 8) in
    if DEBOUNCE_TICKS <=? debounce_cnt handle
    then set_debounce_cnt (set_button_level handle (read_gpio_level mod 2)) 0
    else handle
  else set_debounce_cnt handle 0.

(** Its [switch]. *)
Definition machine (handle : BUTTON_S) : BUTTON_S * list PRESS_EVT :=
  let active := button_level handle =? active_level handle in
  if state handle =? 0 then
    if active then
      (set_state (set_repeat (set_ticks (set_event handle PRESS_DOWN) 0) 1) 1, EVENT_CB handle PRESS_DOWN)
    else (set_event handle NONE_PRESS, [])
  else if state handle =? 1 then
    if negb active then
      (set_state (set_ticks (set_event handle PRESS_UP) 0) 2, EVENT_CB handle PRESS_UP)
    else if LONG_TICKS <? ticks handle then
      (set_state (set_event handle LONG_PRESS_START) 5, EVENT_CB handle LONG_PRESS_START)
    else (handle, [])
  else if state handle =? 2 then
    if active then
      let rep := (repeat handle + 1) mod 16 in
      (set_state (set_ticks (set_repeat (set_event handle PRESS_DOWN) rep) 0) 3,
       EVENT_CB handle PRESS_DOWN ++ (if rep =? 2 then EVENT_CB handle DOUBLE_CLICK else [])
         ++ EVENT_CB handle PRESS_REPEAT)
    else if SHORT_TICKS <? ticks handle then
      if repeat handle =? 1 then (set_state (set_event handle SINGLE_CLICK) 0, EVENT_CB handle SINGLE_CLICK)
      else if repeat handle =? 2 then (set_state (set_event handle DOUBLE_CLICK) 0, [])
      else (set_state handle 0, [])
    else (handle, [])
  else if state handle =? 3 then
    if negb active then
      if ticks handle <? SHORT_TICKS then
        (set_state (set_ticks (set_event handle PRESS_UP) 0) 2, EVENT_CB handle PRESS_UP)
      else (set_state (set_event handle PRESS_UP) 0, EVENT_CB handle PRESS_UP)
    else (handle, [])
  else if state handle =? 5 then
    if active then (set_event handle LONG_PRESS_HOLD, EVENT_CB handle LONG_PRESS_HOLD)
    else (set_state (set_event handle PRESS_UP) 0, EVENT_CB handle PRESS_UP)
  else (handle, []).

Definition button_handler (handle : BUTTON_S) (read_gpio_level : Z) : BUTTON_S * list PRESS_EVT :=
  let handle := if 0 <? state handle then set_ticks handle (u16 (ticks handle + 1)) else handle in
  machine (debounce handle read_gpio_level).

(* ------------------------------------------------------------------ *)
(** ** The work list *)

Record work := mk_work {
  handles : gmap Z BUTTON_S;
  head_handle : option Z
}.

(** The [while(target)] of [button_start]: whether [handle] is in the list. *)
Fixpoint in_list (fuel : nat) (hs : gmap Z BUTTON_S) (target : option Z) (handle : Z) : outcome bool :=
  match target with
  | None => Done false
  | Some t =>
      if t =? handle then Done true
      else match fuel with
           | O => Spin
           | S fuel' => b ← deref (hs !! t); in_list fuel' hs (next b) handle
           end
  end.

Definition button_start (fuel : nat) (w : work) (handle : Z) : outcome (Z * work) :=
  found ← in_list fuel (handles w) (head_handle w) handle;
  if (found : bool) then Done (-1, w) else
  b ← deref (handles w !! handle);
  Done (0, mk_work (<[handle := set_next b (head_handle w)]> (handles w)) (Some handle)).

(** The loop of [button_stop]: [curr] is the address of a link, the head's
    ([None]) or that of a handle's [next]. *)
Definition read_link (w : work) (curr : option Z) : outcome (option Z) :=
  match curr with
  | None => Done (head_handle w)
  | Some t => b ← deref (handles w !! t); Done (next b)
  end.

Definition write_link (w : work) (curr : option Z) (x : option Z) : outcome work :=
  match curr with
  | None => Done (mk_work (handles w) x)
  | Some t => b ← deref (handles w !! t); Done (mk_work (<[t := set_next b x]> (handles w)) (head_handle w))
  end.

Fixpoint stop_loop (fuel : nat) (w : work) (curr : option Z) (handle : Z) : outcome work :=
  link ← read_link w curr;
  match link with
  | None => Done w
  | Some entry =>
      match fuel with
      | O => Spin
      | S fuel' =>
          if entry =? handle then
            b ← deref (handles w !! entry);
            w ← write_link w curr (next b);
            stop_loop fuel' w curr handle
          else stop_loop fuel' w (Some entry) handle
      end
  end.

Definition button_stop (fuel : nat) (w : work) (handle : Z) : outcome work := stop_loop fuel w None handle.

Fixpoint find_loop (fuel : nat) (hs : gmap Z BUTTON_S) (entry : option Z) (data : Z) : outcome (option Z) :=
  match entry with
  | None => Done None
  | Some t =>
      b ← deref (hs !! t);
      if user_data b =? data then Done (Some t)
      else match fuel with O => Spin | S fuel' => find_loop fuel' hs (next b) data end
  end.

Definition button_find_with_user_data (fuel : nat) (w : work) (data : Z) : outcome (option Z) :=
  find_loop fuel (handles w) (head_handle w) data.

(** [level t] is what the pin of handle [t] reads during this tick. *)
Fixpoint ticks_loop (fuel : nat) (hs : gmap Z BUTTON_S) (target : option Z) (level : Z -> Z)
    : outcome (gmap Z BUTTON_S * list (Z * PRESS_EVT)) :=
  match target with
  | None => Done (hs, [])
  | Some t =>
      match fuel with
      | O => Spin
      | S fuel' =>
          b ← deref (hs !! t);
          let '(b', evs) := button_handler b (level t) in
          '(hs', rest) ← ticks_loop fuel' (<[t := b']> hs) (next b') level;
          Done (hs', map (pair t) evs ++ rest)
      end
  end.

Definition button_ticks (fuel : nat) (w : work) (level : Z -> Z) : outcome (work * list (Z * PRESS_EVT)) :=
  '(hs, evs) ← ticks_loop fuel (handles w) (head_handle w) level;
  Done (mk_work hs (head_handle w), evs).

(* ------------------------------------------------------------------ *)
(** ** Streams of levels *)

Fixpoint feed (h : BUTTON_S) (levels : list Z) : BUTTON_S * list PRESS_EVT :=
  match levels with
  | [] => (h, [])
  | x :: r =>
      let '(h1, e1) := button_handler h x in
      let '(h2, e2) := feed h1 r in
      (h2, e1 ++ e2)
  end.

(** A tick of the machine on the debounced level. *)
Definition mtick (h : BUTTON_S) : BUTTON_S * list PRESS_EVT :=
  machine (if 0 <? state h then set_ticks h (u16 (ticks h + 1)) else h).

Lemma button_handler_mtick h lvl : button_handler h lvl = mtick (debounce h lvl).
Proof.
  unfold button_handler, mtick. f_equal.
  assert (Es : state (debounce h lvl) = state h) by (unfold debounce; by repeat case_match).
  rewrite Es. destruct (0 <? state h); [|done]. unfold debounce. cbn. by repeat case_match.
Qed.

Lemma feed_app h l l' : feed h (l ++ l') =
  let '(h1, e1) := feed h l in let '(h2, e2) := feed h1 l' in (h2, e1 ++ e2).
Proof.
  revert h. induction l as [|x l IH]; intros h; cbn [feed app].
  - by destruct (feed h l').
  - destruct (button_handler h x) as [h1 e1]. rewrite IH. destruct (feed h1 l) as [h2 e2].
    destruct (feed h2 l') as [h3 e3]. by rewrite app_assoc.
Qed.

Section Gestures.
(** The pressed and the released level, and the callbacks attached. *)
Variables (A : Z) (c : PRESS_EVT -> bool).
Hypothesis HA : A = 0 \/ A = 1.

Definition R : Z := 1 - A.

(** The button in state [s], [t] ticks into it (in state 0 the counter is
    idle), with [d] readings against its level [l]. *)
Definition at_ (s t r l d : Z) (h : BUTTON_S) : Prop :=
  state h = s /\ (s <> 0 -> ticks h = t /\ repeat h = r) /\ button_level h = l /\ debounce_cnt h = d /\
  active_level h = A /\ cb h = c.

Definition idle (h : BUTTON_S) : Prop := at_ 0 0 0 R 0 h.

(** [h] steps to [h'] on the readings [l], calling back [evs]. *)
Definition steps (h : BUTTON_S) (l : list Z) (evs : list PRESS_EVT) (Q : BUTTON_S -> Prop) : Prop :=
  exists h', feed h l = (h', List.filter c evs) /\ Q h'.

Lemma steps_app h l l' evs evs' Q :
  steps h l evs (fun h' => steps h' l' evs' Q) -> steps h (l ++ l') (evs ++ evs') Q.
Proof.
  intros (h1 & E1 & h2 & E2 & HQ). exists h2. rewrite feed_app, E1, E2, List.filter_app. done.
Qed.

Lemma steps_mono h l evs (P Q : BUTTON_S -> Prop) :
  steps h l evs P -> (forall h', P h' -> Q h') -> steps h l evs Q.
Proof. intros (h' & E & HP) HQ. exists h'. auto. Qed.

Lemma filter_cb h ev : cb h = c -> EVENT_CB h ev = List.filter c [ev].
Proof. unfold EVENT_CB. intros ->. cbn. by destruct (c ev). Qed.

(** The debouncer. *)
Lemma debounce_same s t r l d h : at_ s t r l d h -> at_ s t r l 0 (debounce h l).
Proof.
  intros (Hs & Ht & Hl & Hd & Ha & Hc). unfold debounce. rewrite Hl, Z.eqb_refl. cbn. done.
Qed.

Lemma debounce_count s t r l d h x : at_ s t r l d h -> x <> l -> 0 <= d < 5 -> at_ s t r l (d + 1) (debounce h x).
Proof.
  intros (Hs & Ht & Hl & Hd & Ha & Hc) Hx Hd5. unfold debounce. rewrite Hl, (proj2 (Z.eqb_neq x l)) by done. cbn.
  rewrite Hd, Z.mod_small, (proj2 (Z.leb_gt DEBOUNCE_TICKS _)) by (unfold DEBOUNCE_TICKS; lia).
  unfold at_. cbn. by rewrite ?Hd.
Qed.

Lemma debounce_flip s t r l h x : at_ s t r l 5 h -> x <> l -> x = A \/ x = R -> at_ s t r x 0 (debounce h x).
Proof.
  intros (Hs & Ht & Hl & Hd & Ha & Hc) Hx Hbit. unfold debounce. rewrite Hl, (proj2 (Z.eqb_neq x l)) by done. cbn.
  rewrite Hd. cbn. unfold at_. cbn. split_and!; try done. unfold R in *. apply Z.mod_small. lia.
Qed.

(** Between two events the counter of the state runs. *)
Definition quiet (s r l T : Z) : Prop := forall t d h, 0 <= t < T -> at_ s t r l d h ->
  exists h', mtick h = (h', []) /\ at_ s (t + 1) r l d h'.

Lemma mtick_step s t r l d h : at_ s t r l d h -> s <> 0 -> 0 <= s -> 0 <= t < 65535 ->
  exists h1, mtick h = machine h1 /\ at_ s (t + 1) r l d h1.
Proof.
  intros (Hs & Ht & Hrest) Hnz Hpos Hlt. destruct (Ht Hnz) as [Ht1 Hr1]. unfold mtick.
  rewrite Hs, (proj2 (Z.ltb_lt 0 s)) by lia. eexists. split; [reflexivity|].
  unfold at_. cbn. rewrite Ht1, u16_small by lia. done.
Qed.

Lemma R_ne : R <> A.
Proof. unfold R. lia. Qed.

Lemma level_R : (R =? A) = false.
Proof. apply Z.eqb_neq, R_ne. Qed.

(** Evaluate the machine in a known state and at a known level. *)
Ltac run_machine Hat :=
  let Hs := fresh "Hs" in let Ht := fresh "Ht" in let Hl := fresh "Hl" in let Hd := fresh "Hd" in
  let Ha := fresh "Ha" in let Hc := fresh "Hc" in
  destruct Hat as (Hs & Ht & Hl & Hd & Ha & Hc);
  try (destruct (Ht ltac:(done)) as [? ?]; clear Ht);
  unfold machine; rewrite Hl, Ha, Hs; rewrite ?level_R, ?Z.eqb_refl; cbn [Z.eqb Pos.eqb negb].

Ltac at_end := unfold idle, at_; cbn; split_and!; intros; split_and?; (done || congruence || lia).

Lemma quiet_idle r T : quiet 0 r R T.
Proof.
  intros t d h _ Hat. unfold mtick. rewrite (proj1 Hat). cbn [Z.ltb Z.compare]. run_machine Hat.
  eexists. split; [reflexivity|]. at_end.
Qed.

Lemma quiet_down : quiet 1 1 A 200.
Proof.
  intros t d h Ht Hat. destruct (mtick_step _ _ _ _ _ _ Hat) as (h1 & -> & Hat1); [done|lia..|].
  exists h1. split; [|done]. run_machine Hat1. unfold LONG_TICKS. change (1000 / 5) with 200.
  by rewrite (proj2 (Z.ltb_ge _ _)) by lia.
Qed.

Lemma quiet_up r : quiet 2 r R 80.
Proof.
  intros t d h Ht Hat. destruct (mtick_step _ _ _ _ _ _ Hat) as (h1 & -> & Hat1); [done|lia..|].
  exists h1. split; [|done]. run_machine Hat1. unfold SHORT_TICKS. change (400 / 5) with 80.
  by rewrite (proj2 (Z.ltb_ge _ _)) by lia.
Qed.

Lemma quiet_repeat r : quiet 3 r A 65535.
Proof.
  intros t d h Ht Hat. destruct (mtick_step _ _ _ _ _ _ Hat) as (h1 & -> & Hat1); [done|lia..|].
  exists h1. split; [|done]. by run_machine Hat1.
Qed.

(** The events: one tick from one state to another. *)
Definition fires (h : BUTTON_S) (evs : list PRESS_EVT) (Q : BUTTON_S -> Prop) : Prop :=
  exists h', mtick h = (h', List.filter c evs) /\ Q h'.

Lemma fires_down t r d h : at_ 0 t r A d h -> fires h [PRESS_DOWN] (at_ 1 0 1 A d).
Proof.
  intros Hat. unfold fires, mtick. rewrite (proj1 Hat). cbn [Z.ltb Z.compare]. run_machine Hat.
  rewrite filter_cb by done. eexists. split; [reflexivity|]. at_end.
Qed.

Lemma fires_up t d h : 0 <= t < 65535 -> at_ 1 t 1 R d h -> fires h [PRESS_UP] (at_ 2 0 1 R d).
Proof.
  intros Ht Hat. destruct (mtick_step _ _ _ _ _ _ Hat) as (h1 & E & Hat1); [done|lia..|]. unfold fires. rewrite E.
  run_machine Hat1. rewrite filter_cb by done. eexists. split; [reflexivity|]. at_end.
Qed.

Lemma fires_again t r d h : 0 <= t < 65535 -> at_ 2 t r A d h ->
  fires h (PRESS_DOWN :: (if (r + 1) mod 16 =? 2 then [DOUBLE_CLICK] else []) ++ [PRESS_REPEAT])
    (at_ 3 0 ((r + 1) mod 16) A d).
Proof.
  intros Ht Hat. destruct (mtick_step _ _ _ _ _ _ Hat) as (h1 & E & Hat1); [done|lia..|]. unfold fires. rewrite E.
  run_machine Hat1. match goal with H : repeat h1 = r |- _ => rewrite H end.
  rewrite !filter_cb by done. match goal with |- exists _, (?h', _) = _ /\ _ => exists h' end.
  split; [f_equal|at_end].
  match goal with |- _ = List.filter c (PRESS_DOWN :: ?l) => change (PRESS_DOWN :: l) with ([PRESS_DOWN] ++ l) end.
  rewrite (List.filter_app c [PRESS_DOWN]), List.filter_app. by destruct (_ =? 2).
Qed.

Lemma fires_up_again t r d h : 0 <= t < 79 -> at_ 3 t r R d h -> fires h [PRESS_UP] (at_ 2 0 r R d).
Proof.
  intros Ht Hat. destruct (mtick_step _ _ _ _ _ _ Hat) as (h1 & E & Hat1); [done|lia..|]. unfold fires. rewrite E.
  run_machine Hat1. unfold SHORT_TICKS. change (400 / 5) with 80. rewrite (proj2 (Z.ltb_lt _ _)) by lia.
  rewrite filter_cb by done. eexists. split; [reflexivity|]. at_end.
Qed.

Lemma fires_timeout r d h : at_ 2 80 r R d h ->
  fires h (if r =? 1 then [SINGLE_CLICK] else []) (at_ 0 0 0 R d).
Proof.
  intros Hat. destruct (mtick_step _ _ _ _ _ _ Hat) as (h1 & E & Hat1); [done|lia..|]. unfold fires. rewrite E.
  run_machine Hat1. unfold SHORT_TICKS. change (400 / 5) with 80. rewrite (proj2 (Z.ltb_lt _ _)) by lia.
  match goal with H : repeat h1 = r |- _ => rewrite H end. rewrite filter_cb by done.
  repeat case_match; (eexists; split; [reflexivity|at_end]).
Qed.

Lemma fires_long d h : at_ 1 200 1 A d h -> fires h [LONG_PRESS_START] (at_ 5 201 1 A d).
Proof.
  intros Hat. destruct (mtick_step _ _ _ _ _ _ Hat) as (h1 & E & Hat1); [done|lia..|]. unfold fires. rewrite E.
  run_machine Hat1. unfold LONG_TICKS. change (1000 / 5) with 200. rewrite (proj2 (Z.ltb_lt _ _)) by lia.
  rewrite filter_cb by done. eexists. split; [reflexivity|]. at_end.
Qed.

(** A button held: its counter runs (and wraps), but is not used. *)
Definition held (l d : Z) (h : BUTTON_S) : Prop := exists t, at_ 5 t 1 l d h.

Lemma fires_hold d h : held A d h -> fires h [LONG_PRESS_HOLD] (held A d).
Proof.
  intros (t & Hat). unfold fires, mtick, held. rewrite (proj1 Hat). cbn [Z.ltb Z.compare].
  destruct Hat as (Hs & Ht & Hl & Hd & Ha & Hc). destruct (Ht ltac:(done)) as [Ht1 Hr]. unfold machine. cbn.
  rewrite Hs, Hl, Ha, Z.eqb_refl. cbn. unfold EVENT_CB. cbn. rewrite Hc.
  eexists. split; [by destruct (c LONG_PRESS_HOLD)|]. exists (u16 (ticks h + 1)). at_end.
Qed.

Lemma fires_release d h : held R d h -> fires h [PRESS_UP] (at_ 0 0 0 R d).
Proof.
  intros (t & Hat). unfold fires, mtick. rewrite (proj1 Hat). cbn [Z.ltb Z.compare].
  destruct Hat as (Hs & Ht & Hl & Hd & Ha & Hc). unfold machine. cbn.
  rewrite Hs, Hl, Ha, level_R. cbn. unfold EVENT_CB. cbn. rewrite Hc.
  eexists. split; [by destruct (c PRESS_UP)|]. at_end.
Qed.

(* ------------------------------------------------------------------ *)
(** ** Runs of one level *)

(** One reading: debounce, then tick. *)
Lemma steps_cons h x l evs evs' Q :
  fires (debounce h x) evs (fun h' => steps h' l evs' Q) -> steps h (x :: l) (evs ++ evs') Q.
Proof.
  intros (h1 & E1 & h2 & E2 & HQ). exists h2. cbn [feed]. rewrite button_handler_mtick, E1, E2, List.filter_app. done.
Qed.

Lemma steps_nil h Q : Q h -> steps h [] [] Q.
Proof. intros HQ. by exists h. Qed.

Lemma quiet_fires s r l T t d h : quiet s r l T -> 0 <= t < T -> at_ s t r l d h -> fires h [] (at_ s (t + 1) r l d).
Proof. intros Hq Ht Hat. destruct (Hq t d h Ht Hat) as (h' & E & Hat'). by exists h'. Qed.

(** A run of the button's own level. *)
Lemma steps_same s r l T n t d h : quiet s r l T -> (0 < n)%nat -> 0 <= t -> t + Z.of_nat n <= T -> at_ s t r l d h ->
  steps h (replicate n l) [] (at_ s (t + Z.of_nat n) r l 0).
Proof.
  intros Hq. revert t d h. induction n as [|n IH]; intros t d h Hn Ht Hle Hat; [lia|]. cbn [replicate].
  change (@nil PRESS_EVT) with (@nil PRESS_EVT ++ []). apply steps_cons.
  destruct (quiet_fires s r l T t 0 (debounce h l) Hq) as (h' & E & Hat'); [lia|by apply (debounce_same _ _ _ _ d)|].
  exists h'. split; [done|]. destruct n as [|n].
  - cbn [replicate]. apply steps_nil. by replace (t + Z.of_nat 1) with (t + 1) by lia.
  - replace (t + Z.of_nat (S (S n))) with (t + 1 + Z.of_nat (S n)) by lia. eapply IH; [lia|lia|lia|exact Hat'].
Qed.

(** A run of the other level, too short to count. *)
Lemma steps_bounce s r l x T n t d h : quiet s r l T -> x <> l -> 0 <= t -> t + Z.of_nat n <= T ->
  0 <= d -> d + Z.of_nat n <= 5 -> at_ s t r l d h ->
  steps h (replicate n x) [] (at_ s (t + Z.of_nat n) r l (d + Z.of_nat n)).
Proof.
  intros Hq Hx. revert t d h. induction n as [|n IH]; intros t d h Ht Hle Hd Hd5 Hat.
  - apply steps_nil. by rewrite !Z.add_0_r.
  - cbn [replicate]. change (@nil PRESS_EVT) with (@nil PRESS_EVT ++ []). apply steps_cons.
    destruct (quiet_fires s r l T t (d + 1) (debounce h x) Hq) as (h' & E & Hat');
      [lia|by apply debounce_count; [..|lia]|].
    exists h'. split; [done|].
    replace (t + Z.of_nat (S n)) with (t + 1 + Z.of_nat n) by lia.
    replace (d + Z.of_nat (S n)) with (d + 1 + Z.of_nat n) by lia. apply IH; [lia..|done].
Qed.

(** A run of the other level that counts: five quiet ticks, the event, and
    the rest in the new state. *)
Lemma steps_change s r l x T t n h evs (Q P : BUTTON_S -> Prop) :
  quiet s r l T -> x <> l -> x = A \/ x = R -> 0 <= t -> t + 5 <= T -> (6 <= n)%nat -> at_ s t r l 0 h ->
  (forall h', at_ s (t + 5) r x 0 h' -> fires h' evs P) ->
  (forall h', P h' -> steps h' (replicate (n - 6) x) [] Q) ->
  steps h (replicate n x) evs Q.
Proof.
  intros Hq Hx Hbit Ht Hle Hn Hat Hfire Hrest. replace n with (5 + (1 + (n - 6)))%nat by lia. rewrite replicate_add.
  change evs with ([] ++ evs). apply steps_app.
  eapply steps_mono; [eapply (steps_bounce s r l x T 5 t 0); try done; lia|]. cbn beta. intros h' Hat'.
  change (replicate (1 + (n - 6)) x) with (x :: replicate (n - 6) x). rewrite <- (app_nil_r evs). apply steps_cons.
  destruct (Hfire (debounce h' x)) as (h2 & E & HP); [by apply (debounce_flip _ _ _ l)|].
  exists h2. split; [done|]. by apply Hrest.
Qed.

Lemma steps_same0 s r l T n t h : quiet s r l T -> 0 <= t -> t + Z.of_nat n <= T -> at_ s t r l 0 h ->
  steps h (replicate n l) [] (at_ s (t + Z.of_nat n) r l 0).
Proof.
  intros Hq Ht Hle Hat. destruct n as [|n]; [apply steps_nil; by rewrite Z.add_0_r|].
  apply (steps_same s r l T (S n) t 0); done || lia.
Qed.

(* ------------------------------------------------------------------ *)
(** ** Gestures *)

(** [a] readings pressed, then [b] released. *)
Definition press (p : nat * nat) : list Z := replicate p.1 A ++ replicate p.2 R.

(** Released for [b] readings after the [r]-th press of a row. *)
Definition released (r : Z) (b : nat) : BUTTON_S -> Prop := at_ 2 (Z.of_nat b - 6) r R 0.

Lemma first_press a b h : idle h -> (6 <= a <= 201)%nat -> (6 <= b <= 81)%nat ->
  steps h (press (a, b)) [PRESS_DOWN; PRESS_UP] (released 1 b).
Proof.
  intros Hi Ha Hb. unfold press. cbn [fst snd]. change [PRESS_DOWN; PRESS_UP] with ([PRESS_DOWN] ++ [PRESS_UP]).
  apply steps_app.
  eapply (steps_change 0 0 R A 5 0) with (P := at_ 1 0 1 A 0);
    [apply quiet_idle|pose proof R_ne; congruence|by left|lia|lia|lia|done|intros h'; apply fires_down|].
  intros h1 H1. eapply steps_mono; [eapply (steps_same0 1 1 A 200 _ 0); [apply quiet_down|lia|lia|exact H1]|].
  cbn beta. intros h2 H2. replace (0 + Z.of_nat (a - 6)) with (Z.of_nat a - 6) in H2 by lia.
  eapply (steps_change 1 1 A R 200 (Z.of_nat a - 6)) with (P := at_ 2 0 1 R 0);
    [apply quiet_down|apply R_ne|by right|lia|lia|lia|done|intros h' H'; eapply fires_up; [|exact H']; lia|].
  intros h3 H3. eapply steps_mono; [eapply (steps_same0 2 1 R 80 _ 0); [apply quiet_up|lia|lia|exact H3]|].
  cbn beta. intros h4 H4. unfold released. by replace (Z.of_nat b - 6) with (0 + Z.of_nat (b - 6)) by lia.
Qed.

Definition again_evs (r : Z) : list PRESS_EVT :=
  PRESS_DOWN :: (if r =? 2 then [DOUBLE_CLICK] else []) ++ [PRESS_REPEAT].

Lemma next_press r b0 a b h : released r b0 h -> (6 <= b0 <= 81)%nat -> (6 <= a <= 79)%nat -> (6 <= b <= 81)%nat ->
  steps h (press (a, b)) (again_evs ((r + 1) mod 16) ++ [PRESS_UP]) (released ((r + 1) mod 16) b).
Proof.
  intros Hi Hb0 Ha Hb. unfold press, released, again_evs in *. cbn [fst snd].
  apply steps_app. eapply (steps_change 2 r R A 80 (Z.of_nat b0 - 6)) with (P := at_ 3 0 ((r + 1) mod 16) A 0);
    [apply quiet_up|pose proof R_ne; congruence|by left|lia|lia|lia|done
    |intros h' H'; eapply fires_again; [|exact H']; lia|].
  intros h1 H1. eapply steps_mono; [eapply (steps_same0 3 _ A 65535 _ 0); [apply quiet_repeat|lia|lia|exact H1]|].
  cbn beta. intros h2 H2. replace (0 + Z.of_nat (a - 6)) with (Z.of_nat a - 6) in H2 by lia.
  eapply (steps_change 3 _ A R 65535 (Z.of_nat a - 6)) with (P := at_ 2 0 ((r + 1) mod 16) R 0);
    [apply quiet_repeat|apply R_ne|by right|lia|lia|lia|exact H2|intros h' H'; eapply fires_up_again; [|exact H']; lia|].
  intros h3 H3. eapply steps_mono; [eapply (steps_same0 2 _ R 80 _ 0); [apply quiet_up|lia|lia|exact H3]|].
  cbn beta. intros h4 H4. by replace (Z.of_nat b - 6) with (0 + Z.of_nat (b - 6)) by lia.
Qed.

Lemma time_out r b n h : released r b h -> (6 <= b <= 81)%nat -> (81 <= n)%nat ->
  steps h (replicate n R) (if r =? 1 then [SINGLE_CLICK] else []) idle.
Proof.
  unfold released. intros Hi Hb Hn.
  replace n with ((86 - b) + (1 + (n - (87 - b))))%nat by lia. rewrite !replicate_add.
  change (if r =? 1 then [SINGLE_CLICK] else []) with ([] ++ (if r =? 1 then [SINGLE_CLICK] else [])).
  apply steps_app. eapply steps_mono; [eapply (steps_same0 2 r R 80 _ (Z.of_nat b - 6)); [apply quiet_up|lia|lia|exact Hi]|].
  cbn beta. intros h1 H1. replace (Z.of_nat b - 6 + Z.of_nat (86 - b)) with 80 in H1 by lia.
  change (replicate 1 R ++ ?l) with (R :: l). rewrite <- (app_nil_r (if r =? 1 then _ else _)).
  apply steps_cons. destruct (fires_timeout r 0 (debounce h1 R)) as (h2 & E & H2); [by apply (debounce_same _ _ _ _ 0)|].
  exists h2. split; [exact E|]. eapply steps_mono;
    [eapply (steps_same0 0 0 R (Z.of_nat n) _ 0); [apply quiet_idle|lia|lia|exact H2]|].
  intros h3 H3. destruct H3 as (E1 & _ & E3). split; [done|]. split; [by intros []|done].
Qed.

(** What [n] further presses after the [r]-th call back. *)
Fixpoint row_evs (r : Z) (n : nat) : list PRESS_EVT :=
  match n with
  | O => if r =? 1 then [SINGLE_CLICK] else []
  | S n' => (again_evs ((r + 1) mod 16) ++ [PRESS_UP]) ++ row_evs ((r + 1) mod 16) n'
  end.

(** Presses of 6 to [most] readings, 6 to 81 readings apart. *)
Definition quick (most : nat) (p : nat * nat) : Prop := (6 <= p.1 <= most)%nat /\ (6 <= p.2 <= 81)%nat.

Lemma row_of_presses ps r b n h : released r b h -> (6 <= b <= 81)%nat -> Forall (quick 79) ps -> (81 <= n)%nat ->
  steps h (concat (map press ps) ++ replicate n R) (row_evs r (length ps)) idle.
Proof.
  intros Hr Hb Hps Hn. revert r b h Hr Hb. induction Hps as [|[a b'] ps [Ha Hb'] Hps IH]; intros r b h Hr Hb; cbn [map concat length row_evs].
  - by apply (time_out r b).
  - rewrite <- app_assoc. apply steps_app. eapply steps_mono; [by apply (next_press r b)|].
    cbn beta. intros h1 H1. by apply (IH _ b').
Qed.

Lemma clicks_run p ps n h : idle h -> quick 201 p -> Forall (quick 79) ps -> (81 <= n)%nat ->
  steps h (concat (map press (p :: ps)) ++ replicate n R)
    ([PRESS_DOWN; PRESS_UP] ++ row_evs 1 (length ps)) idle.
Proof.
  intros Hi [Ha Hb] Hps Hn. destruct p as [a b]. cbn [map concat]. rewrite <- app_assoc. apply steps_app.
  eapply steps_mono; [by apply first_press|]. cbn beta. intros h1 H1. by apply (row_of_presses ps 1 b).
Qed.

(** C16: What quick presses report.  From an idle button, for any number of
    presses that are long enough for the debouncer, shorter than the long
    press (the first) or 400 ms (the others) and follow within 400 ms of each
    other, then a pause: every press and release calls back once, every press
    after the first is also a [PRESS_REPEAT], a second one a [DOUBLE_CLICK],
    a single one a [SINGLE_CLICK] after the pause - counting presses modulo
    16 - and the button is idle again. *)
Theorem clicks_reported p ps n h : idle h -> quick 201 p -> Forall (quick 79) ps -> (81 <= n)%nat ->
  steps h (concat (map press (p :: ps)) ++ replicate n R)
    ([PRESS_DOWN; PRESS_UP] ++ row_evs 1 (length ps)) idle.
Proof. apply clicks_run. Qed.

Lemma steps_held n h : held A 0 h -> steps h (replicate n A) (replicate n LONG_PRESS_HOLD) (held A 0).
Proof.
  revert h. induction n as [|n IH]; intros h Hh; [by apply steps_nil|]. cbn [replicate].
  change (LONG_PRESS_HOLD :: replicate n LONG_PRESS_HOLD) with ([LONG_PRESS_HOLD] ++ replicate n LONG_PRESS_HOLD).
  apply steps_cons. destruct Hh as (t & Hat).
  destruct (fires_hold 0 (debounce h A)) as (h1 & E & H1); [exists t; by apply (debounce_same _ _ _ _ 0)|].
  exists h1. split; [done|by apply IH].
Qed.

(** Five released readings while held still count as held. *)
Lemma steps_held_bounce n d h : held A d h -> 0 <= d -> d + Z.of_nat n <= 5 ->
  steps h (replicate n R) (replicate n LONG_PRESS_HOLD) (held A (d + Z.of_nat n)).
Proof.
  revert d h. induction n as [|n IH]; intros d h Hh Hd Hle; [apply steps_nil; by rewrite Z.add_0_r|]. cbn [replicate].
  change (LONG_PRESS_HOLD :: replicate n LONG_PRESS_HOLD) with ([LONG_PRESS_HOLD] ++ replicate n LONG_PRESS_HOLD).
  apply steps_cons. destruct Hh as (t & Hat).
  destruct (fires_hold (d + 1) (debounce h R)) as (h1 & E & H1);
    [exists t; by apply debounce_count; [..|apply R_ne|lia]|].
  exists h1. split; [done|]. replace (d + Z.of_nat (S n)) with (d + 1 + Z.of_nat n) by lia. apply IH; [done|lia..].
Qed.

(** C27: A press of [a] readings that is held longer than a second reports
    [LONG_PRESS_START] once, 207 readings in, then [LONG_PRESS_HOLD] on every
    further reading until the release has been debounced, then [PRESS_UP],
    never a click, and the button is idle again. *)
Theorem long_press_reported a b h : idle h -> (207 <= a)%nat -> (6 <= b)%nat ->
  steps h (press (a, b))
    ([PRESS_DOWN; LONG_PRESS_START] ++ replicate (a - 207 + 5) LONG_PRESS_HOLD ++ [PRESS_UP]) idle.
Proof.
  intros Hi Ha Hb. unfold press. cbn [fst snd].
  replace (replicate a A) with (replicate 206 A ++ A :: replicate (a - 207) A)
    by (change (A :: ?l) with (replicate 1 A ++ l); rewrite <- !replicate_add; f_equal; lia).
  rewrite <- app_assoc.
  change ([PRESS_DOWN; LONG_PRESS_START] ++ ?l) with ([PRESS_DOWN] ++ [LONG_PRESS_START] ++ l). apply steps_app.
  eapply (steps_change 0 0 R A 5 0) with (P := at_ 1 0 1 A 0);
    [apply quiet_idle|pose proof R_ne; congruence|by left|lia|lia|lia|done|intros h'; apply fires_down|].
  intros h1 H1. eapply steps_mono; [eapply (steps_same0 1 1 A 200 _ 0); [apply quiet_down|lia|lia|exact H1]|].
  cbn beta. intros h2 H2. change (0 + Z.of_nat (206 - 6)) with 200 in H2.
  change ((A :: ?l) ++ ?k) with (A :: (l ++ k)). apply steps_cons.
  destruct (fires_long 0 (debounce h2 A)) as (h3 & E & H3); [by apply (debounce_same _ _ _ _ 0)|].
  exists h3. split; [done|]. rewrite replicate_add, <- app_assoc. apply steps_app.
  eapply steps_mono; [apply steps_held; by exists 201|]. cbn beta. intros h4 H4.
  replace (replicate b R) with (replicate 5 R ++ R :: replicate (b - 6) R)
    by (change (R :: ?l) with (replicate 1 R ++ l); rewrite <- !replicate_add; f_equal; lia).
  apply steps_app. eapply steps_mono; [apply (steps_held_bounce 5 0); [done|lia..]|]. cbn beta. intros h5 (t & H5).
  change [PRESS_UP] with ([PRESS_UP] ++ []). apply steps_cons.
  destruct (fires_release 0 (debounce h5 R)) as (h6 & E6 & H6);
    [exists t; apply (debounce_flip _ _ _ A); [done|apply R_ne|by right]|].
  exists h6. split; [done|]. eapply steps_mono;
    [eapply (steps_same0 0 0 R (Z.of_nat b) _ 0); [apply quiet_idle|lia|lia|exact H6]|].
  intros h7 (E1 & _ & E3). split; [done|]. split; [by intros []|done].
Qed.

(** Bounces are ignored: whatever the pin does, as long as no five
    readings in a row are followed by a sixth of the pressed level, an idle
    button stays idle and calls nothing back. *)
Theorem bounces_ignored ps h : idle h -> Forall (fun p => (p.1 <= 5)%nat /\ (1 <= p.2)%nat) ps ->
  steps h (concat (map press ps)) [] idle.
Proof.
  intros Hi Hps. revert h Hi. induction Hps as [|[a b] ps [Ha Hb] Hps IH]; intros h Hi; cbn [map concat];
    [by apply steps_nil|]. cbn [fst snd] in *.
  change (@nil PRESS_EVT) with (@nil PRESS_EVT ++ []). apply steps_app.
  unfold press. cbn [fst snd]. eapply steps_mono; [|exact IH].
  change (@nil PRESS_EVT) with (@nil PRESS_EVT ++ []). apply steps_app.
  eapply steps_mono; [eapply (steps_bounce 0 0 R A 5 a 0 0); [apply quiet_idle|pose proof R_ne; congruence|lia..|exact Hi]|].
  cbn beta. intros h1 H1. eapply steps_mono;
    [eapply (steps_same 0 0 R (Z.of_nat a + Z.of_nat b) b (Z.of_nat a)); [apply quiet_idle|lia| |  |exact H1]; lia|].
  intros h2 (E1 & _ & E3). split; [done|]. split; [by intros []|done].
Qed.
End Gestures.

(* ------------------------------------------------------------------ *)
(** ** The work list as a sequence *)

(** The chain of [next] fields from [hd] visits [ids]. *)
Fixpoint links (hs : gmap Z BUTTON_S) (hd : option Z) (ids : list Z) : Prop :=
  match ids with
  | [] => hd = None
  | i :: r => hd = Some i /\ exists b, hs !! i = Some b /\ links hs (next b) r
  end.

Definition chain (w : work) (ids : list Z) : Prop := links (handles w) (head_handle w) ids /\ NoDup ids.

Lemma links_other hs i b hd ids : i ∉ ids -> links hs hd ids -> links (<[i := b]> hs) hd ids.
Proof.
  revert hd. induction ids as [|j r IH]; intros hd Hi; [done|]. rewrite not_elem_of_cons in Hi.
  intros (E & b' & Eb & Hl). split; [done|]. exists b'. rewrite lookup_insert_ne by naive_solver. naive_solver.
Qed.

Lemma links_same_next hs i b b' hd ids : hs !! i = Some b -> next b' = next b -> links hs hd ids ->
  links (<[i := b']> hs) hd ids.
Proof.
  intros Ei Hn. revert hd. induction ids as [|j r IH]; intros hd; [done|].
  intros (E & bj & Ej & Hl). split; [done|]. destruct (decide (i = j)) as [->|Hne].
  - exists b'. rewrite lookup_insert_eq. split; [done|]. apply IH. rewrite Hn. congruence.
  - exists bj. rewrite lookup_insert_ne by done. auto.
Qed.

Lemma in_list_run fuel hs hd ids handle : links hs hd ids -> (length ids <= fuel)%nat ->
  in_list fuel hs hd handle = Done (bool_decide (handle ∈ ids)).
Proof.
  revert hd ids. induction fuel as [|fuel IH]; intros hd ids Hl Hf.
  - destruct ids; [|cbn in Hf; lia]. cbn in Hl. subst. done.
  - destruct ids as [|i r]; cbn in Hl; [subst; done|]. destruct Hl as (-> & b & Eb & Hl). cbn [in_list].
    destruct (Z.eqb_spec i handle) as [->|Hne].
    + by rewrite bool_decide_eq_true_2 by left.
    + rewrite Eb. cbn [deref mbind outcome_bind]. rewrite (IH _ r) by (done || (cbn in Hf; lia)).
      f_equal. apply bool_decide_ext. rewrite elem_of_cons. naive_solver.
Qed.

(** The link after a non-empty beginning of a chain. *)
Lemma links_last hs hd pre p ids : links hs hd (pre ++ p :: ids) ->
  exists b, hs !! p = Some b /\ links hs (next b) ids.
Proof.
  revert hd. induction pre as [|i pre IH]; intros hd; cbn; [by intros (_ & Hl)|].
  intros (_ & b & _ & Hl). by apply (IH (next b)).
Qed.

(** Redirecting that link. *)
Lemma links_redirect hs hd pre p b x ids r : links hs hd (pre ++ p :: ids) -> hs !! p = Some b ->
  p ∉ pre -> p ∉ r -> links hs x r -> links (<[p := set_next b x]> hs) hd (pre ++ p :: r).
Proof.
  revert hd. induction pre as [|i pre IH]; intros hd; cbn; intros (-> & bi & Ei & Hl) Ep Hpre Hr Hx.
  - split; [done|]. exists (set_next b x). rewrite lookup_insert_eq. split; [done|]. by apply links_other.
  - rewrite not_elem_of_cons in Hpre. split; [done|]. exists bi. rewrite lookup_insert_ne by naive_solver.
    split; [done|]. apply IH; naive_solver.
Qed.

Lemma read_link_run w pre ids : links (handles w) (head_handle w) (pre ++ ids) ->
  exists hd, read_link w (last pre) = Done hd /\ links (handles w) hd ids.
Proof.
  intros Hl. destruct (last pre) as [p|] eqn:E.
  - apply last_Some in E as (pre' & ->). rewrite <- app_assoc in Hl. cbn [app] in Hl.
    apply links_last in Hl as (b & Eb & Hl). exists (next b). cbn. rewrite Eb. done.
  - apply last_None in E as ->. by exists (head_handle w).
Qed.

Lemma write_link_run w pre h r x : links (handles w) (head_handle w) (pre ++ h :: r) -> NoDup (pre ++ h :: r) ->
  links (handles w) x r ->
  exists w', write_link w (last pre) x = Done w' /\ links (handles w') (head_handle w') (pre ++ r) /\
    forall i, i ∉ pre -> handles w' !! i = handles w !! i.
Proof.
  intros Hl Hnd Hx. destruct (last pre) as [p|] eqn:E.
  - apply last_Some in E as (pre' & ->). rewrite <- !app_assoc in *. cbn [app] in *.
    destruct (links_last _ _ _ _ _ Hl) as (b & Eb & _). cbn. rewrite Eb. cbn. eexists. split; [done|]. cbn. split.
    + apply NoDup_app in Hnd as (_ & Hd & (Hp & _)%NoDup_cons). eapply links_redirect; try done.
      * intros Hin. apply (Hd p Hin). by left.
      * intros Hin. apply Hp. by right.
    + intros i Hi. apply lookup_insert_ne. intros ->. apply Hi. rewrite elem_of_app. right. by left.
  - apply last_None in E as ->. eexists. split; [done|]. done.
Qed.

(** Unlinking inside a chain: [pre] ends at the link [curr]. *)
Lemma stop_loop_run fuel w pre ids handle :
  links (handles w) (head_handle w) (pre ++ ids) -> NoDup (pre ++ ids) -> (length ids < fuel)%nat ->
  exists w', stop_loop fuel w (last pre) handle = Done w' /\
    links (handles w') (head_handle w') (pre ++ filter (fun i => i <> handle) ids) /\
    forall i, i ∉ pre ++ ids -> handles w' !! i = handles w !! i.
Proof.
  revert w pre ids. induction fuel as [|fuel IH]; intros w pre ids Hl Hnd Hf; [lia|]. cbn [stop_loop].
  destruct (read_link_run w pre ids Hl) as (hd & -> & Hlink). cbn [mbind outcome_bind].
  destruct ids as [|i r]; [cbn in Hlink; subst hd; by exists w|]. cbn in Hf.
  pose proof Hlink as (-> & b & Eb & Hr). destruct (Z.eqb_spec i handle) as [->|Hne].
  - rewrite Eb. cbn [deref mbind outcome_bind].
    destruct (write_link_run w pre handle r (next b) Hl Hnd Hr) as (w1 & -> & Hl1 & Hs1). cbn [mbind outcome_bind].
    assert (Hnd1 : NoDup (pre ++ r)).
    { apply NoDup_app in Hnd as (H1 & H2 & (H3 & H4)%NoDup_cons). apply NoDup_app. split_and!; [done| |done].
      intros x Hx Hin. apply (H2 x Hx). by right. }
    destruct (IH w1 pre r Hl1 Hnd1) as (w2 & -> & Hl2 & Hs2); [lia|]. exists w2. split; [done|].
    rewrite filter_cons_False by (intros Hn; by apply Hn). split; [done|]. intros x Hx.
    rewrite elem_of_app, elem_of_cons in Hx. rewrite Hs2, Hs1; [done|tauto|rewrite elem_of_app; tauto].
  - replace (Some i) with (last (pre ++ [i])) by apply last_snoc.
    destruct (IH w (pre ++ [i]) r) as (w2 & -> & Hl2 & Hs2); [by rewrite <- app_assoc..|lia|].
    exists w2. split; [done|]. rewrite <- app_assoc in *. by rewrite filter_cons_True.
Qed.

(** Starting a button that is not in the work list puts it at the head,
    starting one that is changes nothing and returns -1, and stopping one
    takes exactly it out of the list (and does nothing when it is not there);
    the order of the others is kept. *)
Theorem button_start_stop fuel w ids handle b :
  chain w ids -> handles w !! handle = Some b -> (length ids < fuel)%nat ->
  (exists w', button_start fuel w handle = Done (if bool_decide (handle ∈ ids) then -1 else 0, w') /\
     chain w' (if bool_decide (handle ∈ ids) then ids else handle :: ids)) /\
  (exists w', button_stop fuel w handle = Done w' /\ chain w' (filter (fun i => i <> handle) ids)).
Proof.
  intros [Hl Hnd] Eb Hf. split.
  - unfold button_start. rewrite (in_list_run _ _ _ ids) by (done || lia). cbn [mbind outcome_bind].
    destruct (bool_decide (handle ∈ ids)) eqn:E; [by exists w|]. apply bool_decide_eq_false in E.
    rewrite Eb. cbn [deref mbind outcome_bind]. eexists. split; [done|]. split; cbn; [|by apply NoDup_cons].
    split; [done|]. exists (set_next b (head_handle w)). rewrite lookup_insert_eq. split; [done|]. by apply links_other.
  - unfold button_stop. destruct (stop_loop_run fuel w [] ids handle Hl Hnd Hf) as (w' & E & Hl' & _).
    exists w'. split; [exact E|]. split; [exact Hl'|]. by apply NoDup_filter.
Qed.

Lemma button_handler_next h lvl : next (button_handler h lvl).1 = next h.
Proof.
  unfold button_handler, machine, debounce. cbn. repeat case_match; reflexivity.
Qed.

(** What a tick does to the heap, and calls back, along a list. *)
Fixpoint tick_all (hs : gmap Z BUTTON_S) (ids : list Z) (level : Z -> Z) : gmap Z BUTTON_S * list (Z * PRESS_EVT) :=
  match ids with
  | [] => (hs, [])
  | i :: r =>
      match hs !! i with
      | Some b => let '(hs', evs) := tick_all hs r level in
                  (<[i := (button_handler b (level i)).1]> hs', map (pair i) (button_handler b (level i)).2 ++ evs)
      | None => tick_all hs r level
      end
  end.

Lemma tick_all_other hs ids level i b : i ∉ ids ->
  tick_all (<[i := b]> hs) ids level = (<[i := b]> (tick_all hs ids level).1, (tick_all hs ids level).2).
Proof.
  induction ids as [|j r IH]; intros Hi; [done|]. rewrite not_elem_of_cons in Hi. cbn [tick_all].
  rewrite lookup_insert_ne by naive_solver. rewrite IH by naive_solver.
  destruct (hs !! j); [|done]. destruct (tick_all hs r level) as [hs' evs]. cbn. f_equal.
  apply insert_insert_ne. naive_solver.
Qed.

Lemma ticks_loop_run fuel hs hd ids level : links hs hd ids -> NoDup ids -> (length ids <= fuel)%nat ->
  ticks_loop fuel hs hd level = Done (tick_all hs ids level).
Proof.
  revert hs hd ids. induction fuel as [|fuel IH]; intros hs hd ids Hl Hnd Hf.
  - destruct ids; [|cbn in Hf; lia]. cbn in Hl. by subst.
  - destruct ids as [|i r]; cbn in Hl; [by subst|]. destruct Hl as (-> & b & Eb & Hl).
    apply NoDup_cons in Hnd as [Hi Hnd]. cbn [ticks_loop tick_all]. rewrite Eb. cbn [deref mbind outcome_bind].
    pose proof (button_handler_next b (level i)) as Hn. destruct (button_handler b (level i)) as [b' evs]. cbn [fst snd] in *.
    rewrite (IH _ _ r); [|by rewrite Hn; apply links_other|done|cbn in Hf; lia]. cbn [mbind outcome_bind].
    rewrite tick_all_other by done. by destruct (tick_all hs r level).
Qed.

Lemma tick_all_spec hs ids level i : NoDup ids ->
  (tick_all hs ids level).1 !! i =
    if bool_decide (i ∈ ids) then (fun b => (button_handler b (level i)).1) <$> hs !! i else hs !! i.
Proof.
  induction 1 as [|j r Hj Hnd IH]; [done|]. cbn [tick_all].
  destruct (decide (i = j)) as [->|Hne].
  - rewrite bool_decide_eq_true_2 by left. rewrite bool_decide_eq_false_2 in IH by done.
    destruct (hs !! j) as [b|] eqn:Eb; [|by rewrite IH].
    destruct (tick_all hs r level) as [hs' evs]. cbn. by rewrite lookup_insert_eq.
  - rewrite (bool_decide_ext (i ∈ j :: r) (i ∈ r)) by (rewrite elem_of_cons; naive_solver).
    rewrite <- IH. destruct (hs !! j) as [b|]; [|done].
    destruct (tick_all hs r level) as [hs' evs]. cbn. by rewrite lookup_insert_ne.
Qed.

(** A tick runs the handler of every button of the work list exactly
    once, on its own pin, and of no other button; the callbacks come in the
    order of the list, and the list is unchanged. *)
Theorem button_ticks_each_once fuel w ids level : chain w ids -> (length ids <= fuel)%nat ->
  exists w', button_ticks fuel w level = Done (w', (tick_all (handles w) ids level).2) /\
    head_handle w' = head_handle w /\
    forall i, handles w' !! i =
      if bool_decide (i ∈ ids) then (fun b => (button_handler b (level i)).1) <$> handles w !! i
      else handles w !! i.
Proof.
  intros [Hl Hnd] Hf. unfold button_ticks. rewrite (ticks_loop_run _ _ _ ids) by done. cbn [mbind outcome_bind].
  pose proof (fun i => tick_all_spec (handles w) ids level i Hnd) as Hspec.
  destruct (tick_all (handles w) ids level) as [hs evs]. eexists. split; [done|]. cbn. done.
Qed.

(* ------------------------------------------------------------------ *)
(** ** Concrete buttons *)

(** Active low, all callbacks attached but [LONG_PRESS_HOLD]. *)
Definition a_button : BUTTON_S :=
  foldl button_attach (button_init 1 0 7)
    [PRESS_DOWN; PRESS_UP; PRESS_REPEAT; SINGLE_CLICK; DOUBLE_CLICK; LONG_PRESS_START].

Lemma a_button_idle : idle 0 (cb a_button) a_button.
Proof. unfold idle, at_. split_and!; done. Qed.

Lemma clicks_reported_witness :
  steps (cb a_button) a_button (concat (map (press 0) [(10, 10); (20, 30)]%nat) ++ replicate 100 1)
    [PRESS_DOWN; PRESS_UP; PRESS_DOWN; DOUBLE_CLICK; PRESS_REPEAT; PRESS_UP] (idle 0 (cb a_button)).
Proof.
  apply (clicks_reported 0 (cb a_button) (or_introl eq_refl) (10, 10)%nat [(20, 30)%nat] 100 a_button).
  - apply a_button_idle.
  - unfold quick. cbn. lia.
  - apply Forall_singleton. unfold quick. cbn. lia.
  - lia.
Defined.

(** Seventeen quick presses end in a [SINGLE_CLICK]. *)
Example seventeen_clicks : last (row_evs 1 16) = Some SINGLE_CLICK.
Proof. reflexivity. Qed.

Lemma long_press_reported_witness :
  steps (cb a_button) a_button (press 0 (300, 6)%nat)
    ([PRESS_DOWN; LONG_PRESS_START] ++ replicate 98 LONG_PRESS_HOLD ++ [PRESS_UP]) (idle 0 (cb a_button)).
Proof.
  apply (long_press_reported 0 (cb a_button) (or_introl eq_refl) 300 6); [apply a_button_idle|lia|lia].
Defined.

Lemma bounces_ignored_witness :
  steps (cb a_button) a_button (concat (map (press 0) [(5, 1); (4, 2); (5, 1)]%nat)) [] (idle 0 (cb a_button)).
Proof.
  apply (bounces_ignored 0 (cb a_button)); [apply a_button_idle|].
  repeat (apply Forall_cons; split; [cbn; lia|]). by apply Forall_nil.
Defined.

Definition two_buttons : work :=
  mk_work (<[1 := set_next a_button (Some 2)]> (<[2 := a_button]> (<[3 := a_button]> ∅))) (Some 1).

Lemma two_buttons_chain : chain two_buttons [1; 2].
Proof.
  split.
  - cbn. split; [done|]. eexists. split; [reflexivity|]. cbn. split; [done|]. eexists. split; [reflexivity|]. done.
  - apply NoDup_cons. split; [|apply NoDup_singleton]. intros [E|E%not_elem_of_nil]%elem_of_cons; done.
Qed.

Lemma button_start_stop_witness :
  exists w', button_start 5 two_buttons 3 = Done (0, w') /\ chain w' [3; 1; 2].
Proof.
  destruct (proj1 (button_start_stop 5 two_buttons [1; 2] 3 a_button two_buttons_chain
    ltac:(reflexivity) ltac:(cbn; lia))) as (w' & E & Hc).
  exists w'. split; [exact E|exact Hc].
Defined.

Lemma button_ticks_each_once_witness :
  exists w', button_ticks 5 two_buttons (fun _ => 0) = Done (w', []) /\ head_handle w' = Some 1.
Proof.
  destruct (button_ticks_each_once 5 two_buttons [1; 2] (fun _ => 0) two_buttons_chain ltac:(cbn; lia)) as (w' & E & Hh & _).
  exists w'. split; [exact E|exact Hh].
Defined.
