(* ===== verification/Intc.v ===== *)
(** The interrupt controller's service table: beken378/driver/intc/intc.c
    over the doubly linked list of beken378/common/doubly_list.h.

    The list is kept as the code has it: a [next] and a [prev] pointer in the
    header and in each entry of [_isrs], changed one store at a time.  It is
    proved to be the registered interrupts in the order of their priorities. *)

From S2P Require Import Prelude.
From Stdlib Require Import Sorted.

#[local] Open Scope Z_scope.

Definition INTC_MAX_COUNT : Z := 32.

(** [&isr_hdr.isr], or the [list] of an entry of [_isrs]. *)
Inductive node :=
| Hdr
| Slot (i : Z).

#[export] Instance node_eq_dec : EqDecision node.
Proof. solve_decision. Defined.

(** A [NULL] pointer is [None]. *)
Record LIST_HEADER_T := mk_header { lnext : option node; lprev : option node }.

Record ISR_T := mk_isr {
  list_ : LIST_HEADER_T;
  isr_func : option Z;
  pri : Z;
  int_num : Z
}.

Record intc := mk_intc {
  _isrs : list ISR_T;
  isrs_mask : Z;
  isr_hdr : LIST_HEADER_T
}.

(** The static initialisers. *)
Definition intc_static : intc :=
  mk_intc (replicate (Z.to_nat INTC_MAX_COUNT) (mk_isr (mk_header None None) None 0 0)) 0
    (mk_header (Some Hdr) (Some Hdr)).

(* ------------------------------------------------------------------ *)
(** ** doubly_list.h *)

Definition get_header (w : intc) (n : node) : outcome LIST_HEADER_T :=
  match n with
  | Hdr => Done (isr_hdr w)
  | Slot i => e ← aget (_isrs w) i; Done (list_ e)
  end.

Definition put_header (w : intc) (n : node) (h : LIST_HEADER_T) : outcome intc :=
  match n with
  | Hdr => Done (mk_intc (_isrs w) (isrs_mask w) h)
  | Slot i =>
      e ← aget (_isrs w) i;
      es ← aset (_isrs w) i (mk_isr h (isr_func e) (pri e) (int_num e));
      Done (mk_intc es (isrs_mask w) (isr_hdr w))
  end.

Definition set_lnext (w : intc) (n x : node) : outcome intc :=
  h ← get_header w n; put_header w n (mk_header (Some x) (lprev h)).
Definition set_lprev (w : intc) (n x : node) : outcome intc :=
  h ← get_header w n; put_header w n (mk_header (lnext h) (Some x)).

Definition __list_add (w : intc) (new_node prev next : node) : outcome intc :=
  w ← set_lprev w next new_node;
  w ← set_lnext w new_node next;
  w ← set_lprev w new_node prev;
  set_lnext w prev new_node.

Definition list_add_head (w : intc) (new_node head : node) : outcome intc :=
  h ← get_header w head;
  n ← deref (lnext h);
  __list_add w new_node head n.

Definition list_add_tail (w : intc) (new_node head : node) : outcome intc :=
  h ← get_header w head;
  p ← deref (lprev h);
  __list_add w new_node p head.

Definition list_empty (w : intc) (head : node) : outcome bool :=
  h ← get_header w head;
  n ← deref (lnext h);
  Done (bool_decide (n = head)).

(* ------------------------------------------------------------------ *)
(** ** intc.c *)

Definition set_isr (w : intc) (i : Z) (e : ISR_T) : outcome intc :=
  es ← aset (_isrs w) i e;
  Done (mk_intc es (isrs_mask w) (isr_hdr w)).

(** The walk of [intc_hdl_entry] with the service routines called, in order. *)
Fixpoint entry_loop (fuel : nat) (w : intc) (pos : node) (status : Z) : outcome (list Z) :=
  match pos with
  | Hdr => Done []
  | Slot p =>
      match fuel with
      | O => Spin
      | S fuel' =>
          f ← aget (_isrs w) p;
          n ← deref (lnext (list_ f));
          let i := int_num f in
          '(status, called) ←
            (if negb (Z.land (BIT i) status =? 0) then
               func ← deref (isr_func f);
               Done (Z.land status (u32 (Z.lnot (BIT i))), [func])
             else Done (status, []) : outcome (Z * list Z));
          if status =? 0 then Done called
          else rest ← entry_loop fuel' w n status; Done (called ++ rest)
      end
  end.

Definition intc_hdl_entry (fuel : nat) (w : intc) (int_status : Z) : outcome (list Z) :=
  let status := Z.land int_status (isrs_mask w) in
  n ← deref (lnext (isr_hdr w));
  entry_loop fuel w n status.

(** Where the loop of [intc_service_register] stops: at the entry to insert
    before, at the header, or at an entry of the same priority ([None]). *)
Fixpoint find_place (fuel : nat) (w : intc) (pos : node) (int_pri : Z) : outcome (option node) :=
  match pos with
  | Hdr => Done (Some Hdr)
  | Slot p =>
      match fuel with
      | O => Spin
      | S fuel' =>
          tmp ← aget (_isrs w) p;
          n ← deref (lnext (list_ tmp));
          if int_pri <? pri tmp then Done (Some pos)
          else if int_pri =? pri tmp then Done None
          else find_place fuel' w n int_pri
      end
  end.

Definition intc_service_register (fuel : nat) (w : intc) (num int_pri : Z) (isr : option Z) : outcome intc :=
  buf_ele ← aget (_isrs w) num;
  w ← set_isr w num (mk_isr (list_ buf_ele) isr int_pri num);
  empty ← list_empty w Hdr;
  place ← (if (empty : bool) then w ← list_add_head w (Slot num) Hdr; Done (Some w)
           else
             n ← deref (lnext (isr_hdr w));
             at_ ← find_place fuel w n int_pri;
             match at_ with
             | Some p => w ← list_add_tail w (Slot num) p; Done (Some w)
             | None => Done None
             end);
  match place with
  | Some w => Done (mk_intc (_isrs w) (Z.lor (isrs_mask w) (BIT num)) (isr_hdr w))
  | None => set_isr w num buf_ele
  end.

(** Whether the loop of [intc_service_change_handler] meets the priority. *)
Fixpoint same_pri (fuel : nat) (w : intc) (pos : node) (int_pri : Z) : outcome bool :=
  match pos with
  | Hdr => Done false
  | Slot p =>
      match fuel with
      | O => Spin
      | S fuel' =>
          tmp ← aget (_isrs w) p;
          n ← deref (lnext (list_ tmp));
          if int_pri =? pri tmp then Done true else same_pri fuel' w n int_pri
      end
  end.

Definition intc_service_change_handler (fuel : nat) (w : intc) (num : Z) (isr : option Z) : outcome intc :=
  buf_ele ← aget (_isrs w) num;
  match isr_func buf_ele with
  | None => Done w
  | Some _ =>
      empty ← list_empty w Hdr;
      found ← (if (empty : bool) then Done false
               else n ← deref (lnext (isr_hdr w)); same_pri fuel w n (pri buf_ele));
      set_isr w num (if (found : bool) then mk_isr (list_ buf_ele) isr (pri buf_ele) (int_num buf_ele) else buf_ele)
  end.

(** The two vectors: the pending sources of each kind, acknowledged and then
    served.  The interrupt unit ([ICU_DEV_NAME]) is the argument. *)
Definition intc_irq (fuel : nat) (w : intc) (icu_status : Z) : outcome (Z * list Z) :=
  let irq_status := Z.land icu_status 0xFFFF in
  called ← intc_hdl_entry fuel w irq_status;
  Done (irq_status, called).

Definition intc_fiq (fuel : nat) (w : intc) (icu_status : Z) : outcome (Z * list Z) :=
  let fiq_status := Z.land icu_status 0xFFFF0000 in
  called ← intc_hdl_entry fuel w fiq_status;
  Done (fiq_status, called).

(* ------------------------------------------------------------------ *)
(** ** Pointers and entries *)

Definition nx (w : intc) (n : node) : option node :=
  match get_header w n with Done h => lnext h | _ => None end.
Definition pv (w : intc) (n : node) : option node :=
  match get_header w n with Done h => lprev h | _ => None end.

Definition valid (n : node) : Prop := match n with Hdr => True | Slot i => 0 <= i < INTC_MAX_COUNT end.

(** An entry without its links. *)
Definition body (w : intc) (i : Z) : option (option Z * Z * Z) :=
  (fun e => (isr_func e, pri e, int_num e)) <$> _isrs w !! Z.to_nat i.

Definition full (w : intc) : Prop := zlen (_isrs w) = INTC_MAX_COUNT.

(** Two tables that differ in their links only. *)
Definition same (w w' : intc) : Prop :=
  (full w -> full w') /\ isrs_mask w' = isrs_mask w /\ forall i, body w' i = body w i.

Lemma same_refl w : same w w.
Proof. done. Qed.

Lemma same_trans w1 w2 w3 : same w1 w2 -> same w2 w3 -> same w1 w3.
Proof. intros (H1 & H2 & H3) (H1' & H2' & H3'). split_and!; [auto|congruence|]. intros i. by rewrite H3'. Qed.

Lemma aget_full w i : full w -> 0 <= i < INTC_MAX_COUNT ->
  exists e, aget (_isrs w) i = Done e /\ _isrs w !! Z.to_nat i = Some e.
Proof.
  unfold full, zlen. intros Hf Hi. destruct (lookup_lt_is_Some_2 (_isrs w) (Z.to_nat i)) as [e Ee]; [lia|].
  exists e. split; [|done]. by apply aget_in; [lia|].
Qed.

Lemma put_header_run w n h : full w -> valid n -> exists w', put_header w n h = Done w' /\
  (forall m, nx w' m = if decide (m = n) then lnext h else nx w m) /\
  (forall m, pv w' m = if decide (m = n) then lprev h else pv w m) /\ same w w'.
Proof.
  intros Hf Hn. destruct n as [|i]; cbn [put_header].
  - eexists. split; [done|]. split_and!; [| |done]; intros [|j]; done.
  - destruct (aget_full w i Hf Hn) as (e & -> & Ee). cbn [mbind outcome_bind]. cbn in Hn.
    rewrite aset_in by (unfold full in Hf; lia). cbn [mbind outcome_bind]. eexists. split; [done|].
    assert (Hl : forall j, 0 <= j -> (<[Z.to_nat i := mk_isr h (isr_func e) (pri e) (int_num e)]> (_isrs w)) !! Z.to_nat j =
                 if decide (Slot j = Slot i) then Some (mk_isr h (isr_func e) (pri e) (int_num e)) else _isrs w !! Z.to_nat j).
    { intros j Hj. destruct (decide (Slot j = Slot i)) as [E|E].
      - injection E as ->. apply list_lookup_insert_eq. by apply lookup_lt_Some in Ee.
      - apply list_lookup_insert_ne. intros Hij. apply E. f_equal. lia. }
    assert (Hget : forall j, get_header (mk_intc (<[Z.to_nat i := mk_isr h (isr_func e) (pri e) (int_num e)]> (_isrs w)) (isrs_mask w) (isr_hdr w)) (Slot j)
                   = if decide (Slot j = Slot i) then Done h else get_header w (Slot j)).
    { intros j. cbn [get_header _isrs]. unfold aget. destruct (0 <=? j) eqn:Ej; zbool.
      - rewrite Hl by lia. by destruct (decide (Slot j = Slot i)).
      - rewrite decide_False by (intros [= ->]; lia). done. }
    split_and!.
    + intros [|j]; [done|]. unfold nx. rewrite Hget. by destruct (decide (Slot j = Slot i)).
    + intros [|j]; [done|]. unfold pv. rewrite Hget. by destruct (decide (Slot j = Slot i)).
    + unfold same, full, zlen. cbn. rewrite length_insert. split_and!; [done|done|]. intros j. unfold body. cbn.
      destruct (decide (Z.to_nat i = Z.to_nat j)) as [E|E].
      * rewrite <- E, list_lookup_insert_eq, Ee by (by apply lookup_lt_Some in Ee). done.
      * by rewrite list_lookup_insert_ne.
Qed.

Lemma get_header_run w n : full w -> valid n -> exists h, get_header w n = Done h /\ nx w n = lnext h /\ pv w n = lprev h.
Proof.
  intros Hf Hn. unfold nx, pv. destruct n as [|i]; cbn [get_header]; [eauto|].
  destruct (aget_full w i Hf Hn) as (e & -> & _). cbn. eauto.
Qed.

Lemma set_lnext_run w n x : full w -> valid n -> exists w', set_lnext w n x = Done w' /\
  (forall m, nx w' m = if decide (m = n) then Some x else nx w m) /\
  (forall m, pv w' m = pv w m) /\ same w w'.
Proof.
  intros Hf Hn. unfold set_lnext. destruct (get_header_run w n Hf Hn) as (h & -> & En & Ep). cbn [mbind outcome_bind].
  destruct (put_header_run w n (mk_header (Some x) (lprev h)) Hf Hn) as (w' & -> & H1 & H2 & H3).
  exists w'. split_and!; [done|done| |done..]. intros m. rewrite H2. destruct (decide (m = n)) as [->|]; [by rewrite Ep|done].
Qed.

Lemma set_lprev_run w n x : full w -> valid n -> exists w', set_lprev w n x = Done w' /\
  (forall m, pv w' m = if decide (m = n) then Some x else pv w m) /\
  (forall m, nx w' m = nx w m) /\ same w w'.
Proof.
  intros Hf Hn. unfold set_lprev. destruct (get_header_run w n Hf Hn) as (h & -> & En & Ep). cbn [mbind outcome_bind].
  destruct (put_header_run w n (mk_header (lnext h) (Some x)) Hf Hn) as (w' & -> & H1 & H2 & H3).
  exists w'. split_and!; [done|done| |done..]. intros m. rewrite H1. destruct (decide (m = n)) as [->|]; [by rewrite En|done].
Qed.

(** The four stores of [__list_add], with their net effect. *)
Lemma list_add_run w new prev next : full w -> valid new -> valid prev -> valid next -> new <> prev -> new <> next ->
  exists w', __list_add w new prev next = Done w' /\
    (forall m, nx w' m = if decide (m = prev) then Some new else if decide (m = new) then Some next else nx w m) /\
    (forall m, pv w' m = if decide (m = new) then Some prev else if decide (m = next) then Some new else pv w m) /\
    same w w'.
Proof.
  intros Hf Hn Hp Hx Hnp Hnx. unfold __list_add.
  destruct (set_lprev_run w next new Hf Hx) as (w1 & -> & P1 & N1 & S1). cbn [mbind outcome_bind].
  destruct (set_lnext_run w1 new next) as (w2 & -> & N2 & P2 & S2); [by apply S1|done|]. cbn [mbind outcome_bind].
  destruct (set_lprev_run w2 new prev) as (w3 & -> & P3 & N3 & S3); [by apply S2, S1|done|]. cbn [mbind outcome_bind].
  destruct (set_lnext_run w3 prev new) as (w4 & -> & N4 & P4 & S4); [by apply S3, S2, S1|done|].
  exists w4. split_and!; [done| | |].
  - intros m. rewrite N4, N3, N2, N1. done.
  - intros m. rewrite P4, P3, P2, P1. done.
  - eapply same_trans; [exact S1|]. eapply same_trans; [exact S2|]. by eapply same_trans.
Qed.

(** The chain of both pointers from [start] back to the header. *)
Fixpoint linked (n p : node -> option node) (start : node) (ids : list Z) : Prop :=
  match ids with
  | [] => n start = Some Hdr /\ p Hdr = Some start
  | i :: r => n start = Some (Slot i) /\ p (Slot i) = Some start /\ linked n p (Slot i) r
  end.

(** The node a list starts with, and the one it ends with. *)
Definition first (ids : list Z) : node := match ids with [] => Hdr | i :: _ => Slot i end.
Definition final (start : node) (ids : list Z) : node := match last ids with Some i => Slot i | None => start end.

Lemma final_cons start i ids : final start (i :: ids) = final (Slot i) ids.
Proof. unfold final. rewrite last_cons. by destruct (last ids). Qed.

Lemma linked_first n p start pre ids : linked n p start (pre ++ ids) ->
  n (final start pre) = Some (first ids) /\ p (first ids) = Some (final start pre).
Proof.
  revert start. induction pre as [|i pre IH]; intros start; cbn [app linked].
  - destruct ids; cbn; tauto.
  - intros (_ & _ & Hl). rewrite final_cons. by apply IH.
Qed.

Lemma linked_ext n p n' p' start ids :
  (forall m, m = start \/ (exists i, i ∈ ids /\ m = Slot i) -> n' m = n m) ->
  (forall m, m = Hdr \/ (exists i, i ∈ ids /\ m = Slot i) -> p' m = p m) ->
  linked n p start ids -> linked n' p' start ids.
Proof.
  revert start. induction ids as [|i r IH]; intros start Hn Hp; cbn.
  - intros [E1 E2]. rewrite Hn, Hp by (by left). done.
  - intros (E1 & E2 & Hl). rewrite Hn by (by left). rewrite Hp by (right; exists i; split; [by left|done]).
    split_and!; [done..|]. apply IH; [| |done].
    + intros m [->|(j & Hj & ->)]; apply Hn; right; eexists; (split; [|done]); [by left|by right].
    + intros m [->|(j & Hj & ->)]; apply Hp; [by left|right]. exists j. split; [by right|done].
Qed.

(** Inserting between [pre] and [post]. *)
Lemma linked_insert n p n' p' start pre post new :
  linked n p start (pre ++ post) -> NoDup (pre ++ post) -> new ∉ pre ++ post ->
  start <> Slot new -> (forall i, i ∈ pre ++ post -> start <> Slot i) ->
  (forall m, n' m = if decide (m = final start pre) then Some (Slot new)
                    else if decide (m = Slot new) then Some (first post) else n m) ->
  (forall m, p' m = if decide (m = Slot new) then Some (final start pre)
                    else if decide (m = first post) then Some (Slot new) else p m) ->
  linked n' p' start (pre ++ new :: post).
Proof.
  revert start. induction pre as [|i pre IH]; intros start Hl Hnd Hnew Hs Hids Hn Hp; cbn [app linked] in *.
  - cbn in Hn. rewrite Hn, decide_True by done. rewrite Hp, decide_True by done. split_and!; [done..|].
    assert (Hnf : Slot new <> first post).
    { destruct post as [|j post]; cbn; [done|]. intros [= ->]. apply Hnew. by left. }
    destruct post as [|j post]; cbn [linked first] in *.
    + rewrite Hn, decide_False, decide_True by congruence. rewrite Hp, decide_False, decide_True by done. done.
    + rewrite Hn, decide_False, decide_True by congruence. rewrite Hp, decide_False, decide_True by congruence.
      split_and!; [done..|]. destruct Hl as (_ & _ & Hl). apply NoDup_cons in Hnd as [Hj Hnd].
      rewrite not_elem_of_cons in Hnew. destruct Hnew as [Hnj Hnew]. eapply linked_ext; [| |exact Hl].
      * intros m Hm. rewrite Hn. rewrite decide_False, decide_False; [done| |].
        -- destruct Hm as [->|(x & Hx & ->)]; [congruence|]. intros [= ->]. done.
        -- destruct Hm as [->|(x & Hx & ->)]; intros E; symmetry in E; [eapply Hids; [by left|exact E]|].
           eapply Hids; [by right|exact E].
      * intros m Hm. rewrite Hp. rewrite decide_False, decide_False; [done| |].
        -- destruct Hm as [->|(x & Hx & ->)]; [done|]. intros [= ->]. done.
        -- destruct Hm as [->|(x & Hx & ->)]; [done|]. intros [= ->]. done.
  - destruct Hl as (E1 & E2 & Hl). rewrite final_cons in Hn, Hp. apply NoDup_cons in Hnd as [Hi Hnd].
    rewrite not_elem_of_cons in Hnew. destruct Hnew as [Hni Hnew].
    assert (Hsf : start <> final (Slot i) pre).
    { unfold final. destruct (last pre) as [x|] eqn:E.
      - apply Hids. right. rewrite elem_of_app. left. by apply last_Some_elem_of.
      - apply Hids. by left. }
    assert (Hif : Slot i <> first post).
    { destruct post as [|j post]; cbn; [done|]. intros [= ->]. apply Hi. rewrite elem_of_app. right. by left. }
    rewrite Hn, decide_False, decide_False by done. rewrite Hp, decide_False, decide_False by congruence.
    split_and!; [done..|]. apply IH; try done; [congruence|]. intros j Hj [= ->]. done.
Qed.

(* ------------------------------------------------------------------ *)
(** ** The table as a sorted sequence *)

Record reg := mk_reg { r_num : Z; r_pri : Z; r_func : Z }.

Definition nums (rs : list reg) : list Z := map r_num rs.

(** The table holds the registrations [rs]: linked both ways in the order of
    their priorities, all priorities different, the mask their sources. *)
Record wf (w : intc) (rs : list reg) : Prop := {
  wf_full : full w;
  wf_linked : linked (nx w) (pv w) Hdr (nums rs);
  wf_bodies : Forall (fun r => body w (r_num r) = Some (Some (r_func r), r_pri r, r_num r)) rs;
  wf_range : Forall (fun r => 0 <= r_num r < INTC_MAX_COUNT) rs;
  wf_nodup : NoDup (nums rs);
  wf_sorted : StronglySorted (fun a b => r_pri a < r_pri b) rs;
  wf_mask : forall n, 0 <= n -> Z.testbit (isrs_mask w) n = bool_decide (n ∈ nums rs);
  wf_free : forall i, 0 <= i < INTC_MAX_COUNT -> i ∉ nums rs -> exists p k, body w i = Some (None, p, k)
}.

(** Registering: in priority order, or refused. *)
Fixpoint insert_pri (r : reg) (rs : list reg) : option (list reg) :=
  match rs with
  | [] => Some [r]
  | x :: t =>
      if r_pri r <? r_pri x then Some (r :: x :: t)
      else if r_pri r =? r_pri x then None
      else cons x <$> insert_pri r t
  end.

Definition change_func (num : Z) (isr : Z) (rs : list reg) : list reg :=
  map (fun r => if r_num r =? num then mk_reg num (r_pri r) isr else r) rs.

Lemma insert_pri_split r rs : StronglySorted (fun a b => r_pri a < r_pri b) rs ->
  match insert_pri r rs with
  | Some rs' => exists pre post, rs = pre ++ post /\ rs' = pre ++ r :: post /\
      Forall (fun x => r_pri x < r_pri r) pre /\ (forall x, head post = Some x -> r_pri r < r_pri x) /\
      StronglySorted (fun a b => r_pri a < r_pri b) rs'
  | None => exists pre x post, rs = pre ++ x :: post /\ r_pri x = r_pri r /\ Forall (fun y => r_pri y < r_pri r) pre
  end.
Proof.
  induction rs as [|x t IH]; cbn [insert_pri]; intros Hs.
  { exists [], []. split_and!; [done|done|constructor|done|]. constructor; constructor. }
  apply StronglySorted_inv in Hs as [Hs Hx]. destruct (r_pri r <? r_pri x) eqn:E1; zbool.
  { exists [], (x :: t). split_and!; [done|done|constructor|by intros ? [= <-]|].
    constructor; [by constructor|]. apply Forall_cons. split; [done|].
    eapply Forall_impl; [exact Hx|]. cbn. intros y Hy. lia. }
  destruct (r_pri r =? r_pri x) eqn:E2; zbool; [by exists [], x, t|]. specialize (IH Hs).
  destruct (insert_pri r t) as [t'|]; cbn.
  - destruct IH as (pre & post & -> & -> & Hpre & Hpost & Hst). exists (x :: pre), post.
    split_and!; [done|done|apply Forall_cons; split; [lia|done]|done|].
    apply SSorted_cons; [exact Hst|]. apply Forall_app in Hx as [H1 H2]. apply Forall_app. split; [done|].
    apply Forall_cons. split; [lia|done].
  - destruct IH as (pre & y & post & -> & Ey & Hpre). exists (x :: pre), y, post.
    split_and!; [done|done|apply Forall_cons; split; [lia|done]].
Qed.

(** Reading an entry of the chain. *)
Lemma entry_at w i e0 : full w -> body w i = Some e0 -> 0 <= i < INTC_MAX_COUNT ->
  exists e, aget (_isrs w) i = Done e /\ lnext (list_ e) = nx w (Slot i) /\ (isr_func e, pri e, int_num e) = e0.
Proof.
  intros Hf Hb Hi. destruct (aget_full w i Hf Hi) as (e & Ea & El). exists e. split; [done|]. unfold nx, body in *.
  cbn [get_header]. rewrite Ea. rewrite El in Hb. cbn in *. split; [done|congruence].
Qed.

(** Entries a walk may pass: in range, with a known priority. *)
Definition passable (w : intc) (r : reg) : Prop :=
  0 <= r_num r < INTC_MAX_COUNT /\ exists f k, body w (r_num r) = Some (f, r_pri r, k).

Lemma find_place_run fuel w start pre post ipri : full w -> linked (nx w) (pv w) start (nums (pre ++ post)) ->
  Forall (passable w) (pre ++ post) -> Forall (fun r => r_pri r < ipri) pre ->
  (forall x, head post = Some x -> ipri <= r_pri x) -> (length pre < fuel)%nat ->
  find_place fuel w (first (nums (pre ++ post))) ipri = Done (
    match post with
    | [] => Some Hdr
    | x :: _ => if ipri <? r_pri x then Some (Slot (r_num x)) else None
    end).
Proof.
  revert start fuel. induction pre as [|r pre IH]; intros start fuel Hf Hl Hp Hpre Hpost Hfuel; cbn [app].
  - destruct post as [|x post]; [by destruct fuel|]. destruct fuel as [|fuel]; [lia|]. cbn [find_place first nums map].
    apply Forall_cons in Hp as [(Hr & f & k & Hb) _].
    destruct (entry_at w _ _ Hf Hb Hr) as (e & -> & En & Ee). cbn [mbind outcome_bind]. rewrite En.
    assert (Hnx : exists n, nx w (Slot (r_num x)) = Some n).
    { destruct Hl as (_ & _ & Hl). apply (linked_first _ _ _ []) in Hl. destruct Hl as [Hl _]. eauto. }
    destruct Hnx as (n & ->). cbn [deref mbind outcome_bind]. injection Ee as _ -> _.
    specialize (Hpost x eq_refl). destruct (ipri <? r_pri x) eqn:E; [done|]. zbool.
    by rewrite (proj2 (Z.eqb_eq _ _)) by lia.
  - destruct fuel as [|fuel]; [cbn in Hfuel; lia|]. cbn [find_place first nums map].
    apply Forall_cons in Hp as [(Hr & f & k & Hb) Hp]. apply Forall_cons in Hpre as [Hlt Hpre].
    destruct (entry_at w _ _ Hf Hb Hr) as (e & -> & En & Ee). cbn [mbind outcome_bind]. rewrite En.
    destruct Hl as (_ & _ & Hl). pose proof (proj1 (linked_first _ _ _ [] _ Hl)) as Hnx. unfold final in Hnx. cbn [last] in Hnx.
    rewrite Hnx. cbn [deref mbind outcome_bind]. injection Ee as _ -> _.
    rewrite (proj2 (Z.ltb_ge _ _)), (proj2 (Z.eqb_neq _ _)) by lia.
    apply (IH (Slot (r_num r))); try done. cbn in Hfuel. lia.
Qed.

(** Writing an entry without touching its links. *)
Lemma set_isr_run w i e f p k : full w -> 0 <= i < INTC_MAX_COUNT -> _isrs w !! Z.to_nat i = Some e ->
  exists w', set_isr w i (mk_isr (list_ e) f p k) = Done w' /\ full w' /\ isrs_mask w' = isrs_mask w /\
    isr_hdr w' = isr_hdr w /\
    (forall m, nx w' m = nx w m) /\ (forall m, pv w' m = pv w m) /\
    (forall j, 0 <= j -> body w' j = if decide (j = i) then Some (f, p, k) else body w j) /\
    _isrs w' !! Z.to_nat i = Some (mk_isr (list_ e) f p k) /\
    <[Z.to_nat i := e]> (_isrs w') = _isrs w.
Proof.
  intros Hf Hi He. unfold set_isr. rewrite aset_in by (unfold full in Hf; lia). cbn [mbind outcome_bind].
  eexists. split; [done|]. cbn. pose proof (lookup_lt_Some _ _ _ He) as Hlt.
  assert (Hl : forall j, 0 <= j -> <[Z.to_nat i := mk_isr (list_ e) f p k]> (_isrs w) !! Z.to_nat j =
                 if decide (j = i) then Some (mk_isr (list_ e) f p k) else _isrs w !! Z.to_nat j).
  { intros j Hj. destruct (decide (j = i)) as [->|E]; [by apply list_lookup_insert_eq|].
    apply list_lookup_insert_ne. lia. }
  assert (Hget : forall m, (exists h, get_header (mk_intc (<[Z.to_nat i := mk_isr (list_ e) f p k]> (_isrs w)) (isrs_mask w) (isr_hdr w)) m = Done h
                            /\ get_header w m = Done h)
                 \/ get_header (mk_intc (<[Z.to_nat i := mk_isr (list_ e) f p k]> (_isrs w)) (isrs_mask w) (isr_hdr w)) m = get_header w m).
  { intros [|j]; [by right|]. cbn [get_header _isrs]. unfold aget. destruct (0 <=? j) eqn:Ej; [|by right]. zbool.
    rewrite Hl by lia. destruct (decide (j = i)) as [->|]; [left|by right]. rewrite He. cbn. eauto. }
  split_and!.
  - unfold full, zlen in *. cbn. by rewrite length_insert.
  - done.
  - done.
  - intros m. unfold nx. destruct (Hget m) as [(h & -> & ->)| ->]; done.
  - intros m. unfold pv. destruct (Hget m) as [(h & -> & ->)| ->]; done.
  - intros j Hj. unfold body. cbn. rewrite Hl by done. by destruct (decide (j = i)).
  - by apply list_lookup_insert_eq.
  - rewrite list_insert_insert_eq. by apply list_insert_id.
Qed.

Lemma valid_final pre : Forall (fun i => 0 <= i < INTC_MAX_COUNT) pre -> valid (final Hdr pre).
Proof.
  intros Hp. unfold final. destruct (last pre) as [i|] eqn:E; [|done]. cbn.
  rewrite Forall_forall in Hp. apply Hp. by apply last_Some_elem_of.
Qed.

Lemma valid_first post : Forall (fun i => 0 <= i < INTC_MAX_COUNT) post -> valid (first post).
Proof. intros Hp. destruct post; [done|]. by apply Forall_cons in Hp as [? _]. Qed.

Lemma linked_same n p n' p' start ids : (forall m, n' m = n m) -> (forall m, p' m = p m) ->
  linked n p start ids -> linked n' p' start ids.
Proof. intros Hn Hp. apply linked_ext; auto. Qed.

Lemma insert_pri_present num ipri isr f rs : StronglySorted (fun a b => r_pri a < r_pri b) rs ->
  mk_reg num ipri f ∈ rs -> insert_pri (mk_reg num ipri isr) rs = None.
Proof.
  intros Hs Hin. pose proof (insert_pri_split (mk_reg num ipri isr) rs Hs) as Hi.
  destruct (insert_pri _ rs) as [rs'|]; [|done]. destruct Hi as (pre & post & -> & -> & Hpre & _ & Hst). exfalso.
  apply elem_of_app in Hin as [Hin|Hin].
  - rewrite Forall_forall in Hpre. specialize (Hpre _ Hin). cbn in Hpre. lia.
  - assert (Hpost : Forall (fun b => ipri < r_pri b) post).
    { clear Hpre Hs. induction pre as [|x pre IH]; cbn in Hst; apply StronglySorted_inv in Hst as [Hst Hx]; [exact Hx|by apply IH]. }
    rewrite Forall_forall in Hpost. specialize (Hpost _ Hin). cbn in Hpost. lia.
Qed.

(** The table with one more registration. *)
Lemma wf_insert w1 w2 num ipri isr pre post :
  full w1 -> linked (nx w1) (pv w1) Hdr (nums (pre ++ post)) ->
  Forall (fun r => body w1 (r_num r) = Some (Some (r_func r), r_pri r, r_num r)) (pre ++ post) ->
  Forall (fun r => 0 <= r_num r < INTC_MAX_COUNT) (pre ++ post) -> NoDup (nums (pre ++ post)) ->
  (forall n, 0 <= n -> Z.testbit (isrs_mask w1) n = bool_decide (n ∈ nums (pre ++ post))) ->
  (forall i, 0 <= i < INTC_MAX_COUNT -> i ∉ nums (pre ++ post) -> i <> num -> exists p k, body w1 i = Some (None, p, k)) ->
  0 <= num < INTC_MAX_COUNT -> num ∉ nums (pre ++ post) -> body w1 num = Some (Some isr, ipri, num) ->
  StronglySorted (fun a b => r_pri a < r_pri b) (pre ++ mk_reg num ipri isr :: post) ->
  (forall m, nx w2 m = if decide (m = final Hdr (nums pre)) then Some (Slot num)
                       else if decide (m = Slot num) then Some (first (nums post)) else nx w1 m) ->
  (forall m, pv w2 m = if decide (m = Slot num) then Some (final Hdr (nums pre))
                       else if decide (m = first (nums post)) then Some (Slot num) else pv w1 m) ->
  same w1 w2 ->
  wf (mk_intc (_isrs w2) (Z.lor (isrs_mask w2) (BIT num)) (isr_hdr w2)) (pre ++ mk_reg num ipri isr :: post).
Proof.
  intros Hf Hl Hb Hr Hnd Hm Hfree Hnum Hnew Hbn Hs Hn Hp (Hsf & Hsm & Hsb).
  assert (Enum : nums (pre ++ mk_reg num ipri isr :: post) = nums pre ++ num :: nums post) by (unfold nums; by rewrite map_app).
  assert (Enum' : nums (pre ++ post) = nums pre ++ nums post) by (unfold nums; by rewrite map_app).
  assert (Hin : forall n, n ∈ nums pre ++ num :: nums post <-> n = num \/ n ∈ nums (pre ++ post))
    by (intros n; rewrite Enum', !elem_of_app, elem_of_cons; tauto).
  rewrite Enum' in Hl, Hnd, Hnew. split.
  - exact (Hsf Hf).
  - rewrite Enum. eapply linked_same; [intros [|j]; reflexivity..|].
    apply (linked_insert (nx w1) (pv w1)); try done.
  - apply Forall_app in Hb as [Hb1 Hb2]. apply Forall_app. split; [|apply Forall_cons; split; [cbn; by rewrite <- Hbn, <- Hsb|]];
      (eapply Forall_impl; [eassumption|]; cbn; intros r <-; apply Hsb).
  - apply Forall_app in Hr as [Hr1 Hr2]. apply Forall_app. split; [done|]. by apply Forall_cons.
  - rewrite Enum. apply NoDup_app in Hnd as (H1 & H2 & H3). rewrite not_elem_of_app in Hnew.
    apply NoDup_app. split_and!; [done| |apply NoDup_cons; tauto].
    intros x Hx [->|Hx']%elem_of_cons; [tauto|by apply (H2 x)].
  - done.
  - intros n Hn0. cbn. rewrite Hsm, Z.lor_spec, Hm by done. unfold BIT. rewrite Z.shiftl_spec, Enum by done.
    rewrite (bool_decide_ext _ _ (Hin n)). destruct (decide (n = num)) as [->|Hne].
    + rewrite Z.sub_diag. cbn. rewrite orb_true_r. by rewrite bool_decide_eq_true_2 by (by left).
    + assert (E : Z.testbit 1 (n - num) = false).
      { destruct (decide (n < num)); [apply Z.testbit_neg_r; lia|apply (testbit_high 1); lia]. }
      rewrite E, orb_false_r. apply bool_decide_ext. naive_solver.
  - intros i Hi Hni. rewrite Enum, Hin in Hni. destruct (Hfree i) as (p & k & E); [done|tauto|tauto|].
    exists p, k. by rewrite <- E, <- Hsb.
Qed.

(** Both ways of linking the entry in, on an empty list and before an entry. *)
Lemma place_run fuel w1 num ipri pre post w2 : full w1 -> linked (nx w1) (pv w1) Hdr (nums (pre ++ post)) ->
  Forall (passable w1) (pre ++ post) -> Forall (fun r => r_pri r < ipri) pre ->
  (forall x, head post = Some x -> ipri < r_pri x) -> (length pre < fuel)%nat -> valid (first (nums post)) ->
  __list_add w1 (Slot num) (final Hdr (nums pre)) (first (nums post)) = Done w2 ->
  (if bool_decide (first (nums (pre ++ post)) = Hdr)
   then w ← list_add_head w1 (Slot num) Hdr; Done (Some w)
   else at_ ← find_place fuel w1 (first (nums (pre ++ post))) ipri;
        match at_ with Some p => w ← list_add_tail w1 (Slot num) p; Done (Some w) | None => Done None end)
  = Done (Some w2).
Proof.
  intros Hf1 Hl1 Hpass Hpre Hpost Hfuel Hvp Eadd.
  assert (Enum : nums (pre ++ post) = nums pre ++ nums post) by (unfold nums; by rewrite map_app).
  pose proof Hl1 as Hl2. rewrite Enum in Hl2. destruct (linked_first _ _ _ _ _ Hl2) as [Hx1 Hx2].
  destruct (bool_decide (first (nums (pre ++ post)) = Hdr)) eqn:Eb.
  - apply bool_decide_eq_true in Eb. assert (Hnil : pre = [] /\ post = []).
    { destruct pre; [|done]. by destruct post. }
    destruct Hnil as [-> ->]. unfold list_add_head. cbn [get_header mbind outcome_bind].
    assert (Eh : lnext (isr_hdr w1) = Some Hdr) by exact Hx1. rewrite Eh.
    cbn [deref mbind outcome_bind first nums map app final last] in *. by rewrite Eadd.
  - rewrite (find_place_run fuel w1 Hdr pre post) by (done || (intros x Hx; specialize (Hpost x Hx); lia)).
    cbn [mbind outcome_bind].
    assert (Eat : match post with [] => Some Hdr | x :: _ => if ipri <? r_pri x then Some (Slot (r_num x)) else None end
                  = Some (first (nums post))).
    { destruct post as [|x q]; [done|]. specialize (Hpost x eq_refl). by rewrite (proj2 (Z.ltb_lt _ _)) by lia. }
    rewrite Eat. unfold list_add_tail. destruct (get_header_run w1 (first (nums post)) Hf1 Hvp) as (h & -> & _ & Ep).
    cbn [mbind outcome_bind]. rewrite <- Ep, Hx2. cbn [deref mbind outcome_bind]. by rewrite Eadd.
Qed.

(** An entry of the table is known by its source. *)
Lemma same_source rs r r' : NoDup (nums rs) -> r ∈ rs -> r' ∈ rs -> r_num r = r_num r' -> r = r'.
Proof.
  intros Hnd (i & Ei)%list_elem_of_lookup (j & Ej)%list_elem_of_lookup E.
  assert (i = j); [|congruence]. eapply (NoDup_lookup (nums rs)); [done|..]; unfold nums; rewrite list_lookup_fmap.
  - by rewrite Ei.
  - rewrite Ej. cbn. by rewrite E.
Qed.

(** The header as the code reads it. *)
Lemma header_first w rs : linked (nx w) (pv w) Hdr (nums rs) -> lnext (isr_hdr w) = Some (first (nums rs)).
Proof. intros Hl. exact (proj1 (linked_first _ _ _ [] _ Hl)). Qed.

(** Storing the new fields of [num] leaves every registered entry readable. *)
Lemma store_passable w w1 rs num ipri isr : wf w rs ->
  num ∉ nums rs \/ (exists f, mk_reg num ipri f ∈ rs) ->
  (forall j, 0 <= j -> body w1 j = if decide (j = num) then Some (isr, ipri, num) else body w j) ->
  Forall (passable w1) rs.
Proof.
  intros [Hf Hl Hb Hr Hnd Hs Hm Hfree] Hnew Hb1.
  rewrite Forall_forall in Hr, Hb |- *. intros r Hin. split; [by apply Hr|]. specialize (Hr r Hin).
  rewrite Hb1 by lia. destruct (decide (r_num r = num)) as [E|E]; [|rewrite Hb by done; eauto].
  destruct Hnew as [Hnew|(f & Hf')]; [exfalso; apply Hnew; rewrite <- E; by apply list_elem_of_fmap_2|].
  rewrite (same_source rs r (mk_reg num ipri f)) by done. eauto.
Qed.

(** Linking a source in that is not in the table yet. *)
Lemma link_new fuel w w1 pre post num ipri isr : wf w (pre ++ post) -> 0 <= num < INTC_MAX_COUNT ->
  num ∉ nums (pre ++ post) -> (length (pre ++ post) < fuel)%nat ->
  Forall (fun r => r_pri r < ipri) pre -> (forall x, head post = Some x -> ipri < r_pri x) ->
  Sorted.StronglySorted (fun a b => r_pri a < r_pri b) (pre ++ mk_reg num ipri isr :: post) ->
  full w1 -> isrs_mask w1 = isrs_mask w -> linked (nx w1) (pv w1) Hdr (nums (pre ++ post)) ->
  (forall j, 0 <= j -> body w1 j = if decide (j = num) then Some (Some isr, ipri, num) else body w j) ->
  exists w2 : intc,
    (if bool_decide (first (nums (pre ++ post)) = Hdr)
     then w ← list_add_head w1 (Slot num) Hdr; Done (Some w)
     else at_ ← find_place fuel w1 (first (nums (pre ++ post))) ipri;
          match at_ with Some p => w ← list_add_tail w1 (Slot num) p; Done (Some w) | None => Done None end)
    = Done (Some w2) /\
    wf (mk_intc (_isrs w2) (Z.lor (isrs_mask w2) (BIT num)) (isr_hdr w2)) (pre ++ mk_reg num ipri isr :: post).
Proof.
  intros Hwf Hnum Hnew Hfuel Hpre Hpost Hst Hf1 Hm1 Hl1 Hb1.
  pose proof (store_passable w w1 _ num ipri (Some isr) Hwf (or_introl Hnew) Hb1) as Hpass.
  destruct Hwf as [Hf Hl Hb Hr Hnd Hs Hm Hfree].
  assert (Enum : nums (pre ++ post) = nums pre ++ nums post) by (unfold nums; by rewrite map_app).
  assert (Hrn : Forall (fun i => 0 <= i < INTC_MAX_COUNT) (nums pre) /\ Forall (fun i => 0 <= i < INTC_MAX_COUNT) (nums post)).
  { apply Forall_app in Hr as [H1 H2]. unfold nums. by rewrite !Forall_map. }
  assert (Hvf : valid (final Hdr (nums pre))) by apply valid_final, Hrn.
  assert (Hvp : valid (first (nums post))) by apply valid_first, Hrn.
  assert (Hne1 : Slot num <> final Hdr (nums pre)).
  { unfold final. destruct (last (nums pre)) as [j|] eqn:E; [|done]. intros [= ->].
    apply Hnew. rewrite Enum, elem_of_app. left. by apply last_Some_elem_of. }
  assert (Hne2 : Slot num <> first (nums post)).
  { destruct (nums post) as [|j q] eqn:E; [done|]. intros [= ->]. apply Hnew. rewrite Enum, elem_of_app. right. by left. }
  destruct (list_add_run w1 (Slot num) (final Hdr (nums pre)) (first (nums post))) as (w2 & Eadd & Hn2 & Hp2 & Hs2); [done..|].
  exists w2. rewrite (place_run fuel w1 num ipri pre post w2) by
    (done || (rewrite length_app in Hfuel; lia)).
  split; [done|]. apply (wf_insert w1 w2); try done.
  + rewrite Forall_forall in Hb, Hr |- *. intros r Hin. specialize (Hr r Hin). rewrite Hb1, decide_False by (try lia; intros E; apply Hnew; rewrite <- E; by apply list_elem_of_fmap_2).
    by apply Hb.
  + intros n Hn. rewrite Hm1. by apply Hm.
  + intros i Hi Hni Hne. rewrite Hb1, decide_False by (done || lia). by apply Hfree.
  + by rewrite Hb1, decide_True by (done || lia).
Qed.

Lemma register_run fuel w rs num ipri isr : wf w rs -> 0 <= num < INTC_MAX_COUNT ->
  num ∉ nums rs \/ (exists f, mk_reg num ipri f ∈ rs) -> (length rs < fuel)%nat ->
  exists w', intc_service_register fuel w num ipri (Some isr) = Done w' /\
    wf w' (default rs (insert_pri (mk_reg num ipri isr) rs)).
Proof.
  intros Hwf Hnum Hnew Hfuel. pose proof Hwf as [Hf Hl Hb Hr Hnd Hs Hm Hfree].
  unfold intc_service_register. destruct (aget_full w num Hf Hnum) as (e & -> & He). cbn [mbind outcome_bind].
  destruct (set_isr_run w num e (Some isr) ipri num Hf Hnum He) as (w1 & -> & Hf1 & Hm1 & Hh1 & Hn1 & Hp1 & Hb1 & He1 & Hback).
  cbn [mbind outcome_bind].
  assert (Hl1 : linked (nx w1) (pv w1) Hdr (nums rs)) by (by apply (linked_same (nx w) (pv w))).
  unfold list_empty, get_header. cbn [mbind outcome_bind]. rewrite (header_first w1 rs Hl1). cbn [deref mbind outcome_bind].
  pose proof (store_passable w w1 rs num ipri (Some isr) Hwf Hnew Hb1) as Hpass.
  pose proof (insert_pri_split (mk_reg num ipri isr) rs Hs) as Hsplit.
  destruct (insert_pri (mk_reg num ipri isr) rs) as [rs'|] eqn:Ei.
  - assert (Hnew' : num ∉ nums rs).
    { destruct Hnew as [|(f & Hin)]; [done|]. rewrite (insert_pri_present _ _ _ _ _ Hs Hin) in Ei. done. }
    destruct Hsplit as (pre & post & -> & -> & Hpre & Hpost & Hst).
    destruct (link_new fuel w w1 pre post num ipri isr) as (w2 & -> & Hw2); try done.
    eexists. split; [done|]. exact Hw2.
  - destruct Hsplit as (pre & x & post & -> & Ex & Hpre). cbn [r_pri] in Ex, Hpre.
    rewrite bool_decide_eq_false_2 by (by destruct pre).
    rewrite (find_place_run fuel w1 Hdr pre (x :: post)) by
      (done || (rewrite length_app in Hfuel; lia) || (intros y [= <-]; lia)).
    cbn [mbind outcome_bind]. rewrite (proj2 (Z.ltb_ge _ _)) by lia. cbn [mbind outcome_bind].
    unfold set_isr. rewrite aset_in by (unfold full in Hf1; lia). cbn [mbind outcome_bind].
    rewrite Hback, Hm1, Hh1. exists w. split; [by destruct w|]. done.
Qed.

(** The walk of a change of handler meets the entry itself. *)
Lemma same_pri_run fuel w start rs ipri : full w -> linked (nx w) (pv w) start (nums rs) ->
  Forall (passable w) rs -> (length rs <= fuel)%nat ->
  same_pri fuel w (first (nums rs)) ipri = Done (bool_decide (Exists (fun r => r_pri r = ipri) rs)).
Proof.
  revert start fuel. induction rs as [|r rs IH]; intros start fuel Hf Hl Hp Hfuel.
  - rewrite bool_decide_eq_false_2; [by destruct fuel|]. by intros ?%Exists_nil.
  - destruct fuel as [|fuel]; [cbn in Hfuel; lia|]. cbn [same_pri first nums map].
    apply Forall_cons in Hp as [(Hr & f & k & Hb) Hp].
    destruct (entry_at w _ _ Hf Hb Hr) as (e & -> & En & Ee). cbn [mbind outcome_bind]. rewrite En.
    destruct Hl as (_ & _ & Hl). pose proof (proj1 (linked_first _ _ _ [] _ Hl)) as Hnx. unfold final in Hnx. cbn [last] in Hnx.
    rewrite Hnx. cbn [deref mbind outcome_bind]. injection Ee as _ -> _.
    destruct (Z.eqb_spec ipri (r_pri r)) as [->|Hne].
    + rewrite bool_decide_eq_true_2; [done|by left].
    + rewrite (IH (Slot (r_num r))) by (done || (cbn in Hfuel; lia)). f_equal. apply bool_decide_ext.
      rewrite Exists_cons. split; [by right|]. intros [E|]; [congruence|done].
Qed.

Lemma wf_passable w rs : wf w rs -> Forall (passable w) rs.
Proof.
  intros [_ _ Hb Hr _ _ _ _]. rewrite Forall_forall in Hb, Hr |- *. intros r Hin. split; [by apply Hr|].
  rewrite Hb by done. eauto.
Qed.

Lemma change_run fuel w rs num isr : wf w rs -> 0 <= num < INTC_MAX_COUNT -> (length rs <= fuel)%nat ->
  exists w', intc_service_change_handler fuel w num (Some isr) = Done w' /\ wf w' (change_func num isr rs).
Proof.
  intros Hwf Hnum Hfuel. pose proof (wf_passable w rs Hwf) as Hpass. pose proof Hwf as [Hf Hl Hb Hr Hnd Hs Hm Hfree].
  assert (Enums : nums (change_func num isr rs) = nums rs).
  { unfold nums, change_func. rewrite map_map. apply map_ext. intros r. destruct (Z.eqb_spec (r_num r) num); cbn; congruence. }
  unfold intc_service_change_handler. destruct (aget_full w num Hf Hnum) as (e & -> & He). cbn [mbind outcome_bind].
  assert (Ebody : body w num = Some (isr_func e, pri e, int_num e)) by (unfold body; by rewrite He).
  destruct (decide (num ∈ nums rs)) as [Hin|Hni].
  - apply list_elem_of_fmap in Hin as (r & -> & Hin).
    assert (Er : Some (isr_func e, pri e, int_num e) = Some (Some (r_func r), r_pri r, r_num r)).
    { rewrite <- Ebody. rewrite Forall_forall in Hb. by apply Hb. }
    injection Er as E1 E2 E3. rewrite E1, E2, E3.
    unfold list_empty, get_header. cbn [mbind outcome_bind]. rewrite (header_first w rs Hl). cbn [deref mbind outcome_bind].
    rewrite bool_decide_eq_false_2 by (by destruct rs; [apply not_elem_of_nil in Hin|]).
    rewrite (same_pri_run fuel w Hdr) by done. cbn [mbind outcome_bind].
    rewrite bool_decide_eq_true_2 by (apply Exists_exists; eauto).
    destruct (set_isr_run w (r_num r) e (Some isr) (r_pri r) (r_num r) Hf Hnum He) as (w1 & -> & Hf1 & Hm1 & Hh1 & Hn1 & Hp1 & Hb1 & _ & _).
    exists w1. split; [done|]. split.
    + done.
    + rewrite Enums. by apply (linked_same (nx w) (pv w)).
    + rewrite Forall_forall in Hb, Hr |- *. unfold change_func. intros r' (x & -> & Hx)%list_elem_of_fmap.
      specialize (Hb x Hx). specialize (Hr x Hx). destruct (Z.eqb_spec (r_num x) (r_num r)) as [E|E]; cbn.
      * rewrite Hb1, decide_True by (done || lia). do 2 f_equal. f_equal.
        by rewrite (same_source rs x r).
      * rewrite Hb1, decide_False by (done || lia). done.
    + unfold change_func. rewrite Forall_map. eapply Forall_impl; [exact Hr|]. intros x Hx. cbn.
      destruct (_ =? _) eqn:E; [|done]. zbool. cbn. lia.
    + by rewrite Enums.
    + unfold change_func. clear -Hs. induction Hs as [|x l Hs IH Hx]; cbn; constructor; [done|].
      rewrite Forall_map. eapply Forall_impl; [exact Hx|]. intros y Hy. cbn. by repeat case_match.
    + intros n Hn. rewrite Hm1, Enums. by apply Hm.
    + intros i Hi Hni. rewrite Enums in Hni. rewrite Hb1, decide_False; [by apply Hfree| |lia].
      intros ->. apply Hni. by apply list_elem_of_fmap_2.
  - destruct (Hfree num Hnum Hni) as (p & k & E). rewrite E in Ebody. injection Ebody as <- _ _.
    exists w. split; [done|]. assert (Eid : change_func num isr rs = rs); [|by rewrite Eid].
    unfold change_func. rewrite <- (map_id rs) at 2. apply map_ext_in. intros x Hx%list_elem_of_In.
    rewrite (proj2 (Z.eqb_neq _ _)); [done|]. intros <-. apply Hni. by apply list_elem_of_fmap_2.
Qed.

Lemma filter_agree {A} (P Q : A -> Prop) `{forall x, Decision (P x)} `{forall x, Decision (Q x)} (l : list A) :
  (forall x, x ∈ l -> P x <-> Q x) -> filter P l = filter Q l.
Proof.
  induction l as [|x l IH]; [done|]. intros Hpq. rewrite !filter_cons.
  rewrite IH by (intros y Hy; apply Hpq; by right). pose proof (Hpq x (list_elem_of_here _ _)).
  repeat case_decide; done || tauto.
Qed.

(** Serving the pending sources along the chain. *)
Lemma entry_loop_run fuel w start rs status : full w -> linked (nx w) (pv w) start (nums rs) ->
  Forall (fun r => body w (r_num r) = Some (Some (r_func r), r_pri r, r_num r)) rs ->
  Forall (fun r => 0 <= r_num r < INTC_MAX_COUNT) rs -> NoDup (nums rs) -> is_u32 status -> (length rs <= fuel)%nat ->
  entry_loop fuel w (first (nums rs)) status =
    Done (map r_func (filter (fun r => Z.testbit status (r_num r) = true) rs)).
Proof.
  revert start fuel status. induction rs as [|r rs IH]; intros start fuel status Hf Hl Hb Hr Hnd Hst Hfuel; [by destruct fuel|].
  destruct fuel as [|fuel]; [cbn in Hfuel; lia|]. cbn [entry_loop first nums map].
  apply Forall_cons in Hb as [Hb1 Hb]. apply Forall_cons in Hr as [Hr1 Hr]. apply NoDup_cons in Hnd as [Hni Hnd].
  destruct (entry_at w _ _ Hf Hb1 Hr1) as (e & -> & En & Ee). cbn [mbind outcome_bind]. rewrite En.
  destruct Hl as (_ & _ & Hl). pose proof (proj1 (linked_first _ _ _ [] _ Hl)) as Hnx. unfold final in Hnx. cbn [last] in Hnx.
  rewrite Hnx. cbn [deref mbind outcome_bind]. injection Ee as -> _ ->. unfold INTC_MAX_COUNT in *.
  assert (Hbit : negb (Z.land (BIT (r_num r)) status =? 0) = Z.testbit status (r_num r)).
  { rewrite Z.land_comm. unfold BIT. rewrite Z.shiftl_1_l. destruct (Z.testbit status (r_num r)) eqn:E.
    - apply negb_true_iff, Z.eqb_neq. intros E0. pose proof (f_equal (fun z => Z.testbit z (r_num r)) E0) as Et.
      cbn beta in Et. rewrite Z.land_spec, Z.pow2_bits_true, E, Z.bits_0 in Et by lia. done.
    - apply negb_false_iff, Z.eqb_eq. apply Z.bits_inj'. intros n Hn. rewrite Z.land_spec, Z.bits_0, Z.pow2_bits_eqb by lia.
      destruct (Z.eqb_spec (r_num r) n) as [<-|]; [by rewrite E|by rewrite andb_false_r]. }
  rewrite Hbit. set (status' := Z.land status (u32 (Z.lnot (BIT (r_num r))))).
  assert (Hs' : forall n, 0 <= n < 32 -> Z.testbit status' n = Z.testbit status n && negb (n =? r_num r)).
  { intros n Hn. unfold status'. rewrite Z.land_spec, u32_testbit, Z.lnot_spec by lia. unfold BIT.
    rewrite Z.shiftl_1_l, Z.pow2_bits_eqb by lia. rewrite (proj2 (Z.ltb_lt n 32)) by lia. cbn. by rewrite (Z.eqb_sym n). }
  assert (Hst' : is_u32 status').
  { unfold is_u32, status' in *. apply land_word; [lia|done|]. apply u32_range. }
  assert (Hrest : forall s, is_u32 s -> (forall x, x ∈ rs -> Z.testbit s (r_num x) = Z.testbit status (r_num x)) ->
    (if s =? 0 then Done [] else entry_loop fuel w (first (nums rs)) s) =
      Done (map r_func (filter (fun r => Z.testbit status (r_num r) = true) rs))).
  { intros s Hs Hag. assert (Ef : filter (fun r => Z.testbit s (r_num r) = true) rs = filter (fun r => Z.testbit status (r_num r) = true) rs).
    { apply filter_agree. intros x Hx. by rewrite Hag. }
    rewrite <- Ef. destruct (Z.eqb_spec s 0) as [->|].
    - clear. f_equal. induction rs as [|x rs IH]; [done|]. rewrite filter_cons_False by (by rewrite Z.bits_0). exact IH.
    - apply (IH (Slot (r_num r))); try done. cbn in Hfuel. lia. }
  destruct (Z.testbit status (r_num r)) eqn:E.
  - cbn [deref mbind outcome_bind]. rewrite filter_cons_True by done. cbn [map].
    assert (Hag : forall x, x ∈ rs -> Z.testbit status' (r_num x) = Z.testbit status (r_num x)).
    { intros x Hx. rewrite Hs' by (rewrite Forall_forall in Hr; by apply Hr). rewrite (proj2 (Z.eqb_neq _ _)), andb_true_r; [done|].
      intros Ex. apply Hni. rewrite <- Ex. by apply list_elem_of_fmap_2. }
    specialize (Hrest status' Hst' Hag). destruct (status' =? 0); [by injection Hrest as <-|].
    rewrite Hrest. done.
  - cbn [mbind outcome_bind]. rewrite filter_cons_False by congruence.
    specialize (Hrest status Hst ltac:(done)). destruct (status =? 0); [done|]. by rewrite Hrest.
Qed.

(* ------------------------------------------------------------------ *)
(** ** Runs *)

Inductive op :=
| Register (num ipri isr : Z)
| Change (num isr : Z).

Definition step (fuel : nat) (w : intc) (o : op) : outcome intc :=
  match o with
  | Register num ipri isr => intc_service_register fuel w num ipri (Some isr)
  | Change num isr => intc_service_change_handler fuel w num (Some isr)
  end.

Fixpoint run (fuel : nat) (w : intc) (ops : list op) : outcome intc :=
  match ops with
  | [] => Done w
  | o :: r => w ← step fuel w o; run fuel w r
  end.

(** The abstract table. *)
Definition astep (rs : list reg) (o : op) : list reg :=
  match o with
  | Register num ipri isr => default rs (insert_pri (mk_reg num ipri isr) rs)
  | Change num isr => change_func num isr rs
  end.

(** Real sources, each registered with one priority only. *)
Definition allowed (rs : list reg) (o : op) : Prop :=
  match o with
  | Register num ipri _ =>
      0 <= num < INTC_MAX_COUNT /\ (num ∉ nums rs \/ exists f, mk_reg num ipri f ∈ rs)
  | Change num _ => 0 <= num < INTC_MAX_COUNT
  end.

Fixpoint all_allowed (rs : list reg) (ops : list op) : Prop :=
  match ops with
  | [] => True
  | o :: r => allowed rs o /\ all_allowed (astep rs o) r
  end.

Lemma static_wf : wf intc_static [].
Proof.
  split; try done; try constructor.
  - intros n Hn. by rewrite Z.bits_0.
  - intros i Hi _. exists 0, 0. unfold body, intc_static, INTC_MAX_COUNT in *. cbn [_isrs].
    rewrite lookup_replicate_2 by lia. done.
Qed.

(** No more than 32 sources. *)
Lemma wf_small w rs : wf w rs -> (length rs <= 32)%nat.
Proof.
  intros [_ _ _ Hr Hnd _ _ _]. rewrite <- (length_map r_num). change 32%nat with (length (seqZ 0 32)).
  apply submseteq_length, NoDup_submseteq; [done|]. intros n (r & -> & Hin)%list_elem_of_fmap.
  rewrite Forall_forall in Hr. specialize (Hr r Hin). unfold INTC_MAX_COUNT in Hr. by apply elem_of_seqZ; lia.
Qed.

Lemma run_wf fuel w rs ops : wf w rs -> all_allowed rs ops -> (33 <= fuel)%nat ->
  exists w', run fuel w ops = Done w' /\ wf w' (foldl astep rs ops).
Proof.
  revert w rs. induction ops as [|o ops IH]; intros w rs Hwf Hall Hfuel; [by exists w|].
  destruct Hall as [Ho Hall]. pose proof (wf_small w rs Hwf).
  assert (Hs : exists w', step fuel w o = Done w' /\ wf w' (astep rs o)).
  { destruct o as [num ipri isr|num isr]; cbn in Ho |- *.
    - apply register_run; [done|tauto|tauto|lia].
    - apply change_run; [done|done|lia]. }
  destruct Hs as (w1 & E & Hwf1). cbn [run foldl]. rewrite E. by apply IH.
Qed.

Lemma hdl_entry_run fuel w rs int_status : wf w rs -> is_u32 int_status -> (32 <= fuel)%nat ->
  intc_hdl_entry fuel w int_status =
    Done (map r_func (filter (fun r => Z.testbit int_status (r_num r) = true) rs)).
Proof.
  intros Hwf Hst Hfuel. pose proof (wf_small w rs Hwf). destruct Hwf as [Hf Hl Hb Hr Hnd Hs Hm Hfree].
  unfold intc_hdl_entry. pose proof (proj1 (linked_first _ _ _ [] _ Hl)) as Hfirst. change (final Hdr []) with Hdr in Hfirst.
  assert (Eh : lnext (isr_hdr w) = Some (first (nums rs))) by exact Hfirst. rewrite Eh. cbn [deref mbind outcome_bind].
  assert (Hmask : 0 <= isrs_mask w).
  { destruct (Z.lt_ge_cases (isrs_mask w) 0) as [Hneg|]; [|done].
    pose proof (Hm (Z.max 32 (Z.log2 (Z.pred (- isrs_mask w)) + 1)) ltac:(lia)) as Hbit.
    rewrite (Z.bits_above_log2_neg (isrs_mask w)) in Hbit by lia. symmetry in Hbit. apply bool_decide_eq_true in Hbit.
    apply list_elem_of_fmap in Hbit as (r & Er & Hin). rewrite Forall_forall in Hr. specialize (Hr r Hin).
    unfold INTC_MAX_COUNT in Hr. lia. }
  rewrite (entry_loop_run fuel w Hdr rs) by (done || lia || (unfold is_u32 in *; apply land_word; lia)).
  do 2 f_equal. apply filter_agree. intros r Hin. rewrite Z.land_spec, Hm, bool_decide_eq_true_2, andb_true_r; [done|..].
  - by apply list_elem_of_fmap_2.
  - rewrite Forall_forall in Hr. specialize (Hr r Hin). lia.
Qed.

(** C11: The service table keeps its promise for any sequence of
    registrations and changes of handlers in which a source is registered
    with one priority only: the calls finish without touching memory outside
    the table, the table implements the sequence of registrations in order of
    priority (a priority that is taken is refused without effect, the latest
    handler counts), and an interrupt then calls exactly the handlers of the
    pending registered sources, each once, in that order. *)
Theorem intc_table_refines fuel ops : all_allowed [] ops -> (33 <= fuel)%nat ->
  exists w, run fuel intc_static ops = Done w /\
    StronglySorted (fun a b => r_pri a < r_pri b) (foldl astep [] ops) /\
    forall int_status, is_u32 int_status ->
      intc_hdl_entry fuel w int_status =
        Done (map r_func (filter (fun r => Z.testbit int_status (r_num r) = true) (foldl astep [] ops))).
Proof.
  intros Hall Hfuel. destruct (run_wf fuel intc_static [] ops static_wf Hall Hfuel) as (w & E & Hwf).
  exists w. split; [done|]. split; [apply Hwf|]. intros st Hst. apply hdl_entry_run; [done|done|lia].
Qed.

Lemma intc_table_refines_witness :
  exists w, run 40 intc_static [Register 8 18 100; Register 15 28 101; Register 22 1 102; Change 8 103] = Done w /\
    intc_hdl_entry 40 w 0x400100 = Done [102; 103].
Proof.
  destruct (intc_table_refines 40 [Register 8 18 100; Register 15 28 101; Register 22 1 102; Change 8 103]) as (w & E & _ & H).
  - cbn. unfold INTC_MAX_COUNT. split_and!; try lia; left; intros Hin;
      repeat (apply elem_of_cons in Hin as [Hin|Hin]; [discriminate Hin|]); by apply not_elem_of_nil in Hin.
  - lia.
  - exists w. split; [exact E|]. rewrite H by (unfold is_u32; lia). reflexivity.
Defined.

(** Registering a source a second time with a smaller priority links its
    entry a second time: the chain becomes a cycle that misses the entries
    behind it, and a pending interrupt of one of those is never served - the
    walk goes round for ever. *)
Theorem register_twice_cycles : forall fuel,
  match run 40 intc_static [Register 22 1 100; Register 9 17 101; Register 7 19 102; Register 9 0 101] with
  | Done w => intc_hdl_entry fuel w (BIT 7) = Spin
  | _ => False
  end.
Proof.
  intros fuel. set (r := run _ _ _). vm_compute in r. subst r. cbn iota.
  match goal with |- intc_hdl_entry fuel ?w _ = _ => set (w0 := w) end.
  assert (Hcyc : entry_loop fuel w0 (Slot 9) 128 = Spin /\ entry_loop fuel w0 (Slot 22) 128 = Spin).
  { induction fuel as [|fuel [IH1 IH2]]; [done|]. split.
    - change (entry_loop (S fuel) w0 (Slot 9) 128) with (rest ← entry_loop fuel w0 (Slot 22) 128; Done ([] ++ rest) : outcome (list Z)).
      by rewrite IH2.
    - change (entry_loop (S fuel) w0 (Slot 22) 128) with (rest ← entry_loop fuel w0 (Slot 9) 128; Done ([] ++ rest) : outcome (list Z)).
      by rewrite IH1. }
  exact (proj1 Hcyc).
Qed.
