(* ===== verification/FakeClock.v ===== *)
(** The tick clock of beken378/func/misc/fake_clock.c (FreeRTOS build): the
    tick counter, the seconds derived from it and the steps power save adds
    after a sleep.  The timer hardware and the kernel's own tick are not part
    of it. *)

From S2P Require Import Prelude.

(** [1000 / FCLK_DURATION_MS]. *)
Definition FCLK_DURATION_MS : Z := 2.
Definition FCLK_SECOND : Z := 1000 / 2.

Record fclk := mk_fclk {
  current_clock : Z;
  current_seconds : Z;
  second_countdown : Z
}.

Definition fclk_boot : fclk := mk_fclk 0 0 FCLK_SECOND.

Definition fclk_hdl (s : fclk) : fclk :=
  let s := mk_fclk (u32 (current_clock s + 1)) (current_seconds s) (u32 (second_countdown s - 1)) in
  if second_countdown s =? 0
  then mk_fclk (current_clock s) (u32 (current_seconds s + 1)) FCLK_SECOND
  else s.

(** [while(tick >= FCLK_SECOND)]: the seconds and what is left of [tick]. *)
Fixpoint whole_seconds (fuel : nat) (seconds tick : Z) : outcome (Z * Z) :=
  if FCLK_SECOND <=? tick then
    match fuel with
    | O => Spin
    | S fuel' => whole_seconds fuel' (u32 (seconds + 1)) (u32 (tick - FCLK_SECOND))
    end
  else Done (seconds, tick).

Definition fclk_freertos_update_tick (s : fclk) (tick : Z) : outcome fclk :=
  let clock := u32 (current_clock s + tick) in
  '(seconds, tick) ← whole_seconds (Z.to_nat (tick / FCLK_SECOND)) (current_seconds s) tick;
  if second_countdown s <=? tick
  then Done (mk_fclk clock (u32 (seconds + 1)) (u32 (FCLK_SECOND - (tick - second_countdown s))))
  else Done (mk_fclk clock seconds (u32 (second_countdown s - tick))).

Definition fclk_freertos_get_tick (s : fclk) : Z := current_clock s.
Definition fclk_get_tick (s : fclk) : Z := fclk_freertos_get_tick s.
Definition fclk_get_second (s : fclk) : Z := current_seconds s.
Definition fclk_from_sec_to_tick (sec : Z) : Z := u32 (sec * FCLK_SECOND).

Definition fclk_reset_count (s : fclk) : fclk := mk_fclk 0 0 (second_countdown s).

(** [PWM_CLK_32K] is 0 and [PWM_CLK_26M] is 1 (pwm_pub.h). *)
Definition PWM_CLK_32K : Z := 0.
Definition PWM_CLK_26M : Z := 1.

Definition fclk_cal_endvalue (mode : Z) : Z :=
  if PWM_CLK_32K =? mode then FCLK_DURATION_MS * 32
  else if PWM_CLK_26M =? mode then FCLK_DURATION_MS * 26000
  else 1.

(* ------------------------------------------------------------------ *)
(** ** The clock's time *)

(** What happens to the clock: a timer interrupt, or [n] ticks made up after
    a sleep. *)
Inductive event :=
| Tick
| Slept (n : Z).

Definition step (s : fclk) (e : event) : outcome fclk :=
  match e with
  | Tick => Done (fclk_hdl s)
  | Slept n => fclk_freertos_update_tick s n
  end.

Fixpoint run (s : fclk) (es : list event) : outcome fclk :=
  match es with
  | [] => Done s
  | e :: r => s ← step s e; run s r
  end.

Definition ticks_of (e : event) : Z := match e with Tick => 1 | Slept n => n end.
Definition total (es : list event) : Z := foldr (fun e t => ticks_of e + t) 0 es.

Definition allowed (e : event) : Prop := match e with Tick => True | Slept n => is_u32 n end.

(** The clock shows [t] ticks since it was started (mod 2^32). *)
Definition shows (s : fclk) (t : Z) : Prop :=
  current_clock s = u32 t /\ current_seconds s = u32 (t / FCLK_SECOND) /\
  second_countdown s = FCLK_SECOND - t mod FCLK_SECOND.

Lemma u32_add_l a b : u32 (u32 a + b) = u32 (a + b).
Proof. unfold u32. apply Z.add_mod_idemp_l. lia. Qed.

Lemma shows_hdl s t : 0 <= t -> shows s t -> shows (fclk_hdl s) (t + 1).
Proof.
  unfold shows, fclk_hdl, FCLK_SECOND. change (1000 / 2) with 500. intros Ht (-> & -> & ->). cbn [second_countdown current_clock current_seconds].
  rewrite u32_add_l. pose proof (Z.mod_pos_bound t 500). rewrite (u32_small (500 - t mod 500 - 1)) by lia.
  destruct (_ =? 0) eqn:E; zbool; cbn [second_countdown current_clock current_seconds].
  - split_and!; [done| |].
    + rewrite u32_add_l. f_equal. Z.to_euclidean_division_equations. lia.
    + Z.to_euclidean_division_equations. lia.
  - split_and!; [done| |].
    + f_equal. Z.to_euclidean_division_equations. lia.
    + Z.to_euclidean_division_equations. lia.
Qed.

Lemma whole_seconds_run fuel seconds tick : is_u32 tick -> (Z.to_nat (tick / FCLK_SECOND) <= fuel)%nat -> seconds = u32 seconds ->
  whole_seconds fuel seconds tick = Done (u32 (seconds + tick / FCLK_SECOND), tick mod FCLK_SECOND).
Proof.
  unfold FCLK_SECOND, is_u32. change (1000 / 2) with 500. revert seconds tick.
  induction fuel as [|fuel IH]; intros seconds tick Ht Hf Hs; cbn [whole_seconds]; unfold FCLK_SECOND; change (1000 / 2) with 500.
  - rewrite (proj2 (Z.leb_gt _ _)) by (Z.to_euclidean_division_equations; lia).
    assert (E : tick / 500 = 0) by (Z.to_euclidean_division_equations; lia).
    rewrite E, Z.add_0_r, <- Hs. do 2 f_equal. Z.to_euclidean_division_equations; lia.
  - destruct (500 <=? tick) eqn:E; zbool.
    + rewrite (u32_small (tick - 500)) by lia.
      assert (Ed : tick / 500 = (tick - 500) / 500 + 1) by (Z.to_euclidean_division_equations; lia).
      rewrite IH; [|lia|lia|by rewrite u32_u32]. rewrite u32_add_l.
      do 2 f_equal; [f_equal; lia|]. Z.to_euclidean_division_equations; lia.
    + assert (E0 : tick / 500 = 0) by (Z.to_euclidean_division_equations; lia).
      rewrite E0, Z.add_0_r, <- Hs. do 2 f_equal. Z.to_euclidean_division_equations; lia.
Qed.

Lemma shows_slept s t n : 0 <= t -> is_u32 n -> shows s t ->
  exists s', fclk_freertos_update_tick s n = Done s' /\ shows s' (t + n).
Proof.
  intros Ht Hn (Hc & Hs & Hd). unfold fclk_freertos_update_tick. rewrite whole_seconds_run; [|done|done|by rewrite Hs, u32_u32].
  cbn [mbind outcome_bind]. rewrite Hc, Hs, Hd. unfold shows, FCLK_SECOND, is_u32 in *. change (1000 / 2) with 500 in *.
  rewrite !u32_add_l. pose proof (Z.mod_pos_bound t 500). pose proof (Z.mod_pos_bound n 500).
  destruct (_ <=? _) eqn:E; zbool; eexists; (split; [done|]); cbn [second_countdown current_clock current_seconds].
  - rewrite (u32_small (500 - _)) by lia. split_and!; [done| |].
    + rewrite <- Z.add_assoc, u32_add_l. f_equal. Z.to_euclidean_division_equations. lia.
    + Z.to_euclidean_division_equations. lia.
  - rewrite (u32_small (500 - t mod 500 - _)) by lia. split_and!; [done| |].
    + f_equal. Z.to_euclidean_division_equations. lia.
    + Z.to_euclidean_division_equations. lia.
Qed.

(** C26: Through any mixture of timer interrupts and sleeps of any length
    made up afterwards, every update ends and no tick is lost or counted
    twice: the clock is the number of ticks since start modulo 2^32, the
    seconds are the whole seconds of that number, and the countdown is what
    is left of the running second. *)
Theorem fclk_keeps_time es : Forall allowed es ->
  exists s, run fclk_boot es = Done s /\ fclk_get_tick s = u32 (total es) /\
    fclk_get_second s = u32 (total es / FCLK_SECOND) /\ 1 <= second_countdown s <= FCLK_SECOND.
Proof.
  intros Hes.
  assert (Hrun : forall s t, 0 <= t -> shows s t -> exists s', run s es = Done s' /\ shows s' (t + total es)).
  { induction Hes as [|e r He Hr IH]; intros s t Ht Hsh; cbn [run total foldr].
    - exists s. by rewrite Z.add_0_r.
    - assert (Hst : exists s1, step s e = Done s1 /\ shows s1 (t + ticks_of e) /\ 0 <= ticks_of e).
      { destruct e as [|n]; cbn [step ticks_of].
        - eexists. split; [done|]. split; [by apply shows_hdl|lia].
        - destruct (shows_slept s t n Ht He Hsh) as (s1 & E & Hs1). exists s1. unfold allowed, is_u32 in He. split_and!; (done || lia). }
      destruct Hst as (s1 & -> & Hs1 & Hpos). cbn [mbind outcome_bind].
      destruct (IH s1 (t + ticks_of e)) as (s2 & -> & Hs2); [lia|done|]. exists s2. split; [done|].
      fold (total r). by rewrite Z.add_assoc. }
  destruct (Hrun fclk_boot 0) as (s & E & Hc & Hs & Hd); [lia|done|]. rewrite Z.add_0_l in *.
  exists s. split; [done|]. split; [done|]. split; [done|]. rewrite Hd. unfold FCLK_SECOND. change (1000 / 2) with 500.
  Z.to_euclidean_division_equations. lia.
Qed.

Lemma fclk_keeps_time_witness :
  exists s, run fclk_boot [Tick; Slept 1700; Tick; Slept 299] = Done s /\ fclk_get_second s = 4.
Proof.
  destruct (fclk_keeps_time [Tick; Slept 1700; Tick; Slept 299]) as (s & E & _ & Hs & _).
  - repeat (apply Forall_cons; split; [cbn; unfold is_u32; lia|]). by apply Forall_nil.
  - exists s. split; [exact E|exact Hs].
Defined.

(** [fclk_reset_count] forgets the running second: reset after 499 ticks, the
    clock counts its first second one tick later. *)
Lemma fclk_reset_short_second :
  let s := foldl (fun s _ => fclk_hdl s) fclk_boot (seqZ 0 499) in
  fclk_get_second (fclk_hdl (fclk_reset_count s)) = 1 /\ fclk_get_tick (fclk_hdl (fclk_reset_count s)) = 1.
Proof. vm_compute. done. Qed.
