(* ===== verification/BigHex.v ===== *)
(** Big numbers of the BLE stack's P-256 code: the word loops of
    driver/ble/ble_pub/modules/ecc_p256/src/ecc_p256.c.

    A [bigHex256] is an array of words, most significant first, with the
    number of words in use and a sign.  The build chooses words of 16 or 32
    bits ([ECC_MULT_ALGO_TYPE]); [algo] is that choice and every theorem holds
    for both.  Loops that run from the last element to the first are
    recursions that treat the tail first.

    Each operation is proved to compute on the numbers the arrays stand for:
    [enc s v] is the array of [v] with sign [s]. *)

From S2P Require Import Prelude.

Inductive algo := ALGO16 | ALGO32.

Record bigHex256 := mk_big {
  num : list Z;
  len : Z;
  sign : Z
}.

Definition with_sign (b : bigHex256) (s : Z) : bigHex256 := mk_big (num b) (len b) s.
Definition with_num (b : bigHex256) (l : list Z) : bigHex256 := mk_big l (len b) (sign b).

(** Zero words before the first other one. *)
Fixpoint lead (l : list Z) : nat :=
  match l with
  | [] => O
  | d :: r => if d =? 0 then S (lead r) else O
  end.

(** The prime of the curve. *)
Definition p256 : Z := 2 ^ 256 - 2 ^ 224 + 2 ^ 192 + 2 ^ 96 - 1.

Section Code.
Context (al : algo).

Definition bits : Z := match al with ALGO16 => 16 | ALGO32 => 32 end.
Definition RADIX : Z := match al with ALGO16 => 0x10000 | ALGO32 => 0x100000000 end.
Definition ELEMENTS_BIG_HEX256 : nat := match al with ALGO16 => 17 | ALGO32 => 9 end.
Definition HIGHEST_INDEX_BIG_HEX256 : nat := pred ELEMENTS_BIG_HEX256.

Notation n := ELEMENTS_BIG_HEX256.

Definition bigHexP256 : bigHex256 :=
  match al with
  | ALGO16 => mk_big [0x0000; 0xFFFF; 0xFFFF; 0x0000; 0x0001; 0x0000; 0x0000; 0x0000; 0x0000; 0x0000;
      0x0000; 0xFFFF; 0xFFFF; 0xFFFF; 0xFFFF; 0xFFFF; 0xFFFF] 16 0
  | ALGO32 => mk_big [0x00000000; 0xFFFFFFFF; 0x00000001; 0x00000000; 0x00000000; 0x00000000;
      0xFFFFFFFF; 0xFFFFFFFF; 0xFFFFFFFF] 8 0
  end.

Definition coef_B : bigHex256 :=
  match al with
  | ALGO16 => mk_big [0x0000; 0x5ac6; 0x35d8; 0xaa3a; 0x93e7; 0xb3eb; 0xbd55; 0x7698; 0x86bc; 0x651d;
      0x06b0; 0xcc53; 0xb0f6; 0x3bce; 0x3c3e; 0x27d2; 0x604b] 16 0
  | ALGO32 => mk_big [0x0000; 0x5ac635d8; 0xaa3a93e7; 0xb3ebbd55; 0x769886bc; 0x651d06b0; 0xcc53b0f6;
      0x3bce3c3e; 0x27d2604b] 8 0
  end.

(** [ISBIGHEXEVEN256]. *)
Definition ISBIGHEXEVEN256 (b : bigHex256) : bool :=
  Z.land (nth HIGHEST_INDEX_BIG_HEX256 (num b) 0) 1 =? 0.

Definition initBigNumber256 : bigHex256 := mk_big (replicate n 0) 0 0.

Definition setBigNumberLength256 (b : bigHex256) : bigHex256 :=
  mk_big (num b) (Z.of_nat n - Z.of_nat (lead (num b))) (sign b).

Definition copyBigHex256 (source : bigHex256) : bigHex256 := mk_big (num source) (len source) (sign source).

(** The word loops: the carry out of the first word and the words. *)
Fixpoint add_words (numA numB : list Z) : Z * list Z :=
  match numA, numB with
  | a :: As, b :: Bs =>
      let '(carry, result) := add_words As Bs in
      let tmp := a + b + carry in
      (if negb (Z.land tmp RADIX =? 0) then 1 else 0, Z.land tmp (RADIX - 1) :: result)
  | _, _ => (0, [])
  end.

Fixpoint sub_words (pBigNum pSmallNum : list Z) : Z * list Z :=
  match pBigNum, pSmallNum with
  | a :: As, b :: Bs =>
      let '(borrow, result) := sub_words As Bs in
      if b + borrow >? a then (1, Z.land ((a + RADIX) - (b + borrow)) (RADIX - 1) :: result)
      else (0, Z.land (a - (b + borrow)) (RADIX - 1) :: result)
  | _, _ => (0, [])
  end.

Definition AddBigHex256 (bigHexA bigHexB : bigHex256) : bigHex256 :=
  with_sign (setBigNumberLength256 (mk_big (snd (add_words (num bigHexA) (num bigHexB))) 0 0)) 0.

Definition Add2SelfBigHex256 (bigHexA bigHexB : bigHex256) : bigHex256 :=
  setBigNumberLength256 (with_num bigHexA (snd (add_words (num bigHexA) (num bigHexB)))).

(** [BigHexResult] keeps its sign. *)
Definition SubtractBigHex256 (bigHexA bigHexB BigHexResult : bigHex256) : bigHex256 :=
  setBigNumberLength256 (with_num BigHexResult (snd (sub_words (num bigHexA) (num bigHexB)))).

Definition SubtractFromSelfBigHex256 (bigHexA bigHexB : bigHex256) : bigHex256 :=
  setBigNumberLength256 (with_num bigHexA (snd (sub_words (num bigHexA) (num bigHexB)))).

(** The comparison loop; [eq] is the answer for equal numbers. *)
Fixpoint gt_words (eq : bool) (numA numB : list Z) : bool :=
  match numA, numB with
  | a :: As, b :: Bs => if b >? a then false else if b <? a then true else gt_words eq As Bs
  | _, _ => eq
  end.

Definition isGreaterThan256 (bigHexA bigHexB : bigHex256) : bool :=
  if len bigHexA >? len bigHexB then true
  else if len bigHexA <? len bigHexB then false
  else let i := Z.to_nat (Z.of_nat n - len bigHexA) in
       gt_words false (drop i (num bigHexA)) (drop i (num bigHexB)).

Definition isGreaterThanOrEqual256 (bigHexA bigHexB : bigHex256) : bool :=
  if len bigHexA >? len bigHexB then true
  else if len bigHexA <? len bigHexB then false
  else let i := Z.to_nat (Z.of_nat n - len bigHexA) in
       gt_words true (drop i (num bigHexA)) (drop i (num bigHexB)).

Fixpoint notEqual_words (numA numB : list Z) : bool :=
  match numA, numB with
  | a :: As, b :: Bs => if negb (a =? b) then true else notEqual_words As Bs
  | _, _ => false
  end.

Definition notEqual256 (bigHexA bigHexB : bigHex256) : bool := notEqual_words (num bigHexA) (num bigHexB).

(** The halving loop, from the first word on. *)
Fixpoint half_words (rem : Z) (numA : list Z) : list Z :=
  match numA with
  | [] => []
  | a :: As =>
      let val := a + rem * RADIX in
      Z.land (Z.shiftr val 1) (RADIX - 1) :: half_words (val - Z.shiftl (Z.shiftr val 1) 1) As
  end.

Definition divideByTwo256 (A : bigHex256) : bigHex256 :=
  setBigNumberLength256 (with_num A (half_words 0 (num A))).

(** [junk] is what an uninitialised local holds. *)
Definition AddP256 (junk bigHexA : bigHex256) : bigHex256 :=
  with_sign (copyBigHex256 (SubtractBigHex256 bigHexP256 bigHexA junk)) 0.

(** The three ways of adding P; the halving loop is written out in the code. *)
Definition AddPdiv2_256 (junk bigHexA : bigHex256) : bigHex256 :=
  let bigHexA :=
    if sign bigHexA =? 0 then with_num bigHexA (snd (add_words (num bigHexA) (num bigHexP256)))
    else if isGreaterThan256 bigHexA bigHexP256 then
      with_num bigHexA (snd (sub_words (num bigHexA) (num bigHexP256)))
    else with_sign (copyBigHex256 (SubtractBigHex256 bigHexP256 bigHexA junk)) 0 in
  setBigNumberLength256 (with_num bigHexA (half_words 0 (num bigHexA))).

Definition SubtractFromSelfBigHexSign256 (junk bigHexA bigHexB : bigHex256) : bigHex256 :=
  if sign bigHexA =? 0 then
    if sign bigHexB =? 0 then
      if isGreaterThanOrEqual256 bigHexA bigHexB then SubtractFromSelfBigHex256 bigHexA bigHexB
      else with_sign (copyBigHex256 (SubtractBigHex256 bigHexB bigHexA junk)) 1
    else Add2SelfBigHex256 bigHexA bigHexB
  else
    if sign bigHexB =? 0 then Add2SelfBigHex256 bigHexA bigHexB
    else if isGreaterThanOrEqual256 bigHexB bigHexA then
      with_sign (copyBigHex256 (SubtractBigHex256 bigHexB bigHexA junk)) 0
    else SubtractFromSelfBigHex256 bigHexA bigHexB.

(** The four cases of signs. *)
Definition SubtractBigHexSign (bigHexA bigHexB BigHexResult : bigHex256) : bigHex256 :=
  if sign bigHexA =? 0 then
    if sign bigHexB =? 0 then
      if isGreaterThanOrEqual256 bigHexA bigHexB
      then with_sign (SubtractBigHex256 bigHexA bigHexB BigHexResult) 0
      else with_sign (SubtractBigHex256 bigHexB bigHexA BigHexResult) 1
    else with_sign (AddBigHex256 bigHexA bigHexB) 0
  else
    if sign bigHexB =? 0 then with_sign (AddBigHex256 bigHexA bigHexB) 1
    else if isGreaterThanOrEqual256 bigHexB bigHexA
    then with_sign (SubtractBigHex256 bigHexB bigHexA BigHexResult) 0
    else with_sign (SubtractBigHex256 bigHexA bigHexB BigHexResult) 1.

(** Back into the field, after a sum and after a difference. *)
Definition reduce_once (junk BigHexResult : bigHex256) : bigHex256 :=
  if sign BigHexResult =? 0 then
    if isGreaterThanOrEqual256 BigHexResult bigHexP256
    then SubtractFromSelfBigHex256 BigHexResult bigHexP256 else BigHexResult
  else AddP256 junk BigHexResult.

Definition AddBigHexModP256 (junk bigHexA bigHexB : bigHex256) : bigHex256 :=
  reduce_once junk (AddBigHex256 bigHexA bigHexB).

Definition SubtractBigHexMod256 (junk bigHexA bigHexB BigHexResult : bigHex256) : bigHex256 :=
  reduce_once junk (SubtractBigHexSign bigHexA bigHexB BigHexResult).

(** [memcpy(input->num, input->num + 1, 8 * sizeof(u_int32))]: 32 bytes,
    all words but one. *)
Definition shiftLeftOneArrayElement256 (input : bigHex256) : bigHex256 :=
  with_num input (tail (num input) ++ drop HIGHEST_INDEX_BIG_HEX256 (num input)).

End Code.

(* ------------------------------------------------------------------ *)
(** ** The number an array stands for *)

Section Values.
Context (al : algo).

Notation R := (RADIX al).
Notation n := (ELEMENTS_BIG_HEX256 al).

Definition word (d : Z) : Prop := 0 <= d < R.

Fixpoint val (l : list Z) : Z :=
  match l with
  | [] => 0
  | d :: r => d * R ^ zlen r + val r
  end.

Fixpoint digits (k : nat) (v : Z) : list Z :=
  match k with
  | O => []
  | S k => (v / R ^ Z.of_nat k) mod R :: digits k v
  end.

(** The array of [v], with its length as the code computes it. *)
Definition enc (s v : Z) : bigHex256 :=
  mk_big (digits n v) (Z.of_nat n - Z.of_nat (lead (digits n v))) s.

(** One more than the greatest number of [n] words, and of [n - 1]. *)
Definition FULL : Z := R ^ Z.of_nat n.

Lemma radix_pos : 1 < R.
Proof. by destruct al. Qed.

Lemma radix_even : R mod 2 = 0.
Proof. by destruct al. Qed.

Lemma radix_bits : R = 2 ^ bits al.
Proof. by destruct al. Qed.

Lemma full_eq : FULL = R * 2 ^ 256.
Proof. unfold FULL. by destruct al. Qed.

Lemma pow_pos k : 0 < R ^ zlen (A:=Z) k.
Proof. apply Z.pow_pos_nonneg; [pose proof radix_pos; lia|apply zlen_nonneg]. Qed.

Lemma pow_nat_pos k : 0 < R ^ Z.of_nat k.
Proof. apply Z.pow_pos_nonneg; [pose proof radix_pos|]; lia. Qed.

Lemma pow_S k : R ^ Z.of_nat (S k) = R * R ^ Z.of_nat k.
Proof. rewrite Nat2Z.inj_succ, Z.pow_succ_r by lia. done. Qed.

Lemma pow_cons (d : Z) l : R ^ zlen (d :: l) = R * R ^ zlen l.
Proof. unfold zlen. cbn [length]. apply pow_S. Qed.

Lemma val_range l : Forall word l -> 0 <= val l < R ^ zlen l.
Proof.
  induction l as [|d r IH]; intros Hl; [done|].
  apply Forall_cons in Hl as [Hd Hr]. specialize (IH Hr). rewrite pow_cons. cbn [val].
  unfold word in Hd. pose proof (pow_pos r). nia.
Qed.

Lemma val_app l k : val (l ++ k) = val l * R ^ zlen k + val k.
Proof.
  induction l as [|d r IH]; cbn [val app]; [lia|]. rewrite IH, zlen_app, Z.pow_add_r by apply zlen_nonneg. ring.
Qed.

Lemma val_zeros k : val (replicate k 0) = 0.
Proof. induction k; cbn [val replicate]; lia. Qed.

Lemma digits_length k v : length (digits k v) = k.
Proof. induction k; cbn; congruence. Qed.

Lemma zlen_digits k v : zlen (digits k v) = Z.of_nat k.
Proof. unfold zlen. by rewrite digits_length. Qed.

Lemma digits_words k v : Forall word (digits k v).
Proof.
  pose proof radix_pos. induction k; cbn [digits]; constructor; [|done]. apply Z.mod_pos_bound. lia.
Qed.

Lemma digits_shift k d v : digits k (d * R ^ Z.of_nat k + v) = digits k v.
Proof.
  revert d v. induction k as [|k IH]; intros d v; [done|]. cbn [digits].
  pose proof (pow_nat_pos k). pose proof radix_pos. f_equal.
  - rewrite pow_S, (Z.mul_comm R), Z.mul_assoc, Z.mul_shuffle0, Z.div_add_l by lia.
    rewrite Z.add_comm, Z.mod_add by lia. done.
  - rewrite pow_S, Z.mul_assoc. apply IH.
Qed.

Lemma digits_val l : Forall word l -> digits (length l) (val l) = l.
Proof.
  induction l as [|d r IH]; intros Hl; [done|]. apply Forall_cons in Hl as [Hd Hr].
  cbn [digits length val]. pose proof (val_range r Hr). pose proof (pow_pos r). unfold zlen in *.
  f_equal; [|rewrite digits_shift; auto].
  rewrite Z.div_add_l, Z.div_small, Z.add_0_r by lia. by apply Z.mod_small.
Qed.

Lemma val_digits k v : 0 <= v < R ^ Z.of_nat k -> val (digits k v) = v.
Proof.
  revert v. induction k as [|k IH]; intros v Hv; [cbn in *; lia|]. cbn [digits val].
  rewrite zlen_digits. rewrite pow_S in Hv. pose proof (pow_nat_pos k). pose proof radix_pos.
  assert (Hq : 0 <= v / R ^ Z.of_nat k < R).
  { split; [apply Z.div_pos; lia|]. apply Z.div_lt_upper_bound; lia. }
  rewrite Z.mod_small by done.
  pose proof (Z.div_mod v (R ^ Z.of_nat k) ltac:(lia)) as E.
  rewrite <- (digits_shift k (- (v / R ^ Z.of_nat k)) v), IH.
  - lia.
  - pose proof (Z.mod_pos_bound v (R ^ Z.of_nat k) ltac:(lia)). lia.
Qed.

(** An array is known by its number. *)
Lemma words_val l v : Forall word l -> val l = v -> l = digits (length l) v.
Proof. intros Hl <-. by rewrite digits_val. Qed.

Lemma val_inj l k : Forall word l -> Forall word k -> length l = length k -> val l = val k -> l = k.
Proof. intros Hl Hk E Ev. rewrite (words_val l (val k)), E, digits_val; done. Qed.

(* ------------------------------------------------------------------ *)
(** ** The word loops *)

Lemma word_div x : 0 <= x < 2 * R -> (if negb (Z.land x R =? 0) then 1 else 0) = x / R.
Proof.
  intros Hx. assert (Hp : 0 <= bits al) by (by destruct al). pose proof radix_pos.
  assert (Hb : Z.land x R = if Z.testbit x (bits al) then R else 0).
  { rewrite radix_bits. apply Z.bits_inj'. intros m Hm. rewrite Z.land_spec, Z.pow2_bits_eqb by done.
    destruct (Z.eqb_spec (bits al) m) as [<-|Hne].
    - rewrite andb_true_r. destruct (Z.testbit x (bits al)); [by rewrite Z.pow2_bits_true|by rewrite Z.testbit_0_l].
    - rewrite andb_false_r. destruct (Z.testbit x (bits al)); [by rewrite Z.pow2_bits_false by done|by rewrite Z.testbit_0_l]. }
  assert (Ht : Z.b2z (Z.testbit x (bits al)) = x / R).
  { rewrite Z.testbit_spec' by done. rewrite <- radix_bits. apply Z.mod_small.
    split; [apply Z.div_pos; lia|]. apply Z.div_lt_upper_bound; lia. }
  rewrite Hb, <- Ht. destruct (Z.testbit x (bits al)); cbn; [|done].
  by rewrite (proj2 (Z.eqb_neq R 0)) by lia.
Qed.

Lemma word_mod x : Z.land x (R - 1) = x mod R.
Proof.
  destruct al; [change (RADIX ALGO16 - 1) with (Z.ones 16)|change (RADIX ALGO32 - 1) with (Z.ones 32)];
    by rewrite Z.land_ones by lia.
Qed.

Lemma add_words_val A B : length A = length B -> Forall word A -> Forall word B ->
  let '(c, r) := add_words al A B in
  length r = length A /\ Forall word r /\ 0 <= c <= 1 /\ val r + c * R ^ zlen A = val A + val B.
Proof.
  revert B. induction A as [|a A IH]; intros [|b B] E HA HB; try done.
  injection E as E. apply Forall_cons in HA as [Ha HA]. apply Forall_cons in HB as [Hb HB].
  cbn [add_words]. specialize (IH B E HA HB). destruct (add_words al A B) as [c r].
  destruct IH as (Er & Hr & Hc & Hv). pose proof radix_pos. unfold word in Ha, Hb.
  rewrite word_div, word_mod by lia. cbn [length val]. rewrite pow_cons.
  replace (zlen r) with (zlen A) by (unfold zlen; congruence). replace (zlen B) with (zlen A) by (unfold zlen; congruence).
  pose proof (Z.div_mod (a + b + c) R ltac:(lia)). pose proof (Z.mod_pos_bound (a + b + c) R ltac:(lia)).
  split_and!; [congruence|by constructor| | |].
  - apply Z.div_pos; lia.
  - apply Z.lt_succ_r, Z.div_lt_upper_bound; lia.
  - transitivity ((a + b + c) * R ^ zlen A + val r); nia.
Qed.

Lemma sub_words_val A B : length A = length B -> Forall word A -> Forall word B ->
  let '(c, r) := sub_words al A B in
  length r = length A /\ Forall word r /\ 0 <= c <= 1 /\ val r = val A - val B + c * R ^ zlen A.
Proof.
  revert B. induction A as [|a A IH]; intros [|b B] E HA HB; try done.
  injection E as E. apply Forall_cons in HA as [Ha HA]. apply Forall_cons in HB as [Hb HB].
  cbn [sub_words]. specialize (IH B E HA HB). destruct (sub_words al A B) as [c r].
  destruct IH as (Er & Hr & Hc & Hv). pose proof radix_pos. unfold word in Ha, Hb.
  assert (EA : zlen r = zlen A) by (unfold zlen; congruence). assert (EB : zlen B = zlen A) by (unfold zlen; congruence).
  destruct (Z.gtb_spec (b + c) a); rewrite word_mod, Z.mod_small by lia; cbn [length val]; rewrite pow_cons, EA, EB;
    (split_and!; [congruence|constructor; [unfold word; lia|done]|lia|lia|nia]).
Qed.

Lemma half_words_val l : forall rem, Forall word l -> 0 <= rem <= 1 ->
  let r := half_words al rem l in
  length r = length l /\ Forall word r /\ val r = (rem * R ^ zlen l + val l) / 2.
Proof.
  induction l as [|a l IH]; intros rem Hl Hrem; cbn [half_words]; cbv zeta.
  - split_and!; [done..|]. cbn [val]. change (R ^ zlen []) with 1. symmetry. apply Z.div_small. lia.
  - apply Forall_cons in Hl as [Ha Hl]. unfold word in Ha. set (v := a + rem * R).
    rewrite Z.shiftr_div_pow2, Z.shiftl_mul_pow2 by lia. change (2 ^ 1) with 2.
    pose proof (Z.div_mod v 2 ltac:(lia)) as Ev. pose proof (Z.mod_pos_bound v 2 ltac:(lia)).
    replace (v - v / 2 * 2) with (v mod 2) by lia.
    destruct (IH (v mod 2)) as (E1 & E2 & E3); [done|lia|].
    pose proof radix_pos. assert (Hv : 0 <= v < 2 * R) by (unfold v; nia). assert (Hq : 0 <= v / 2 < R) by lia.
    rewrite word_mod, Z.mod_small by done. cbn [length val]. split_and!; [congruence|by constructor|].
    rewrite E3, pow_cons. replace (zlen (half_words al (v mod 2) l)) with (zlen l) by (unfold zlen; congruence).
    assert (Es : rem * (R * R ^ zlen l) + (a * R ^ zlen l + val l) = v / 2 * R ^ zlen l * 2 + (v mod 2 * R ^ zlen l + val l)).
    { transitivity (v * R ^ zlen l + val l); [unfold v; ring|]. rewrite Ev at 1. ring. }
    rewrite Es.
    rewrite Z.div_add_l by lia. done.
Qed.

Lemma gt_words_val eq A B : length A = length B -> Forall word A -> Forall word B ->
  gt_words eq A B = match val B ?= val A with Lt => true | Gt => false | Eq => eq end.
Proof.
  revert B. induction A as [|a A IH]; intros [|b B] E HA HB; try done. injection E as E.
  apply Forall_cons in HA as [Ha HA]. apply Forall_cons in HB as [Hb HB]. cbn [gt_words val].
  pose proof (val_range A HA) as RA. pose proof (val_range B HB) as RB. unfold word in *.
  replace (zlen B) with (zlen A) in * by (unfold zlen; congruence). pose proof (pow_pos A).
  destruct (Z.gtb_spec b a) as [Hgt|Hle]; [|destruct (Z.ltb_spec b a) as [Hlt|Hge]].
  - by rewrite (proj2 (Z.compare_gt_iff _ _)) by nia.
  - by rewrite (proj2 (Z.compare_lt_iff _ _)) by nia.
  - replace b with a by lia. rewrite IH by done. rewrite Z.add_compare_mono_l. done.
Qed.

(** Comparing the lengths first changes nothing. *)
Lemma gt_words_lead eq A B : length A = length B -> Forall word A -> Forall word B ->
  (if (lead A <? lead B)%nat then true else if (lead B <? lead A)%nat then false
   else gt_words eq (drop (lead A) A) (drop (lead A) B)) = gt_words eq A B.
Proof.
  revert B. induction A as [|a A IH]; intros [|b B] E HA HB; try done. injection E as E.
  apply Forall_cons in HA as [Ha HA]. apply Forall_cons in HB as [Hb HB]. unfold word in *. cbn [lead].
  destruct (Z.eqb_spec a 0) as [->|Hna], (Z.eqb_spec b 0) as [->|Hnb]; cbn [drop].
  - change (S (lead A) <? S (lead B))%nat with (lead A <? lead B)%nat.
    change (S (lead B) <? S (lead A))%nat with (lead B <? lead A)%nat. rewrite IH by done. done.
  - change (S (lead A) <? 0)%nat with false. change (0 <? S (lead A))%nat with true. cbn iota.
    cbn [gt_words]. destruct (Z.gtb_spec b 0); [done|lia].
  - change (0 <? S (lead B))%nat with true. cbn [gt_words].
    destruct (Z.gtb_spec 0 a); [lia|]. destruct (Z.ltb_spec 0 a); [done|lia].
  - done.
Qed.

Lemma notEqual_words_val A B : length A = length B -> Forall word A -> Forall word B ->
  notEqual_words A B = negb (val A =? val B).
Proof.
  intros E HA HB. assert (Eb : notEqual_words A B = negb (bool_decide (A = B))).
  { clear HA HB. revert B E. induction A as [|a A IH]; intros [|b B] E; try done. injection E as E. cbn [notEqual_words].
    destruct (Z.eqb_spec a b) as [->|Hne]; cbn [negb].
    - rewrite IH by done. f_equal. apply bool_decide_ext. split; congruence.
    - by rewrite bool_decide_eq_false_2 by congruence. }
  rewrite Eb. f_equal. destruct (Z.eqb_spec (val A) (val B)) as [Ev|Hne].
  - rewrite bool_decide_eq_true_2; [done|]. by apply val_inj.
  - rewrite bool_decide_eq_false_2; [done|]. congruence.
Qed.

End Values.

(* ------------------------------------------------------------------ *)
(** ** The operations on numbers *)

Section Operations.
Context (al : algo).

Notation R := (RADIX al).
Notation n := (ELEMENTS_BIG_HEX256 al).
Notation enc := (enc al).
Notation digits := (digits al).
Notation FULL := (FULL al).
Notation fits v := (0 <= v < FULL).

Lemma p256_range : 0 < p256 < 2 ^ 256.
Proof. by vm_compute. Qed.

Lemma full_big : 2 ^ 272 <= FULL.
Proof. rewrite full_eq. destruct al; by vm_compute. Qed.

Lemma p_fits : fits p256.
Proof. pose proof p256_range. pose proof full_big. pose proof (Z.pow_lt_mono_r 2 256 272). lia. Qed.

Lemma bigHexP256_enc : bigHexP256 al = enc 0 p256.
Proof. destruct al; by vm_compute. Qed.

Lemma enc_num s v : num (enc s v) = digits n v.
Proof. done. Qed.

Lemma full_pow : R ^ zlen (digits n 0) = FULL.
Proof. by rewrite zlen_digits. Qed.

Lemma set_length_enc l s x v : Forall (word al) l -> length l = n -> val al l = v ->
  setBigNumberLength256 al (mk_big l x s) = enc s v.
Proof.
  intros Hl E Hv. unfold setBigNumberLength256, BigHex.enc. cbn [num sign].
  rewrite (words_val al l v Hl Hv), E. done.
Qed.

Lemma add_words_digits a b : fits a -> fits b -> a + b < FULL ->
  snd (add_words al (digits n a) (digits n b)) = digits n (a + b).
Proof.
  intros Ha Hb Hab. pose proof (add_words_val al (digits n a) (digits n b)) as H.
  rewrite !digits_length, !val_digits, zlen_digits in H by done.
  specialize (H eq_refl (digits_words al n a) (digits_words al n b)).
  destruct (add_words _ _ _) as [c r]. destruct H as (E & Hr & Hc & Hv). cbn [snd].
  pose proof (val_range al r Hr). unfold zlen in *. rewrite E in *. fold FULL in *.
  assert (Ec : c = 0) by nia. rewrite (words_val al r (a + b)), E; [done|done|lia].
Qed.

(** A difference below zero comes back from the top. *)
Lemma sub_words_digits a b : fits a -> fits b ->
  snd (sub_words al (digits n a) (digits n b)) = digits n (if b <=? a then a - b else a - b + FULL).
Proof.
  intros Ha Hb. pose proof (sub_words_val al (digits n a) (digits n b)) as H.
  rewrite !digits_length, !val_digits, zlen_digits in H by done.
  specialize (H eq_refl (digits_words al n a) (digits_words al n b)).
  destruct (sub_words _ _ _) as [c r]. destruct H as (E & Hr & Hc & Hv). cbn [snd].
  pose proof (val_range al r Hr). unfold zlen in *. rewrite E in *. fold FULL in *.
  rewrite (words_val al r (if b <=? a then a - b else a - b + FULL)), E; [done|done|].
  assert (Ec : c = 0 \/ c = 1) by lia. destruct (Z.leb_spec b a), Ec as [-> | ->]; lia.
Qed.

Lemma AddBigHex256_enc s t a b : fits a -> fits b -> a + b < FULL ->
  AddBigHex256 al (enc s a) (enc t b) = enc 0 (a + b).
Proof. intros. unfold AddBigHex256. rewrite !enc_num, add_words_digits by done. done. Qed.

Lemma Add2SelfBigHex256_enc s t a b : fits a -> fits b -> a + b < FULL ->
  Add2SelfBigHex256 al (enc s a) (enc t b) = enc s (a + b).
Proof. intros. unfold Add2SelfBigHex256. rewrite !enc_num, add_words_digits by done. done. Qed.

Lemma SubtractBigHex256_enc s t a b r : fits a -> fits b ->
  SubtractBigHex256 al (enc s a) (enc t b) r = enc (sign r) (if b <=? a then a - b else a - b + FULL).
Proof. intros. unfold SubtractBigHex256. rewrite !enc_num, sub_words_digits by done. done. Qed.

Lemma SubtractFromSelfBigHex256_enc s t a b : fits a -> 0 <= b <= a ->
  SubtractFromSelfBigHex256 al (enc s a) (enc t b) = enc s (a - b).
Proof.
  intros. unfold SubtractFromSelfBigHex256. rewrite !enc_num, sub_words_digits by lia.
  by rewrite (proj2 (Z.leb_le b a)) by lia.
Qed.

Lemma lead_le l : (lead l <= length l)%nat.
Proof. induction l as [|d r IH]; cbn; [lia|]. destruct (d =? 0); lia. Qed.

(** Comparing lengths, then words, compares the numbers. *)
Lemma compare_digits k eq a b : 0 <= a < R ^ Z.of_nat k -> 0 <= b < R ^ Z.of_nat k ->
  let la := Z.of_nat k - Z.of_nat (lead (digits k a)) in
  let lb := Z.of_nat k - Z.of_nat (lead (digits k b)) in
  (if la >? lb then true else if la <? lb then false
   else let i := Z.to_nat (Z.of_nat k - la) in gt_words eq (drop i (digits k a)) (drop i (digits k b)))
  = match b ?= a with Lt => true | Gt => false | Eq => eq end.
Proof.
  intros Ha Hb. cbv zeta.
  pose proof (lead_le (digits k a)) as La. pose proof (lead_le (digits k b)) as Lb. rewrite !digits_length in La, Lb.
  replace (Z.to_nat (Z.of_nat k - (Z.of_nat k - Z.of_nat (lead (digits k a))))) with (lead (digits k a)) by lia.
  assert (E : length (digits k a) = length (digits k b)) by (by rewrite !digits_length).
  pose proof (gt_words_lead al eq (digits k a) (digits k b) E (digits_words al k a) (digits_words al k b)) as H.
  rewrite (gt_words_val al eq (digits k a) (digits k b)), !val_digits in H by (done || apply digits_words). rewrite <- H.
  destruct (Z.gtb_spec (Z.of_nat k - Z.of_nat (lead (digits k a))) (Z.of_nat k - Z.of_nat (lead (digits k b)))) as [H1|H1],
    (Nat.ltb_spec (lead (digits k a)) (lead (digits k b))) as [H2|H2]; try lia; try done.
  destruct (Z.ltb_spec (Z.of_nat k - Z.of_nat (lead (digits k a))) (Z.of_nat k - Z.of_nat (lead (digits k b)))) as [H3|H3],
    (Nat.ltb_spec (lead (digits k b)) (lead (digits k a))) as [H4|H4]; try lia; done.
Qed.

Lemma compare_enc eq s t a b : fits a -> fits b ->
  (if len (enc s a) >? len (enc t b) then true else if len (enc s a) <? len (enc t b) then false
   else let i := Z.to_nat (Z.of_nat n - len (enc s a)) in gt_words eq (drop i (num (enc s a))) (drop i (num (enc t b))))
  = match b ?= a with Lt => true | Gt => false | Eq => eq end.
Proof. apply compare_digits. Qed.

(** The number of leading zero words tells the size. *)
Lemma lead_upper l : Forall (word al) l -> val al l < R ^ (zlen l - Z.of_nat (lead l)).
Proof.
  induction l as [|d r IH]; intros Hl; [done|]. pose proof (val_range al _ Hl) as Hv.
  apply Forall_cons in Hl as [_ Hr]. specialize (IH Hr). cbn [lead val] in *. rewrite zlen_cons in *.
  destruct (Z.eqb_spec d 0) as [->|]; [|change (Z.of_nat 0) with 0; rewrite Z.sub_0_r; lia].
  replace (1 + zlen r - Z.of_nat (S (lead r))) with (zlen r - Z.of_nat (lead r)) by lia. lia.
Qed.

Lemma lead_lower l : Forall (word al) l -> 0 < val al l -> R ^ (zlen l - Z.of_nat (lead l) - 1) <= val al l /\ (lead l < length l)%nat.
Proof.
  induction l as [|d r IH]; intros Hl Hv; [done|].
  apply Forall_cons in Hl as [Hd Hr]. pose proof (val_range al r Hr). cbn [lead val length] in *. rewrite zlen_cons.
  destruct (Z.eqb_spec d 0) as [->|].
  - destruct (IH Hr ltac:(lia)) as [H1 H2]. split; [|lia].
    replace (1 + zlen r - Z.of_nat (S (lead r)) - 1) with (zlen r - Z.of_nat (lead r) - 1) by lia. lia.
  - split; [|lia]. replace (1 + zlen r - Z.of_nat 0 - 1) with (zlen r) by lia. unfold word in Hd.
    pose proof (pow_pos al r). nia.
Qed.

Lemma lead_drop l : (lead l < length l)%nat -> lead (drop (lead l) l) = O.
Proof.
  induction l as [|d r IH]; cbn [lead length]; [lia|]. destruct (Z.eqb_spec d 0) as [E|E]; intros H.
  - cbn [drop]. apply IH. lia.
  - cbn. by rewrite (proj2 (Z.eqb_neq d 0)).
Qed.

Lemma isGreaterThan256_enc s t a b : fits a -> fits b ->
  isGreaterThan256 al (enc s a) (enc t b) = (b <? a).
Proof.
  intros. unfold isGreaterThan256. rewrite compare_enc by done. unfold Z.ltb. by destruct (b ?= a).
Qed.

Lemma isGreaterThanOrEqual256_enc s t a b : fits a -> fits b ->
  isGreaterThanOrEqual256 al (enc s a) (enc t b) = (b <=? a).
Proof.
  intros. unfold isGreaterThanOrEqual256. rewrite compare_enc by done. unfold Z.leb. by destruct (b ?= a).
Qed.

Lemma notEqual256_enc s t a b : fits a -> fits b -> notEqual256 (enc s a) (enc t b) = negb (a =? b).
Proof.
  intros. unfold notEqual256. rewrite !enc_num, (notEqual_words_val al), !val_digits; try done.
  - by rewrite !digits_length.
  - apply digits_words.
  - apply digits_words.
Qed.

Lemma half_words_digits v : fits v -> half_words al 0 (digits n v) = digits n (v / 2).
Proof.
  intros Hv. destruct (half_words_val al (digits n v) 0) as (E & Hr & Ev); [apply digits_words|lia|].
  rewrite val_digits, Z.mul_0_l, Z.add_0_l in Ev by done. rewrite digits_length in E.
  by rewrite (words_val al _ (v / 2)), E.
Qed.

Lemma divideByTwo256_enc s v : fits v -> divideByTwo256 al (enc s v) = enc s (v / 2).
Proof. intros. unfold divideByTwo256. rewrite enc_num, half_words_digits by done. done. Qed.

Lemma ISBIGHEXEVEN256_enc s v : ISBIGHEXEVEN256 al (enc s v) = Z.even v.
Proof.
  unfold ISBIGHEXEVEN256. rewrite enc_num.
  assert (Elast : forall k, nth k (digits (S k) v) 0 = v mod R).
  { intros k. induction k as [|k IH]; [cbn; by rewrite Z.div_1_r|]. exact IH. }
  replace n with (S (HIGHEST_INDEX_BIG_HEX256 al)) by (by destruct al). rewrite Elast.
  change 1 with (Z.ones 1). rewrite Z.land_ones by lia. change (2 ^ 1) with 2.
  assert (Em : (v mod R) mod 2 = v mod 2).
  { symmetry. apply Znumtheory.Zmod_div_mod; [lia|by destruct al|]. exists (R / 2). by destruct al. }
  rewrite Em, Zmod_even. by destruct (Z.even v).
Qed.

(** Signed numbers; zero is positive. *)
Definition encs (x : Z) : bigHex256 := if 0 <=? x then enc 0 x else enc 1 (- x).

Lemma encs_pos x : 0 <= x -> encs x = enc 0 x.
Proof. intros. unfold encs. by rewrite (proj2 (Z.leb_le 0 x)) by lia. Qed.

Lemma encs_neg x : x < 0 -> encs x = enc 1 (- x).
Proof. intros. unfold encs. by rewrite (proj2 (Z.leb_gt 0 x)) by lia. Qed.

Lemma AddP256_enc junk s v : 0 <= v <= p256 -> AddP256 al junk (enc s v) = enc 0 (p256 - v).
Proof.
  intros Hv. pose proof p_fits. unfold AddP256. rewrite bigHexP256_enc, SubtractBigHex256_enc by lia.
  by rewrite (proj2 (Z.leb_le v p256)) by lia.
Qed.

Lemma reduce_once_enc junk v : fits v ->
  reduce_once al junk (enc 0 v) = enc 0 (if p256 <=? v then v - p256 else v).
Proof.
  intros Hv. pose proof p_fits. unfold reduce_once. cbn [sign BigHex.enc]. change (0 =? 0) with true. cbn iota.
  fold (enc 0 v). rewrite bigHexP256_enc, isGreaterThanOrEqual256_enc by done.
  destruct (Z.leb_spec p256 v); [|done]. by rewrite SubtractFromSelfBigHex256_enc by lia.
Qed.

Lemma reduce_once_neg junk v : 0 <= v <= p256 -> reduce_once al junk (enc 1 v) = enc 0 (p256 - v).
Proof. intros Hv. unfold reduce_once. cbn [sign BigHex.enc]. by apply AddP256_enc. Qed.

Lemma field_fits a : 0 <= a < p256 -> fits a.
Proof. pose proof p_fits. lia. Qed.

(** Sum and difference in the field. *)
Lemma AddBigHexModP256_enc junk a b : 0 <= a < p256 -> 0 <= b < p256 ->
  AddBigHexModP256 al junk (enc 0 a) (enc 0 b) = enc 0 ((a + b) mod p256).
Proof.
  intros Ha Hb. pose proof p256_range as Hp. pose proof full_big.
  pose proof (Z.pow_lt_mono_r 2 257 272 ltac:(lia) ltac:(lia) ltac:(lia)).
  assert (E2 : 2 ^ 257 = 2 * 2 ^ 256) by done.
  unfold AddBigHexModP256. rewrite AddBigHex256_enc, reduce_once_enc by lia. f_equal.
  destruct (Z.leb_spec p256 (a + b)).
  - apply Z.mod_unique with 1; lia.
  - symmetry. apply Z.mod_small. lia.
Qed.

Lemma SubtractBigHexMod256_enc junk a b r : 0 <= a < p256 -> 0 <= b < p256 ->
  SubtractBigHexMod256 al junk (enc 0 a) (enc 0 b) r = enc 0 ((a - b) mod p256).
Proof.
  intros Ha Hb. pose proof (field_fits a Ha). pose proof (field_fits b Hb). pose proof p256_range.
  unfold SubtractBigHexMod256, SubtractBigHexSign. change (sign (enc 0 a) =? 0) with true.
  change (sign (enc 0 b) =? 0) with true. cbn iota. rewrite isGreaterThanOrEqual256_enc by done.
  destruct (Z.leb_spec b a) as [Hle|Hlt]; rewrite SubtractBigHex256_enc by done.
  - rewrite (proj2 (Z.leb_le b a)) by lia. change (with_sign (enc ?s ?v) 0) with (enc 0 v).
    rewrite reduce_once_enc by lia. rewrite (proj2 (Z.leb_gt p256 (a - b))) by lia. f_equal. symmetry. apply Z.mod_small. lia.
  - rewrite (proj2 (Z.leb_le a b)) by lia. change (with_sign (enc ?s ?v) 1) with (enc 1 v).
    rewrite reduce_once_neg by lia. f_equal. apply Z.mod_unique with (-1); lia.
Qed.

Lemma SubtractFromSelfBigHexSign256_encs junk x y : Z.abs x + Z.abs y < FULL ->
  SubtractFromSelfBigHexSign256 al junk (encs x) (encs y) = encs (x - y).
Proof.
  intros Hxy. unfold SubtractFromSelfBigHexSign256.
  destruct (Z.le_gt_cases 0 x) as [Hx|Hx], (Z.le_gt_cases 0 y) as [Hy|Hy];
    rewrite ?(encs_pos x), ?(encs_neg x), ?(encs_pos y), ?(encs_neg y) by done;
    repeat (change (sign (enc 0 ?v) =? 0) with true || change (sign (enc 1 ?v) =? 0) with false); cbn iota.
  - rewrite isGreaterThanOrEqual256_enc by lia. destruct (Z.leb_spec y x).
    + by rewrite SubtractFromSelfBigHex256_enc, encs_pos by lia.
    + rewrite SubtractBigHex256_enc, (proj2 (Z.leb_le x y)), encs_neg by lia.
      by replace (- (x - y)) with (y - x) by lia.
  - rewrite Add2SelfBigHex256_enc, encs_pos by lia. by f_equal; lia.
  - rewrite Add2SelfBigHex256_enc, encs_neg by lia. by f_equal; lia.
  - rewrite isGreaterThanOrEqual256_enc by lia. destruct (Z.leb_spec (- x) (- y)).
    + rewrite SubtractBigHex256_enc, (proj2 (Z.leb_le (- x) (- y))), encs_pos by lia.
      by replace (x - y) with (- y - - x) by lia.
    + rewrite SubtractFromSelfBigHex256_enc, encs_neg by lia. by f_equal; lia.
Qed.

Lemma divideByTwo256_encs x : Z.abs x < FULL -> Z.even x = true -> divideByTwo256 al (encs x) = encs (x / 2).
Proof.
  intros Hx [k ->]%Zeven_bool_iff%Zeven_ex. rewrite (Z.mul_comm 2), Z.div_mul by done.
  destruct (Z.le_gt_cases 0 k).
  - by rewrite !encs_pos, divideByTwo256_enc, Z.div_mul by lia.
  - rewrite !encs_neg, divideByTwo256_enc by lia. replace (- (k * 2)) with (- k * 2) by lia. by rewrite Z.div_mul by lia.
Qed.

(** Adding P before halving an odd number. *)
Lemma AddPdiv2_256_encs junk x : Z.abs x + p256 < FULL -> Z.even x = false ->
  AddPdiv2_256 al junk (encs x) = encs ((x + p256) / 2).
Proof.
  intros Hx Ho. pose proof p_fits. unfold AddPdiv2_256. rewrite bigHexP256_enc.
  destruct (Z.le_gt_cases 0 x) as [Hp|Hn].
  - rewrite encs_pos by done. change (sign (enc 0 x) =? 0) with true. cbn iota.
    rewrite !enc_num, add_words_digits by lia. cbn [num with_num].
    rewrite half_words_digits by lia. rewrite encs_pos by (apply Z.div_pos; lia). done.
  - rewrite encs_neg by done. change (sign (enc 1 (- x)) =? 0) with false. cbn iota.
    rewrite isGreaterThan256_enc by lia. destruct (Z.ltb_spec p256 (- x)).
    + rewrite !enc_num, sub_words_digits, (proj2 (Z.leb_le p256 (- x))) by lia. cbn [num with_num].
      rewrite half_words_digits by lia. change (with_num (with_num (enc 1 (- x)) ?d) ?l) with (mk_big l (len (enc 1 (-x))) 1).
      assert (Ex : exists k, x + p256 = 2 * k).
      { apply Zeven_ex, Zeven_bool_iff. by rewrite Z.even_add, Ho. }
      destruct Ex as (k & Ek). replace (- x - p256) with (- k * 2) by lia. rewrite Ek, (Z.mul_comm 2), !Z.div_mul by done.
      rewrite encs_neg by lia. done.
    + rewrite SubtractBigHex256_enc, (proj2 (Z.leb_le (- x) p256)) by lia.
      replace (p256 - - x) with (x + p256) by lia. cbn [num with_num with_sign copyBigHex256].
      rewrite enc_num, half_words_digits by lia. rewrite encs_pos by (apply Z.div_pos; lia). done.
Qed.

Lemma ISBIGHEXEVEN256_encs x : ISBIGHEXEVEN256 al (encs x) = Z.even x.
Proof.
  unfold encs. destruct (0 <=? x); rewrite ISBIGHEXEVEN256_enc; [done|apply Z.even_opp].
Qed.

Lemma sign_encs x : sign (encs x) = if 0 <=? x then 0 else 1.
Proof. unfold encs. by destruct (0 <=? x). Qed.

End Operations.
