(* ===== verification/EccPrime.v ===== *)
(** The modulus of the curve is prime.

    [p256 - 1] has the square-free factor [F256], above the cube root of
    [p256], whose prime factors are small.  A power of 2 of order [F256] modulo
    every prime divisor [r] of [p256] shows [r mod F256 = 1], so [p256] has at
    most two prime divisors, and two of them would make a number a square that
    is none.  The powers are computed with shifts in place of divisions, as
    [2 ^ 256] is a short sum of powers of 2 modulo [p256]. *)

From Stdlib Require Import Znumtheory ZmodInv.
From S2P Require Import Prelude BigHex.

(** ** Trial division *)

Fixpoint no_divisor (k : nat) (d v : Z) : bool :=
  match k with
  | O => true
  | S k => negb (v mod d =? 0) && no_divisor k (d + 1) v
  end.

Lemma no_divisor_spec k : forall d v, 0 < d -> no_divisor k d v = true -> forall e, d <= e < d + Z.of_nat k -> ~ (e | v).
Proof.
  induction k as [|k IH]; intros d v Hd H e He Hdiv; [lia|]. cbn in H. apply andb_true_iff in H as [H1 H2].
  destruct (Z.eq_dec e d) as [->|]; [apply Zdivide_mod in Hdiv; by rewrite Hdiv in H1|].
  apply (IH (d + 1) v ltac:(lia) H2 e); [lia|done].
Qed.

(** The least divisor above 1 is prime. *)
Lemma prime_divisor n : forall v, (Z.to_nat v <= n)%nat -> 1 < v -> exists r, prime r /\ (r | v).
Proof.
  induction n as [|n IH]; intros v Hn Hv; [lia|].
  destruct (prime_dec v) as [|Hnp]; [by exists v; split; [|exists 1; lia]|].
  destruct (not_prime_divide v Hv Hnp) as (d & Hd & Hdv).
  destruct (IH d ltac:(lia) ltac:(lia)) as (r & Hr & Hrd). exists r. split; [done|by etransitivity].
Qed.

Lemma prime_divisor_small v : 1 < v -> ~ prime v -> exists r m, prime r /\ v = r * m /\ 1 < m.
Proof.
  intros Hv Hnp. destruct (not_prime_divide v Hv Hnp) as (d & Hd & [m Hm]).
  destruct (prime_divisor (Z.to_nat d) d ltac:(lia) ltac:(lia)) as (r & Hr & [k Hk]).
  pose proof (prime_ge_2 r Hr). exists r, (m * k). split_and!; [done|subst; ring|]. assert (0 < k) by nia. assert (1 < m) by nia. nia.
Qed.

Lemma trial_prime v k : 1 < v -> v < Z.of_nat k * Z.of_nat k -> no_divisor k 2 v = true -> prime v.
Proof.
  intros Hv Hk Hno. destruct (prime_dec v) as [|Hnp]; [done|exfalso].
  destruct (not_prime_divide v Hv Hnp) as (d & Hd & [m Hm]).
  assert (Hs : d < Z.of_nat k \/ m < Z.of_nat k) by nia.
  destruct Hs; [apply (no_divisor_spec k 2 v ltac:(lia) Hno d)|apply (no_divisor_spec k 2 v ltac:(lia) Hno m)]; try nia.
  - by exists m.
  - exists d. lia.
Qed.

(** ** Orders *)

Lemma divide_pow r a k : 0 <= k -> (r | a - 1) -> (r | a ^ k - 1).
Proof.
  intros Hk H. pattern k. apply natlike_ind; [exists 0; lia| |done]. intros x Hx IH. rewrite Z.pow_succ_r by done.
  replace (a * a ^ x - 1) with (a * (a ^ x - 1) + (a - 1)) by ring. apply Z.divide_add_r; [by apply Z.divide_mul_r|done].
Qed.

Lemma divide_mod r x y : 0 < r -> (r | x - y) <-> x mod r = y mod r.
Proof.
  intros Hr. split.
  - intros [k Hk]. replace x with (y + k * r) by lia. by rewrite Z.mod_add by lia.
  - intros E. exists (x / r - y / r). pose proof (Z.div_mod x r ltac:(lia)). pose proof (Z.div_mod y r ltac:(lia)). nia.
Qed.

(** When [b ^ (l * f)] is 1 modulo a prime [r] and [b ^ f - 1] is invertible,
    the prime [l] divides [r - 1]. *)
Lemma order_divides r l b f h : prime r -> prime l -> 0 <= f ->
  (r | b ^ (f * l) - 1) -> (r | (b ^ f - 1) * h - 1) -> (l | r - 1).
Proof.
  intros Hr Hl Hf H1 Hh. pose proof (prime_ge_2 _ Hr). pose proof (prime_ge_2 _ Hl).
  destruct (Zdivide_dec l (r - 1)) as [|Hnd]; [done|exfalso].
  set (c := b ^ f) in *. rewrite Z.pow_mul_r in H1 by lia. fold c in H1.
  assert (Hc : (r | c - 1)).
  { assert (Hnz : c mod r <> 0).
    { intros E. apply Zmod_divide in E; [|lia]. assert (H' : (r | 1)); [|apply Z.divide_pos_le in H'; lia].
      replace 1 with (c ^ l - (c ^ l - 1)) by ring. apply Z.divide_sub_r; [|done].
      replace l with (Z.succ (l - 1)) by lia. rewrite Z.pow_succ_r by lia. by apply Z.divide_mul_l. }
    assert (HF : (r | c ^ (r - 1) - 1)).
    { apply divide_mod; [lia|]. rewrite Z.fermat_nz; [by rewrite Z.mod_small by lia|by apply prime_alt|done]. }
    destruct (rel_prime_bezout l (r - 1)) as [u v Huv]; [by apply prime_rel_prime|].
    pose (u' := u mod (r - 1) + (r - 1)). assert (Hu' : 1 <= u') by (pose proof (Z.mod_pos_bound u (r - 1) ltac:(lia)); lia).
    set (w := - v - (u / (r - 1)) * l + l).
    assert (E : u' * l = 1 + (r - 1) * w) by (unfold u', w; rewrite Z.mod_eq by lia; nia).
    assert (Hw : 0 <= w) by nia.
    pose proof (divide_pow r (c ^ l) u' ltac:(lia) H1) as Ha. pose proof (divide_pow r (c ^ (r - 1)) w Hw HF) as Hb.
    rewrite <- Z.pow_mul_r in Ha, Hb by lia. rewrite (Z.mul_comm l), E, Z.pow_add_r, Z.pow_1_r in Ha by lia.
    replace (c - 1) with (c * c ^ ((r - 1) * w) - 1 - c * (c ^ ((r - 1) * w) - 1)) by ring.
    apply Z.divide_sub_r; [done|by apply Z.divide_mul_r]. }
  assert (H' : (r | 1)); [|apply Z.divide_pos_le in H'; lia].
  replace 1 with ((c - 1) * h - ((c - 1) * h - 1)) by ring. apply Z.divide_sub_r; [by apply Z.divide_mul_l|done].
Qed.

Lemma coprime_divides a b m : Z.gcd a b = 1 -> (a | m) -> (b | m) -> (a * b | m).
Proof.
  intros Hg [k ->] Hb. rewrite Z.mul_comm in Hb. apply Z.gauss in Hb; [|by rewrite Z.gcd_comm].
  rewrite (Z.mul_comm k). by apply Z.mul_divide_mono_l.
Qed.

(** ** Powers modulo the prime *)

(** [2 ^ 256] is [2 ^ 224 - 2 ^ 192 - 2 ^ 96 + 1] modulo [p256]. *)
Fixpoint fold_top (k : nat) (v : Z) : Z :=
  match k with
  | O => v
  | S k =>
      let h := Z.shiftr v 256 in
      if h =? 0 then v else
      fold_top k (Z.land v (2 ^ 256 - 1) + (Z.shiftl h 224 - Z.shiftl h 192 - Z.shiftl h 96 + h))
  end.

Fixpoint pow_fold (b : Z) (e : positive) : Z :=
  match e with
  | xH => b
  | xO e => let y := pow_fold b e in fold_top 12 (y * y)
  | xI e => let y := pow_fold b e in fold_top 12 (fold_top 12 (y * y) * b)
  end.

Lemma fold_top_congr k : forall v, (p256 | fold_top k v - v).
Proof.
  induction k as [|k IH]; intros v; cbn [fold_top]; [exists 0; lia|]. cbv zeta. destruct (_ =? 0); [exists 0; lia|].
  destruct (IH (Z.land v (2 ^ 256 - 1) + (Z.shiftl (Z.shiftr v 256) 224 - Z.shiftl (Z.shiftr v 256) 192 - Z.shiftl (Z.shiftr v 256) 96 + Z.shiftr v 256))) as [m Hm].
  exists (m - Z.shiftr v 256). revert Hm. generalize (fold_top k) as F. intros F.
  change (2 ^ 256 - 1) with (Z.ones 256). rewrite Z.land_ones, !Z.shiftl_mul_pow2, Z.shiftr_div_pow2, Z.mod_eq by (done || lia).
  generalize (v / 2 ^ 256) as h. intros h. unfold p256.
  replace (v - 2 ^ 256 * h + (h * 2 ^ 224 - h * 2 ^ 192 - h * 2 ^ 96 + h))
    with (v - h * (2 ^ 256 - 2 ^ 224 + 2 ^ 192 + 2 ^ 96 - 1)) by ring.
  generalize (2 ^ 256 - 2 ^ 224 + 2 ^ 192 + 2 ^ 96 - 1) as p. intros p Hm.
  replace (F (v - h * p) - v) with (F (v - h * p) - (v - h * p) - h * p) by ring. rewrite Hm. ring.
Qed.

Lemma congr_trans r x y z : (r | x - y) -> (r | y - z) -> (r | x - z).
Proof. intros H1 H2. replace (x - z) with (x - y + (y - z)) by ring. by apply Z.divide_add_r. Qed.

Lemma congr_sym r x y : (r | x - y) -> (r | y - x).
Proof. intros H. replace (y - x) with (- (x - y)) by ring. by apply Z.divide_opp_r. Qed.

Lemma congr_mul r x y z w : (r | x - y) -> (r | z - w) -> (r | x * z - y * w).
Proof.
  intros H1 H2. replace (x * z - y * w) with (x * (z - w) + (x - y) * w) by ring.
  apply Z.divide_add_r; [by apply Z.divide_mul_r|by apply Z.divide_mul_l].
Qed.

Lemma pow_fold_congr b e : (p256 | pow_fold b e - b ^ Z.pos e).
Proof.
  induction e as [e IH|e IH|]; cbn [pow_fold]; cbv zeta; [| |exists 0; lia].
  - replace (b ^ Z.pos e~1) with (b ^ Z.pos e * b ^ Z.pos e * b) by (rewrite Pos2Z.inj_xI, Z.pow_add_r, Z.pow_1_r, Z.pow_twice_r by lia; ring).
    eapply congr_trans; [apply fold_top_congr|]. apply congr_mul; [|exists 0; lia].
    eapply congr_trans; [apply fold_top_congr|]. by apply congr_mul.
  - replace (b ^ Z.pos e~0) with (b ^ Z.pos e * b ^ Z.pos e) by (by rewrite Pos2Z.inj_xO, Z.pow_twice_r).
    eapply congr_trans; [apply fold_top_congr|]. by apply congr_mul.
Qed.

(** ** The certificate *)

Definition small_factors : list (Z * Z) := [
  (257, 62280038832925576975829179054726466017393601894770033612286284096307110905178);
  (641, 3120136052566252819589832042119023288357782237979451906064430714506309802089);
  (1531, 14964151782915132362421343043271841132196952657395407750516349273969956749325);
  (65537, 63715752585572383110942257635038828762850660836636923497464070660092788925561);
  (490463, 40900708320435510661869085969000458189226728617867244476120592820487088204148);
  (6700417, 31825380093057744492790462519660004043525891529022585478641447006562051609368)].

Definition F256 : Z := 108640305619867056963512138.
Definition Q256 : Z := 1065829928861884063519997190544044377903744082232275.

(** [2 ^ Q256]. *)
Definition base : Z := pow_fold 2 (Z.to_pos Q256).

Definition factor_ok (c : Z * Z) : bool :=
  let f := F256 / c.1 in
  (f * c.1 =? F256) && (1 <? c.1) && (0 <? f)
  && no_divisor (Z.to_nat (Z.sqrt c.1 + 1)) 2 c.1
  && (fold_top 12 ((pow_fold base (Z.to_pos f) - 1) * c.2) mod p256 =? 1).

Lemma certificate : forallb factor_ok small_factors && (pow_fold base (Z.to_pos F256) mod p256 =? 1) = true.
Proof. vm_compute. reflexivity. Qed.

Lemma mod_one x p : x mod p = 1 -> (p | x - 1).
Proof.
  intros E. destruct (Z.eq_dec p 0) as [->|Hp]; [rewrite Zmod_0_r in E; exists 0; lia|].
  exists (x / p). pose proof (Z.div_mod x p Hp). lia.
Qed.

Lemma factor_divides r c : prime r -> (r | p256) -> (r | base ^ F256 - 1) -> factor_ok c = true -> (c.1 | r - 1).
Proof.
  intros Hr Hd Hb Hok. unfold factor_ok in Hok. cbv zeta in Hok. zbool.
  set (f := F256 / c.1) in *. set (l := c.1) in *.
  assert (Hl : prime l).
  { eapply trial_prime; [lia| |eassumption]. rewrite Z2Nat.id by (pose proof (Z.sqrt_nonneg l); lia).
    pose proof (Z.sqrt_spec l ltac:(lia)) as Hs. cbv zeta in Hs. lia. }
  apply (order_divides r l base f c.2); [done|done|lia|by rewrite H|].
  assert (Hm : (p256 | fold_top 12 ((pow_fold base (Z.to_pos f) - 1) * c.2) - 1)).
  { by apply mod_one. }
  etransitivity; [exact Hd|]. eapply congr_trans; [|exact Hm].
  rewrite <- (Z2Pos.id f) at 1 by lia.
  apply congr_sym. eapply congr_trans; [apply fold_top_congr|]. apply congr_mul; [|exists 0; lia].
  destruct (pow_fold_congr base (Z.to_pos f)) as [k Hk]. exists k. rewrite <- Hk. ring.
Qed.

(** Every prime divisor is 1 modulo [F256]. *)
Lemma divisor_mod r : prime r -> (r | p256) -> (F256 | r - 1).
Proof.
  intros Hr Hd. pose proof certificate as H. apply andb_true_iff in H as [H HF]. rewrite forallb_forall in H.
  assert (Hb : (r | base ^ F256 - 1)).
  { etransitivity; [exact Hd|]. apply Z.eqb_eq in HF. eapply congr_trans; [|by apply mod_one].
    apply congr_sym. exact (pow_fold_congr base (Z.to_pos F256)). }
  assert (H2 : (2 | r - 1)).
  { destruct (Z.Even_or_Odd r) as [[k ->]|[k ->]]; [exfalso|exists k; lia]. destruct Hd as [m Hm].
    assert (Ho : Z.odd p256 = true) by (vm_compute; reflexivity). rewrite Hm in Ho. replace (m * (2 * k)) with (2 * (m * k)) in Ho by ring.
    rewrite Z.odd_mul in Ho. discriminate Ho. }
  assert (Hf : forall c, In c small_factors -> (c.1 | r - 1)) by (intros c Hc; exact (factor_divides r c Hr Hd Hb (H c Hc))).
  change F256 with (2 * (257 * (641 * (1531 * (65537 * (490463 * 6700417)))))).
  repeat (apply coprime_divides; [by vm_compute| |]); [done| | | | | |].
  all: (eapply (Hf (_, _)); cbn; tauto).
Qed.

Theorem p256_prime : prime p256.
Proof.
  pose proof p256_range as Hp. destruct (prime_dec p256) as [|Hnp]; [done|exfalso].
  destruct (prime_divisor_small p256 ltac:(by vm_compute) Hnp) as (r & m & Hr & Em & Hm).
  destruct (divisor_mod r Hr ltac:(exists m; lia)) as [a Ha]. pose proof (prime_ge_2 _ Hr).
  assert (Ep : p256 = F256 * Q256 + 1) by (by vm_compute). assert (HF : 0 < F256) by done.
  assert (Hb : (F256 | m - 1)).
  { exists (Q256 - a * m). nia. }
  destruct Hb as [b Hb]. assert (E : Q256 = a * b * F256 + (a + b)) by nia.
  assert (Hab : 1 <= a /\ 1 <= b) by nia. assert (Hs : a + b <= a * b + 1) by nia.
  assert (Hq : Q256 < F256 * (F256 - 1)) by done.
  assert (Hlt : a * b < F256 - 1) by nia.
  assert (Eq : Q256 / F256 = a * b) by (symmetry; apply Z.div_unique with (a + b); lia).
  assert (Er : Q256 mod F256 = a + b) by (symmetry; apply Z.mod_unique with (a * b); lia).
  set (D := (Q256 mod F256) * (Q256 mod F256) - 4 * (Q256 / F256)).
  assert (ED : D = (a - b) * (a - b)) by (unfold D; rewrite Eq, Er; ring).
  assert (Hn : Z.sqrt D * Z.sqrt D <> D) by (by vm_compute).
  apply Hn. rewrite ED. replace ((a - b) * (a - b)) with (Z.abs (a - b) * Z.abs (a - b)) by lia.
  by rewrite Z.sqrt_square by lia.
Qed.
