(* ===== verification/EccCurve.v ===== *)
(** The curve of the BLE stack's P-256 code as mathematics: congruence modulo
    the prime, the points [y^2 = x^3 - 3x + b] and their chord-and-tangent law,
    which keeps to the curve and has at most one result. *)

From Stdlib Require Import Znumtheory.
From S2P Require Import Prelude BigHex EccPrime.

(** ** Congruence *)

Definition eqp (x y : Z) : Prop := (p256 | x - y).
Infix "≡p" := eqp (at level 70, no associativity).

#[export] Instance eqp_equivalence : Equivalence eqp.
Proof.
  split; [intros x; exists 0; lia|intros x y; apply congr_sym|intros x y z; apply congr_trans].
Qed.

#[export] Instance eqp_add : Proper (eqp ==> eqp ==> eqp) Z.add.
Proof. intros x y H z w H'. unfold eqp in *. replace (x + z - (y + w)) with (x - y + (z - w)) by ring. by apply Z.divide_add_r. Qed.

#[export] Instance eqp_mul : Proper (eqp ==> eqp ==> eqp) Z.mul.
Proof. intros x y H z w H'. by apply congr_mul. Qed.

#[export] Instance eqp_opp : Proper (eqp ==> eqp) Z.opp.
Proof. intros x y H. unfold eqp in *. replace (- x - - y) with (- (x - y)) by ring. by apply Z.divide_opp_r. Qed.

#[export] Instance eqp_sub : Proper (eqp ==> eqp ==> eqp) Z.sub.
Proof. intros x y H z w H'. rewrite <- !Z.add_opp_r. by rewrite H, H'. Qed.

Lemma eqp_eq x y : x = y -> x ≡p y.
Proof. by intros ->. Qed.

Lemma eqp_mod x : x mod p256 ≡p x.
Proof. apply divide_mod; [done|]. by apply Z.mod_mod. Qed.

Lemma eqp_mod_eq x y : x ≡p y <-> x mod p256 = y mod p256.
Proof. by apply divide_mod. Qed.

Lemma eqp_field x y : 0 <= x < p256 -> 0 <= y < p256 -> x ≡p y -> x = y.
Proof. intros Hx Hy H. apply eqp_mod_eq in H. by rewrite !Z.mod_small in H. Qed.

Lemma eqp_zero_mul x y : x * y ≡p 0 -> x ≡p 0 \/ y ≡p 0.
Proof. unfold eqp. rewrite !Z.sub_0_r. intros H. by apply (prime_mult p256 p256_prime). Qed.

Lemma eqp_minus x y : x - y ≡p 0 <-> x ≡p y.
Proof. unfold eqp. by rewrite Z.sub_0_r. Qed.

Lemma eqp_cancel c x y : ~ c ≡p 0 -> c * x ≡p c * y -> x ≡p y.
Proof.
  intros Hc H. apply eqp_minus. apply eqp_minus in H. rewrite <- Z.mul_sub_distr_l in H. by destruct (eqp_zero_mul _ _ H).
Qed.

Lemma eqp_nonzero_mul x y : ~ x ≡p 0 -> ~ y ≡p 0 -> ~ x * y ≡p 0.
Proof. intros Hx Hy H. by destruct (eqp_zero_mul _ _ H). Qed.

Lemma eqp_small_nonzero x : 0 < x < p256 -> ~ x ≡p 0.
Proof. intros Hx H. apply eqp_field in H; lia. Qed.

#[export] Instance eqp_dec x y : Decision (x ≡p y).
Proof. destruct (decide (x mod p256 = y mod p256)) as [E|E]; [left|right]; by rewrite eqp_mod_eq. Defined.

Lemma eqp_inverse x : ~ x ≡p 0 -> exists y, x * y ≡p 1.
Proof.
  intros Hx. destruct (rel_prime_bezout x p256) as [u v Huv].
  - apply rel_prime_sym, prime_rel_prime; [exact p256_prime|]. intros H. apply Hx. unfold eqp. by rewrite Z.sub_0_r.
  - exists u. exists (- v). lia.
Qed.

Lemma eqp_divide a b : ~ a ≡p 0 -> exists l, l * a ≡p b.
Proof.
  intros Ha. destruct (eqp_inverse a Ha) as [i Hi]. exists (b * i).
  transitivity (b * (a * i)); [apply eqp_eq; ring|]. rewrite Hi. apply eqp_eq; ring.
Qed.

(** ** The curve and its law *)

Definition b256 : Z := 0x5ac635d8aa3a93e7b3ebbd55769886bc651d06b0cc53b0f63bce3c3e27d2604b.

Inductive apoint := Inf | Aff (x y : Z).

Definition field (x : Z) : Prop := 0 <= x < p256.

Definition oncurve (P : apoint) : Prop :=
  match P with
  | Inf => True
  | Aff x y => field x /\ field y /\ y * y ≡p x * x * x - 3 * x + b256
  end.

(** The third point of the line of slope [l] through [(x1, y1)] and a point of
    abscissa [x2], reflected. *)
Definition third (l x1 y1 x2 : Z) : apoint :=
  let x3 := (l * l - x1 - x2) mod p256 in Aff x3 ((l * (x1 - x3) - y1) mod p256).

Inductive law : apoint -> apoint -> apoint -> Prop :=
| law_inf_l Q : law Inf Q Q
| law_inf_r P : law P Inf P
| law_opposite x y1 y2 : y1 + y2 ≡p 0 -> law (Aff x y1) (Aff x y2) Inf
| law_chord x1 y1 x2 y2 l : ~ x1 ≡p x2 -> l * (x2 - x1) ≡p y2 - y1 ->
    law (Aff x1 y1) (Aff x2 y2) (third l x1 y1 x2)
| law_tangent x y l : ~ y ≡p 0 -> l * (2 * y) ≡p 3 * x * x - 3 -> law (Aff x y) (Aff x y) (third l x y x).

Lemma mod_field x : field (x mod p256).
Proof. by apply Z.mod_pos_bound. Qed.

(** A line meets the curve in three points: when [h] vanishes and the
    abscissas add up to the square of the slope the third is one as well. *)
Lemma third_oncurve l x1 y1 x2 : y1 * y1 ≡p x1 * x1 * x1 - 3 * x1 + b256 ->
  x1 * x1 + x1 * x2 + x2 * x2 - 3 - 2 * y1 * l - l * l * (x2 - x1) ≡p 0 -> oncurve (third l x1 y1 x2).
Proof.
  intros H1 Hh. unfold third. cbv zeta. split_and!; [apply mod_field..|].
  set (x3 := (l * l - x1 - x2) mod p256). assert (E3 : l * l ≡p x1 + x2 + x3).
  { unfold x3. rewrite eqp_mod. apply eqp_eq; ring. }
  rewrite eqp_mod. apply eqp_minus. apply eqp_minus in H1.
  transitivity (y1 * y1 - (x1 * x1 * x1 - 3 * x1 + b256)
    - (x3 - x1) * ((x1 * x1 + x1 * x2 + x2 * x2 - 3 - 2 * y1 * l - l * l * (x2 - x1)) + (x3 - x2) * (x1 + x2 + x3 - l * l))).
  - apply eqp_eq; ring.
  - rewrite H1, Hh, E3. apply eqp_eq; ring.
Qed.

Lemma law_oncurve P Q S : law P Q S -> oncurve P -> oncurve Q -> oncurve S.
Proof.
  intros [|?|x y1 y2 H|x1 y1 x2 y2 l Hx Hl|x y l Hy Hl] HP HQ; try done; destruct HP as (Hx1 & Hy1 & E1).
  - destruct HQ as (Hx2 & Hy2 & E2). apply third_oncurve; [done|].
    apply (eqp_cancel (x2 - x1)); [by rewrite eqp_minus; intros H; symmetry in H|].
    apply eqp_minus in E1, E2.
    transitivity ((y1 * y1 - (x1 * x1 * x1 - 3 * x1 + b256)) - (y2 * y2 - (x2 * x2 * x2 - 3 * x2 + b256))
      - (l * (x2 - x1) - (y2 - y1)) * (2 * y1 + l * (x2 - x1) + (y2 - y1))).
    + apply eqp_eq; ring.
    + rewrite E1, E2, Hl. apply eqp_eq; ring.
  - apply third_oncurve; [done|]. transitivity (3 * x * x - 3 - l * (2 * y)); [apply eqp_eq; ring|].
    rewrite Hl. apply eqp_eq; ring.
Qed.

Lemma two_nonzero : ~ 2 ≡p 0.
Proof. by apply eqp_small_nonzero. Qed.

Lemma eqp_half y : y + y ≡p 0 -> y ≡p 0.
Proof.
  intros H. apply (eqp_cancel 2); [apply two_nonzero|]. transitivity (y + y); [apply eqp_eq; ring|].
  rewrite H. apply eqp_eq; ring.
Qed.

Lemma third_slope l l' x1 y1 x2 : l ≡p l' -> third l x1 y1 x2 = third l' x1 y1 x2.
Proof.
  intros Hl. unfold third. cbv zeta. assert (E : (l * l - x1 - x2) mod p256 = (l' * l' - x1 - x2) mod p256) by (by rewrite <- eqp_mod_eq, Hl).
  rewrite E. f_equal. by rewrite <- eqp_mod_eq, Hl.
Qed.

Lemma law_functional P Q S T : law P Q S -> law P Q T -> S = T.
Proof.
  intros H1 H2. destruct H1 as [|?|x y1 y2 H|x1 y1 x2 y2 l Hx Hl|x y l Hy Hl]; inversion H2; subst; try done.
  - exfalso. match goal with Hn : ~ y2 ≡p 0 |- _ => by apply Hn, eqp_half end.
  - apply third_slope. apply (eqp_cancel (x2 - x1)); [by rewrite eqp_minus; intros H; symmetry in H|].
    transitivity (l * (x2 - x1)); [apply eqp_eq; ring|]. rewrite Hl.
    match goal with E : l0 * _ ≡p _ |- _ => rewrite <- E end. apply eqp_eq; ring.
  - exfalso. by apply Hy, eqp_half.
  - apply third_slope. apply (eqp_cancel (2 * y)); [by apply eqp_nonzero_mul; [apply two_nonzero|]|].
    transitivity (l * (2 * y)); [apply eqp_eq; ring|]. rewrite Hl.
    match goal with E : l0 * _ ≡p _ |- _ => rewrite <- E end. apply eqp_eq; ring.
Qed.

(** Two points of the curve with the same abscissa are equal or opposite, so
    the law has a result for all points of the curve. *)
Lemma same_abscissa x y1 y2 : y1 * y1 ≡p x * x * x - 3 * x + b256 -> y2 * y2 ≡p x * x * x - 3 * x + b256 ->
  y1 ≡p y2 \/ y1 + y2 ≡p 0.
Proof.
  intros H1 H2. rewrite <- (eqp_minus y1 y2). apply eqp_zero_mul.
  transitivity (y1 * y1 - y2 * y2); [apply eqp_eq; ring|]. rewrite H1, H2. apply eqp_eq; ring.
Qed.

Lemma law_total P Q : oncurve P -> oncurve Q -> exists S, law P Q S.
Proof.
  destruct P as [|x1 y1], Q as [|x2 y2]; intros HP HQ; [eexists; constructor..|].
  destruct HP as (Hx1 & Hy1 & E1), HQ as (Hx2 & Hy2 & E2). destruct (decide (x1 ≡p x2)) as [Ex|Hx].
  - apply eqp_field in Ex as <-; [|done..]. destruct (decide (y1 + y2 ≡p 0)) as [|Hs]; [eexists; by constructor|].
    destruct (same_abscissa x1 y1 y2 E1 E2) as [Ey|]; [|done]. apply eqp_field in Ey as <-; [|done..].
    assert (Hy : ~ y1 ≡p 0) by (intros H; apply Hs; rewrite H; apply eqp_eq; ring).
    destruct (eqp_divide (2 * y1) (3 * x1 * x1 - 3)) as [l Hl]; [by apply eqp_nonzero_mul; [apply two_nonzero|]|].
    eexists. by eapply law_tangent.
  - destruct (eqp_divide (x2 - x1) (y2 - y1)) as [l Hl]; [by rewrite eqp_minus; intros H; symmetry in H|].
    eexists. by eapply law_chord.
Qed.
