(* ===== verification/EccField.v ===== *)
(** Arithmetic modulo P of the BLE stack's P-256 code, on the big numbers of
    [BigHex]: the product with its word-by-word reduction, small multiples and
    the inverse by the binary extended Euclidean algorithm
    (driver/ble/ble_pub/modules/ecc_p256/src/ecc_p256.c).

    The product is proved exact but for two narrow ranges of operands, in one
    of which the code is wrong; the inversion loop is proved to end and to
    compute the inverse. *)

From S2P Require Import Prelude BigHex EccPrime.

Section Code.
Context (al : algo).

Notation R := (RADIX al).
Notation n := (ELEMENTS_BIG_HEX256 al).

(** [veryBigHex256] has the same fields over twice as many words. *)
Definition veryBigHexP256 : bigHex256 :=
  mk_big (replicate n 0 ++ num (bigHexP256 al)) (len (bigHexP256 al)) 0.

Definition setVeryBigNumberLength256 (b : bigHex256) : bigHex256 :=
  mk_big (num b) (2 * Z.of_nat n - Z.of_nat (lead (num b))) (sign b).

Fixpoint very_ge_words (numA numB : list Z) : bool :=
  match numA, numB with
  | a :: As, b :: Bs => if negb (b =? a) then b <? a else very_ge_words As Bs
  | _, _ => true
  end.

Definition isVeryBigHexGreaterThanOrEqual256 (bigHexA bigHexB : bigHex256) : bool :=
  if len bigHexA >? len bigHexB then true
  else if len bigHexA <? len bigHexB then false
  else let i := Z.to_nat (2 * Z.of_nat n - len bigHexA) in
       very_ge_words (drop i (num bigHexA)) (drop i (num bigHexB)).

(** The inner loop: [numA[k]] times [numB] onto the words of [result] from
    [k + 1] on; the carry out of [j = 0] is dropped.  [val] is a double word. *)
Fixpoint mul_row (a : Z) (numB result : list Z) : Z * list Z :=
  match numB, result with
  | b :: Bs, r :: rs =>
      let '(mcarry, rs) := mul_row a Bs rs in
      let val := (a * b + r + mcarry) mod (R * R) in
      (Z.shiftr val (bits al), Z.land val (R - 1) :: rs)
  | _, _ => (0, [])
  end.

Fixpoint mul_rows (numA numB result : list Z) : list Z :=
  match numA with
  | [] => result
  | a :: As =>
      let result := mul_rows As numB result in
      let at_ := (n - length As)%nat in
      take at_ result ++ snd (mul_row a numB (take n (drop at_ result))) ++ drop (at_ + n) result
  end.

(** The words that follow [num] in memory: the length and the sign. *)
Definition fields_after (b : bigHex256) : list Z :=
  match al with
  | ALGO16 => [len b mod 0x10000; len b / 0x10000; sign b mod 0x10000; sign b / 0x10000]
  | ALGO32 => [len b; sign b]
  end.

(** [N] times P, for one word [N]. *)
Definition MultiplyByUModP256 (N : Z) : bigHex256 :=
  let num :=
    match al with
    | ALGO16 => [u16 (N - 1); 0xFFFF; u16 (0xFFFF - (N - 1)); 0; N; 0; 0; 0; 0; 0;
                 u16 (N - 1); 0xFFFF; 0xFFFF; 0xFFFF; 0xFFFF; 0xFFFF; u16 (0xFFFF - (N - 1))]
    | ALGO32 => let tempVal := u32 (0xFFFFFFFF - N + 1) in
                [u32 (N - 1); tempVal; N; 0x00; 0x00; u32 (N - 1); 0xFFFFFFFF; 0xFFFFFFFF; tempVal]
    end in
  mk_big num (if negb (nth 0 num 0 =? 0) then Z.of_nat n else Z.of_nat n - 1) 0.

Definition specialModP256 (junk tmpHexA : bigHex256) : bigHex256 :=
  let beyond t := (sign t =? 0) && isGreaterThanOrEqual256 al t (bigHexP256 al) || (sign t =? 1) in
  if beyond tmpHexA then
    let tmpHexA :=
      if len tmpHexA >? len (bigHexP256 al) then
        let Significant := nth (Z.to_nat (Z.of_nat n - len tmpHexA)) (num tmpHexA) 0 in
        let NModP := MultiplyByUModP256 Significant in
        if sign tmpHexA =? 0 then SubtractFromSelfBigHexSign256 al junk tmpHexA NModP
        else with_sign (SubtractFromSelfBigHexSign256 al junk (with_sign tmpHexA 0) NModP) 1
      else tmpHexA in
    if beyond tmpHexA then
      if sign tmpHexA =? 1 then AddP256 al junk tmpHexA
      else SubtractFromSelfBigHex256 al tmpHexA (bigHexP256 al)
    else tmpHexA
  else tmpHexA.

(** The reduction loop: [rest] are the words of the product below [tmpResult2]. *)
Fixpoint mod_words (junk tmpResult2 : bigHex256) (rest : list Z) : bigHex256 :=
  match rest with
  | [] => specialModP256 junk tmpResult2
  | d :: rest =>
      let t := shiftLeftOneArrayElement256 al (specialModP256 junk tmpResult2) in
      mod_words junk (setBigNumberLength256 al (with_num t (<[HIGHEST_INDEX_BIG_HEX256 al := d]> (num t)))) rest
  end.

Definition MultiplyBigHexModP256 (junk bigHexA bigHexB : bigHex256) : bigHex256 :=
  let tmpResult :=
    with_sign (setVeryBigNumberLength256
      (mk_big (mul_rows (num bigHexA) (num bigHexB) (replicate (2 * n) 0)) 0 0))
      (if sign bigHexA =? sign bigHexB then 0 else 1) in
  let i := Nat.min (lead (num tmpResult)) n in
  let i := if isVeryBigHexGreaterThanOrEqual256 tmpResult veryBigHexP256
           then (i + lead (drop i (num tmpResult)))%nat else i in
  let tmpResult2 := setBigNumberLength256 al
    (mk_big (take n (drop i (num tmpResult ++ fields_after tmpResult))) 0 (sign tmpResult)) in
  copyBigHex256 (mod_words junk tmpResult2 (drop (i + n) (num tmpResult))).

Fixpoint small_words (numA : list Z) (numB : Z) : Z * list Z :=
  match numA with
  | [] => (0, [])
  | a :: As =>
      let '(mcarry, result) := small_words As numB in
      let val := (a * numB + mcarry) mod (R * R) in
      (Z.shiftr val (bits al), Z.land val (R - 1) :: result)
  end.

Definition MultiplyBigHexByUint32_256 (junk bigHexA : bigHex256) (numB : Z) : bigHex256 :=
  specialModP256 junk (with_sign
    (setBigNumberLength256 al (mk_big (snd (small_words (num bigHexA) numB)) 0 0)) (sign bigHexA)).

(** The inner loops of the inversion: halve [u] while it is even, and [A]
    with it modulo P. *)
Fixpoint halve_loop (fuel : nat) (junk u A : bigHex256) : outcome (bigHex256 * bigHex256) :=
  if ISBIGHEXEVEN256 al u then
    match fuel with
    | O => Spin
    | S fuel =>
        halve_loop fuel junk (divideByTwo256 al u)
          (if ISBIGHEXEVEN256 al A then divideByTwo256 al A else AddPdiv2_256 al junk A)
    end
  else Done (u, A).

Definition INNER_FUEL : nat := 256.
Definition OUTER_FUEL : nat := 514.

Fixpoint inversion_loop (fuel : nat) (junk u v A C : bigHex256) : outcome bigHex256 :=
  if negb (len u =? 0) then
    match fuel with
    | O => Spin
    | S fuel =>
        '(u, A) ← halve_loop INNER_FUEL junk u A;
        '(v, C) ← halve_loop INNER_FUEL junk v C;
        if isGreaterThanOrEqual256 al u v then
          inversion_loop fuel junk (SubtractFromSelfBigHex256 al u v) v
            (SubtractFromSelfBigHexSign256 al junk A C) C
        else
          inversion_loop fuel junk u (SubtractFromSelfBigHex256 al v u) A
            (SubtractFromSelfBigHexSign256 al junk C A)
    end
  else Done C.

(** [initBigNumber256], then the last word and the length. *)
Definition small_start (d : Z) : bigHex256 :=
  mk_big (<[HIGHEST_INDEX_BIG_HEX256 al := d]> (num (initBigNumber256 al))) 1 0.

(** Step 3: [C % P]. *)
Definition inversion_result (junk C : bigHex256) : bigHex256 :=
  if sign C =? 0 then
    if isGreaterThan256 al (bigHexP256 al) C then copyBigHex256 C
    else copyBigHex256 (specialModP256 junk C)
  else copyBigHex256 (specialModP256 junk C).

Definition bigHexInversion256 (junk bigHexA : bigHex256) : outcome bigHex256 :=
  let bigHexA := with_sign bigHexA 0 in
  C ← inversion_loop OUTER_FUEL junk (copyBigHex256 bigHexA) (copyBigHex256 (bigHexP256 al)) (small_start 1) (small_start 0);
  Done (inversion_result junk C).

End Code.

(* ------------------------------------------------------------------ *)
(** ** The words of a product *)

Section Product.
Context (al : algo).

Notation R := (RADIX al).
Notation n := (ELEMENTS_BIG_HEX256 al).
Notation val := (val al).
Notation digits := (digits al).
Notation word := (word al).
Notation FULL := (FULL al).

Lemma double_word x : 0 <= x < R * R ->
  Z.shiftr (x mod (R * R)) (bits al) = x / R /\ Z.land (x mod (R * R)) (R - 1) = x mod R.
Proof.
  intros Hx. rewrite Z.mod_small, word_mod by done. split; [|done].
  rewrite Z.shiftr_div_pow2 by (by destruct al). by rewrite radix_bits.
Qed.

Lemma mul_row_val a B : forall acc, word a -> Forall word B -> Forall word acc -> length acc = length B ->
  let '(c, r) := mul_row al a B acc in
  length r = length B /\ Forall word r /\ 0 <= c < R /\ val r + c * R ^ zlen B = val acc + a * val B.
Proof.
  pose proof (radix_pos al) as HR.
  induction B as [|b B IH]; intros [|r acc] Ha HB Hacc E; try done.
  { split_and!; try done; try lia. cbn. lia. }
  injection E as E. apply Forall_cons in HB as [Hb HB]. apply Forall_cons in Hacc as [Hr Hacc]. cbn [mul_row].
  specialize (IH acc Ha HB Hacc E). destruct (mul_row al a B acc) as [c rs]. destruct IH as (El & Hrs & Hc & Hv).
  unfold BigHex.word in Ha, Hb, Hr. assert (Hx : 0 <= a * b + r + c < R * R) by nia.
  destruct (double_word _ Hx) as [-> ->].
  pose proof (Z.div_mod (a * b + r + c) R ltac:(lia)) as Ed. pose proof (Z.mod_pos_bound (a * b + r + c) R ltac:(lia)).
  cbn [length BigHex.val]. rewrite pow_cons.
  replace (zlen rs) with (zlen B) by (unfold zlen; congruence). replace (zlen acc) with (zlen B) by (unfold zlen; congruence).
  split_and!; [congruence|by constructor| | |].
  - apply Z.div_pos; lia.
  - apply Z.div_lt_upper_bound; lia.
  - assert (Es : (a * b + r + c) * R ^ zlen B + val rs = r * R ^ zlen B + val acc + a * (b * R ^ zlen B + val B)) by nia.
    rewrite <- Es. set (x := a * b + r + c) in *.
      transitivity ((R * (x / R) + x mod R) * R ^ zlen B + val rs); [ring|by rewrite <- Ed].
Qed.

Lemma replicate_snoc_split k (l : list Z) :
  replicate k 0 ++ 0 :: l = replicate (S k) 0 ++ l.
Proof. induction k; cbn; [done|]. by f_equal. Qed.

Lemma mul_rows_val A B : Forall word A -> Forall word B -> length B = n -> (length A <= n)%nat -> val B < 2 ^ 256 ->
  exists low, mul_rows al A B (replicate (2 * n) 0) = replicate (n - length A) 0 ++ low /\
    length low = (n + length A)%nat /\ Forall word low /\ val low = val A * val B.
Proof.
  intros HA HB EB Hlen Hsmall. pose proof (radix_pos al) as HR.
  induction A as [|a A IH]; cbn [mul_rows length] in *.
  - exists (replicate n 0). rewrite <- replicate_add. replace (n - 0 + n)%nat with (2 * n)%nat by lia.
    split_and!; [done|rewrite length_replicate; lia|apply Forall_replicate; unfold BigHex.word; lia|rewrite val_zeros; cbn; lia].
  - apply Forall_cons in HA as [Ha HA]. destruct (IH HA ltac:(lia)) as (low & -> & El & Hlow & Hv).
    set (m := length A) in *. set (hi := take n low). set (lo := drop n low).
    assert (Elow : low = hi ++ lo) by (unfold hi, lo; by rewrite take_drop).
    assert (Ehi : length hi = n) by (unfold hi; rewrite length_take; lia).
    assert (Elo : length lo = m) by (unfold lo; rewrite length_drop; lia).
    rewrite Elow in Hlow, Hv. apply Forall_app in Hlow as [Hhi Hlo]. rewrite val_app in Hv.
    pose proof (val_range al hi Hhi) as Rhi. pose proof (val_range al lo Hlo) as Rlo. pose proof (val_range al B HB) as RB.
    pose proof (val_range al A HA) as RA. replace (zlen A) with (zlen lo) in RA by (unfold zlen; lia).
    rewrite take_app_length' by (by rewrite length_replicate). rewrite drop_app_length' by (by rewrite length_replicate).
    rewrite drop_app_add' by (by rewrite length_replicate). fold hi. fold lo.
    pose proof (mul_row_val a B hi Ha HB Hhi ltac:(lia)) as Hrow. destruct (mul_row al a B hi) as [c r].
    destruct Hrow as (Er & Hr & Hc & Hvr). cbn [snd].
    assert (EF : R ^ zlen B = R * 2 ^ 256) by (rewrite <- full_eq; unfold zlen, BigHex.FULL; by rewrite EB).
    pose proof (pow_pos al lo) as Hpl. unfold BigHex.word in Ha.
    assert (Hhb : val hi <= val B) by nia.
    pose proof (val_range al r Hr) as Rr. replace (zlen r) with (zlen B) in Rr by (unfold zlen; lia).
    assert (Hc0 : c = 0) by nia. subst c.
    exists (0 :: r ++ lo). replace (n - m)%nat with (S (n - S m)) by lia. rewrite replicate_snoc_split.
    split_and!; [done|cbn [length]; rewrite length_app; lia| |].
    + constructor; [unfold BigHex.word; lia|]. by apply Forall_app.
    + cbn [BigHex.val]. rewrite val_app. replace (zlen A) with (zlen lo) by (unfold zlen; lia).
      replace (val r) with (val hi + a * val B) by lia. nia.
Qed.

(** All the words of the product of two numbers below 2^256. *)
Lemma product_words a b : 0 <= a < 2 ^ 256 -> 0 <= b < 2 ^ 256 ->
  mul_rows al (digits n a) (digits n b) (replicate (2 * n) 0) = digits (2 * n) (a * b).
Proof.
  intros Ha Hb. pose proof (full_eq al) as EF. pose proof (radix_pos al).
  assert (HF : 2 ^ 256 <= FULL) by (rewrite EF; lia). unfold BigHex.FULL in HF.
  destruct (mul_rows_val (digits n a) (digits n b)) as (low & -> & El & Hl & Hv).
  - apply digits_words.
  - apply digits_words.
  - apply digits_length.
  - by rewrite digits_length.
  - rewrite val_digits by lia. lia.
  - rewrite digits_length in *. rewrite Nat.sub_diag. cbn [replicate app].
    rewrite !val_digits in Hv by lia. rewrite (words_val al low (a * b)), El by done. f_equal. lia.
Qed.

End Product.

(* ------------------------------------------------------------------ *)
(** ** One reduction *)

(** What [specialModP256] makes of a number: the top word's multiple of P and
    then P itself are taken off, once. *)
Definition sub_top (v : Z) : Z := if 2 ^ 256 <=? v then v - v / 2 ^ 256 * p256 else v.

Definition spm (v : Z) : Z :=
  if p256 <=? v then let w := sub_top v in if p256 <=? w then w - p256 else w else v.

Section Reduction.
Context (al : algo).

Notation R := (RADIX al).
Notation n := (ELEMENTS_BIG_HEX256 al).
Notation val := (val al).
Notation digits := (digits al).
Notation word := (word al).
Notation FULL := (FULL al).
Notation fits v := (0 <= v < FULL).
Notation enc := (enc al).

Lemma top_digit v : fits v -> digits n v = v / 2 ^ 256 :: digits (HIGHEST_INDEX_BIG_HEX256 al) v.
Proof.
  intros Hv. rewrite full_eq in Hv. pose proof (radix_pos al).
  assert (En : n = S (HIGHEST_INDEX_BIG_HEX256 al)) by (by destruct al). rewrite En. cbn [BigHex.digits].
  assert (Ep : R ^ Z.of_nat (HIGHEST_INDEX_BIG_HEX256 al) = 2 ^ 256) by (by destruct al). rewrite Ep.
  f_equal. apply Z.mod_small. split; [apply Z.div_pos; lia|]. apply Z.div_lt_upper_bound; lia.
Qed.

Lemma len_top s v : fits v -> (len (enc s v) >? len (bigHexP256 al)) = (2 ^ 256 <=? v).
Proof.
  intros Hv. cbn [len BigHex.enc]. rewrite top_digit by done. cbn [lead].
  assert (El : len (bigHexP256 al) = Z.of_nat n - 1) by (by destruct al). rewrite El.
  destruct (Z.eqb_spec (v / 2 ^ 256) 0) as [E|E].
  - apply Z.div_small_iff in E; [|done]. rewrite (proj2 (Z.leb_gt _ v)) by lia.
    rewrite Z.gtb_ltb. apply Z.ltb_ge. lia.
  - rewrite (proj2 (Z.leb_le _ v)); [rewrite Z.gtb_ltb; apply Z.ltb_lt; lia|]. apply Z.nlt_ge. intros Hlt. apply E, Z.div_small. lia.
Qed.

Lemma top_word s v : 2 ^ 256 <= v < FULL -> nth (Z.to_nat (Z.of_nat n - len (enc s v))) (num (enc s v)) 0 = v / 2 ^ 256.
Proof.
  intros Hv. cbn [len num BigHex.enc]. rewrite top_digit by lia. cbn [lead].
  assert (E : v / 2 ^ 256 <> 0). { intros E%Z.div_small_iff; [lia|done]. }
  rewrite (proj2 (Z.eqb_neq _ _)) by done. by rewrite Z.sub_0_r, Z.sub_diag.
Qed.

Lemma MultiplyByUModP256_enc N : 1 <= N < R -> MultiplyByUModP256 al N = enc 0 (N * p256).
Proof.
  intros HN.
  assert (Hw : Forall word (num (MultiplyByUModP256 al N)) /\ length (num (MultiplyByUModP256 al N)) = n /\
               val (num (MultiplyByUModP256 al N)) = N * p256).
  { unfold MultiplyByUModP256, BigHex.word. cbv zeta. cbn [num].
    destruct al; cbn [RADIX] in HN |- *; rewrite ?u16_small, ?u32_small by lia; (split_and!; [|done|]).
    - repeat constructor; lia.
    - cbn [BigHex.val]. repeat (rewrite zlen_cons || change (zlen (@nil Z)) with 0). cbn. unfold p256. lia.
    - repeat constructor; lia.
    - cbn [BigHex.val]. repeat (rewrite zlen_cons || change (zlen (@nil Z)) with 0). cbn. unfold p256. lia. }
  destruct Hw as (Hw & El & Hv). apply (words_val al _ _ Hw) in Hv. rewrite El in Hv.
  unfold BigHex.enc. rewrite <- Hv. unfold MultiplyByUModP256 at 1. cbv zeta.
  f_equal. clear Hv El Hw. unfold MultiplyByUModP256. cbv zeta. cbn [num].
  destruct al; cbn [RADIX] in HN; cbn [nth lead]; rewrite ?u16_small, ?u32_small by lia;
    (destruct (Z.eqb_spec (N - 1) 0) as [E|E]; cbn [negb lead]; [|by rewrite Z.sub_0_r]).
  - done.
  - rewrite (proj2 (Z.eqb_neq _ 0)) by lia. done.
Qed.

Lemma subtract_below junk v w : fits v -> 0 <= w <= v ->
  SubtractFromSelfBigHexSign256 al junk (enc 0 v) (enc 0 w) = enc 0 (v - w).
Proof.
  intros Hv Hw. unfold SubtractFromSelfBigHexSign256. change (sign (enc 0 v) =? 0) with true.
  change (sign (enc 0 w) =? 0) with true. cbn iota. rewrite isGreaterThanOrEqual256_enc, (proj2 (Z.leb_le w v)) by lia.
  by apply SubtractFromSelfBigHex256_enc.
Qed.

(** The quotient by 2^256 stands in for the quotient by P. *)
Lemma top_multiple v : 2 ^ 256 <= v < FULL ->
  1 <= v / 2 ^ 256 < R /\ 0 <= v / 2 ^ 256 * p256 <= v.
Proof.
  intros Hv. pose proof (full_eq al) as EF. pose proof p256_range.
  pose proof (Z.div_mod v (2 ^ 256) ltac:(done)) as Ed. pose proof (Z.mod_pos_bound v (2 ^ 256) ltac:(done)).
  assert (1 <= v / 2 ^ 256 < R) by (split; [apply Z.div_le_lower_bound; lia|apply Z.div_lt_upper_bound; lia]).
  split; [done|nia].
Qed.

Lemma top_subtracted junk v : 2 ^ 256 <= v < FULL ->
  SubtractFromSelfBigHexSign256 al junk (enc 0 v) (MultiplyByUModP256 al (v / 2 ^ 256)) = enc 0 (v - v / 2 ^ 256 * p256).
Proof.
  intros Hv. destruct (top_multiple v Hv) as [HN HNp]. rewrite MultiplyByUModP256_enc by done.
  apply subtract_below; lia.
Qed.

Lemma sub_top_fits v : fits v -> fits (sub_top v).
Proof.
  intros Hv. unfold sub_top. destruct (Z.leb_spec (2 ^ 256) v); [|done].
  destruct (top_multiple v ltac:(lia)). lia.
Qed.

Lemma specialModP256_enc junk v : fits v -> specialModP256 al junk (enc 0 v) = enc 0 (spm v).
Proof.
  intros Hv. pose proof (p_fits al) as Hp.
  unfold specialModP256, spm. cbv zeta.
  assert (Hb : forall w, fits w -> (sign (enc 0 w) =? 0) && isGreaterThanOrEqual256 al (enc 0 w) (bigHexP256 al)
    || (sign (enc 0 w) =? 1) = (p256 <=? w)).
  { intros w Hw. rewrite bigHexP256_enc, isGreaterThanOrEqual256_enc by done. by rewrite orb_false_r. }
  rewrite Hb by done. destruct (Z.leb_spec p256 v) as [Hge|Hlt]; [|done].
  rewrite len_top by done. change (sign (enc 0 v) =? 0) with true. cbn iota.
  assert (Es : (if 2 ^ 256 <=? v then SubtractFromSelfBigHexSign256 al junk (enc 0 v)
      (MultiplyByUModP256 al (nth (Z.to_nat (Z.of_nat n - len (enc 0 v))) (num (enc 0 v)) 0)) else enc 0 v) = enc 0 (sub_top v)).
  { unfold sub_top. destruct (Z.leb_spec (2 ^ 256) v); [|done]. rewrite top_word by lia. apply top_subtracted; lia. }
  rewrite Es, Hb by (by apply sub_top_fits). pose proof (sub_top_fits v Hv).
  destruct (Z.leb_spec p256 (sub_top v)); [|done]. change (sign (enc 0 (sub_top v)) =? 1) with false. cbn iota.
  rewrite bigHexP256_enc. apply SubtractFromSelfBigHex256_enc; lia.
Qed.

(** Below zero the top multiple is taken off the magnitude, which P must then exceed. *)
Lemma specialModP256_sign junk v : fits v -> specialModP256 al junk (enc 1 v) = AddP256 al junk (enc 1 (sub_top v)).
Proof.
  intros Hv. unfold specialModP256. cbv zeta. change (sign (enc 1 v) =? 1) with true.
  rewrite orb_true_r, len_top by done. change (sign (enc 1 v) =? 0) with false. cbn iota.
  change (with_sign (enc 1 v) 0) with (enc 0 v).
  assert (Es : (if 2 ^ 256 <=? v then with_sign (SubtractFromSelfBigHexSign256 al junk (enc 0 v)
      (MultiplyByUModP256 al (nth (Z.to_nat (Z.of_nat n - len (enc 1 v))) (num (enc 1 v)) 0))) 1 else enc 1 v) = enc 1 (sub_top v)).
  { unfold sub_top. destruct (Z.leb_spec (2 ^ 256) v); [|done]. rewrite top_word, top_subtracted by lia. done. }
  rewrite Es. change (sign (enc 1 (sub_top v)) =? 1) with true. by rewrite orb_true_r.
Qed.

Lemma specialModP256_neg junk v : fits v -> sub_top v <= p256 ->
  specialModP256 al junk (enc 1 v) = enc 0 (p256 - sub_top v).
Proof. intros Hv Hs. rewrite specialModP256_sign by done. pose proof (sub_top_fits v Hv). apply AddP256_enc. lia. Qed.

(** Beyond P the addition borrows past the words. *)
Lemma specialModP256_borrow junk v : fits v -> p256 < sub_top v ->
  specialModP256 al junk (enc 1 v) = enc 0 (p256 - sub_top v + FULL).
Proof.
  intros Hv Hs. rewrite specialModP256_sign by done. pose proof (sub_top_fits v Hv). pose proof (p_fits al).
  unfold AddP256. rewrite bigHexP256_enc, SubtractBigHex256_enc by done. by rewrite (proj2 (Z.leb_gt _ _)) by lia.
Qed.

Lemma sub_top_mod v : exists k, sub_top v = v - k * p256.
Proof. unfold sub_top. destruct (_ <=? _); [eauto|]. exists 0. lia. Qed.

Lemma spm_mod v : (spm v) mod p256 = v mod p256.
Proof.
  pose proof p256_range. unfold spm. destruct (sub_top_mod v) as (k & ->).
  destruct (_ <=? _); [|done]. cbv zeta.
  destruct (_ <=? _).
  - replace (v - k * p256 - p256) with (v + (- k - 1) * p256) by lia. apply Z.mod_add. lia.
  - replace (v - k * p256) with (v + (- k) * p256) by lia. apply Z.mod_add. lia.
Qed.

Lemma spm_range v : fits v -> 0 <= spm v < 2 ^ 256.
Proof.
  intros Hv. pose proof (full_eq al) as EF. pose proof p256_range. pose proof (sub_top_fits v Hv). unfold spm.
  destruct (Z.leb_spec p256 v); [|lia]. cbv zeta.
  assert (Hs : sub_top v < 2 ^ 256 + p256).
  { unfold sub_top. destruct (Z.leb_spec (2 ^ 256) v); [|lia].
    pose proof (Z.div_mod v (2 ^ 256) ltac:(done)). pose proof (Z.mod_pos_bound v (2 ^ 256) ltac:(done)).
    assert (HR : R <= 2 ^ 32) by (by destruct al).
    assert (Hg : (2 ^ 256 - p256) * 2 ^ 32 <= p256) by (by vm_compute).
    destruct (top_multiple v ltac:(lia)). nia. }
  destruct (Z.leb_spec p256 (sub_top v)); lia.
Qed.

(** Up to [p256 * R] one reduction is enough. *)
Lemma spm_exact v : 0 <= v < p256 * R -> spm v = v mod p256.
Proof.
  intros Hv. pose proof (full_eq al) as EF. pose proof p256_range as Hp.
  assert (HR : 0 < R <= 2 ^ 32) by (by destruct al).
  rewrite <- spm_mod. symmetry. apply Z.mod_small.
  assert (Hf : fits v) by nia. pose proof (spm_range v Hf). split; [lia|]. unfold spm.
  destruct (Z.leb_spec p256 v); [|lia]. cbv zeta.
  assert (H2p : 2 ^ 256 < 2 * p256) by (by vm_compute).
  assert (Hs : sub_top v < 2 * p256).
  { unfold sub_top. destruct (Z.leb_spec (2 ^ 256) v); [|lia].
    pose proof (Z.div_mod v (2 ^ 256) ltac:(done)). pose proof (Z.mod_pos_bound v (2 ^ 256) ltac:(done)).
    assert (Hg : (2 ^ 256 - p256) * 2 ^ 32 < 2 ^ 256) by (by vm_compute).
    destruct (top_multiple v ltac:(lia)) as [HN _]. set (N := v / 2 ^ 256) in *.
    destruct (Z.le_gt_cases (R - 2) N) as [Hbig|Hsmall].
    - assert (p256 * R <= p256 * (N + 2)) by (apply Z.mul_le_mono_nonneg_l; lia). lia.
    - assert (N * (2 ^ 256 - p256) <= (2 ^ 32 - 3) * (2 ^ 256 - p256)) by (apply Z.mul_le_mono_nonneg_r; lia). lia. }
  destruct (Z.leb_spec p256 (sub_top v)); lia.
Qed.

End Reduction.

(* ------------------------------------------------------------------ *)
(** ** The product modulo P *)

Section Multiply.
Context (al : algo).

Notation R := (RADIX al).
Notation n := (ELEMENTS_BIG_HEX256 al).
Notation HI := (HIGHEST_INDEX_BIG_HEX256 al).
Notation val := (val al).
Notation digits := (digits al).
Notation word := (word al).
Notation FULL := (FULL al).
Notation fits v := (0 <= v < FULL).
Notation enc := (enc al).

(** [mod_words] on numbers. *)
Fixpoint fold_mod (T : Z) (rest : list Z) : Z :=
  match rest with
  | [] => spm T
  | d :: rest => fold_mod (spm T * R + d) rest
  end.

Lemma shift_in r d : 0 <= r < 2 ^ 256 -> word d ->
  let t := shiftLeftOneArrayElement256 al (enc 0 r) in
  setBigNumberLength256 al (with_num t (<[HI := d]> (num t))) = enc 0 (r * R + d).
Proof.
  intros Hr Hd. cbv zeta. unfold shiftLeftOneArrayElement256. cbn [num with_num BigHex.enc len sign].
  pose proof (full_eq al) as EF. pose proof (radix_pos al) as HR.
  assert (Hf : fits r) by lia. assert (En : n = S HI) by (by destruct al).
  assert (Et : digits n r = 0 :: digits HI r) by (rewrite top_digit, (Z.div_small r) by done; done).
  assert (Ex : exists x, drop HI (digits n r) = [x]).
  { assert (El : length (drop HI (digits n r)) = 1%nat) by (rewrite length_drop, digits_length; lia).
    destruct (drop HI (digits n r)) as [|x [|]]; try done. eauto. }
  destruct Ex as (x & ->). rewrite Et. cbn [tail].
  rewrite insert_app_r_alt by (rewrite digits_length; lia). rewrite digits_length, Nat.sub_diag. cbn [list_insert insert].
  apply set_length_enc.
  - apply Forall_app. split; [apply digits_words|]. by apply Forall_singleton.
  - rewrite length_app, digits_length. cbn. lia.
  - rewrite val_app, val_digits.
    + change (R ^ zlen [d]) with (R ^ 1). cbn [BigHex.val]. change (R ^ zlen []) with 1. rewrite Z.pow_1_r. lia.
    + assert (Ep : R ^ Z.of_nat HI = 2 ^ 256) by (by destruct al). lia.
Qed.

Lemma mod_words_enc junk rest : forall T, fits T -> Forall word rest ->
  mod_words al junk (enc 0 T) rest = enc 0 (fold_mod T rest).
Proof.
  pose proof (full_eq al) as EF. pose proof (radix_pos al) as HR.
  induction rest as [|d rest IH]; intros T HT Hrest; cbn [mod_words fold_mod].
  - by apply specialModP256_enc.
  - apply Forall_cons in Hrest as [Hd Hrest]. rewrite specialModP256_enc by done.
    pose proof (spm_range al T HT) as Hs. rewrite shift_in by done. unfold BigHex.word in Hd. apply IH; [nia|done].
Qed.

Lemma fold_mod_range rest : forall T, fits T -> Forall word rest -> 0 <= fold_mod T rest < 2 ^ 256.
Proof.
  pose proof (full_eq al) as EF. pose proof (radix_pos al) as HR.
  induction rest as [|d rest IH]; intros T HT Hrest; cbn [fold_mod]; [by apply (spm_range al)|].
  apply Forall_cons in Hrest as [Hd Hrest]. pose proof (spm_range al T HT) as Hs. unfold BigHex.word in Hd.
  apply IH; [nia|done].
Qed.

Lemma fold_mod_congr rest : forall T, fold_mod T rest mod p256 = (T * R ^ zlen rest + val rest) mod p256.
Proof.
  pose proof p256_range as Hp. induction rest as [|d rest IH]; intros T; cbn [fold_mod BigHex.val].
  - rewrite spm_mod. f_equal. rewrite zlen_nil. lia.
  - rewrite IH, pow_cons.
    pose proof (spm_mod T) as Es. revert Es. generalize (spm T), (R ^ zlen rest), (val rest). intros t M w Es.
    replace ((t * R + d) * M + w) with (t * (R * M) + (d * M + w)) by ring.
    assert (Hp0 : p256 <> 0) by lia. generalize (R * M), (d * M + w). intros x y.
    by rewrite <- (Z.add_mod_idemp_l (t * x)), <- (Z.mul_mod_idemp_l t), Es, Z.mul_mod_idemp_l, Z.add_mod_idemp_l.
Qed.

Lemma fold_mod_exact rest : forall T, 0 <= T < p256 * R -> Forall word rest ->
  fold_mod T rest = (T * R ^ zlen rest + val rest) mod p256.
Proof.
  pose proof p256_range as Hp. pose proof (radix_pos al) as HR. intros T HT Hrest. rewrite <- fold_mod_congr.
  symmetry. apply Z.mod_small. revert T HT. induction rest as [|d rest IH]; intros T HT; cbn [fold_mod].
  - rewrite (spm_exact al) by done. apply Z.mod_pos_bound. lia.
  - apply Forall_cons in Hrest as [Hd Hrest]. unfold BigHex.word in Hd. apply IH; [done|].
    rewrite (spm_exact al) by done. pose proof (Z.mod_pos_bound T p256 ltac:(lia)). nia.
Qed.

Lemma very_ge_gt A B : very_ge_words A B = gt_words true A B.
Proof.
  revert B. induction A as [|a A IH]; intros [|b B]; cbn; try done. rewrite IH.
  destruct (Z.eqb_spec b a) as [->|Hne]; cbn [negb].
  - by rewrite Z.gtb_ltb, Z.ltb_irrefl.
  - rewrite Z.gtb_ltb. destruct (Z.ltb_spec b a), (Z.ltb_spec a b); try done; lia.
Qed.

(** The words of a product and their comparison with P. *)
Definition product (v : Z) : bigHex256 :=
  mk_big (digits (2 * n) v) (2 * Z.of_nat n - Z.of_nat (lead (digits (2 * n) v))) 0.

Notation DOUBLE := (R ^ Z.of_nat (2 * n)).

Lemma double_eq : DOUBLE = FULL * FULL.
Proof. unfold BigHex.FULL. rewrite <- Z.pow_add_r by lia. f_equal. lia. Qed.

Lemma product_ge v : 0 <= v < DOUBLE ->
  isVeryBigHexGreaterThanOrEqual256 al (product v) (veryBigHexP256 al) = (p256 <=? v).
Proof.
  intros Hv. pose proof (p_fits al) as Hp.
  assert (EP : veryBigHexP256 al = product p256) by (unfold product; destruct al; by vm_compute).
  rewrite EP. unfold isVeryBigHexGreaterThanOrEqual256. cbn [len num product]. cbv zeta. rewrite very_ge_gt.
  pose proof (compare_digits al (2 * n) true v p256 Hv) as H.
  cbv zeta in H. replace (Z.of_nat (2 * n)) with (2 * Z.of_nat n) in H by lia. rewrite H.
  - unfold Z.leb. by destruct (p256 ?= v).
  - replace (2 * Z.of_nat n) with (Z.of_nat (2 * n)) by lia. rewrite double_eq. nia.
Qed.

(** Where the first of the words that are reduced stands, and what they hold. *)
Definition window (v : Z) : Z := v / R ^ (Z.of_nat n - Z.of_nat (lead (digits (2 * n) v))).

(** The operands on which the reduction is exact: below [P] nothing is to be
    done, between [P] and 2^256 the code goes wrong, and above the first words
    must not start with two words of ones. *)
Definition mul_exact (a b : Z) : bool :=
  let v := a * b in if 2 ^ 256 <=? v then window v <? p256 * R else v <? p256.

Lemma lead_big v : 2 ^ 256 <= v < DOUBLE -> (lead (digits (2 * n) v) <= n)%nat.
Proof.
  intros Hv. pose proof (lead_upper al (digits (2 * n) v) (digits_words _ _ _)) as H. rewrite val_digits, zlen_digits in H by lia.
  destruct (le_gt_dec (lead (digits (2 * n) v)) n) as [|Hgt]; [done|exfalso].
  assert (Ep : R ^ Z.of_nat HI = 2 ^ 256) by (by destruct al). assert (En : n = S HI) by (by destruct al).
  assert (R ^ (Z.of_nat (2 * n) - Z.of_nat (lead (digits (2 * n) v))) <= R ^ Z.of_nat HI); [|lia].
  apply Z.pow_le_mono_r; [destruct al; done|lia].
Qed.

Lemma lead_small v : 0 <= v < 2 ^ 256 -> (n < lead (digits (2 * n) v))%nat.
Proof.
  intros Hv. assert (Ep : R ^ Z.of_nat HI = 2 ^ 256) by (by destruct al). assert (En : n = S HI) by (by destruct al).
  assert (Hd : v < DOUBLE). { rewrite double_eq, full_eq. pose proof (radix_pos al). nia. }
  destruct (decide (v = 0)) as [->|Hne].
  { assert (E0 : forall k, lead (digits k 0) = k) by (induction k as [|k IH]; cbn; [done|rewrite Z.div_0_l, Z.mod_0_l, IH; try done; pose proof (pow_nat_pos al k); destruct al; lia || done]).
    rewrite E0. lia. }
  destruct (lead_lower al (digits (2 * n) v) (digits_words _ _ _)) as [H _]; rewrite val_digits in * by lia; [lia|].
  rewrite zlen_digits in H. destruct (le_gt_dec (lead (digits (2 * n) v)) n) as [Hle|]; [exfalso|lia].
  assert (R ^ Z.of_nat HI <= R ^ (Z.of_nat (2 * n) - Z.of_nat (lead (digits (2 * n) v)) - 1)); [|lia].
  apply Z.pow_le_mono_r; [destruct al; done|lia].
Qed.

(** The product with the two early steps done. *)
Lemma multiply_start junk a b : 0 <= a < 2 ^ 256 -> 0 <= b < 2 ^ 256 ->
  let v := a * b in
  let i := Nat.min (lead (digits (2 * n) v)) n in
  let i := if p256 <=? v then (i + lead (drop i (digits (2 * n) v)))%nat else i in
  MultiplyBigHexModP256 al junk (enc 0 a) (enc 0 b) =
    mod_words al junk
      (setBigNumberLength256 al (mk_big (take n (drop i (digits (2 * n) v ++ fields_after al (product v)))) 0 0))
      (drop (i + n) (digits (2 * n) v)).
Proof.
  intros Ha Hb. cbv zeta. unfold MultiplyBigHexModP256. cbv zeta.
  change (sign (enc 0 a) =? sign (enc 0 b)) with true. cbn iota.
  change (num (enc 0 a)) with (digits n a). change (num (enc 0 b)) with (digits n b). rewrite product_words by done.
  change (with_sign (setVeryBigNumberLength256 al (mk_big (digits (2 * n) (a * b)) 0 0)) 0) with (product (a * b)).
  rewrite product_ge; [|rewrite double_eq, full_eq; pose proof (radix_pos al); nia].
  change (num (product (a * b))) with (digits (2 * n) (a * b)). change (sign (product (a * b))) with 0.
  by destruct (mod_words _ _ _ _).
Qed.

Lemma take_window v : 2 ^ 256 <= v < DOUBLE ->
  let k := lead (digits (2 * n) v) in
  take n (drop k (digits (2 * n) v)) = digits n (window v) /\ fits (window v) /\
  v = window v * R ^ zlen (drop (k + n) (digits (2 * n) v)) + val (drop (k + n) (digits (2 * n) v)) /\
  Forall word (drop (k + n) (digits (2 * n) v)).
Proof.
  intros Hv. cbv zeta. set (k := lead (digits (2 * n) v)). pose proof (lead_big v Hv) as Hk. fold k in Hk.
  set (L := digits (2 * n) v). assert (HL : Forall word L) by apply digits_words.
  set (T := take n (drop k L)). set (rest := drop (k + n) L).
  assert (EL : drop k L = T ++ rest) by (unfold T, rest; by rewrite <- drop_drop, take_drop).
  assert (HT : Forall word T) by (unfold T; by apply Forall_take, Forall_drop).
  assert (Hr : Forall word rest) by (unfold rest; by apply Forall_drop).
  assert (ElT : length T = n) by (unfold T, L; rewrite length_take, length_drop, digits_length; lia).
  assert (Elr : zlen rest = Z.of_nat n - Z.of_nat k) by (unfold zlen, rest, L; rewrite length_drop, digits_length; lia).
  assert (Ev : v = val T * R ^ zlen rest + val rest).
  { assert (E0 : val L = v) by (unfold L; rewrite val_digits; lia). rewrite <- E0, <- (take_drop k L), val_app, EL, val_app.
    assert (Ez : val (take k L) = 0); [|rewrite Ez; lia].
    clear. unfold k. fold L. induction L as [|d r IH]; [done|]. cbn [lead]. destruct (Z.eqb_spec d 0) as [->|]; [|done].
    cbn [take BigHex.val]. rewrite IH. lia. }
  pose proof (val_range al rest Hr) as Rr. pose proof (val_range al T HT) as RT.
  assert (Ew : window v = val T).
  { change (window v) with (v / R ^ (Z.of_nat n - Z.of_nat k)). rewrite <- Elr, Ev at 1. rewrite Z.div_add_l, Z.div_small; lia. }
  rewrite Ew. split; [|split; [unfold BigHex.FULL; rewrite <- ElT; exact RT|done]].
  transitivity (digits (length T) (val T)); [symmetry; by apply digits_val|by rewrite ElT].
Qed.

(** Above 2^256. *)
Lemma multiply_big junk a b : 0 <= a < 2 ^ 256 -> 0 <= b < 2 ^ 256 -> 2 ^ 256 <= a * b ->
  exists rest, Forall word rest /\ a * b = window (a * b) * R ^ zlen rest + val rest /\ fits (window (a * b)) /\
  MultiplyBigHexModP256 al junk (enc 0 a) (enc 0 b) = enc 0 (fold_mod (window (a * b)) rest).
Proof.
  intros Ha Hb Hbig. pose proof p256_range as Hp.
  assert (Hv : 2 ^ 256 <= a * b < DOUBLE) by (rewrite double_eq, full_eq; pose proof (radix_pos al); nia).
  rewrite multiply_start by done. cbv zeta. pose proof (lead_big _ Hv) as Hk. rewrite Nat.min_l by done.
  rewrite (proj2 (Z.leb_le p256 (a * b))) by lia.
  destruct (take_window _ Hv) as (ET & HT & Ev & Hr).
  rewrite lead_drop, Nat.add_0_r.
  - set (k := lead (digits (2 * n) (a * b))) in *. exists (drop (k + n) (digits (2 * n) (a * b))). split_and!; [done|done|apply HT..|].
    rewrite drop_app_le by (rewrite digits_length; lia).
    rewrite take_app_le by (rewrite length_drop, digits_length; lia). rewrite ET.
    rewrite <- mod_words_enc with (junk := junk) by done. f_equal.
  - rewrite digits_length. destruct al; cbn in Hk |- *; lia.
Qed.

(** Below 2^256 the first words end with the last word of the product, or one
    word too far. *)
Lemma multiply_small junk a b : 0 <= a < 2 ^ 256 -> 0 <= b < 2 ^ 256 -> a * b < 2 ^ 256 ->
  MultiplyBigHexModP256 al junk (enc 0 a) (enc 0 b) =
    enc 0 (if p256 <=? a * b then spm (a * b * R + Z.of_nat HI) else a * b).
Proof.
  intros Ha Hb Hsmall. pose proof p256_range as Hp. pose proof (full_eq al) as EF. pose proof (radix_pos al) as HR.
  assert (Hv : 0 <= a * b < 2 ^ 256) by nia. pose proof (lead_small _ Hv) as Hk.
  rewrite multiply_start by done. cbv zeta. rewrite Nat.min_r by lia. set (v := a * b) in *.
  assert (En : n = S HI) by (by destruct al).
  assert (Etail : forall j, (n <= j <= 2 * n)%nat -> drop j (digits (2 * n) v) = digits (2 * n - j) v).
  { assert (G : forall m j, (j <= m)%nat -> drop j (digits m v) = digits (m - j) v).
    { induction m as [|m IH]; intros j Hj; [by destruct j|]. destruct j as [|j]; [done|]. cbn [BigHex.digits drop].
      rewrite IH by lia. done. }
    intros j Hj. apply G. lia. }
  destruct (Z.leb_spec p256 v) as [Hge|Hlt].
  - assert (El : lead (digits (2 * n) v) = S n).
    { destruct (lead_lower al (digits (2 * n) v) (digits_words _ _ _)) as [Hlo _].
      { rewrite val_digits; [lia|]. rewrite double_eq. nia. }
      pose proof (lead_upper al (digits (2 * n) v) (digits_words _ _ _)) as Hup.
      rewrite val_digits, zlen_digits in * by (rewrite double_eq; nia).
      destruct (le_gt_dec (lead (digits (2 * n) v)) (S n)); [lia|exfalso].
      assert (R ^ (Z.of_nat (2 * n) - Z.of_nat (lead (digits (2 * n) v))) <= R ^ (Z.of_nat n - 2)); [apply Z.pow_le_mono_r; lia|].
      assert (R ^ (Z.of_nat n - 2) < p256) by (by destruct al; vm_compute). lia. }
    assert (Ed : lead (drop n (digits (2 * n) v)) = 1%nat).
    { assert (G : forall j L, (j <= lead L)%nat -> lead (drop j L) = (lead L - j)%nat).
      { induction j as [|j IH]; intros [|d L] Hj; cbn [lead drop] in *; try lia. destruct (d =? 0); [|lia]. rewrite IH; lia. }
      rewrite G, El by lia. lia. }
    rewrite Ed, (drop_ge (digits _ _)) by (rewrite digits_length; lia). cbn [mod_words].
    rewrite drop_app_le by (rewrite digits_length; destruct al; cbn; lia). rewrite Etail by (destruct al; cbn; lia).
    rewrite take_app_ge by (rewrite digits_length; lia). rewrite digits_length.
    replace (n - (2 * n - (n + 1)))%nat with 1%nat by (destruct al; cbn; lia).
    assert (Ef : take 1 (fields_after al (product v)) = [Z.of_nat HI]).
    { unfold fields_after, product. rewrite El. by destruct al. }
    assert (Hh : 0 <= Z.of_nat HI < R) by (by destruct al).
    rewrite Ef, <- (specialModP256_enc al junk) by (rewrite EF; nia). f_equal.
    assert (Ew : Forall word (digits (2 * n - (n + 1)) v ++ [Z.of_nat HI])).
    { apply Forall_app. split; [apply digits_words|]. apply Forall_singleton. by destruct al. }
    apply set_length_enc; [done|rewrite length_app, digits_length; destruct al; done|].
    rewrite val_app, val_digits.
    + change (R ^ zlen [Z.of_nat HI]) with (R ^ 1). cbn [BigHex.val]. change (R ^ zlen []) with 1. rewrite Z.pow_1_r. lia.
    + assert (Ep : R ^ Z.of_nat (2 * n - (n + 1)) = 2 ^ 256) by (by destruct al). lia.
  - rewrite (drop_ge (digits _ _)) by (rewrite digits_length; lia). cbn [mod_words].
    rewrite drop_app_le by (rewrite digits_length; lia). rewrite Etail by lia.
    rewrite take_app_le by (rewrite digits_length; lia). rewrite take_ge by (rewrite digits_length; lia).
    assert (Es : spm v = v) by (unfold spm; by rewrite (proj2 (Z.leb_gt p256 v)) by lia).
    transitivity (enc 0 (spm v)); [|by rewrite Es]. rewrite <- (specialModP256_enc al junk) by lia. f_equal.
    replace (2 * n - n)%nat with n by lia. 
    apply set_length_enc; [apply digits_words|apply digits_length|]. apply val_digits. fold FULL. lia.
Qed.

(** The product on the operands it is exact on. *)
Lemma MultiplyBigHexModP256_enc junk a b : 0 <= a < p256 -> 0 <= b < p256 -> mul_exact a b = true ->
  MultiplyBigHexModP256 al junk (enc 0 a) (enc 0 b) = enc 0 (a * b mod p256).
Proof.
  intros Ha Hb Hex. pose proof p256_range as Hp. unfold mul_exact in Hex. cbv zeta in Hex.
  destruct (Z.leb_spec (2 ^ 256) (a * b)) as [Hbig|Hsmall]; zbool.
  - destruct (multiply_big junk a b ltac:(lia) ltac:(lia) Hbig) as (rest & Hr & Ev & HT & ->).
    rewrite fold_mod_exact by (done || lia). by rewrite <- Ev.
  - rewrite multiply_small by lia. rewrite (proj2 (Z.leb_gt p256 (a * b))) by lia. f_equal. symmetry. apply Z.mod_small. nia.
Qed.

End Multiply.

(* ------------------------------------------------------------------ *)
(** ** Small multiples *)

Section Small.
Context (al : algo).

Notation R := (RADIX al).
Notation n := (ELEMENTS_BIG_HEX256 al).
Notation val := (val al).
Notation enc := (enc al).

Lemma small_words_val A k : Forall (word al) A -> 0 <= k < R ->
  let '(c, r) := small_words al A k in
  length r = length A /\ Forall (word al) r /\ 0 <= c < R /\ val r + c * R ^ zlen A = val A * k.
Proof.
  pose proof (radix_pos al) as HR. intros HA Hk.
  induction A as [|a A IH]; cbn [small_words]; [split_and!; try done; lia|].
  apply Forall_cons in HA as [Ha HA]. specialize (IH HA). destruct (small_words al A k) as [c r].
  destruct IH as (El & Hr & Hc & Hv). unfold word in Ha.
  assert (Hx : 0 <= a * k + c < R * R) by nia. destruct (double_word al _ Hx) as [-> ->].
  pose proof (Z.div_mod (a * k + c) R ltac:(lia)) as Ed. pose proof (Z.mod_pos_bound (a * k + c) R ltac:(lia)).
  cbn [length BigHex.val]. rewrite pow_cons. replace (zlen r) with (zlen A) by (unfold zlen; congruence).
  split_and!; [congruence|by constructor|apply Z.div_pos; lia|apply Z.div_lt_upper_bound; lia|].
  transitivity ((R * ((a * k + c) / R) + (a * k + c) mod R) * R ^ zlen A + val r); [ring|]. rewrite <- Ed. nia.
Qed.

Lemma MultiplyBigHexByUint32_256_enc junk a k : 0 <= a < p256 -> 0 <= k <= 8 ->
  MultiplyBigHexByUint32_256 al junk (enc 0 a) k = enc 0 (a * k mod p256).
Proof.
  intros Ha Hk. pose proof p256_range as Hp. pose proof (full_eq al) as EF. assert (HR : 8 < R) by (by destruct al).
  unfold MultiplyBigHexByUint32_256. change (num (enc 0 a)) with (digits al n a).
  pose proof (small_words_val (digits al n a) k (digits_words al n a) ltac:(lia)) as H.
  rewrite val_digits, digits_length, zlen_digits in H by (unfold BigHex.FULL in EF; nia).
  destruct (small_words al (digits al n a) k) as [c r]. destruct H as (El & Hr & Hc & Hv). fold (FULL al) in Hv.
  pose proof (val_range al r Hr) as Rr. assert (Ec : c = 0) by nia. cbn [snd].
  change (sign (enc 0 a)) with 0. change (with_sign (setBigNumberLength256 al (mk_big r 0 0)) 0) with (setBigNumberLength256 al (mk_big r 0 0)).
  rewrite (set_length_enc al r 0 0 (a * k)) by (done || lia). rewrite specialModP256_enc by nia. by rewrite (spm_exact al) by nia.
Qed.

End Small.

(* ------------------------------------------------------------------ *)
(** ** The inversion *)

Section Inversion.
Context (al : algo).

Notation R := (RADIX al).
Notation n := (ELEMENTS_BIG_HEX256 al).
Notation enc := (enc al).
Notation encs := (encs al).
Notation FULL := (FULL al).

(** A coefficient: zero keeps the length 1 it was set up with. *)
Definition coeff (b : bigHex256) (x : Z) : Prop := b = encs x \/ (x = 0 /\ b = small_start al 0).

Lemma small_start_1 : small_start al 1 = encs 1.
Proof. destruct al; by vm_compute. Qed.

Lemma coeff_even b x : coeff b x -> ISBIGHEXEVEN256 al b = Z.even x.
Proof. intros [-> | [-> ->]]; [apply ISBIGHEXEVEN256_encs|destruct al; by vm_compute]. Qed.

Lemma coeff_half b x : coeff b x -> Z.abs x < FULL -> Z.even x = true -> divideByTwo256 al b = encs (x / 2).
Proof. intros [-> | [-> ->]] Hx He; [by apply divideByTwo256_encs|destruct al; by vm_compute]. Qed.

Lemma coeff_odd b x : coeff b x -> Z.even x = false -> b = encs x.
Proof. by intros [-> | [-> ->]]. Qed.

Lemma lead_digit l : Forall (word al) l -> (lead l < length l)%nat -> exists d r, drop (lead l) l = d :: r /\ 0 < d.
Proof.
  induction l as [|d r IH]; cbn [lead length]; intros Hl H; [lia|]. apply Forall_cons in Hl as [Hd Hr]. unfold word in Hd.
  destruct (Z.eqb_spec d 0) as [->|Hne]; cbn [drop]; [apply IH; [done|lia]|]. exists d, r. split; [done|lia].
Qed.

Lemma zero_start_compare s x : 0 < x < FULL ->
  isGreaterThanOrEqual256 al (small_start al 0) (enc s x) = false /\
  isGreaterThanOrEqual256 al (enc s x) (small_start al 0) = true.
Proof.
  intros Hx. unfold isGreaterThanOrEqual256. change (len (small_start al 0)) with 1. cbn [len BigHex.enc].
  destruct (lead_lower al (digits al n x) (digits_words _ _ _)) as [_ Hl]; [rewrite val_digits by (fold FULL; lia); lia|].
  destruct (lead_digit _ (digits_words al n x) Hl) as (d & r & Ed & Hd).
  assert (Er : length (d :: r) = (n - lead (digits al n x))%nat) by (rewrite <- Ed, length_drop, digits_length; done).
  rewrite digits_length in Hl. cbn [length] in Er. set (k := lead (digits al n x)) in *. cbv zeta.
  rewrite !Z.gtb_ltb.
  destruct (Z.ltb_spec (Z.of_nat n - Z.of_nat k) 1), (Z.ltb_spec 1 (Z.of_nat n - Z.of_nat k)); try lia; try done.
  assert (Ek : k = HIGHEST_INDEX_BIG_HEX256 al) by (unfold HIGHEST_INDEX_BIG_HEX256; lia).
  replace (Z.to_nat (Z.of_nat n - 1)) with k by lia.
  replace (Z.to_nat (Z.of_nat n - (Z.of_nat n - Z.of_nat k))) with k by lia.
  change (num (enc s x)) with (digits al n x). rewrite Ed. assert (Ez : drop k (num (small_start al 0)) = [0]) by (rewrite Ek; by destruct al).
  rewrite Ez. cbn [gt_words]. rewrite !Z.gtb_ltb, (proj2 (Z.ltb_lt 0 d)), (proj2 (Z.ltb_ge d 0)) by lia. done.
Qed.

(** The coefficients after a subtraction step. *)
Lemma coeff_sub_r junk x b y : x <> 0 -> coeff b y -> Z.abs x + Z.abs y < FULL ->
  SubtractFromSelfBigHexSign256 al junk (encs x) b = encs (x - y).
Proof.
  intros Hx [-> | [-> ->]] Hxy; [by apply SubtractFromSelfBigHexSign256_encs|].
  assert (Hz : num (small_start al 0) = num (enc 0 0)) by (destruct al; by vm_compute).
  unfold SubtractFromSelfBigHexSign256. change (sign (small_start al 0) =? 0) with true.
  rewrite sign_encs, Z.sub_0_r. destruct (Z.leb_spec 0 x) as [Hp|Hn]; cbn [Z.eqb].
  - rewrite encs_pos by done. rewrite (proj2 (zero_start_compare 0 x ltac:(lia))).
    unfold SubtractFromSelfBigHex256. rewrite Hz. change (SubtractFromSelfBigHex256 al (enc 0 x) (enc 0 0) = enc 0 x).
    rewrite SubtractFromSelfBigHex256_enc by lia. by f_equal; lia.
  - rewrite encs_neg by done. unfold Add2SelfBigHex256. rewrite Hz.
    change (Add2SelfBigHex256 al (enc 1 (- x)) (enc 0 0) = enc 1 (- x)). rewrite Add2SelfBigHex256_enc by lia. by f_equal; lia.
Qed.

Lemma coeff_sub_l junk b y x : x <> 0 -> coeff b y -> Z.abs x + Z.abs y < FULL ->
  SubtractFromSelfBigHexSign256 al junk b (encs x) = encs (y - x).
Proof.
  intros Hx [-> | [-> ->]] Hxy; [apply SubtractFromSelfBigHexSign256_encs; lia|].
  assert (Hz : num (small_start al 0) = num (enc 0 0)) by (destruct al; by vm_compute).
  unfold SubtractFromSelfBigHexSign256. change (sign (small_start al 0) =? 0) with true. cbn iota.
  rewrite sign_encs. destruct (Z.leb_spec 0 x) as [Hp|Hn]; cbn [Z.eqb].
  - rewrite encs_pos by done. rewrite (proj1 (zero_start_compare 0 x ltac:(lia))).
    unfold SubtractBigHex256. rewrite Hz. change (with_sign (SubtractBigHex256 al (enc 0 x) (enc 0 0) junk) 1 = encs (0 - x)).
    rewrite SubtractBigHex256_enc, (proj2 (Z.leb_le 0 x)), encs_neg by lia. change (enc 1 (x - 0) = enc 1 (- (0 - x))). by f_equal; lia.
  - rewrite encs_neg by done. unfold Add2SelfBigHex256. rewrite Hz.
    change (Add2SelfBigHex256 al (enc 0 0) (enc 1 (- x)) = encs (0 - x)). rewrite Add2SelfBigHex256_enc, encs_pos by lia. by f_equal; lia.
Qed.

Lemma p_odd_divide z : (p256 | 2 * z) -> (p256 | z).
Proof.
  intros H. assert (Ep : exists q, p256 = 2 * q + 1) by (exists (p256 / 2); by vm_compute). destruct Ep as (q & Ep).
  replace z with (p256 * z - 2 * z * q) by (rewrite Ep; ring).
  apply Z.divide_sub_r; [by apply Z.divide_factor_l|by apply Z.divide_mul_l].
Qed.

Lemma even_half x : Z.even x = true -> x = 2 * (x / 2).
Proof. intros [k ->]%Zeven_bool_iff%Zeven_ex. rewrite (Z.mul_comm 2), Z.div_mul; lia. Qed.

(** One halving of a coefficient. *)
Lemma coeff_halved junk a u b x B : Z.even u = true -> coeff b x -> Z.abs x + p256 <= 2 * B -> 4 * B <= FULL ->
  (p256 | a * x - u) ->
  exists x', (if ISBIGHEXEVEN256 al b then divideByTwo256 al b else AddPdiv2_256 al junk b) = encs x' /\
    (p256 | a * x' - u / 2) /\ Z.abs x' <= B.
Proof.
  intros Hu Hb HB HF Hd. pose proof p256_range as Hp. apply even_half in Hu. rewrite (coeff_even b x Hb).
  destruct (Z.even x) eqn:Ex.
  - exists (x / 2). rewrite (coeff_half b x) by (done || lia). apply even_half in Ex. split_and!; [done| |lia].
    apply p_odd_divide. replace (2 * (a * (x / 2) - u / 2)) with (a * x - u) by lia. done.
  - exists ((x + p256) / 2). rewrite (coeff_odd b x Hb Ex), AddPdiv2_256_encs by (done || lia).
    assert (Es : x + p256 = 2 * ((x + p256) / 2)) by (apply even_half; by rewrite Z.even_add, Ex).
    split_and!; [done| |lia].
    apply p_odd_divide. replace (2 * (a * ((x + p256) / 2) - u / 2)) with (a * x - u + p256 * a) by nia.
    apply Z.divide_add_r; [done|apply Z.divide_factor_l].
Qed.

Definition half_even (u : Z) : Z := if Z.even u then u / 2 else u.

Lemma halve_run fuel junk a : forall u b x B, 0 < u < FULL -> Z.log2 u < Z.of_nat fuel -> coeff b x ->
  p256 <= B -> 4 * B <= FULL -> (if Z.even u then Z.abs x + p256 <= 2 * B else Z.abs x <= B) -> (p256 | a * x - u) ->
  exists u' x' b', halve_loop al fuel junk (enc 0 u) b = Done (enc 0 u', b') /\ coeff b' x' /\
    (b = encs x -> b' = encs x') /\ Z.even u' = false /\ 0 < u' <= half_even u /\ (u' | u) /\
    (p256 | a * x' - u') /\ Z.abs x' <= B.
Proof.
  pose proof p256_range as Hp. induction fuel as [|fuel IH]; intros u b x B Hu Hfuel Hb HpB HF HB Hd.
  { pose proof (Z.log2_nonneg u). lia. }
  cbn [halve_loop]. rewrite ISBIGHEXEVEN256_enc. unfold half_even. destruct (Z.even u) eqn:Eu.
  - rewrite divideByTwo256_enc by lia. destruct (coeff_halved junk a u b x B Eu Hb HB HF Hd) as (x1 & E1 & Hd1 & Hx1).
    pose proof (even_half u Eu) as Eh.
    assert (Hl : Z.log2 (u / 2) = Z.log2 u - 1).
    { rewrite Eh at 2. rewrite Z.log2_double by lia. lia. }
    destruct (IH (u / 2) (encs x1) x1 B) as (u' & x' & b' & E & Hc & He & Ho & Hr & Hdiv & Hd' & Hx'); try done; try lia.
    + by left.
    + destruct (Z.even (u / 2)); lia.
    + exists u', x', b'. rewrite E1. split_and!; try done; try lia.
      * intros _. by apply He.
      * unfold half_even in Hr. destruct (Z.even (u / 2)) eqn:E2; [|lia]. pose proof (even_half _ E2). lia.
      * rewrite Eh. by apply Z.divide_mul_r.
  - exists u, x, b. split_and!; done || lia.
Qed.

Lemma len_zero s v : 0 <= v < FULL -> (len (enc s v) =? 0) = (v =? 0).
Proof.
  intros Hv. cbn [len BigHex.enc]. destruct (Z.eqb_spec v 0) as [->|Hne].
  - destruct al; by vm_compute.
  - destruct (lead_lower al (digits al n v) (digits_words _ _ _)) as [_ Hl]; [rewrite val_digits by (fold FULL; lia); lia|].
    rewrite digits_length in Hl. apply Z.eqb_neq. lia.
Qed.

(** The turns a value still allows: it is halved each time it was made even. *)
Definition turns_left (u : Z) : Z := Z.log2 (half_even u).

Lemma turns_drop u v : 0 < v < u -> Z.even u = false -> Z.even v = false -> turns_left (u - v) <= Z.log2 u - 1.
Proof.
  intros Huv Eu Ev. unfold turns_left, half_even. rewrite Z.even_sub, Eu, Ev. cbn [eqb Bool.eqb].
  assert (Eo : u = 2 * (u / 2) + 1).
  { pose proof (Z.div_mod u 2 ltac:(lia)) as E. rewrite Zmod_even, Eu in E. lia. }
  transitivity (Z.log2 (u / 2)); [apply Z.log2_le_mono, Z.div_le_mono; lia|].
  assert (E2 : Z.log2 u = Z.log2 (u / 2) + 1); [|lia]. rewrite Eo at 1. rewrite Z.log2_succ_double by lia. lia.
Qed.

Lemma gcd_one_divides u v u' v' : Z.gcd u v = 1 -> (u' | u) -> (v' | v) -> Z.gcd u' v' = 1.
Proof.
  intros Hg Hu Hv. apply Z.divide_1_r_nonneg; [apply Z.gcd_nonneg|]. rewrite <- Hg. apply Z.gcd_greatest.
  - transitivity u'; [apply Z.gcd_divide_l|done].
  - transitivity v'; [apply Z.gcd_divide_r|done].
Qed.

Lemma turns_odd u : Z.even u = false -> turns_left u = Z.log2 u.
Proof. intros E. unfold turns_left, half_even. by rewrite E. Qed.

Lemma coeff_nonzero a x u : (p256 | a * x - u) -> 0 < u < p256 -> x <> 0.
Proof.
  intros [k Hk] Hu ->. assert (Hc : u = - k * p256) by lia. assert (- k <= 0 \/ 1 <= - k) as [|] by lia; nia.
Qed.

(** The bound on a coefficient at the head of a turn. *)
Definition head_bound (u x M : Z) : Prop := if Z.even u then Z.abs x <= 2 * M else Z.abs x <= M.

Lemma inversion_turn fuel junk u v A C : inversion_loop al (S fuel) junk u v A C =
  if negb (len u =? 0) then
    '(u, A) ← halve_loop al INNER_FUEL junk u A; '(v, C) ← halve_loop al INNER_FUEL junk v C;
    if isGreaterThanOrEqual256 al u v then
      inversion_loop al fuel junk (SubtractFromSelfBigHex256 al u v) v (SubtractFromSelfBigHexSign256 al junk A C) C
    else inversion_loop al fuel junk u (SubtractFromSelfBigHex256 al v u) A (SubtractFromSelfBigHexSign256 al junk C A)
  else Done C.
Proof. reflexivity. Qed.

Lemma inversion_done fuel junk u v A C : (len u =? 0) = true -> inversion_loop al fuel junk u v A C = Done C.
Proof. intros E. destruct fuel; [cbn [inversion_loop]|rewrite inversion_turn]; by rewrite E. Qed.

Lemma inversion_step fuel junk u v A C u' A' v' C' : (len u =? 0) = false ->
  halve_loop al INNER_FUEL junk u A = Done (u', A') -> halve_loop al INNER_FUEL junk v C = Done (v', C') ->
  inversion_loop al (S fuel) junk u v A C =
    if isGreaterThanOrEqual256 al u' v' then
      inversion_loop al fuel junk (SubtractFromSelfBigHex256 al u' v') v' (SubtractFromSelfBigHexSign256 al junk A' C') C'
    else inversion_loop al fuel junk u' (SubtractFromSelfBigHex256 al v' u') A' (SubtractFromSelfBigHexSign256 al junk C' A').
Proof.
  rewrite inversion_turn. generalize (halve_loop al INNER_FUEL junk) as halve. intros halve -> E1 E2.
  cbn [negb]. rewrite E1. cbn [mbind outcome_bind]. by rewrite E2.
Qed.

Lemma inversion_run fuel junk a : forall u v x y C M,
  0 <= u < p256 -> 0 < v <= p256 -> Z.gcd u v = 1 -> coeff C y ->
  (p256 | a * x - u) -> (p256 | a * y - v) ->
  p256 <= M -> 16 * (M + (Z.of_nat fuel + 1) * p256) <= FULL -> head_bound u x M -> head_bound v y M ->
  u = 0 \/ turns_left u + turns_left v < Z.of_nat fuel ->
  exists C' y', inversion_loop al fuel junk (enc 0 u) (enc 0 v) (encs x) C = Done C' /\ coeff C' y' /\
    (p256 | a * y' - 1) /\ Z.abs y' <= 2 * (M + (Z.of_nat fuel + 1) * p256).
Proof.
  pose proof p256_range as Hp. pose proof (p_fits al) as Hpf.
  induction fuel as [|fuel IH]; intros u v x y C M Hu Hv Hg HC Hdx Hdy HM HF Hbx Hby Hm;
    destruct (decide (u = 0)) as [->|Hnz].
  1, 3: exists C, y; rewrite Z.gcd_0_l in Hg; replace v with 1 in Hdy by lia; rewrite inversion_done by (apply len_zero; lia);
    split_and!; try done; unfold head_bound in Hby; destruct (Z.even v); lia.
  { destruct Hm as [|Hm]; [done|]. pose proof (Z.log2_nonneg (half_even u)). pose proof (Z.log2_nonneg (half_even v)).
    unfold turns_left in Hm. lia. }
  destruct Hm as [|Hm]; [done|]. unfold head_bound in Hbx, Hby.
  assert (Hl : forall w, 0 < w <= p256 -> Z.log2 w < Z.of_nat INNER_FUEL).
  { intros w Hw. apply Z.log2_lt_pow2; [lia|]. change (Z.of_nat INNER_FUEL) with 256. lia. }
  destruct (halve_run INNER_FUEL junk a u (encs x) x (M + p256)) as (u' & x' & A' & EA & _ & HeA & Ho & Hur & Hud & Hdx' & Hx');
    try done; try lia; [apply Hl; lia|by left|destruct (Z.even u); lia|].
  destruct (halve_run INNER_FUEL junk a v C y (M + p256)) as (v' & y' & C' & EC & HcC & _ & Hov & Hvr & Hvd & Hdy' & Hy');
    try done; try lia; [apply Hl; lia|destruct (Z.even v); lia|].
  assert (Hlz : (len (enc 0 u) =? 0) = false) by (rewrite len_zero by lia; by apply Z.eqb_neq).
  rewrite (HeA eq_refl) in EA. rewrite (inversion_step _ _ _ _ _ _ _ _ _ _ Hlz EA EC).
  assert (Hu' : 0 < u' < p256 /\ Z.log2 u' <= turns_left u).
  { split; [|apply Z.log2_le_mono; lia]. unfold half_even in Hur. destruct (Z.even u) eqn:E; [pose proof (even_half _ E)|]; lia. }
  assert (Hv' : 0 < v' <= p256 /\ Z.log2 v' <= turns_left v).
  { split; [|apply Z.log2_le_mono; lia]. unfold half_even in Hvr. destruct (Z.even v) eqn:E; [pose proof (even_half _ E)|]; lia. }
  pose proof (coeff_nonzero a x' u' Hdx' ltac:(lia)) as Hxn. pose proof (gcd_one_divides _ _ _ _ Hg Hud Hvd) as Hg'.
  rewrite isGreaterThanOrEqual256_enc by lia. destruct (Z.leb_spec v' u') as [Hle|Hlt].
  - rewrite SubtractFromSelfBigHex256_enc, (coeff_sub_r junk x' C' y') by (done || lia).
    destruct (IH (u' - v') v' (x' - y') y' C' (M + p256)) as (D & z & E & Hz); try done; try lia.
    + by rewrite Z.gcd_comm, Z.gcd_sub_diag_r, Z.gcd_comm.
    + replace (a * (x' - y') - (u' - v')) with (a * x' - u' - (a * y' - v')) by ring. by apply Z.divide_sub_r.
    + unfold head_bound. rewrite Z.even_sub, Ho, Hov. cbn. lia.
    + unfold head_bound. by rewrite Hov.
    + assert (u' - v' = 0 \/ v' < u') as [|Hlt] by lia; [by left|right]. pose proof (turns_drop u' v' ltac:(lia) Ho Hov).
      rewrite (turns_odd v' Hov). lia.
    + exists D, z. destruct Hz as (? & ? & ?). split_and!; done || lia.
  - rewrite SubtractFromSelfBigHex256_enc, (coeff_sub_l junk C' y' x') by (done || lia).
    destruct (IH u' (v' - u') x' (y' - x') (encs (y' - x')) (M + p256)) as (D & z & E & Hz); try done; try lia.
    + by rewrite Z.gcd_sub_diag_r.
    + by left.
    + replace (a * (y' - x') - (v' - u')) with (a * y' - v' - (a * x' - u')) by ring. by apply Z.divide_sub_r.
    + unfold head_bound. by rewrite Ho.
    + unfold head_bound. rewrite Z.even_sub, Ho, Hov. cbn. lia.
    + right. pose proof (turns_drop v' u' ltac:(lia) Hov Ho). rewrite (turns_odd u' Ho). lia.
    + exists D, z. destruct Hz as (? & ? & ?). split_and!; done || lia.
Qed.

(** The coefficient the loop ends with, and the operands whose coefficient the
    closing reduction brings into the field: all but those that leave one
    between P and 2^256 below zero. *)
Definition last_coefficient (junk : bigHex256) (a : Z) : outcome bigHex256 :=
  inversion_loop al OUTER_FUEL junk (enc 0 a) (enc 0 p256) (small_start al 1) (small_start al 0).

Definition inverse_exact (junk : bigHex256) (a : Z) : bool :=
  match last_coefficient junk a with
  | Done C => (sign C =? 0) || (sub_top (val al (num C)) <=? p256)
  | _ => false
  end.

Lemma last_coefficient_run junk a : 0 < a < p256 -> Z.gcd a p256 = 1 ->
  exists y, last_coefficient junk a = Done (encs y) /\ (p256 | a * y - 1) /\ Z.abs y < p256 * 2048.
Proof.
  intros Ha Hg. pose proof p256_range as Hp. unfold last_coefficient. rewrite small_start_1.
  assert (HF : 16 * (p256 + (Z.of_nat OUTER_FUEL + 1) * p256) <= FULL).
  { pose proof (full_big al). change (Z.of_nat OUTER_FUEL) with 514. assert (16 * (p256 + (514 + 1) * p256) <= 2 ^ 272) by (by vm_compute). lia. }
  destruct (inversion_run OUTER_FUEL junk a a p256 1 0 (small_start al 0) p256) as (C & y & -> & HC & Hd & Hy); try done; try lia.
  - by right.
  - exists 0. lia.
  - exists (-1). lia.
  - unfold head_bound. destruct (Z.even a); lia.
  - right. unfold turns_left. change (half_even p256) with p256. change (Z.log2 p256) with 255.
    assert (Z.log2 (half_even a) < 256); [|change (Z.of_nat OUTER_FUEL) with 514; lia].
    assert (half_even a <= a) by (unfold half_even; destruct (Z.even a); [apply Z.div_le_upper_bound|]; lia).
    assert (Z.log2 (half_even a) <= Z.log2 a) by (apply Z.log2_le_mono; lia).
    assert (Z.log2 a < 256) by (apply Z.log2_lt_pow2; lia). lia.
  - exists y. change (Z.of_nat OUTER_FUEL) with 514 in Hy. split_and!; [|done|lia].
    destruct HC as [->|[-> _]]; [done|exfalso]. destruct Hd as [k Hk]. rewrite Z.mul_0_r in Hk.
    assert (Hc : 1 = - k * p256) by lia. assert (- k <= 0 \/ 1 <= - k) as [|] by lia; nia.
Qed.

Lemma copy_id b : copyBigHex256 b = b.
Proof. by destruct b. Qed.

Lemma inverse_mod a y p : 0 < p -> (p | a * y - 1) -> (p | a * (y mod p) - 1).
Proof.
  intros Hp H. rewrite Z.mod_eq by lia.
  replace (a * (y - p * (y / p)) - 1) with (a * y - 1 - p * (a * (y / p))) by ring.
  apply Z.divide_sub_r; [done|apply Z.divide_factor_l].
Qed.

Lemma inversion_ends junk s a C : last_coefficient junk a = Done C ->
  bigHexInversion256 al junk (enc s a) = Done (inversion_result al junk C).
Proof.
  unfold last_coefficient, bigHexInversion256. cbv zeta. rewrite !copy_id, bigHexP256_enc.
  change (with_sign (enc s a) 0) with (enc 0 a). generalize (inversion_loop al OUTER_FUEL junk (enc 0 a) (enc 0 p256)).
  by intros loop ->.
Qed.

Lemma inversion_result_encs junk a y : (p256 | a * y - 1) -> Z.abs y < p256 * 2048 ->
  0 <= y \/ sub_top (- y) <= p256 -> inversion_result al junk (encs y) = enc 0 (y mod p256).
Proof.
  intros Hd Hy Hok. pose proof p256_range as Hp. pose proof (full_eq al) as EF. pose proof (radix_pos al) as HR.
  assert (HF : p256 * 2048 < p256 * R /\ p256 * R <= FULL) by (rewrite EF; split; [destruct al; by vm_compute|nia]).
  unfold inversion_result. rewrite !copy_id, sign_encs.
  destruct (Z.leb_spec 0 y) as [Hpos|Hneg]; cbn [Z.eqb].
  - rewrite encs_pos, bigHexP256_enc, isGreaterThan256_enc by lia. destruct (Z.ltb_spec y p256).
    + by rewrite Z.mod_small by lia.
    + rewrite specialModP256_enc by lia. by rewrite (spm_exact al) by lia.
  - destruct Hok as [|Hok]; [lia|]. rewrite encs_neg, specialModP256_neg by lia. f_equal.
    destruct (sub_top_mod (- y)) as (k & Ek). rewrite Ek in Hok |- *.
    assert (Hns : 0 <= - y - k * p256) by (rewrite <- Ek; apply (sub_top_fits al); lia).
    assert (Hn0 : - y - k * p256 <> 0).
    { intros E0. destruct Hd as [q Hq]. assert (Hc : 1 = (- a * k - q) * p256) by nia.
      assert (Hp1 : 1 < p256) by (by vm_compute). clear - Hc Hp1. revert Hc. generalize (- a * k - q). intros w Hc. assert (w <= 0 \/ 1 <= w) as [|] by lia; nia. }
    apply Z.mod_unique with (- k - 1); lia.
Qed.

Lemma inverse_exact_at junk a C : last_coefficient junk a = Done C ->
  inverse_exact junk a = (sign C =? 0) || (sub_top (val al (num C)) <=? p256).
Proof. unfold inverse_exact. generalize (last_coefficient junk a). by intros ? ->. Qed.

Lemma val_enc s v : 0 <= v < FULL -> val al (num (enc s v)) = v.
Proof. apply val_digits. Qed.

Lemma bigHexInversion256_enc junk s a : 0 < a < p256 -> Z.gcd a p256 = 1 -> inverse_exact junk a = true ->
  exists y, 0 <= y < p256 /\ (p256 | a * y - 1) /\ bigHexInversion256 al junk (enc s a) = Done (enc 0 y).
Proof.
  intros Ha Hg Hex. pose proof p256_range as Hp. pose proof (full_eq al) as EF. pose proof (radix_pos al) as HR.
  destruct (last_coefficient_run junk a Ha Hg) as (y & Ey & Hd & Hy).
  exists (y mod p256). split; [apply Z.mod_pos_bound; lia|]. split; [by apply inverse_mod; [lia|]|].
  rewrite (inversion_ends junk s a _ Ey). rewrite (inversion_result_encs junk a); [done..|].
  rewrite (inverse_exact_at junk a _ Ey), sign_encs in Hex.
  destruct (Z.leb_spec 0 y) as [|Hneg]; [by left|right].
  assert (HF : p256 * 2048 <= FULL).
  { rewrite EF. assert (p256 * 2048 <= 2 ^ 16 * 2 ^ 256) by (by vm_compute). assert (2 ^ 16 <= R) by (by destruct al). nia. }
  rewrite encs_neg, val_enc in Hex by lia. by apply Z.leb_le.
Qed.

End Inversion.

(* ------------------------------------------------------------------ *)
(** ** What the field operations promise *)

Lemma field_gcd a : 0 < a < p256 -> Z.gcd a p256 = 1.
Proof.
  intros Ha. apply Znumtheory.Zgcd_1_rel_prime. apply Znumtheory.rel_prime_le_prime; [exact p256_prime|lia].
Qed.

(** C32: The product modulo P of two field elements, for any contents of the
    uninitialised local and either word size: unless the product of the two
    numbers itself lies between P and 2^256, the result is a positive number
    below 2^256 that is congruent to the product, and it is the product modulo
    P whenever the first words of the product are below P times the radix. *)
Theorem multiply_mod_P al junk a b : 0 <= a < p256 -> 0 <= b < p256 -> a * b < p256 \/ 2 ^ 256 <= a * b ->
  exists r, MultiplyBigHexModP256 al junk (enc al 0 a) (enc al 0 b) = enc al 0 r /\ 0 <= r < 2 ^ 256 /\
    r mod p256 = (a * b) mod p256 /\ (mul_exact al a b = true -> r = (a * b) mod p256).
Proof.
  intros Ha Hb Hw. pose proof p256_range as Hp. destruct (Z.ltb_spec (a * b) (2 ^ 256)) as [Hs|Hbig].
  - assert (Hlt : a * b < p256) by lia. exists (a * b). rewrite multiply_small by lia.
    rewrite (proj2 (Z.leb_gt _ _)) by lia. split_and!; [done|nia|lia|done|]. intros _. symmetry. apply Z.mod_small. nia.
  - destruct (multiply_big al junk a b ltac:(lia) ltac:(lia) Hbig) as (rest & Hr & Ev & HT & E).
    exists (fold_mod al (window al (a * b)) rest). split_and!; [done|by apply fold_mod_range|by apply fold_mod_range| |].
    + by rewrite fold_mod_congr, <- Ev.
    + intros Hex. unfold mul_exact in Hex. cbv zeta in Hex. rewrite (proj2 (Z.leb_le _ _) Hbig) in Hex. zbool.
      rewrite fold_mod_exact by (done || lia). by rewrite <- Ev.
Qed.

Lemma multiply_mod_P_witness :
  exists r, MultiplyBigHexModP256 ALGO32 (initBigNumber256 ALGO32) (enc ALGO32 0 (p256 - 1)) (enc ALGO32 0 (p256 - 2)) = enc ALGO32 0 r /\
    0 <= r < 2 ^ 256 /\ r mod p256 = ((p256 - 1) * (p256 - 2)) mod p256 /\
    (mul_exact ALGO32 (p256 - 1) (p256 - 2) = true -> r = ((p256 - 1) * (p256 - 2)) mod p256).
Proof.
  apply (multiply_mod_P ALGO32 (initBigNumber256 ALGO32) (p256 - 1) (p256 - 2)); [by vm_compute|by vm_compute|right; by vm_compute].
Defined.

Lemma window_width : 2 ^ 256 - p256 < 2 ^ 224.
Proof. by vm_compute. Qed.

Lemma no_multiple al t m : 0 <= t < 2 ^ 224 ->
  t * (RADIX al - 1) + Z.of_nat (HIGHEST_INDEX_BIG_HEX256 al) <> m * p256.
Proof.
  intros Ht Hc. assert (Hp : 2 ^ 255 < p256) by (by vm_compute). assert (Ep : p256 mod 0xFFFFFFFF = 1) by (by vm_compute).
  revert Hc Hp Ep. generalize p256. intros p Hc Hp Ep.
  change (2 ^ 224) with 26959946667150639794667015087019630673637144422540572481103610249216 in Ht.
  change (2 ^ 255) with 57896044618658097711785492504343953926634992332820282019728792003956564819968 in Hp.
  destruct al; cbn [RADIX] in Hc.
  - change (Z.of_nat (HIGHEST_INDEX_BIG_HEX256 ALGO16)) with 16 in Hc. assert (m <= 0 \/ 1 <= m) as [|] by lia; nia.
  - change (Z.of_nat (HIGHEST_INDEX_BIG_HEX256 ALGO32)) with 8 in Hc.
    assert (Hm : m = 1) by nia. subst m. apply (f_equal (fun v => v mod 0xFFFFFFFF)) in Hc.
    replace (t * (0x100000000 - 1) + 8) with (8 + t * 0xFFFFFFFF) in Hc by lia. rewrite Z.mod_add, Z.mul_1_l, Ep in Hc by done.
    discriminate Hc.
Qed.

(** C33: Between P and 2^256 the product is wrong for every pair of operands:
    the code takes one word too many, the low half of the length field that
    follows the words of the product, and the result is never congruent to the
    product. *)
Theorem multiply_window_wrong al junk a b : 0 <= a < p256 -> 0 <= b < p256 -> p256 <= a * b < 2 ^ 256 ->
  exists r, MultiplyBigHexModP256 al junk (enc al 0 a) (enc al 0 b) = enc al 0 r /\
    r mod p256 = (a * b * RADIX al + Z.of_nat (HIGHEST_INDEX_BIG_HEX256 al)) mod p256 /\ r mod p256 <> (a * b) mod p256.
Proof.
  intros Ha Hb Hw. pose proof p256_range as Hp. rewrite multiply_small by lia.
  rewrite (proj2 (Z.leb_le _ _)) by lia. eexists. split; [done|]. rewrite spm_mod. split; [done|].
  intros E. apply divide_mod in E; [|lia]. destruct E as [k Hk].
  assert (Ht : 0 <= a * b - p256 < 2 ^ 224) by (pose proof window_width; lia).
  revert Ht Hk. generalize (a * b). intros v Ht Hk. apply (no_multiple al (v - p256) (k - RADIX al + 1) Ht).
  clear - Hk. revert Hk. generalize p256 (RADIX al) (Z.of_nat (HIGHEST_INDEX_BIG_HEX256 al)). intros. lia.
Qed.

Lemma multiply_window_wrong_witness :
  exists r, MultiplyBigHexModP256 ALGO32 (initBigNumber256 ALGO32) (enc ALGO32 0 2) (enc ALGO32 0 ((p256 + 1) / 2)) = enc ALGO32 0 r /\
    r mod p256 = (2 * ((p256 + 1) / 2) * 0x100000000 + 8) mod p256 /\ r mod p256 <> (2 * ((p256 + 1) / 2)) mod p256.
Proof.
  apply (multiply_window_wrong ALGO32 (initBigNumber256 ALGO32) 2 ((p256 + 1) / 2)); by vm_compute.
Defined.

Lemma borrowed_inverse (a y k p F : Z) : (p | a * y - 1) -> (p | a * (p - (- y - k * p) + F - F) - 1).
Proof.
  intros Hd. replace (a * (p - (- y - k * p) + F - F) - 1) with (a * y - 1 + p * (a * (1 + k))) by ring.
  apply Z.divide_add_r; [done|apply Z.divide_factor_l].
Qed.

(** What the inversion gives, without a condition. *)
Lemma inversion_value al junk s a : 0 < a < p256 ->
  exists z, bigHexInversion256 al junk (enc al s a) = Done (enc al 0 z) /\
    (0 <= z < p256 /\ (p256 | a * z - 1) \/
     FULL al - 2 ^ 236 < z < FULL al /\ (p256 | a * (z - FULL al) - 1)).
Proof.
  intros Ha. pose proof (field_gcd a Ha) as Hg. pose proof p256_range as Hp.
  destruct (last_coefficient_run al junk a Ha Hg) as (y & Ey & Hd & Hy). rewrite (inversion_ends _ _ _ _ _ Ey).
  destruct (decide (0 <= y \/ sub_top (- y) <= p256)) as [Hok|Hno].
  - exists (y mod p256). rewrite (inversion_result_encs al junk a) by done. split; [done|left].
    split; [apply Z.mod_pos_bound; lia|]. by apply inverse_mod; [lia|].
  - pose proof (full_big al) as HF. assert (Hsz : p256 * 2048 <= 2 ^ 272) by (by vm_compute).
    exists (p256 - sub_top (- y) + FULL al). split.
    + unfold inversion_result. rewrite !copy_id, sign_encs, (proj2 (Z.leb_gt 0 y)) by lia. cbn [Z.eqb].
      rewrite encs_neg, specialModP256_borrow by lia. done.
    + right. assert (Hs : sub_top (- y) < p256 + 2 ^ 236).
      { unfold sub_top. assert (Hgap : (2 ^ 256 - p256) * 2049 < 2 ^ 236) by (by vm_compute).
        destruct (Z.leb_spec (2 ^ 256) (- y)) as [Hb|Hb]; [|lia].
        pose proof (Z.div_mod (- y) (2 ^ 256) ltac:(done)) as Ed. pose proof (Z.mod_pos_bound (- y) (2 ^ 256) ltac:(done)).
        assert (- y / 2 ^ 256 < 2048) by (apply Z.div_lt_upper_bound; lia).
        assert (0 <= - y / 2 ^ 256) by (apply Z.div_pos; lia). nia. }
      split; [lia|]. destruct (sub_top_mod (- y)) as (k & ->). by apply borrowed_inverse.
Qed.

(** C31: The inversion of any field element other than 0 ends, within 514
    turns of the outer loop and 256 of each inner one, and its result is the
    inverse in the field - or, when the closing reduction of a negative
    coefficient would have to add P twice, a negative inverse that has borrowed
    past the words: a number within 2^236 of the radix' power [FULL] that is an
    inverse once [FULL] is taken away. *)
Theorem inversion_total al junk s a : 0 < a < p256 ->
  exists z, bigHexInversion256 al junk (enc al s a) = Done (enc al 0 z) /\
    (0 <= z < p256 /\ (a * z) mod p256 = 1 \/
     FULL al - 2 ^ 236 < z < FULL al /\ (a * (z - FULL al)) mod p256 = 1).
Proof.
  intros Ha. pose proof p256_range as Hp. assert (Hone : 1 mod p256 = 1) by (by vm_compute).
  destruct (inversion_value al junk s a Ha) as (z & E & Hz). exists z. split; [done|].
  destruct Hz as [[Hr Hd]|[Hr Hd]]; [left|right]; (split; [done|]); apply divide_mod in Hd; [by rewrite Hd|lia|by rewrite Hd|lia].
Qed.

(** 2 has the inverse (P + 1) / 2. *)
Lemma inversion_total_witness :
  exists z, bigHexInversion256 ALGO32 (initBigNumber256 ALGO32) (enc ALGO32 0 2) = Done (enc ALGO32 0 z) /\
    z = (p256 + 1) / 2 /\
    (0 <= z < p256 /\ (2 * z) mod p256 = 1 \/
     FULL ALGO32 - 2 ^ 236 < z < FULL ALGO32 /\ (2 * (z - FULL ALGO32)) mod p256 = 1).
Proof.
  destruct (inversion_total ALGO32 (initBigNumber256 ALGO32) 0 2 ltac:(by vm_compute)) as (z & E & Hz).
  exists z. split; [exact E|]. split; [|exact Hz].
  assert (Ev : bigHexInversion256 ALGO32 (initBigNumber256 ALGO32) (enc ALGO32 0 2) = Done (enc ALGO32 0 ((p256 + 1) / 2)))
    by (vm_compute; reflexivity).
  rewrite Ev in E. apply (f_equal (fun r => match r with Done b => val ALGO32 (num b) | _ => 0 end)) in E.
  assert (Hf : 0 <= z < FULL ALGO32) by (pose proof p256_range; pose proof (full_big ALGO32); lia).
  rewrite (val_enc ALGO32 0 z Hf) in E. rewrite <- E. vm_compute. reflexivity.
Defined.

