(* ===== verification/EccPoint.v ===== *)
(** Points of the BLE stack's P-256 code (ecc_p256.c): addition and doubling in
    projective coordinates, the way back to affine ones, and the check that a
    public key is a point of the curve.

    The code is proved to compute what [add_field] and [double_field] compute
    on numbers, which are defined when every product stays out of the two
    ranges of operands [EccField] excludes, and those are proved to be the law
    of [EccCurve] on the affine points the coordinates stand for. *)

From S2P Require Import Prelude BigHex EccPrime EccCurve EccField.

(** [x / z] and [y / z] are the affine coordinates. *)
Record ECC_Jacobian_Point256 := mk_jac {
  jx : bigHex256;
  jy : bigHex256;
  jz : bigHex256
}.

Section Code.
(** [junk] is what an uninitialised local holds. *)
Context (al : algo) (junk : bigHex256).

Notation n := (ELEMENTS_BIG_HEX256 al).
Notation mul := (MultiplyBigHexModP256 al junk).
Notation by_small := (MultiplyBigHexByUint32_256 al junk).
Notation add := (AddBigHexModP256 al junk).
Notation sub := (SubtractBigHexMod256 al junk).
Notation init := (initBigNumber256 al).

Definition ecc_Jacobian_InfinityPoint256 : ECC_Jacobian_Point256 :=
  let zero := mk_big (replicate n 0) 0 0 in
  mk_jac zero (mk_big (<[HIGHEST_INDEX_BIG_HEX256 al := 1]> (replicate n 0)) 1 0) zero.

Definition Is_Infinite256 (pPointP : ECC_Jacobian_Point256) : bool :=
  negb (notEqual256 (jx pPointP) (jx ecc_Jacobian_InfinityPoint256))
  && negb (notEqual256 (jy pPointP) (jy ecc_Jacobian_InfinityPoint256))
  && negb (notEqual256 (jz pPointP) (jz ecc_Jacobian_InfinityPoint256)).

Definition GF_Jacobian_Point_Copy256 (source : ECC_Jacobian_Point256) : ECC_Jacobian_Point256 :=
  mk_jac (copyBigHex256 (jx source)) (copyBigHex256 (jy source)) (copyBigHex256 (jz source)).

Definition y_is_zero (y : bigHex256) : bool :=
  (len y <=? 1) && (nth (HIGHEST_INDEX_BIG_HEX256 al) (num y) 0 =? 0).

Definition GF_Jacobian_Point_Double256 (pPointP : ECC_Jacobian_Point256) : ECC_Jacobian_Point256 :=
  let X1 := jx pPointP in let Y1 := jy pPointP in let Z1 := jz pPointP in
  if y_is_zero Y1 || Is_Infinite256 pPointP then
    GF_Jacobian_Point_Copy256 ecc_Jacobian_InfinityPoint256
  else
    let X_plus_Z := add X1 Z1 in
    let X_minus_Z := sub X1 Z1 junk in
    let int1 := mul X_plus_Z X_minus_Z in
    let W := by_small int1 0x03 in
    let S := mul Y1 Z1 in
    let int1 := mul Y1 S in
    let B := mul X1 int1 in
    let W_sqr := mul W W in
    let Eight_B := by_small B 8 in
    let H := sub W_sqr Eight_B junk in
    let int1 := mul H S in
    let x := by_small int1 0x02 in
    let Y_sqr := mul Y1 Y1 in
    let S_sqr := mul S S in
    let int1 := mul Y_sqr S_sqr in
    let int2 := by_small int1 0x08 in
    let int3 := by_small B 0x04 in
    let int4 := sub int3 H junk in
    let int5 := mul W int4 in
    let y := sub int5 int2 junk in
    let int1 := mul S_sqr S in
    let z := by_small int1 0x08 in
    mk_jac x y z.

Definition GF_Jacobian_Point_Addition256 (pPointP pPointQ : ECC_Jacobian_Point256) : ECC_Jacobian_Point256 :=
  let X1 := jx pPointP in let Y1 := jy pPointP in let Z1 := jz pPointP in
  let X2 := jx pPointQ in let Y2 := jy pPointQ in let Z2 := jz pPointQ in
  if Is_Infinite256 pPointP then
    if Is_Infinite256 pPointQ then GF_Jacobian_Point_Copy256 ecc_Jacobian_InfinityPoint256
    else GF_Jacobian_Point_Copy256 pPointQ
  else if Is_Infinite256 pPointQ then GF_Jacobian_Point_Copy256 pPointP
  else if negb (notEqual256 X2 X1) && (notEqual256 Y2 Y1 || y_is_zero Y2) then
    GF_Jacobian_Point_Copy256 ecc_Jacobian_InfinityPoint256
  else
    let U1 := mul Y2 Z1 in
    let U2 := mul Y1 Z2 in
    let V1 := mul X2 Z1 in
    let V2 := mul X1 Z2 in
    if negb (notEqual256 V1 V2) then
      if notEqual256 U1 U2 then GF_Jacobian_Point_Copy256 ecc_Jacobian_InfinityPoint256
      else GF_Jacobian_Point_Double256 pPointP
    else
      let U := sub U1 U2 init in
      let V := sub V1 V2 init in
      let W := mul Z1 Z2 in
      let V_sqr := mul V V in
      let V_cube := mul V_sqr V in
      let U_sqr := mul U U in
      let V_sqr_mult_by_V2 := mul V_sqr V2 in
      let Double_V_sqr_mult_by_V2 := by_small V_sqr_mult_by_V2 0x02 in
      let int3 := mul U_sqr W in
      let int4 := sub int3 V_cube init in
      let A := sub int4 Double_V_sqr_mult_by_V2 init in
      let x := mul V A in
      let int1 := sub V_sqr_mult_by_V2 A init in
      let int2 := mul U int1 in
      let int3 := mul V_cube U2 in
      let y := sub int2 int3 init in
      let z := mul V_cube W in
      mk_jac x y z.

Definition GF_Point_Jacobian_To_Affine256 (pJacPoint : ECC_Jacobian_Point256) : outcome (bigHex256 * bigHex256) :=
  inverted_Z_jacobian ← bigHexInversion256 al junk (jz pJacPoint);
  Done (mul (jx pJacPoint) inverted_Z_jacobian, mul (jy pJacPoint) inverted_Z_jacobian).

Definition GF_Affine_To_Jacobian_Point_Copy256 (x y : bigHex256) : ECC_Jacobian_Point256 :=
  let BigHex_1 := mk_big (<[HIGHEST_INDEX_BIG_HEX256 al := 1]> (replicate n 0)) 1 0 in
  mk_jac (copyBigHex256 x) (copyBigHex256 y) (copyBigHex256 BigHex_1).

Definition GF_Setup_Jacobian_Infinity_Point256 : ECC_Jacobian_Point256 :=
  let BigHex_1 w := mk_big (<[HIGHEST_INDEX_BIG_HEX256 al := w]> (replicate n 0)) 1 0 in
  mk_jac (copyBigHex256 (BigHex_1 0)) (copyBigHex256 (BigHex_1 1)) (copyBigHex256 (BigHex_1 0)).

(** [memcmp] over all the words. *)
Definition ecc_is_valid_point (X_coord Y_coord : bigHex256) : bool :=
  let Y_square := mul Y_coord Y_coord in
  let X_square := mul X_coord X_coord in
  let X_cube := mul X_coord X_square in
  let double_X := add X_coord X_coord in
  let tripple_X := add double_X X_coord in
  let interim_result1 := sub X_cube tripple_X init in
  let interim_result2 := add interim_result1 (coef_B al) in
  bool_decide (num Y_square = num interim_result2).

End Code.

(* ------------------------------------------------------------------ *)
(** ** The same on numbers *)

Notation proj := (Z * Z * Z)%type.

Section Field.
Context (al : algo).

(** The product where the code's is exact. *)
Definition fmul (a b : Z) : option Z := if mul_exact al a b then Some ((a * b) mod p256) else None.

Definition fadd (a b : Z) : Z := (a + b) mod p256.
Definition fsub (a b : Z) : Z := (a - b) mod p256.
Definition fsmall (a k : Z) : Z := (a * k) mod p256.

Definition infinity : proj := (0, 1, 0).

Definition double_field (P : proj) : option proj :=
  let '(X1, Y1, Z1) := P in
  if (Y1 =? 0) || bool_decide (P = infinity) then Some infinity
  else
    XZ ← fmul (fadd X1 Z1) (fsub X1 Z1);
    let W := fsmall XZ 3 in
    S ← fmul Y1 Z1;
    YS ← fmul Y1 S;
    B ← fmul X1 YS;
    W_sqr ← fmul W W;
    let H := fsub W_sqr (fsmall B 8) in
    HS ← fmul H S;
    Y_sqr ← fmul Y1 Y1;
    S_sqr ← fmul S S;
    YYSS ← fmul Y_sqr S_sqr;
    WBH ← fmul W (fsub (fsmall B 4) H);
    SSS ← fmul S_sqr S;
    Some (fsmall HS 2, fsub WBH (fsmall YYSS 8), fsmall SSS 8).

Definition add_field (P Q : proj) : option proj :=
  let '(X1, Y1, Z1) := P in
  let '(X2, Y2, Z2) := Q in
  if bool_decide (P = infinity) then Some Q
  else if bool_decide (Q = infinity) then Some P
  else if (X2 =? X1) && (negb (Y2 =? Y1) || (Y2 =? 0)) then Some infinity
  else
    U1 ← fmul Y2 Z1;
    U2 ← fmul Y1 Z2;
    V1 ← fmul X2 Z1;
    V2 ← fmul X1 Z2;
    if V1 =? V2 then if negb (U1 =? U2) then Some infinity else double_field P
    else
      let U := fsub U1 U2 in
      let V := fsub V1 V2 in
      W ← fmul Z1 Z2;
      VV ← fmul V V;
      VVV ← fmul VV V;
      UU ← fmul U U;
      VVV2 ← fmul VV V2;
      UUW ← fmul UU W;
      let A := fsub (fsub UUW VVV) (fsmall VVV2 2) in
      x ← fmul V A;
      UA ← fmul U (fsub VVV2 A);
      VU ← fmul VVV U2;
      z ← fmul VVV W;
      Some (x, fsub UA VU, z).

Definition field3 (P : proj) : Prop := let '(X, Y, Z) := P in field X /\ field Y /\ field Z.

Definition jenc (P : proj) : ECC_Jacobian_Point256 :=
  let '(X, Y, Z) := P in mk_jac (enc al 0 X) (enc al 0 Y) (enc al 0 Z).

Lemma fmul_field a b c : fmul a b = Some c -> field c.
Proof. unfold fmul. destruct (mul_exact al a b); [|done]. intros [= <-]. apply mod_field. Qed.

Lemma fmul_eqp a b c : fmul a b = Some c -> c ≡p a * b.
Proof. unfold fmul. destruct (mul_exact al a b); [|done]. intros [= <-]. apply eqp_mod. Qed.

Lemma fmul_enc junk a b c : field a -> field b -> fmul a b = Some c ->
  MultiplyBigHexModP256 al junk (enc al 0 a) (enc al 0 b) = enc al 0 c.
Proof. unfold fmul. destruct (mul_exact al a b) eqn:E; [|done]. intros Ha Hb [= <-]. by apply MultiplyBigHexModP256_enc. Qed.

Lemma fadd_field a b : field (fadd a b).
Proof. apply mod_field. Qed.
Lemma fsub_field a b : field (fsub a b).
Proof. apply mod_field. Qed.
Lemma fsmall_field a b : field (fsmall a b).
Proof. apply mod_field. Qed.

Lemma fadd_eqp a b : fadd a b ≡p a + b.
Proof. apply eqp_mod. Qed.
Lemma fsub_eqp a b : fsub a b ≡p a - b.
Proof. apply eqp_mod. Qed.
Lemma fsmall_eqp a b : fsmall a b ≡p a * b.
Proof. apply eqp_mod. Qed.

Lemma fadd_enc junk a b : field a -> field b -> AddBigHexModP256 al junk (enc al 0 a) (enc al 0 b) = enc al 0 (fadd a b).
Proof. intros. by apply AddBigHexModP256_enc. Qed.

Lemma fsub_enc junk r a b : field a -> field b -> SubtractBigHexMod256 al junk (enc al 0 a) (enc al 0 b) r = enc al 0 (fsub a b).
Proof. intros. by apply SubtractBigHexMod256_enc. Qed.

Lemma fsmall_enc junk a k : field a -> 0 <= k <= 8 -> MultiplyBigHexByUint32_256 al junk (enc al 0 a) k = enc al 0 (fsmall a k).
Proof. intros. by apply MultiplyBigHexByUint32_256_enc. Qed.
End Field.

(** The products of a computation that has a result. *)
Ltac fsteps :=
  repeat match goal with
  | H : (fmul ?al ?a ?b ≫= _) = Some _ |- _ =>
      let E := fresh "M" in destruct (fmul al a b) eqn:E; cbn [mbind option_bind] in H; [|discriminate H]
  end.


Ltac case_in H E := match type of H with (if ?c then _ else _) = _ => destruct c eqn:E end.

Ltac in_field := first [assumption | apply fadd_field | apply fsub_field | apply fsmall_field | eapply fmul_field; eassumption].

Ltac fencs :=
  repeat first
    [ rewrite fadd_enc by in_field | rewrite fsub_enc by in_field | rewrite fsmall_enc by (first [in_field | lia])
    | erewrite fmul_enc; [|in_field|in_field|eassumption] ].

(* ------------------------------------------------------------------ *)
(** ** The code computes on numbers *)

Section Refinement.
Context (al : algo).
Notation fmul := (fmul al).
Notation jenc := (jenc al).
Notation double_field := (double_field al).
Notation add_field := (add_field al).

Lemma field_below v : field v -> 0 <= v < FULL al.
Proof. intros Hv. pose proof (p_fits al). unfold field in Hv. lia. Qed.

Lemma y_is_zero_enc v : field v -> y_is_zero al (enc al 0 v) = (v =? 0).
Proof.
  intros Hv. pose proof (field_below v Hv) as Hf. unfold y_is_zero. set (b := enc al 0 v).
  destruct (Z.eqb_spec v 0) as [E|Hne]; [unfold b; rewrite E; destruct al; by vm_compute|].
  destruct (Z.leb_spec (len b) 1) as [Hl|]; [|done]. cbn [andb]. apply Z.eqb_neq. intros Hw.
  assert (Hd : Forall (word al) (num b)) by apply digits_words.
  assert (El : length (num b) = ELEMENTS_BIG_HEX256 al) by apply digits_length.
  assert (Ev : val al (num b) = v) by (by apply val_enc).
  destruct (lead_lower al (num b) Hd ltac:(lia)) as [_ Hk]. pose proof (lead_upper al (num b) Hd) as Hup.
  change (len b) with (Z.of_nat (ELEMENTS_BIG_HEX256 al) - Z.of_nat (lead (num b))) in Hl.
  assert (En : ELEMENTS_BIG_HEX256 al = S (HIGHEST_INDEX_BIG_HEX256 al)) by (by destruct al).
  destruct (lead_digit al (num b) Hd Hk) as (d & r & Er & Hpos).
  assert (Ek : lead (num b) = HIGHEST_INDEX_BIG_HEX256 al) by lia.
  rewrite Ek in Er. rewrite <- (take_drop (HIGHEST_INDEX_BIG_HEX256 al) (num b)), Er, app_nth2 in Hw by (rewrite length_take; lia).
  rewrite length_take, El, En in Hw. replace (_ - _)%nat with O in Hw by lia. cbn in Hw. lia.
Qed.

Lemma infinity_enc : GF_Jacobian_Point_Copy256 (ecc_Jacobian_InfinityPoint256 al) = jenc infinity.
Proof. destruct al; by vm_compute. Qed.

Lemma infinity_words : ecc_Jacobian_InfinityPoint256 al = jenc infinity.
Proof. destruct al; by vm_compute. Qed.

Lemma jac_copy_id P : GF_Jacobian_Point_Copy256 P = P.
Proof. destruct P as [[] [] []]. reflexivity. Qed.

Lemma is_infinite_enc P : field3 P -> Is_Infinite256 al (jenc P) = bool_decide (P = infinity).
Proof.
  destruct P as [[X Y] Z']. intros (HX & HY & HZ). unfold Is_Infinite256. rewrite infinity_words. cbn [EccPoint.jenc jx jy jz infinity].
  assert (H1 : field 1 /\ field 0) by (by vm_compute). destruct H1 as [H1 H0].
  rewrite !notEqual256_enc, !negb_involutive by (by apply field_below).
  unfold infinity. destruct (Z.eqb_spec X 0), (Z.eqb_spec Y 1), (Z.eqb_spec Z' 0); cbn [andb]; subst;
    try (by rewrite bool_decide_true); by rewrite bool_decide_false by congruence.
Qed.

Lemma double_enc junk P Q : field3 P -> double_field P = Some Q ->
  GF_Jacobian_Point_Double256 al junk (jenc P) = jenc Q.
Proof.
  destruct P as [[X1 Y1] Z1]. intros (HX & HY & HZ) H. unfold GF_Jacobian_Point_Double256. cbv zeta.
  rewrite is_infinite_enc by done. cbn [EccPoint.jenc jx jy jz]. unfold EccPoint.double_field in H. rewrite y_is_zero_enc by done.
  destruct (_ || _); [injection H as <-; apply infinity_enc|].
  fsteps. injection H as <-. fencs. done.
Qed.

Lemma add_enc junk P Q S : field3 P -> field3 Q -> add_field P Q = Some S ->
  GF_Jacobian_Point_Addition256 al junk (jenc P) (jenc Q) = jenc S.
Proof.
  intros HP HQ H. unfold GF_Jacobian_Point_Addition256. cbv zeta. rewrite !is_infinite_enc, !jac_copy_id, infinity_words by done.
  pose proof (double_enc junk P S HP) as Hd.
  destruct P as [[X1 Y1] Z1], Q as [[X2 Y2] Z2]. destruct HP as (HX1 & HY1 & HZ1), HQ as (HX2 & HY2 & HZ2).
  unfold EccPoint.add_field in H. case_in H EC.
  { clear EC. injection H as <-. destruct (bool_decide ((X2, Y2, Z2) = infinity)) eqn:EQ; [|done]. by apply bool_decide_eq_true in EQ as ->. }
  clear EC. case_in H EC; [by injection H as <-|]. clear EC.
  cbn [EccPoint.jenc jx jy jz] in *.
  rewrite !notEqual256_enc, y_is_zero_enc, !negb_involutive by (done || by apply field_below).
  case_in H EC; [by injection H as <-|]. clear EC. fsteps. fencs.
  rewrite !notEqual256_enc, !negb_involutive by (apply field_below; in_field).
  case_in H EC; [clear EC; case_in H EC; [by injection H as <-|by apply Hd]|].
  fsteps. injection H as <-. fencs. done.
Qed.

End Refinement.

(* ------------------------------------------------------------------ *)
(** ** The numbers follow the law of the curve *)

Section Law.
Context (al : algo).

(** The affine point that projective coordinates stand for. *)
Definition stands (P : proj) (a : apoint) : Prop :=
  match a with
  | Inf => P = infinity
  | Aff x y => let '(X, Y, Z) := P in field x /\ field y /\ ~ Z ≡p 0 /\ X ≡p x * Z /\ Y ≡p y * Z
  end.

(** The shortcut of the addition compares projective abscissas, which is right
    when the denominators agree as well. *)
Definition same_scale (P Q : proj) : Prop :=
  let '(X1, _, Z1) := P in let '(X2, _, Z2) := Q in X1 = X2 -> Z1 = Z2.

Lemma stands_infinity P x y : stands P (Aff x y) -> P <> infinity.
Proof. destruct P as [[X Y] Z']. intros (_ & _ & HZ & _) [= -> -> ->]. by apply HZ. Qed.

Lemma third_stands l x1 y1 x2 X Y Z : ~ Z ≡p 0 -> X ≡p (l * l - x1 - x2) * Z ->
  Y ≡p (l * (x1 - (l * l - x1 - x2)) - y1) * Z -> stands (X, Y, Z) (third l x1 y1 x2).
Proof.
  intros HZ HX HY. unfold third. cbv zeta. cbn [stands]. split_and!; [apply mod_field..|done| |].
  - by rewrite eqp_mod.
  - by rewrite eqp_mod, HY, eqp_mod.
Qed.

Ltac expand :=
  repeat match goal with
  | M : fmul _ _ _ = Some ?c |- context [?c] => rewrite (fmul_eqp _ _ _ _ M)
  | |- _ => progress rewrite ?fsub_eqp, ?fadd_eqp, ?fsmall_eqp
  end.

Lemma double_law P Q a : field3 P -> stands P a -> oncurve a -> double_field al P = Some Q ->
  exists c, stands Q c /\ law a a c.
Proof.
  intros HF. destruct a as [|x y].
  - intros -> _. cbn. intros [= <-]. exists Inf. split; [done|constructor].
  - intros HS HC H. pose proof (stands_infinity P x y HS) as Hi. destruct P as [[X Y] Z].
    destruct HS as (Hx & Hy & HZ & EX & EY), HC as (_ & _ & HC), HF as (_ & HFY & _). unfold double_field in H.
    rewrite (bool_decide_eq_false_2 _ Hi), orb_false_r in H. destruct (Z.eqb_spec Y 0) as [->|HY].
    { injection H as <-. exists Inf. split; [done|]. constructor.
      assert (Ey : y ≡p 0); [|rewrite Ey; apply eqp_eq; ring].
      apply (eqp_cancel Z); [done|]. rewrite Z.mul_comm, <- EY. apply eqp_eq; ring. }
    fsteps. injection H as <-.
    assert (Hyz : ~ y ≡p 0).
    { intros E. apply HY. apply eqp_field; [done|done|]. rewrite EY, E. apply eqp_eq; ring. }
    destruct (eqp_divide (2 * y) (3 * x * x - 3)) as [l Hl]; [by apply eqp_nonzero_mul; [apply two_nonzero|]|].
    exists (third l x y x). split; [|by constructor].
    assert (EW : fsmall z 3 ≡p 2 * y * Z * Z * l).
    { expand. rewrite EX. transitivity ((3 * x * x - 3) * (Z * Z)); [apply eqp_eq; ring|]. rewrite <- Hl. apply eqp_eq; ring. }
    assert (ES : z0 ≡p y * Z * Z) by (expand; by rewrite EY).
    assert (EB : z2 ≡p x * y * y * (Z * Z) * (Z * Z)) by (expand; rewrite EX, EY; apply eqp_eq; ring).
    assert (EH : fsub z3 (fsmall z2 8) ≡p 4 * (y * y) * (Z * Z) * (Z * Z) * (l * l - x - x)).
    { rewrite fsub_eqp, fsmall_eqp, EB, (fmul_eqp _ _ _ _ M3), EW. apply eqp_eq; ring. }
    apply third_stands.
    + rewrite fsmall_eqp, (fmul_eqp _ _ _ _ M9), (fmul_eqp _ _ _ _ M6), ES.
      repeat apply eqp_nonzero_mul; try done. by apply eqp_small_nonzero.
    + rewrite !fsmall_eqp, (fmul_eqp _ _ _ _ M9), (fmul_eqp _ _ _ _ M6), (fmul_eqp _ _ _ _ M4), EH, ES. apply eqp_eq; ring.
    + rewrite fsub_eqp, (fmul_eqp _ _ _ _ M8), (fsub_eqp (fsmall z2 4)), EH, EW, !fsmall_eqp, EB, (fmul_eqp _ _ _ _ M9),
        (fmul_eqp _ _ _ _ M7), (fmul_eqp _ _ _ _ M6), (fmul_eqp _ _ _ _ M5), ES, EY. apply eqp_eq; ring.
Qed.

Lemma add_law P Q S a b : field3 P -> field3 Q -> stands P a -> stands Q b -> oncurve a -> oncurve b -> same_scale P Q ->
  add_field al P Q = Some S -> exists c, stands S c /\ law a b c.
Proof.
  intros HFP HFQ HA HB HCA HCB Hsc H. pose proof (double_law P S a HFP HA HCA) as Hd.
  destruct P as [[X1 Y1] Z1], Q as [[X2 Y2] Z2]. unfold add_field in H. case_in H EP.
  { apply bool_decide_eq_true in EP. injection H as <-. destruct a as [|x y]; [|by destruct (stands_infinity _ _ _ HA)]. exists b. split; [done|constructor]. }
  case_in H EQ.
  { apply bool_decide_eq_true in EQ. injection H as <-. destruct b as [|x y]; [|by destruct (stands_infinity _ _ _ HB)]. exists a. split; [done|constructor]. }
  apply bool_decide_eq_false in EP, EQ. destruct a as [|x1 y1]; [done|]. destruct b as [|x2 y2]; [done|].
  destruct HFP as (HX1 & HY1 & HZ1), HFQ as (HX2 & HY2 & HZ2).
  destruct HA as (Hx1 & Hy1 & NZ1 & EX1 & EY1), HB as (Hx2 & Hy2 & NZ2 & EX2 & EY2).
  destruct HCA as (_ & _ & HCA), HCB as (_ & _ & HCB). assert (NZ : ~ Z1 * Z2 ≡p 0) by (by apply eqp_nonzero_mul).
  case_in H EC.
  { injection H as <-. exists Inf. split; [done|]. zbool. assert (EX : X1 = X2) by lia. assert (EZ : Z1 = Z2) by (by apply Hsc). subst X2 Z2.
    assert (Ex : x1 = x2).
    { apply eqp_field; [done..|]. apply (eqp_cancel Z1); [done|]. rewrite !(Z.mul_comm Z1), <- EX1. exact EX2. }
    subst x2. constructor. destruct (same_abscissa x1 y1 y2 HCA HCB) as [Ey|]; [|done].
    apply eqp_field in Ey as <-; [|done..]. assert (EY : Y1 = Y2) by (apply eqp_field; [done..|]; by rewrite EY1, EY2).
    assert (E0 : Y2 = 0) by lia. assert (Ey : y1 ≡p 0); [|rewrite Ey; apply eqp_eq; ring].
    apply (eqp_cancel Z1); [done|]. rewrite Z.mul_comm, <- EY2, E0. apply eqp_eq; ring. }
  clear EC.
  fsteps.
  assert (EV1 : z1 ≡p x2 * (Z1 * Z2)) by (expand; rewrite EX2; apply eqp_eq; ring).
  assert (EV2 : z2 ≡p x1 * (Z1 * Z2)) by (expand; rewrite EX1; apply eqp_eq; ring).
  assert (EU1 : z ≡p y2 * (Z1 * Z2)) by (expand; rewrite EY2; apply eqp_eq; ring).
  assert (EU2 : z0 ≡p y1 * (Z1 * Z2)) by (expand; rewrite EY1; apply eqp_eq; ring).
  case_in H EC.
  { apply Z.eqb_eq in EC. assert (Ex : x2 = x1).
    { apply eqp_field; [done..|]. apply (eqp_cancel (Z1 * Z2)); [done|]. rewrite !(Z.mul_comm (Z1 * Z2)), <- EV1, <- EV2. by apply eqp_eq. }
    subst x2. case_in H ED; zbool.
    - injection H as <-. exists Inf. split; [done|]. constructor.
      destruct (same_abscissa x1 y1 y2 HCA HCB) as [Ey|]; [exfalso; apply ED|done].
      apply eqp_field; [by eapply fmul_field..|]. by rewrite EU1, EU2, Ey.
    - assert (Ey : y2 = y1); [|subst y2; by apply Hd].
      apply eqp_field; [done..|]. apply (eqp_cancel (Z1 * Z2)); [done|]. rewrite !(Z.mul_comm (Z1 * Z2)), <- EU1, <- EU2. by apply eqp_eq. }
  assert (Nx : ~ x1 ≡p x2).
  { intros E. zbool. apply EC. apply eqp_field; [by eapply fmul_field..|]. by rewrite EV1, EV2, E. }
  fsteps. injection H as <-.
  destruct (eqp_divide (x2 - x1) (y2 - y1)) as [l Hl]; [by rewrite eqp_minus; intros E; symmetry in E|].
  exists (third l x1 y1 x2). split; [|by constructor].
  set (W := Z1 * Z2) in *. set (V := W * (x2 - x1)).
  assert (EV : fsub z1 z2 ≡p V) by (rewrite fsub_eqp, EV1, EV2; apply eqp_eq; unfold V; ring).
  assert (EU : fsub z z0 ≡p l * V).
  { rewrite fsub_eqp, EU1, EU2. transitivity ((y2 - y1) * W); [apply eqp_eq; ring|]. rewrite <- Hl. apply eqp_eq; unfold V; ring. }
  assert (EW : z3 ≡p W) by apply (fmul_eqp _ _ _ _ M3).
  assert (EVV : z4 ≡p V * V) by (by rewrite (fmul_eqp _ _ _ _ M4), EV).
  assert (EVVV : z5 ≡p V * V * V) by (by rewrite (fmul_eqp _ _ _ _ M5), EVV, EV).
  assert (EVV2 : z7 ≡p V * V * x1 * W) by (rewrite (fmul_eqp _ _ _ _ M7), EVV, EV2; apply eqp_eq; ring).
  assert (EA : fsub (fsub z8 z5) (fsmall z7 2) ≡p V * V * W * (l * l - x1 - x2)).
  { rewrite !fsub_eqp, fsmall_eqp, EVVV, EVV2, (fmul_eqp _ _ _ _ M8), (fmul_eqp _ _ _ _ M6), EU, EW. apply eqp_eq; unfold V; ring. }
  assert (NV : ~ V ≡p 0) by (apply eqp_nonzero_mul; [done|]; rewrite eqp_minus; intros E; by symmetry in E).
  apply third_stands.
  - rewrite (fmul_eqp _ _ _ _ M12), EVVV, EW. repeat (apply eqp_nonzero_mul; [|done]). done.
  - rewrite (fmul_eqp _ _ _ _ M12), EVVV, EW, (fmul_eqp _ _ _ _ M9), EV, EA. apply eqp_eq; ring.
  - rewrite (fmul_eqp _ _ _ _ M12), fsub_eqp, (fmul_eqp _ _ _ _ M10), (fmul_eqp _ _ _ _ M11), (fsub_eqp z7), EU, EA, EVV2, EVVV, EU2, EW.
    apply eqp_eq; ring.
Qed.
End Law.

(* ------------------------------------------------------------------ *)
(** ** Affine coordinates *)

Section Affine.
Context (al : algo) (junk : bigHex256).

(** The inverse in the field, by Fermat's theorem. *)
Definition finv (a : Z) : Z := pow_fold a (Z.to_pos (p256 - 2)) mod p256.

Lemma fermat_inverse a e : ~ a ≡p 0 -> Z.pos e = p256 - 2 -> a * (pow_fold a e mod p256) ≡p 1.
Proof.
  intros Ha He. assert (H : pow_fold a e ≡p a ^ Z.pos e) by apply pow_fold_congr.
  rewrite eqp_mod, H, He. apply eqp_mod_eq. rewrite <- Z.pow_succ_r by lia.
  replace (Z.succ (p256 - 2)) with (p256 - 1) by lia.
  rewrite ZmodInv.Z.fermat_nz; [reflexivity|apply Znumtheory.prime_alt, p256_prime|].
  intros E. apply Ha. apply eqp_mod_eq. exact E.
Qed.

Lemma finv_inverse a : ~ a ≡p 0 -> a * finv a ≡p 1.
Proof.
  intros Ha. unfold finv. assert (He : Z.pos (Z.to_pos (p256 - 2)) = p256 - 2) by (rewrite Z2Pos.id; [reflexivity|by vm_compute]).
  revert He. generalize (Z.to_pos (p256 - 2)). intros e He. exact (fermat_inverse a e Ha He).
Qed.

Lemma finv_field a : field (finv a).
Proof. unfold finv. apply mod_field. Qed.
#[local] Opaque finv.

Definition affine_field (P : proj) : option (Z * Z) :=
  let '(X, Y, Z) := P in
  if (0 <? Z) && inverse_exact al junk Z then
    x ← fmul al X (finv Z);
    y ← fmul al Y (finv Z);
    Some (x, y)
  else None.

Lemma affine_enc P x y : field3 P -> affine_field P = Some (x, y) ->
  GF_Point_Jacobian_To_Affine256 al junk (jenc al P) = Done (enc al 0 x, enc al 0 y).
Proof.
  destruct P as [[X Y] Z]. intros (HX & HY & HZ) H. unfold affine_field in H. case_in H EC; [|done].
  apply andb_true_iff in EC as [Hpos Hex]. apply Z.ltb_lt in Hpos. fsteps. injection H as <- <-.
  assert (HZp : 0 < Z < p256) by (unfold field in HZ; lia).
  destruct (bigHexInversion256_enc al junk 0 Z HZp (field_gcd Z HZp) Hex) as (i & Hi & Hd & E).
  assert (Ei : i = finv Z).
  { apply eqp_field; [done|apply finv_field|]. apply (eqp_cancel Z); [by apply eqp_small_nonzero|].
    rewrite finv_inverse by (by apply eqp_small_nonzero). exact Hd. }
  unfold GF_Point_Jacobian_To_Affine256. cbn [jenc jx jy jz]. rewrite E. cbn [mbind outcome_bind]. rewrite Ei.
  pose proof (finv_field Z) as Hf.
  by erewrite !fmul_enc by eassumption.
Qed.

Lemma affine_stands P a x y : stands P a -> affine_field P = Some (x, y) -> field3 P -> a = Aff x y.
Proof.
  destruct P as [[X Y] Z]. intros HS H HF. unfold affine_field in H. case_in H EC; [|done].
  apply andb_true_iff in EC as [Hpos Hex]. apply Z.ltb_lt in Hpos. fsteps. injection H as <- <-.
  destruct a as [|x y]; [injection HS as -> -> ->; lia|]. destruct HS as (Hx & Hy & NZ & EX & EY).
  f_equal; (apply eqp_field; [done|by eapply fmul_field|]).
  - rewrite (fmul_eqp _ _ _ _ M), EX. transitivity (x * (Z * finv Z)); [|apply eqp_eq; ring].
    rewrite finv_inverse by done. apply eqp_eq; ring.
  - rewrite (fmul_eqp _ _ _ _ M0), EY. transitivity (y * (Z * finv Z)); [|apply eqp_eq; ring].
    rewrite finv_inverse by done. apply eqp_eq; ring.
Qed.

(** Whether a pair of field elements is a point of the curve, where the three
    products are exact. *)
Definition valid_field (x y : Z) : option bool :=
  yy ← fmul al y y;
  xx ← fmul al x x;
  xxx ← fmul al x xx;
  Some (yy =? fadd (fsub xxx (fadd (fadd x x) x)) b256).

Lemma coef_B_enc : coef_B al = enc al 0 b256.
Proof. destruct al; by vm_compute. Qed.

Lemma valid_enc x y b : field x -> field y -> valid_field x y = Some b ->
  ecc_is_valid_point al junk (enc al 0 x) (enc al 0 y) = b.
Proof.
  intros Hx Hy H. unfold valid_field in H. fsteps. injection H as <-.
  assert (Hb : field b256) by (by vm_compute). unfold ecc_is_valid_point. cbv zeta. rewrite coef_B_enc. fencs.
  rewrite !enc_num. pose proof (fmul_field _ _ _ _ M) as Hz.
  pose proof (fadd_field (fsub z1 (fadd (fadd x x) x)) b256) as Hr. revert Hz Hr.
  generalize (fadd (fsub z1 (fadd (fadd x x) x)) b256). intros w Hz Hr. destruct (Z.eqb_spec z w) as [->|Hne]; [by apply bool_decide_true|].
  apply bool_decide_false. intros E. apply Hne. apply (f_equal (val al)) in E.
  by rewrite !val_digits in E by (by apply field_below).
Qed.

Lemma valid_oncurve x y b : field x -> field y -> valid_field x y = Some b -> b = true <-> oncurve (Aff x y).
Proof.
  intros Hx Hy H. unfold valid_field in H. fsteps. injection H as <-. rewrite Z.eqb_eq. cbn [oncurve].
  assert (E : fadd (fsub z1 (fadd (fadd x x) x)) b256 ≡p x * x * x - 3 * x + b256).
  { rewrite !fadd_eqp, fsub_eqp, !fadd_eqp, (fmul_eqp _ _ _ _ M1), (fmul_eqp _ _ _ _ M0). apply eqp_eq; ring. }
  split.
  - intros Ez. split_and!; [done..|]. by rewrite <- E, <- Ez, (fmul_eqp _ _ _ _ M).
  - intros (_ & _ & Hc). apply eqp_field; [by eapply fmul_field|apply fadd_field|]. by rewrite E, <- Hc, (fmul_eqp _ _ _ _ M).
Qed.

End Affine.

(* ------------------------------------------------------------------ *)
(** ** What the point operations promise *)

(** The base point, and the public key of the debug pair. *)
Definition BASE_X : Z := 0x6b17d1f2e12c4247f8bce6e563a440f277037d812deb33a0f4a13945d898c296.
Definition BASE_Y : Z := 0x4fe342e2fe1a7f9b8ee7eb4a7c0f9e162bce33576b315ececbb6406837bf51f5.
Definition DEBUG_X : Z := 0x20b003d2f297be2c5e2c83a7e9f9a5b9eff49111acf4fddbcc0301480e359de6.
Definition DEBUG_Y : Z := 0xdc809c49652aeb6d63329abf5a52155c766345c28fed3024741c8ed01589d28b.

Lemma affine_point x y : oncurve (Aff x y) -> field3 (x, y, 1) /\ stands (x, y, 1) (Aff x y).
Proof.
  intros (Hx & Hy & _). repeat split; try (apply Hx || apply Hy || done); try (by vm_compute).
  - by apply eqp_small_nonzero.
  - apply eqp_eq; ring.
  - apply eqp_eq; ring.
Qed.

Lemma base_oncurve : oncurve (Aff BASE_X BASE_Y).
Proof. split_and!; [by vm_compute..|]. apply eqp_mod_eq. by vm_compute. Qed.

Lemma debug_oncurve : oncurve (Aff DEBUG_X DEBUG_Y).
Proof. split_and!; [by vm_compute..|]. apply eqp_mod_eq. by vm_compute. Qed.

(** C29: Point addition computes the law of the curve.  For projective
    coordinates of two points of the curve, of the same denominator if their
    abscissas are the same numbers, and provided none of the products hits the
    ranges in which the reduction is inexact, the code's words are the
    coordinates of a point that is the sum: through infinity, opposite points,
    doubling and the general case. *)
Theorem point_addition_law al junk P Q S a b : field3 P -> field3 Q -> stands P a -> stands Q b ->
  oncurve a -> oncurve b -> same_scale P Q -> add_field al P Q = Some S ->
  exists c, GF_Jacobian_Point_Addition256 al junk (jenc al P) (jenc al Q) = jenc al S /\ stands S c /\ law a b c /\ oncurve c.
Proof.
  intros HP HQ HA HB HCA HCB Hs H. destruct (add_law al P Q S a b HP HQ HA HB HCA HCB Hs H) as (c & Hc & HL).
  exists c. split_and!; [by apply add_enc|done|done|by eapply law_oncurve].
Qed.

Lemma point_addition_law_witness : exists S c,
  GF_Jacobian_Point_Addition256 ALGO32 (initBigNumber256 ALGO32) (jenc ALGO32 (BASE_X, BASE_Y, 1)) (jenc ALGO32 (DEBUG_X, DEBUG_Y, 1))
    = jenc ALGO32 S /\ stands S c /\ law (Aff BASE_X BASE_Y) (Aff DEBUG_X DEBUG_Y) c /\ oncurve c.
Proof.
  eexists. destruct (affine_point _ _ base_oncurve) as [F1 S1]. destruct (affine_point _ _ debug_oncurve) as [F2 S2].
  eapply (point_addition_law ALGO32 (initBigNumber256 ALGO32) (BASE_X, BASE_Y, 1) (DEBUG_X, DEBUG_Y, 1)
    (38324190563031755838178977449141978137292253877000049689814106288298868311510,
     48169132965172206373280223912826948735839382636446673643779359161370888124922,
     59030931356906236148310062056179247400283592109075531603379075196901797169269)
    _ _ F1 F2 S1 S2 base_oncurve debug_oncurve).
  - intros _. reflexivity.
  - vm_compute. reflexivity.
Defined.

(** C30: Doubling computes the tangent law.  For projective coordinates of a
    point of the curve, and provided none of the products hits the ranges in
    which the reduction is inexact, the code's words are the coordinates of the
    point doubled, infinity for infinity and for the points of order two. *)
Theorem point_doubling_law al junk P Q a : field3 P -> stands P a -> oncurve a -> double_field al P = Some Q ->
  exists c, GF_Jacobian_Point_Double256 al junk (jenc al P) = jenc al Q /\ stands Q c /\ law a a c /\ oncurve c.
Proof.
  intros HP HA HCA H. destruct (double_law al P Q a HP HA HCA H) as (c & Hc & HL).
  exists c. split_and!; [by apply double_enc|done|done|by eapply law_oncurve].
Qed.

Lemma point_doubling_law_witness : exists Q c,
  GF_Jacobian_Point_Double256 ALGO32 (initBigNumber256 ALGO32) (jenc ALGO32 (BASE_X, BASE_Y, 1)) = jenc ALGO32 Q /\
  stands Q c /\ law (Aff BASE_X BASE_Y) (Aff BASE_X BASE_Y) c /\ oncurve c.
Proof.
  eexists. destruct (affine_point _ _ base_oncurve) as [F1 S1].
  eapply (point_doubling_law ALGO32 (initBigNumber256 ALGO32) (BASE_X, BASE_Y, 1)
    (61827635433630475729425911693235322573441296393194937036769516740026024670063,
     29468416531536242154810423193772930342200868632530199947817229236472112149969,
     63984819202854500337847518611391835314644579662787668416398529297494526954723)
    _ F1 S1 base_oncurve).
  vm_compute. reflexivity.
Defined.

(** The shortcut of the addition is wrong for projective coordinates: two
    points with the same numerator of the abscissa over different denominators
    have different abscissas, and the code answers infinity, which is not
    their sum. *)
Theorem addition_shortcut_wrong al junk X Y1 Z1 Y2 Z2 x1 y1 x2 y2 :
  field3 (X, Y1, Z1) -> field3 (X, Y2, Z2) -> stands (X, Y1, Z1) (Aff x1 y1) -> stands (X, Y2, Z2) (Aff x2 y2) ->
  Y1 <> Y2 -> x1 <> x2 ->
  GF_Jacobian_Point_Addition256 al junk (jenc al (X, Y1, Z1)) (jenc al (X, Y2, Z2)) = jenc al infinity /\
  ~ law (Aff x1 y1) (Aff x2 y2) Inf.
Proof.
  intros HP HQ HA HB HY Hx. split.
  - apply add_enc; [done..|]. unfold add_field.
    rewrite (bool_decide_eq_false_2 _ (stands_infinity _ _ _ HA)), (bool_decide_eq_false_2 _ (stands_infinity _ _ _ HB)).
    rewrite Z.eqb_refl. destruct (Z.eqb_spec Y2 Y1); [congruence|done].
  - intros HL. inversion HL. done.
Qed.

(** The debug key over the denominator that makes the numerators equal. *)
Definition SCALED_Z : Z := 111187000035212817776506586359372283517864806427279713317571984482423675411561.
Definition SCALED_Y : Z := 96782353185352093103764383306547846063821528581744411891021745795535916011864.

Lemma addition_shortcut_wrong_witness :
  GF_Jacobian_Point_Addition256 ALGO32 (initBigNumber256 ALGO32) (jenc ALGO32 (BASE_X, BASE_Y, 1))
    (jenc ALGO32 (BASE_X, SCALED_Y, SCALED_Z)) = jenc ALGO32 infinity /\
  ~ law (Aff BASE_X BASE_Y) (Aff DEBUG_X DEBUG_Y) Inf.
Proof.
  destruct (affine_point _ _ base_oncurve) as [F1 S1].
  apply (addition_shortcut_wrong ALGO32 (initBigNumber256 ALGO32) BASE_X BASE_Y 1 SCALED_Y SCALED_Z BASE_X BASE_Y DEBUG_X DEBUG_Y F1).
  - repeat split; by vm_compute.
  - exact S1.
  - repeat split; try (by vm_compute); first [apply eqp_mod_eq; by vm_compute | by apply eqp_small_nonzero].
  - by vm_compute.
  - by vm_compute.
Defined.

(** The check of a peer's public key decides membership in the curve, for
    coordinates below P whose three products are exact. *)
Theorem valid_point_decided al junk x y b : field x -> field y -> valid_field al x y = Some b ->
  ecc_is_valid_point al junk (enc al 0 x) (enc al 0 y) = b /\ (b = true <-> oncurve (Aff x y)).
Proof. intros Hx Hy H. split; [by apply valid_enc|by eapply valid_oncurve]. Qed.

Lemma valid_point_decided_witness :
  (ecc_is_valid_point ALGO16 (initBigNumber256 ALGO16) (enc ALGO16 0 DEBUG_X) (enc ALGO16 0 DEBUG_Y) = true /\
   (true = true <-> oncurve (Aff DEBUG_X DEBUG_Y))) /\
  (ecc_is_valid_point ALGO32 (initBigNumber256 ALGO32) (enc ALGO32 0 DEBUG_X) (enc ALGO32 0 (DEBUG_Y + 1)) = false /\
   (false = true <-> oncurve (Aff DEBUG_X (DEBUG_Y + 1)))).
Proof.
  split; apply valid_point_decided; by vm_compute.
Defined.
