(* ===== verification/Ecc.v ===== *)
(** Key generation of the BLE stack's P-256 code (ecc_p256.c): a queue of point
    multiplications, advanced one key bit per kernel event, round robin.

    A multiplication is an element of the [CommonList] list [ongoing_mul].  The
    environment holds the link field of every allocated element apart from the
    element itself, as its list is that of [CommonList].  [kernel_malloc],
    the message queue and the event dispatcher are code of a binary library:
    the allocation's result is an argument, sent messages are a list, and the
    event is a flag whose handler runs while it is set. *)

From S2P Require Import Prelude CommonList BigHex EccPrime EccCurve EccField EccPoint.

Record ecc_elt := mk_elt {
  Point_Mul_Word256 : Z;
  Jacobian_PointQ256 : ECC_Jacobian_Point256;
  Jacobian_PointR256 : ECC_Jacobian_Point256;
  Pk256 : bigHex256;
  msg_id : Z;
  client_id : Z;
  current_val : Z;
  bit_cursor : Z
}.

Record ecc_result_ind := mk_ind {
  ind_id : Z;
  ind_dest : Z;
  key_res_x : list Z;
  key_res_y : list Z
}.

(** [links] and [elts] are the allocated elements, [event] is
    [KERNEL_EVENT_ECC_MULTIPLICATION], [sent] the messages so far. *)
Record ecc_env_tag := mk_env {
  links : heap;
  elts : gmap positive ecc_elt;
  ongoing_mul : common_list;
  event : bool;
  sent : list ecc_result_ind
}.

Definition set_links (h : heap) (s : ecc_env_tag) : ecc_env_tag := mk_env h (elts s) (ongoing_mul s) (event s) (sent s).
Definition set_elts (m : gmap positive ecc_elt) (s : ecc_env_tag) : ecc_env_tag := mk_env (links s) m (ongoing_mul s) (event s) (sent s).
Definition set_list (l : common_list) (s : ecc_env_tag) : ecc_env_tag := mk_env (links s) (elts s) l (event s) (sent s).
Definition set_event (b : bool) (s : ecc_env_tag) : ecc_env_tag := mk_env (links s) (elts s) (ongoing_mul s) b (sent s).
Definition set_sent (l : list ecc_result_ind) (s : ecc_env_tag) : ecc_env_tag := mk_env (links s) (elts s) (ongoing_mul s) (event s) l.

Definition TASK_BLE_NONE : Z := 0xFF.
Definition COMMON_ERROR_NO_ERROR : Z := 0x00.
Definition COMMON_ERROR_INVALID_HCI_PARAM : Z := 0x12.

Definition BasePoint_x_256 : list Z := [
  0x96; 0xC2; 0x98; 0xD8; 0x45; 0x39; 0xA1; 0xF4; 0xA0; 0x33; 0xEB; 0x2D; 0x81; 0x7D; 0x03; 0x77;
  0xF2; 0x40; 0xA4; 0x63; 0xE5; 0xE6; 0xBC; 0xF8; 0x47; 0x42; 0x2C; 0xE1; 0xF2; 0xD1; 0x17; 0x6B].
Definition BasePoint_y_256 : list Z := [
  0xF5; 0x51; 0xBF; 0x37; 0x68; 0x40; 0xB6; 0xCB; 0xCE; 0x5E; 0x31; 0x6B; 0x57; 0x33; 0xCE; 0x2B;
  0x16; 0x9E; 0x0F; 0x7C; 0x4A; 0xEB; 0xE7; 0x8E; 0x9B; 0x7F; 0x1A; 0xFE; 0xE2; 0x42; 0xE3; 0x4F].
Definition maxSecretKey_256 : list Z := [
  0xA8; 0x92; 0x31; 0x7E; 0x61; 0xe5; 0xdc; 0x79; 0x42; 0xcf; 0x8b; 0xd3; 0x56; 0x7d; 0x73; 0xde;
  0xff; 0xff; 0xff; 0xff; 0xff; 0xff; 0xff; 0x7f; 0x00; 0x00; 0x00; 0x80; 0xff; 0xff; 0xff; 0x7f].
Definition DebugE256PublicKey_x : list Z := [
  0xE6; 0x9D; 0x35; 0x0E; 0x48; 0x01; 0x03; 0xCC; 0xDB; 0xFD; 0xF4; 0xAC; 0x11; 0x91; 0xF4; 0xEF;
  0xB9; 0xA5; 0xF9; 0xE9; 0xA7; 0x83; 0x2C; 0x5E; 0x2C; 0xBE; 0x97; 0xF2; 0xD2; 0x03; 0xB0; 0x20].
Definition DebugE256PublicKey_y : list Z := [
  0x8B; 0xD2; 0x89; 0x15; 0xD0; 0x8E; 0x1C; 0x74; 0x24; 0x30; 0xED; 0x8F; 0xC2; 0x45; 0x63; 0x76;
  0x5C; 0x15; 0x52; 0x5A; 0xBF; 0x9A; 0x32; 0x63; 0x6D; 0xEB; 0x2A; 0x65; 0x49; 0x9C; 0x80; 0xDC].
Definition DebugE256SecretKey : list Z := [
  0xBD; 0x1A; 0x3C; 0xCD; 0xA6; 0xB8; 0x99; 0x58; 0x99; 0xB7; 0x40; 0xEB; 0x7B; 0x60; 0xFF; 0x4A;
  0x50; 0x3F; 0x10; 0xD2; 0xE3; 0xB3; 0xC9; 0x74; 0x38; 0x5F; 0xC5; 0xA3; 0xD4; 0xF6; 0x49; 0x3F].

(* ------------------------------------------------------------------ *)
(** ** Secret keys *)

(** [for (i = 31; i >= 0; i--)] over a key and the bound, both from the top. *)
Fixpoint key_compare (secretKey maxKey : list Z) : Z :=
  match secretKey, maxKey with
  | s :: ss, m :: ms => if s >? m then 0 else if s <? m then 1 else key_compare ss ms
  | _, _ => 1
  end.

(** The first loop ends with [i == -1] exactly when every byte is zero. *)
Definition isValidSecretKey_256 (secretKey : list Z) : outcome Z :=
  key ← mem_read secretKey 0 32;
  if forallb (Z.eqb 0) key then Done 0
  else Done (key_compare (rev key) (rev maxSecretKey_256)).

(** [common_write32p] of eight random words. *)
Definition random_key (rand : nat -> Z) (k : nat) : list Z :=
  flat_map (fun i => le32 (rand (k + i)%nat)) (seq 0 8).

(** [rand] is the generator, [k] how many words it has given. *)
Fixpoint new_key_loop (fuel : nat) (rand : nat -> Z) (k : nat) : outcome (list Z * nat) :=
  match fuel with
  | O => Spin
  | S fuel =>
      let secret_key256 := random_key rand k in
      valid ← isValidSecretKey_256 secret_key256;
      if valid =? 0 then new_key_loop fuel rand (k + 8) else Done (secret_key256, (k + 8)%nat)
  end.

(** The check of a forced key is commented out. *)
Definition ecc_gen_new_secret_key (fuel : nat) (rand : nat -> Z) (k : nat) (secret_key256 : list Z) (forced : bool)
    : outcome (list Z * nat) :=
  if forced then Done (secret_key256, k) else new_key_loop fuel rand k.

Definition ecc_get_debug_Keys : list Z * list Z * list Z :=
  (DebugE256SecretKey, DebugE256PublicKey_x, DebugE256PublicKey_y).

(* ------------------------------------------------------------------ *)
(** ** Multiplications *)

Section Code.
Context (CFG_DBG : bool) (al : algo) (junk : bigHex256).

Notation n := (ELEMENTS_BIG_HEX256 al).

(** One bit of the key. *)
Definition ecc_point_multiplication_uint8_256 (ecc_elt : ecc_elt) : outcome Ecc.ecc_elt :=
  '(current_val, bit_cursor) ←
    (if bit_cursor ecc_elt =? 0 then
       w ← aget (num (Pk256 ecc_elt)) (Point_Mul_Word256 ecc_elt - 1);
       Done (w, bits al)
     else Done (current_val ecc_elt, bit_cursor ecc_elt));
  let jPointQ256 := Jacobian_PointQ256 ecc_elt in
  let jPointR256 := Jacobian_PointR256 ecc_elt in
  let jPointQ256 :=
    if negb (Z.land current_val 0x1 =? 0)
    then GF_Jacobian_Point_Copy256 (GF_Jacobian_Point_Addition256 al junk jPointQ256 jPointR256)
    else jPointQ256 in
  let jPointR256 := GF_Jacobian_Point_Copy256 (GF_Jacobian_Point_Double256 al junk jPointR256) in
  let current_val := Z.shiftr current_val 1 in
  let bit_cursor := (bit_cursor - 1) mod RADIX al in
  let Point_Mul_Word256 :=
    if bit_cursor =? 0 then u32 (Point_Mul_Word256 ecc_elt - 1) else Point_Mul_Word256 ecc_elt in
  Done (mk_elt Point_Mul_Word256 jPointQ256 jPointR256 (Pk256 ecc_elt) (msg_id ecc_elt) (client_id ecc_elt)
    current_val bit_cursor).
(** The list and the heap, as the environment's operations. *)
Definition mul_push_back (p : ptr) : prog ecc_env_tag unit := fun s =>
  '(h, l) ← common_list_push_back CFG_DBG (links s) (ongoing_mul s) p;
  Done (tt, set_list l (set_links h s)).

Definition mul_pop_front : prog ecc_env_tag ptr := fun s =>
  '(p, l) ← common_list_pop_front CFG_DBG (links s) (ongoing_mul s);
  Done (p, set_list l s).

Definition mul_extract_after (prev elt : ptr) : prog ecc_env_tag unit := fun s =>
  '(h, l) ← common_list_extract_after CFG_DBG (links s) (ongoing_mul s) prev elt;
  Done (tt, set_list l (set_links h s)).

Definition get_elt (a : positive) : prog ecc_env_tag ecc_elt := fun s => e ← deref (elts s !! a); Done (e, s).
Definition put_elt (a : positive) (e : ecc_elt) : prog ecc_env_tag unit := modify (fun s => set_elts (<[a := e]> (elts s)) s).

Definition kernel_free (a : positive) : prog ecc_env_tag unit :=
  modify (fun s => set_links (delete a (links s)) (set_elts (delete a (elts s)) s)).

(** [ecc_result_ind] from the words of a coordinate, least significant byte
    first. *)
Definition key_res (num : list Z) : list Z :=
  flat_map (match al with ALGO16 => le16 | ALGO32 => le32 end) (rev (drop 1 num)).

Definition kernel_msg_send (ind : ecc_result_ind) : prog ecc_env_tag unit :=
  modify (fun s => set_sent (sent s ++ [ind]) s).

Definition ecc_multiplication_event_handler : prog ecc_env_tag unit :=
  _ ← modify (set_event false);
  elt ← mul_pop_front;
  _ ← match elt with
      | Some a =>
          ecc_elt ← get_elt a;
          if Point_Mul_Word256 ecc_elt >? 0 then
            ecc_elt ← lift (ecc_point_multiplication_uint8_256 ecc_elt);
            _ ← put_elt a ecc_elt;
            mul_push_back (Some a)
          else when (negb (client_id ecc_elt =? TASK_BLE_NONE)) (
            '(x, y) ← lift (GF_Point_Jacobian_To_Affine256 al junk (Jacobian_PointQ256 ecc_elt));
            _ ← kernel_free a;
            kernel_msg_send (mk_ind (msg_id ecc_elt) (client_id ecc_elt) (key_res (num x)) (key_res (num y))))
      | None => lift (ASSERT_ERR CFG_DBG false)
      end;
  l ← gets ongoing_mul;
  when (negb (common_list_is_empty l)) (modify (set_event true)).

(** The words of a key or coordinate of 32 bytes, least significant first. *)
Fixpoint words_of (k : nat) (bytes : list Z) : list Z :=
  match k with
  | O => []
  | S k =>
      match al, bytes with
      | ALGO16, b0 :: b1 :: bytes =>
          (Z.land (Z.shiftl b1 8) 0xFF00 + Z.land b0 0x00FF) :: words_of k bytes
      | ALGO32, b0 :: b1 :: b2 :: b3 :: bytes =>
          (Z.land (Z.shiftl b3 24) 0xFF000000 + Z.land (Z.shiftl b2 16) 0x00FF0000
           + Z.land (Z.shiftl b1 8) 0x0000FF00 + Z.land b0 0x000000FF) :: words_of k bytes
      | _, _ => []
      end
  end.

Definition load_key (bytes : list Z) (sign : Z) : bigHex256 :=
  setBigNumberLength256 al (mk_big (0 :: rev (words_of (n - 1) bytes)) 0 sign).

(** [mem] is what [kernel_malloc] returns, which is not checked; the sign of
    the private key is not initialised. *)
Definition ecc_generate_key256 (secret_key public_key_x public_key_y : list Z) (msg_id task_id : Z) (mem : ptr)
    : prog ecc_env_tag Z :=
  secret_key ← lift (mem_read secret_key 0 32);
  public_key_x ← lift (mem_read public_key_x 0 32);
  public_key_y ← lift (mem_read public_key_y 0 32);
  let PrivateKey256 := load_key secret_key (sign junk) in
  let PublicKey256_x := load_key public_key_x 0 in
  let PublicKey256_y := load_key public_key_y 0 in
  if ecc_is_valid_point al junk PublicKey256_x PublicKey256_y then
    a ← lift (deref mem);
    let ecc_elt :=
      mk_elt (Z.of_nat n) (GF_Setup_Jacobian_Infinity_Point256 al)
        (GF_Jacobian_Point_Copy256 (GF_Affine_To_Jacobian_Point_Copy256 al PublicKey256_x PublicKey256_y))
        (copyBigHex256 PrivateKey256) msg_id task_id 0 0 in
    _ ← modify (fun s => set_links (<[a := NULL]> (links s)) s);
    _ ← put_elt a ecc_elt;
    _ ← mul_push_back (Some a);
    _ ← modify (set_event true);
    mret COMMON_ERROR_NO_ERROR
  else mret COMMON_ERROR_INVALID_HCI_PARAM.

Definition ecc_gen_new_public_key (secret_key : list Z) (msg_id task_id : Z) (mem : ptr) : prog ecc_env_tag Z :=
  ecc_generate_key256 secret_key BasePoint_x_256 BasePoint_y_256 msg_id task_id mem.

(** [while (elt != NULL)]. *)
Fixpoint abort_loop (fuel : nat) (task_id : Z) (prev elt : ptr) : prog ecc_env_tag unit :=
  match fuel, elt with
  | _, None => mret tt
  | O, _ => lift Spin
  | S fuel, Some a =>
      e ← get_elt a;
      if client_id e =? task_id then
        _ ← mul_extract_after prev elt;
        _ ← kernel_free a;
        l ← gets ongoing_mul;
        when (common_list_is_empty l) (modify (set_event false))
      else
        h ← gets links;
        next ← lift (get_next h elt);
        abort_loop fuel task_id elt next
  end.

Definition ecc_abort_key256_generation (task_id : Z) : prog ecc_env_tag unit :=
  h ← gets links;
  l ← gets ongoing_mul;
  abort_loop (turns h) task_id NULL (cl_first l).

(** [while(!common_list_is_empty(&ecc_env.ongoing_mul))]. *)
Fixpoint free_loop (fuel : nat) : prog ecc_env_tag unit :=
  l ← gets ongoing_mul;
  if negb (common_list_is_empty l) then
    match fuel with
    | O => lift Spin
    | S fuel =>
        elt ← mul_pop_front;
        a ← lift (deref elt);
        _ ← kernel_free a;
        free_loop fuel
    end
  else mret tt.

Definition ecc_init (reset : bool) : prog ecc_env_tag unit :=
  h ← gets links;
  _ ← when reset (_ ← modify (set_event false); free_loop (turns h));
  modify (fun s => set_list (common_list_init CFG_DBG (ongoing_mul s)) s).

(** The dispatcher runs the handler while the event is set. *)
Fixpoint events (k : nat) : prog ecc_env_tag unit :=
  match k with
  | O => mret tt
  | S k => _ ← ecc_multiplication_event_handler; events k
  end.

End Code.

(* ------------------------------------------------------------------ *)
(** ** Keys as numbers *)

(** The [k] bytes of a number, least significant first. *)
Fixpoint le_bytes (k : nat) (v : Z) : list Z :=
  match k with
  | O => []
  | S k => v mod 256 :: le_bytes k (v / 256)
  end.

Section Keys.
Context (al : algo).
Notation n := (ELEMENTS_BIG_HEX256 al).
Notation R := (RADIX al).

Definition word_bytes : nat := match al with ALGO16 => 2 | ALGO32 => 4 end.

Lemma digits_snoc m v : digits al (S m) v = digits al m (v / R) ++ [v mod R].
Proof.
  revert v. induction m as [|m IH]; intros v.
  - cbn [digits app]. change (R ^ Z.of_nat 0) with 1. by rewrite Z.div_1_r.
  - change (digits al (S (S m)) v) with ((v / R ^ Z.of_nat (S m)) mod R :: digits al (S m) v). rewrite IH.
    cbn [digits app]. f_equal. f_equal. rewrite pow_S, Z.div_div; [done|pose proof (radix_pos al); lia|apply pow_nat_pos].
Qed.

Lemma le_bytes_app k m v : le_bytes (k + m) v = le_bytes k v ++ le_bytes m (v / 256 ^ Z.of_nat k).
Proof.
  revert v. induction k as [|k IH]; intros v; cbn [le_bytes app Nat.add]; [by rewrite Z.div_1_r|].
  f_equal. rewrite IH, Z.div_div by (try apply Z.pow_pos_nonneg; lia). do 3 f_equal.
  rewrite Nat2Z.inj_succ, Z.pow_succ_r; lia.
Qed.

Lemma word_image w : 0 <= w < R -> (match al with ALGO16 => le16 | ALGO32 => le32 end) w = le_bytes word_bytes w.
Proof.
  intros Hw. unfold word_bytes. destruct al; unfold le16, le32, u8; cbn [le_bytes]; rewrite !Z.shiftr_div_pow2, ?Z.div_div by lia; done.
Qed.

Lemma le_bytes_mod k v : le_bytes k (v mod 256 ^ Z.of_nat k) = le_bytes k v.
Proof.
  revert v. induction k as [|k IH]; intros v; [done|]. cbn [le_bytes].
  rewrite Nat2Z.inj_succ, Z.pow_succ_r by lia. assert (0 < 256 ^ Z.of_nat k) by (apply Z.pow_pos_nonneg; lia).
  rewrite Z.rem_mul_r by lia. f_equal.
  - rewrite Z.mul_comm, Z.mod_add by lia. by apply Z.mod_mod.
  - rewrite (Z.mul_comm 256), Z.div_add by lia. rewrite (Z.div_small (v mod 256)) by (apply Z.mod_pos_bound; lia). apply IH.
Qed.

Lemma key_words m : forall v, flat_map (match al with ALGO16 => le16 | ALGO32 => le32 end) (rev (digits al m v)) = le_bytes (word_bytes * m) v.
Proof.
  assert (HR : R = 256 ^ Z.of_nat word_bytes) by (unfold word_bytes; by destruct al).
  induction m as [|m IH]; intros v; [by rewrite Nat.mul_0_r|].
  rewrite digits_snoc, rev_app_distr. cbn [rev app flat_map]. rewrite IH, word_image by (apply Z.mod_pos_bound; by destruct al).
  replace (word_bytes * S m)%nat with (word_bytes + word_bytes * m)%nat by lia. rewrite le_bytes_app, <- HR. f_equal.
  rewrite HR. apply le_bytes_mod.
Qed.

Lemma key_res_bytes s v : key_res al (num (enc al s v)) = le_bytes 32 v.
Proof.
  unfold key_res. rewrite enc_num. assert (En : n = S (HIGHEST_INDEX_BIG_HEX256 al)) by (by destruct al). rewrite En. cbn [digits drop].
  rewrite drop_0, key_words. f_equal. unfold word_bytes. by destruct al.
Qed.

Lemma bytes_16 b0 b1 : is_byte b0 -> is_byte b1 -> Z.land (Z.shiftl b1 8) 0xFF00 + Z.land b0 0x00FF = b0 + 256 * b1.
Proof.
  intros H0 H1. replace (Z.land b0 0x00FF) with b0 by (change 0x00FF with (Z.ones 8); rewrite Z.land_ones, Z.mod_small; done).
  assert (E : Z.land (Z.shiftl b1 8) 0xFF00 = Z.shiftl b1 8); [|rewrite E, Z.shiftl_mul_pow2; lia].
  change 0xFF00 with (Z.shiftl (Z.ones 8) 8). rewrite <- Z.shiftl_land, Z.land_ones, Z.mod_small; done.
Qed.

Lemma bytes_32 b0 b1 b2 b3 : is_byte b0 -> is_byte b1 -> is_byte b2 -> is_byte b3 ->
  Z.land (Z.shiftl b3 24) 0xFF000000 + Z.land (Z.shiftl b2 16) 0x00FF0000 + Z.land (Z.shiftl b1 8) 0x0000FF00 + Z.land b0 0x000000FF
    = b0 + 256 * (b1 + 256 * (b2 + 256 * b3)).
Proof.
  intros H0 H1 H2 H3. rewrite <- Z.add_assoc, bytes_16 by done.
  assert (G : forall b k, is_byte b -> 0 <= k -> Z.land (Z.shiftl b k) (Z.shiftl (Z.ones 8) k) = b * 2 ^ k).
  { intros b k Hb Hk. rewrite <- Z.shiftl_land, Z.land_ones, Z.mod_small, Z.shiftl_mul_pow2; done. }
  change 0xFF000000 with (Z.shiftl (Z.ones 8) 24). change 0x00FF0000 with (Z.shiftl (Z.ones 8) 16). rewrite !G by (done || lia). lia.
Qed.

Lemma words_of_val k : forall bytes, length bytes = (word_bytes * k)%nat -> Forall is_byte bytes ->
  length (words_of al k bytes) = k /\ Forall (word al) (words_of al k bytes) /\ val al (rev (words_of al k bytes)) = of_le bytes.
Proof.
  induction k as [|k IH]; intros bytes Hl Hb; [by destruct bytes; [|rewrite Nat.mul_0_r in Hl]|].
  unfold word_bytes in *. cbn [words_of].
  assert (Hsn : forall ws w, length ws = k -> val al (rev (w :: ws)) = val al (rev ws) * R + w).
  { intros ws w _. cbn [rev]. rewrite val_app. cbn [val]. change (zlen [w]) with 1. change (R ^ zlen []) with 1. rewrite Z.pow_1_r. lia. }
  destruct al.
  - destruct bytes as [|b0 [|b1 bs]]; cbn [length] in Hl; try lia.
    apply Forall_cons in Hb as [H0 Hb]. apply Forall_cons in Hb as [H1 Hb]. destruct (IH bs ltac:(lia) Hb) as (L & W & V).
    split_and!; [cbn; lia| |].
    + constructor; [|done]. rewrite bytes_16 by done. unfold word, is_byte in *. cbn [RADIX]. lia.
    + rewrite Hsn, V, bytes_16 by done. cbn [of_le foldr RADIX]. change (foldr _ 0 bs) with (of_le bs). lia.
  - destruct bytes as [|b0 [|b1 [|b2 [|b3 bs]]]]; cbn [length] in Hl; try lia.
    apply Forall_cons in Hb as [H0 Hb]. apply Forall_cons in Hb as [H1 Hb]. apply Forall_cons in Hb as [H2 Hb]. apply Forall_cons in Hb as [H3 Hb].
    destruct (IH bs ltac:(lia) Hb) as (L & W & V). split_and!; [cbn; lia| |].
    + constructor; [|done]. rewrite bytes_32 by done. unfold word, is_byte in *. cbn [RADIX]. lia.
    + rewrite Hsn, V, bytes_32 by done. cbn [of_le foldr RADIX]. change (foldr _ 0 bs) with (of_le bs). lia.
Qed.

Lemma load_key_enc bytes s : length bytes = 32%nat -> Forall is_byte bytes -> load_key al bytes s = enc al s (of_le bytes).
Proof.
  intros Hl Hb. destruct (words_of_val (n - 1) bytes) as (L & W & V); [rewrite Hl; unfold word_bytes; by destruct al|done|].
  unfold load_key. apply set_length_enc.
  - constructor; [by destruct al|]. by apply Forall_rev.
  - cbn [length]. rewrite length_rev, L. by destruct al.
  - cbn [val]. by rewrite V.
Qed.
End Keys.

(* ------------------------------------------------------------------ *)
(** ** The bits of a key *)

Section Bits.
Context (al : algo) (junk : bigHex256).
Notation n := (ELEMENTS_BIG_HEX256 al).
Notation bits := (bits al).
Notation step := (ecc_point_multiplication_uint8_256 al junk).

(** The number of bits a multiplication goes through. *)
Definition key_bits : Z := Z.of_nat n * bits.

(** Where a multiplication by [k] stands after [i] bits. *)
Record at_bit (k i : Z) (e : ecc_elt) : Prop := {
  at_word : Point_Mul_Word256 e = Z.of_nat n - i / bits;
  at_cursor : bit_cursor e = (- i) mod bits;
  at_val : current_val e = (k / 2 ^ i) mod 2 ^ ((- i) mod bits);
  at_key : num (Pk256 e) = digits al n k
}.

Lemma bits_pos : 0 < bits < RADIX al.
Proof. by destruct al. Qed.

Lemma digits_nth m v j : (j < m)%nat -> digits al m v !! (m - 1 - j)%nat = Some ((v / 2 ^ (bits * Z.of_nat j)) mod 2 ^ bits).
Proof.
  rewrite Z.pow_mul_r, <- radix_bits by (pose proof bits_pos; lia).
  revert j. induction m as [|m IH]; intros j Hj; [lia|]. destruct (Nat.eq_dec j m) as [->|Hne].
  - replace (S m - 1 - m)%nat with O by lia. done.
  - replace (S m - 1 - j)%nat with (S (m - 1 - j)) by lia. apply IH. lia.
Qed.

(** The word being worked on, from bit [i] up: [c] bits. *)
Lemma low_bit k i c : 0 <= i -> 0 < c -> negb (Z.land ((k / 2 ^ i) mod 2 ^ c) 1 =? 0) = Z.testbit k i.
Proof.
  intros Hi Hc. assert (E : Z.land ((k / 2 ^ i) mod 2 ^ c) 1 = Z.b2z (Z.testbit k i)); [|rewrite E; by destruct (Z.testbit k i)].
  change 1 with (Z.ones 1) at 1. rewrite Z.land_ones, Z.pow_1_r by lia.
  rewrite <- Z.bit0_mod, Z.testbit_mod_pow2, Z.div_pow2_bits by lia. by rewrite (proj2 (Z.ltb_lt 0 c)).
Qed.

Lemma shift_word k i c : 0 <= i -> 0 < c -> Z.shiftr ((k / 2 ^ i) mod 2 ^ c) 1 = (k / 2 ^ (i + 1)) mod 2 ^ (c - 1).
Proof.
  intros Hi Hc. apply Z.bits_inj'. intros m Hm. rewrite Z.shiftr_spec, !Z.testbit_mod_pow2, !Z.div_pow2_bits by lia.
  f_equal; [|f_equal; lia]. destruct (Z.ltb_spec (m + 1) c), (Z.ltb_spec m (c - 1)); lia || done.
Qed.

(** One bit: the control of the loop, whatever the points are. *)
Lemma step_control k i e : 0 <= i < key_bits -> at_bit k i e ->
  let Q := Jacobian_PointQ256 e in let R := Jacobian_PointR256 e in
  exists e', step e = Done e' /\ at_bit k (i + 1) e' /\ msg_id e' = msg_id e /\ client_id e' = client_id e /\
    Jacobian_PointQ256 e' = (if Z.testbit k i then GF_Jacobian_Point_Addition256 al junk Q R else Q) /\
    Jacobian_PointR256 e' = GF_Jacobian_Point_Double256 al junk R.
Proof.
  intros Hi [Hw Hc Hv Hk]. cbv zeta. pose proof bits_pos as Hb. unfold key_bits in Hi.
  assert (Hcr : 0 <= (- i) mod bits < bits) by (apply Z.mod_pos_bound; lia).
  set (c := if (- i) mod bits =? 0 then bits else (- i) mod bits).
  assert (Hcb : 0 < c <= bits) by (unfold c; destruct (Z.eqb_spec ((- i) mod bits) 0); lia).
  assert (Hdiv : 0 <= i / bits < Z.of_nat n).
  { split; [apply Z.div_pos; lia|]. apply Z.div_lt_upper_bound; lia. }
  assert (Emod : (- i) mod bits = c mod bits).
  { unfold c. destruct (Z.eqb_spec ((- i) mod bits) 0) as [E|]; [by rewrite E, Z.mod_same by lia|by rewrite Z.mod_mod by lia]. }
  assert (Eq : i = bits * (i / bits) + (bits - c)).
  { pose proof (Z.div_mod i bits ltac:(lia)) as E. pose proof (Z.mod_pos_bound i bits ltac:(lia)). 
    unfold c in *. destruct (Z.eq_dec (i mod bits) 0) as [E0|E0].
    - rewrite (Z.mod_opp_l_z i bits) in * by lia. cbn. lia.
    - rewrite (Z.mod_opp_l_nz i bits) in * by lia. destruct (Z.eqb_spec (bits - i mod bits) 0); lia. }
  assert (Hload : (if bit_cursor e =? 0 then w ← aget (num (Pk256 e)) (Point_Mul_Word256 e - 1); Done (w, bits)
      else Done (current_val e, bit_cursor e)) = Done ((k / 2 ^ i) mod 2 ^ c, c)).
  { rewrite Hc, Hv. unfold c in *. destruct (Z.eqb_spec ((- i) mod bits) 0) as [E|E]; [|done].
    rewrite Hk, Hw. rewrite (aget_in _ _ ((k / 2 ^ i) mod 2 ^ bits)); [done|lia|].
    replace (Z.to_nat (Z.of_nat n - i / bits - 1)) with (n - 1 - Z.to_nat (i / bits))%nat by lia.
    rewrite digits_nth by lia. rewrite Z2Nat.id by lia. replace (bits * (i / bits)) with i by lia. done. }
  unfold ecc_point_multiplication_uint8_256. rewrite Hload. cbn [mbind outcome_bind]. rewrite low_bit, shift_word, !jac_copy_id by lia.
  eexists. split; [done|]. cbn. split_and!; [|done..].
  assert (Ec : (c - 1) mod RADIX al = c - 1) by (apply Z.mod_small; lia).
  assert (En : (- (i + 1)) mod bits = c - 1).
  { symmetry. apply Z.mod_unique with (- (i / bits) - 1); [lia|]. lia. }
  assert (Eword : (if (c - 1) mod RADIX al =? 0 then u32 (Point_Mul_Word256 e - 1) else Point_Mul_Word256 e) = Z.of_nat n - (i + 1) / bits).
  { rewrite Ec, Hw. destruct (Z.eqb_spec (c - 1) 0) as [E|E].
    - assert (E1 : (i + 1) / bits = i / bits + 1) by (symmetry; apply Z.div_unique with 0; lia).
      rewrite E1, u32_small; [lia|]. assert (Z.of_nat n <= 17) by (by destruct al). lia.
    - assert (E1 : (i + 1) / bits = i / bits) by (symmetry; apply Z.div_unique with (bits - c + 1); lia). by rewrite E1. }
  split; cbn; [exact Eword|by rewrite Ec|by rewrite En|done].
Qed.
End Bits.

(* ------------------------------------------------------------------ *)
(** ** Double and add *)

(** The law's double and add, from the least significant bit of the key: [S]
    is [Q] plus [k] times [R], the doublings of [R] going no further than the
    highest bit of [k]. *)
Fixpoint double_and_add (k : positive) (Q R S : apoint) : Prop :=
  match k with
  | xH => law Q R S
  | xO k => exists R', law R R R' /\ double_and_add k Q R' S
  | xI k => exists Q' R', law Q R Q' /\ law R R R' /\ double_and_add k Q' R' S
  end.

Section Scalar.
Context (al : algo) (junk : bigHex256).
Notation step := (ecc_point_multiplication_uint8_256 al junk).

Definition same_scaleb (P Q : proj) : bool :=
  let '(X1, _, Z1) := P in let '(X2, _, Z2) := Q in negb (X1 =? X2) || (Z1 =? Z2).

Definition add_exact (Q R : proj) : option proj := if same_scaleb Q R then add_field al Q R else None.

(** On numbers, where every product the result depends on is exact and no
    shortcut of the addition goes wrong. *)
Fixpoint daa_field (k : positive) (Q R : proj) : option proj :=
  match k with
  | xH => add_exact Q R
  | xO k => R' ← double_field al R; daa_field k Q R'
  | xI k => Q' ← add_exact Q R; R' ← double_field al R; daa_field k Q' R'
  end.

(** The affine result of multiplying the point [(x, y)] by [k], where it is
    not the infinity and the inversion for it does not borrow. *)
Definition mul_field (k x y : Z) : option (Z * Z) :=
  match k with
  | Zpos p => S ← daa_field p infinity (x, y, 1); affine_field al junk S
  | _ => None
  end.

Lemma same_scaleb_spec P Q : same_scaleb P Q = true -> same_scale P Q.
Proof. destruct P as [[X Y] Z], Q as [[X' Y'] Z']. cbn. intros H E. subst. rewrite Z.eqb_refl in H. by apply Z.eqb_eq. Qed.

Lemma infinity_field : field3 infinity.
Proof. by vm_compute. Qed.

Lemma double_field3 P Q : double_field al P = Some Q -> field3 Q.
Proof.
  destruct P as [[X Y] Z]. unfold double_field. intros H. case_in H EC; [injection H as <-; apply infinity_field|].
  fsteps. injection H as <-. repeat split; (apply fsmall_field || apply fsub_field).
Qed.

Lemma add_field3 P Q S : field3 P -> field3 Q -> add_field al P Q = Some S -> field3 S.
Proof.
  destruct P as [[X Y] Z], Q as [[X' Y'] Z']. intros HP HQ. unfold add_field. intros H. case_in H EC; [by injection H as <-|].
  clear EC. case_in H EC; [by injection H as <-|]. clear EC. case_in H EC; [injection H as <-; apply infinity_field|]. clear EC. fsteps.
  case_in H EC; [|clear EC].
  - clear EC. case_in H EC; [injection H as <-; apply infinity_field|by apply double_field3 in H].
  - fsteps. injection H as <-. pose proof (fsub_field z10 z11). repeat split; (apply fsub_field || (by eapply fmul_field)).
Qed.

Lemma add_exact_field Q R S : field3 Q -> field3 R -> add_exact Q R = Some S -> field3 S /\ add_field al Q R = Some S.
Proof. unfold add_exact. intros FQ FR H. destruct (same_scaleb Q R); [|done]. split; [exact (add_field3 Q R S FQ FR H)|done]. Qed.

Lemma add_exact_law Q R S q r : field3 Q -> field3 R -> stands Q q -> stands R r -> oncurve q -> oncurve r ->
  add_exact Q R = Some S -> field3 S /\ exists s, stands S s /\ law q r s /\ oncurve s.
Proof.
  intros FQ FR HQ HR CQ CR H. destruct (add_exact_field Q R S FQ FR H) as [FS _]. split; [done|]. unfold add_exact in H. destruct (same_scaleb Q R) eqn:Es; [|done].
  destruct (add_law al Q R S q r FQ FR HQ HR CQ CR (same_scaleb_spec _ _ Es) H) as (s & Hs & HL).
  exists s. split_and!; [done..|]. by eapply law_oncurve.
Qed.

Lemma daa_law k : forall Q R S q r, field3 Q -> field3 R -> stands Q q -> stands R r -> oncurve q -> oncurve r ->
  daa_field k Q R = Some S -> field3 S /\ exists s, stands S s /\ double_and_add k q r s /\ oncurve s.
Proof.
  induction k as [k IH|k IH|]; intros Q R S q r FQ FR HQ HR CQ CR H; cbn [daa_field] in H; [| |exact (add_exact_law Q R S q r FQ FR HQ HR CQ CR H)].
  - destruct (add_exact Q R) as [Q'|] eqn:EQ; [|done]. destruct (double_field al R) as [R'|] eqn:ER; [|done]. cbn [mbind option_bind] in H.
    destruct (add_exact_law Q R Q' q r FQ FR HQ HR CQ CR EQ) as (FQ' & q' & HQ' & Lq & Cq').
    destruct (double_law al R R' r FR HR CR ER) as (r' & HR' & Lr).
    destruct (IH Q' R' S q' r' FQ' (double_field3 _ _ ER) HQ' HR' Cq' (law_oncurve _ _ _ Lr CR CR) H) as (FS & s & Hs & Hd & Cs).
    split; [done|]. exists s. split_and!; [done| |done]. by exists q', r'.
  - destruct (double_field al R) as [R'|] eqn:ER; [|done]. cbn [mbind option_bind] in H.
    destruct (double_law al R R' r FR HR CR ER) as (r' & HR' & Lr).
    destruct (IH Q R' S q r' FQ (double_field3 _ _ ER) HQ HR' CQ (law_oncurve _ _ _ Lr CR CR) H) as (FS & s & Hs & Hd & Cs).
    split; [done|]. exists s. split_and!; [done| |done]. by exists r'.
Qed.

(** The accumulator: the encoding, or the infinity it starts with, whose
    lengths are 1. *)
Definition jrep (c : ECC_Jacobian_Point256) (P : proj) : Prop :=
  c = jenc al P \/ (c = GF_Setup_Jacobian_Infinity_Point256 al /\ P = infinity).

Lemma add_infinity Q : add_field al infinity Q = Some Q.
Proof. destruct Q as [[X Y] Z]. unfold add_field, infinity. by rewrite bool_decide_true. Qed.

Lemma add_jrep c P Q S : jrep c P -> field3 P -> field3 Q -> add_field al P Q = Some S ->
  GF_Jacobian_Point_Addition256 al junk c (jenc al Q) = jenc al S.
Proof.
  intros [->|[-> ->]] HP HQ H; [by apply add_enc|].
  assert (Ei : Is_Infinite256 al (GF_Setup_Jacobian_Infinity_Point256 al) = true) by (destruct al; by vm_compute).
  unfold GF_Jacobian_Point_Addition256. cbv zeta. rewrite Ei, is_infinite_enc by done. rewrite add_infinity in H.
  injection H as <-. destruct (bool_decide _) eqn:E; [|by rewrite jac_copy_id].
  apply bool_decide_eq_true in E as ->. apply infinity_enc.
Qed.

(** A multiplication that delivers [ind] after [l] steps. *)
Fixpoint promises (l : nat) (e : ecc_elt) (ind : ecc_result_ind) : Prop :=
  match l with
  | O => Point_Mul_Word256 e = 0 /\ client_id e <> TASK_BLE_NONE /\
         exists x y, GF_Point_Jacobian_To_Affine256 al junk (Jacobian_PointQ256 e) = Done (x, y) /\
           ind = mk_ind (msg_id e) (client_id e) (key_res al (num x)) (key_res al (num y))
  | S l => 0 < Point_Mul_Word256 e /\ exists e', step e = Done e' /\ promises l e' ind
  end.

Lemma word_pos k i e : at_bit al k i e -> 0 <= i < key_bits al -> 0 < Point_Mul_Word256 e.
Proof.
  intros [-> _ _ _] Hi. pose proof (bits_pos al). unfold key_bits in Hi.
  assert (i / bits al < Z.of_nat (ELEMENTS_BIG_HEX256 al)); [apply Z.div_lt_upper_bound|]; lia.
Qed.

(** The next bit of the key. *)
Lemma next_bit k i : 0 <= k -> 0 <= i -> k / 2 ^ i = 2 * (k / 2 ^ (i + 1)) + Z.b2z (Z.testbit k i).
Proof.
  intros Hk Hi. rewrite Z.testbit_spec' by done. rewrite Z.pow_add_r, <- Z.div_div by (try apply Z.pow_pos_nonneg; lia). apply Z.div_mod. lia.
Qed.

(** When no bit of the key is left, the remaining steps keep the result. *)
Lemma idle_promises k m : forall i e x y, 0 <= k -> 0 <= i -> i + Z.of_nat m = key_bits al -> at_bit al k i e -> k / 2 ^ i = 0 ->
  client_id e <> TASK_BLE_NONE -> GF_Point_Jacobian_To_Affine256 al junk (Jacobian_PointQ256 e) = Done (x, y) ->
  promises m e (mk_ind (msg_id e) (client_id e) (key_res al (num x)) (key_res al (num y))).
Proof.
  induction m as [|m IH]; intros i e x y Hk Hi Hm He H0 Hc HQ.
  - destruct He as [Hw _ _ _]. cbn [promises]. split_and!; [|done|by exists x, y].
    rewrite Hw. replace i with (key_bits al) by lia. unfold key_bits. pose proof (bits_pos al). rewrite Z.div_mul; lia.
  - assert (Hil : 0 <= i < key_bits al) by lia. pose proof (next_bit k i Hk Hi) as Hn.
    assert (Hk1 : 0 <= k / 2 ^ (i + 1)) by (apply Z.div_pos; [done|apply Z.pow_pos_nonneg; lia]).
    destruct (step_control al junk k i e Hil He) as (e' & Es & He' & Em & Ec & EQ' & _).
    assert (Eb : Z.testbit k i = false) by (destruct (Z.testbit k i); cbn in Hn; [lia|done]). rewrite Eb in *. cbn in Hn.
    cbn [promises]. split; [by eapply word_pos|]. exists e'. split; [done|]. rewrite <- Em, <- Ec.
    apply (IH (i + 1)); [done|lia|lia|done|lia|by rewrite Ec|by rewrite EQ'].
Qed.

Lemma field_promises k p : forall m i e Q R S rx ry, 0 <= k < 2 ^ key_bits al -> 0 <= i -> i + Z.of_nat m = key_bits al ->
  at_bit al k i e -> k / 2 ^ i = Zpos p -> jrep (Jacobian_PointQ256 e) Q -> Jacobian_PointR256 e = jenc al R -> field3 Q -> field3 R ->
  client_id e <> TASK_BLE_NONE -> daa_field p Q R = Some S -> affine_field al junk S = Some (rx, ry) ->
  promises m e (mk_ind (msg_id e) (client_id e) (le_bytes 32 rx) (le_bytes 32 ry)).
Proof.
  induction p as [p IH|p IH|]; intros m i e Q R S rx ry Hk Hi Hm He Hp HQ HR FQ FR Hc H HS;
    (destruct m as [|m]; [rewrite Z.div_small in Hp by (replace i with (key_bits al) by lia; done); discriminate Hp|]);
    assert (Hil : 0 <= i < key_bits al) by lia; pose proof (next_bit k i (proj1 Hk) Hi) as Hn; rewrite Hp in Hn;
    destruct (step_control al junk k i e Hil He) as (e' & Es & He' & Em & Ec & EQ' & ER');
    cbn [promises]; (split; [by eapply word_pos|]); exists e'; (split; [done|]); rewrite <- Em, <- Ec; cbn [daa_field] in H;
    destruct (Z.testbit k i); cbn [Z.b2z] in Hn; try lia.
  - destruct (add_exact Q R) as [Q'|] eqn:EQ; [|done]. destruct (double_field al R) as [R'|] eqn:ER; [|done]. cbn [mbind option_bind] in H.
    destruct (add_exact_field Q R Q' FQ FR EQ) as [FQ' EA].
    apply (IH m (i + 1) e' Q' R' S rx ry); [done|lia|lia|done|lia| | |done|by eapply double_field3|by rewrite Ec|done|done].
    + left. rewrite EQ', HR. by apply (add_jrep _ Q).
    + rewrite ER', HR. by apply double_enc.
  - destruct (double_field al R) as [R'|] eqn:ER; [|done]. cbn [mbind option_bind] in H.
    apply (IH m (i + 1) e' Q R' S rx ry); [done|lia|lia|done|lia|by rewrite EQ'| |done|by eapply double_field3|by rewrite Ec|done|done].
    rewrite ER', HR. by apply double_enc.
  - destruct (add_exact_field Q R S FQ FR H) as [FS EA]. rewrite <- (key_res_bytes al 0 rx), <- (key_res_bytes al 0 ry).
    apply (idle_promises k m (i + 1)); [lia|lia|lia|done|lia|by rewrite Ec|].
    rewrite EQ', HR, (add_jrep _ Q R S) by done. by apply affine_enc.
Qed.

End Scalar.

(* ------------------------------------------------------------------ *)
(** ** The queue *)

Section Queue.
Context (CFG_DBG : bool) (al : algo) (junk : bigHex256).
Notation step := (ecc_point_multiplication_uint8_256 al junk).
Notation handler := (ecc_multiplication_event_handler CFG_DBG al junk).
Abbreviation queue := (list (positive * ecc_elt)).

(** The environment holds the queue [q], and the event is set exactly while
    there is something to do. *)
Record env_rep (s : ecc_env_tag) (q : queue) : Prop := {
  env_list : list_rep CFG_DBG (links s) (ongoing_mul s) (q.*1);
  env_elts : Forall (fun ae => elts s !! ae.1 = Some ae.2) q;
  env_event : event s = negb (bool_decide (q = []))
}.

Lemma env_empty s q : env_rep s q -> common_list_is_empty (ongoing_mul s) = bool_decide (q = []).
Proof.
  intros [[Hs _ _ _] _ _]. rewrite (empty_iff _ _ _ Hs). by destruct q.
Qed.

(** Other elements come and go. *)
Lemma elts_frame (m m' : gmap positive ecc_elt) (q : queue) a : (forall b, b <> a -> m' !! b = m !! b) -> a ∉ q.*1 ->
  Forall (fun ae => m !! ae.1 = Some ae.2) q -> Forall (fun ae => m' !! ae.1 = Some ae.2) q.
Proof.
  intros Hm Ha HE. rewrite Forall_forall in HE. apply Forall_forall. intros ae Hae. rewrite Hm; [by apply HE|].
  intros <-. apply Ha. by apply list_elem_of_fmap_2.
Qed.

(** The end of the handler sets the event again. *)
Lemma handler_end s q : list_rep CFG_DBG (links s) (ongoing_mul s) (q.*1) -> Forall (fun ae => elts s !! ae.1 = Some ae.2) q ->
  event s = false ->
  exists s', (l ← gets ongoing_mul; when (negb (common_list_is_empty l)) (modify (set_event true))) s = Done (tt, s') /\
    env_rep s' q /\ sent s' = sent s /\ links s' = links s /\ elts s' = elts s.
Proof.
  intros HL HE Hev. assert (Ee : common_list_is_empty (ongoing_mul s) = bool_decide (q = [])).
  { destruct HL as [Hs _ _ _]. rewrite (empty_iff _ _ _ Hs). by destruct q. }
  prog_run. rewrite Ee. destruct (bool_decide (q = [])) eqn:Eq; cbn.
  - exists s. split; [done|]. split_and!; [|done..]. split; [done|done|by rewrite Eq].
  - eexists. split; [done|]. split_and!; [|done..]. split; [done|done|by rewrite Eq].
Qed.

(** One turn of a multiplication that has bits left. *)
Lemma handler_step s a e q e' : env_rep s ((a, e) :: q) -> 0 < Point_Mul_Word256 e -> step e = Done e' ->
  exists s', handler s = Done (tt, s') /\ env_rep s' (q ++ [(a, e')]) /\ sent s' = sent s /\
    dom (elts s') = dom (elts s).
Proof.
  intros [HL HE Hev] Hw Hs. destruct (pop_front_spec CFG_DBG _ _ _ HL) as (l1 & Ep & HL1). cbn in Ep, HL1.
  apply Forall_cons in HE as [Ea HE]. cbn in Ea.
  pose proof HL as [Hseg Hnd _ _]. cbn in Hnd. apply NoDup_cons in Hnd as [Hna Hnd].
  assert (Hin : is_Some (links s !! a)) by (eapply lseg_dom; [exact Hseg|by left]).
  destruct (push_back_spec CFG_DBG (links s) l1 (q.*1) a HL1 Hna Hin) as (h2 & l2 & Eb & HL2 & Hfr).
  unfold ecc_multiplication_event_handler. prog_run. unfold mul_pop_front at 1, mbind, prog_bind. cbn [links ongoing_mul set_event].
  rewrite Ep. cbn [mbind outcome_bind]. unfold get_elt. cbn [elts set_list set_event]. rewrite Ea. cbn [deref mbind outcome_bind].
  rewrite (proj2 (Z.gtb_lt _ _)) by lia. rewrite Hs. cbn [lift]. unfold put_elt, modify, mul_push_back. cbn. rewrite Eb. cbn.
  edestruct (handler_end (set_list l2 (set_links h2 (set_elts (<[a:=e']> (elts s)) (set_list l1 (set_event false s))))) (q ++ [(a, e')]))
    as (s' & E & Hrep & Hsent & _ & Hel); cbn.
  - by rewrite fmap_app.
  - apply Forall_app. split; [|apply Forall_singleton; cbn; apply lookup_insert_eq].
    apply (elts_frame (elts s) _ q a); [intros b Hb; apply lookup_insert_ne; congruence|done..].
  - done.
  - exists s'. split; [exact E|]. split_and!; [done|by rewrite Hsent|]. rewrite Hel. cbn. rewrite dom_insert_L.
    apply elem_of_dom_2 in Ea. set_solver.
Qed.

(** The last turn of a multiplication: the result is sent and the element
    freed. *)
Lemma handler_deliver s a e q x y : env_rep s ((a, e) :: q) -> Point_Mul_Word256 e = 0 -> client_id e <> TASK_BLE_NONE ->
  GF_Point_Jacobian_To_Affine256 al junk (Jacobian_PointQ256 e) = Done (x, y) ->
  exists s', handler s = Done (tt, s') /\ env_rep s' q /\
    sent s' = sent s ++ [mk_ind (msg_id e) (client_id e) (key_res al (num x)) (key_res al (num y))] /\
    elts s' = delete a (elts s) /\ links s' = delete a (links s).
Proof.
  intros [HL HE Hev] Hw Hc Hxy. destruct (pop_front_spec CFG_DBG _ _ _ HL) as (l1 & Ep & HL1). cbn in Ep, HL1.
  apply Forall_cons in HE as [Ea HE]. cbn in Ea.
  pose proof HL as [Hseg Hnd _ _]. cbn in Hnd. apply NoDup_cons in Hnd as [Hna Hnd].
  unfold ecc_multiplication_event_handler. prog_run. unfold mul_pop_front at 1, mbind, prog_bind. cbn [links ongoing_mul set_event].
  rewrite Ep. cbn [mbind outcome_bind]. unfold get_elt. cbn [elts set_list set_event]. rewrite Ea. cbn [deref mbind outcome_bind].
  rewrite Hw. change (0 >? 0) with false. cbn [when]. apply Z.eqb_neq in Hc. rewrite Hc. cbn [negb when].
  unfold mbind, prog_bind. rewrite Hxy. cbn.
  edestruct (handler_end (set_sent (sent s ++ [mk_ind (msg_id e) (client_id e) (key_res al (num x)) (key_res al (num y))])
    (set_links (delete a (links s)) (set_elts (delete a (elts s)) (set_list l1 (set_event false s))))) q)
    as (s' & E & Hrep & Hsent & Hli & Hel); cbn.
  - eapply list_rep_frame; [|exact HL1]. intros b Hb. apply lookup_delete_ne. by intros ->.
  - apply (elts_frame (elts s) _ q a); [intros b Hb; apply lookup_delete_ne; congruence|done..].
  - done.
  - exists s'. split; [exact E|]. by rewrite Hsent, Hli, Hel.
Qed.

(** A result that cannot be converted stops the handler. *)
Lemma handler_spins s a e q : env_rep s ((a, e) :: q) -> Point_Mul_Word256 e = 0 -> client_id e <> TASK_BLE_NONE ->
  GF_Point_Jacobian_To_Affine256 al junk (Jacobian_PointQ256 e) = Spin -> handler s = Spin.
Proof.
  intros [HL HE Hev] Hw Hc Hxy. destruct (pop_front_spec CFG_DBG _ _ _ HL) as (l1 & Ep & HL1). cbn in Ep, HL1.
  apply Forall_cons in HE as [Ea HE]. cbn in Ea.
  unfold ecc_multiplication_event_handler. prog_run. unfold mul_pop_front at 1, mbind, prog_bind. cbn [links ongoing_mul set_event].
  rewrite Ep. cbn [mbind outcome_bind]. unfold get_elt. cbn [elts set_list set_event]. rewrite Ea. cbn [deref mbind outcome_bind].
  rewrite Hw. change (0 >? 0) with false. apply Z.eqb_neq in Hc. rewrite Hc. cbn [negb when].
  unfold mbind, prog_bind. by rewrite Hxy.
Qed.

(** Enough events drain any queue of multiplications that promise a result:
    each is sent exactly once. *)
Lemma drain k : forall s q ps, env_rep s q -> Forall2 (fun ae p => promises al junk p.1 ae.2 p.2) q ps ->
  k = list_sum (map (fun p => S p.1) ps) ->
  exists s' out, events CFG_DBG al junk k s = Done (tt, s') /\ env_rep s' [] /\ sent s' = sent s ++ out /\ out ≡ₚ map snd ps.
Proof.
  induction k as [|k IH]; intros s q ps Hrep Hp Hk.
  - destruct ps as [|p ps]; [|discriminate Hk]. apply Forall2_nil_inv_r in Hp as ->. exists s, []. by rewrite app_nil_r.
  - destruct ps as [|[l ind] ps]; [discriminate Hk|]. apply Forall2_cons_inv_r in Hp as ([a e] & q' & Hp & Hps & ->). cbn [fst snd] in Hp.
    cbn [events]. destruct l as [|l]; cbn [promises] in Hp.
    + destruct Hp as (Hw & Hc & x & y & Hxy & ->).
      destruct (handler_deliver s a e q' x y Hrep Hw Hc Hxy) as (s1 & E & Hrep1 & Hs1 & _).
      destruct (IH s1 q' ps Hrep1 Hps) as (s' & out & E' & Hrep' & Hs' & Hperm); [injection Hk as ->; reflexivity|].
      exists s', (mk_ind (msg_id e) (client_id e) (key_res al (num x)) (key_res al (num y)) :: out).
      rewrite (run_bind _ _ _ _ _ E), E', Hs', Hs1, <- app_assoc. split_and!; [done..|]. cbn. by constructor.
    + destruct Hp as (Hw & e' & Es & Hp). destruct (handler_step s a e q' e' Hrep Hw Es) as (s1 & E & Hrep1 & Hs1 & _).
      destruct (IH s1 (q' ++ [(a, e')]) (ps ++ [(l, ind)]) Hrep1) as (s' & out & E' & Hrep' & Hs' & Hperm).
      { apply Forall2_app; [done|]. by constructor. }
      { rewrite map_app, list_sum_app. injection Hk as ->. cbn [map list_sum fst foldr]. change (foldr Init.Nat.add 0%nat) with list_sum. lia. }
      exists s', out. rewrite (run_bind _ _ _ _ _ E), E', Hs', Hs1. split_and!; [done..|].
      rewrite Hperm, map_app. cbn. by rewrite Permutation_app_comm.
Qed.
(** A new multiplication. *)
Definition new_elt (sk : list Z) (x y msg task : Z) : ecc_elt :=
  mk_elt (Z.of_nat (ELEMENTS_BIG_HEX256 al)) (GF_Setup_Jacobian_Infinity_Point256 al) (jenc al (x, y, 1))
    (enc al (sign junk) (of_le sk)) msg task 0 0.

Definition key_bytes (l : list Z) : Prop := length l = 32%nat /\ Forall is_byte l.

Lemma key_range l : key_bytes l -> 0 <= of_le l < 2 ^ key_bits al.
Proof.
  intros [Hl Hb]. pose proof (of_le_range l Hb) as H. unfold zlen in H. rewrite Hl in H. split; [lia|].
  eapply Z.lt_le_trans; [apply H|]. destruct al; by vm_compute.
Qed.

Lemma key_read l : key_bytes l -> mem_read l 0 32 = Done l.
Proof. intros [Hl _]. rewrite mem_read_in; [by rewrite slice_all by (unfold zlen; lia)|lia|lia|unfold zlen; lia]. Qed.

Lemma one_enc : copyBigHex256 (mk_big (<[HIGHEST_INDEX_BIG_HEX256 al := 1]> (replicate (ELEMENTS_BIG_HEX256 al) 0)) 1 0) = enc al 0 1.
Proof. destruct al; by vm_compute. Qed.

Lemma new_at_bit sk x y msg task : at_bit al (of_le sk) 0 (new_elt sk x y msg task).
Proof.
  split; cbn.
  - rewrite Z.div_0_l by (pose proof (bits_pos al); lia). lia.
  - by rewrite Z.mod_0_l by (pose proof (bits_pos al); lia).
  - rewrite Z.mod_0_l by (pose proof (bits_pos al); lia). by rewrite Z.pow_0_r, Z.mod_1_r.
  - done.
Qed.

Lemma generate_spec s q a sk px py msg task : env_rep s q -> a ∉ q.*1 -> key_bytes sk -> key_bytes px -> key_bytes py ->
  ecc_is_valid_point al junk (enc al 0 (of_le px)) (enc al 0 (of_le py)) = true ->
  exists s1, ecc_generate_key256 CFG_DBG al junk sk px py msg task (Some a) s = Done (COMMON_ERROR_NO_ERROR, s1) /\
    env_rep s1 (q ++ [(a, new_elt sk (of_le px) (of_le py) msg task)]) /\ sent s1 = sent s.
Proof.
  intros [HL HE Hev] Ha Hsk Hpx Hpy Hv. unfold ecc_generate_key256. rewrite !key_read by done. prog_run.
  rewrite !load_key_enc by (apply Hsk || apply Hpx || apply Hpy). rewrite Hv. cbn [deref]. prog_run.
  replace (mk_elt _ _ _ _ _ _ _ _) with (new_elt sk (of_le px) (of_le py) msg task).
  2: { unfold new_elt. rewrite jac_copy_id, copy_id. unfold GF_Affine_To_Jacobian_Point_Copy256. cbv zeta. rewrite one_enc, !copy_id. done. }
  unfold put_elt. prog_run. unfold mul_push_back, mbind at 1, prog_bind. cbn [links ongoing_mul set_links set_elts].
  destruct (push_back_spec CFG_DBG (<[a:=NULL]> (links s)) (ongoing_mul s) (q.*1) a) as (h2 & l2 & Eb & HL2 & _); [|done|rewrite lookup_insert_eq; eauto|].
  { eapply list_rep_frame; [|exact HL]. intros b Hb. apply lookup_insert_ne. by intros ->. }
  rewrite Eb. cbn. eexists. split; [done|]. split; [|done]. split; cbn.
  - by rewrite fmap_app.
  - apply Forall_app. split; [|apply Forall_singleton; cbn; apply lookup_insert_eq].
    apply (elts_frame (elts s) _ q a); [intros b Hb; apply lookup_insert_ne; congruence|done..].
  - by rewrite bool_decide_false by (by destruct q).
Qed.

(** An invalid point is refused and nothing changes. *)
Lemma generate_invalid s sk px py msg task mem : key_bytes sk -> key_bytes px -> key_bytes py ->
  ecc_is_valid_point al junk (enc al 0 (of_le px)) (enc al 0 (of_le py)) = false ->
  ecc_generate_key256 CFG_DBG al junk sk px py msg task mem s = Done (COMMON_ERROR_INVALID_HCI_PARAM, s).
Proof.
  intros Hsk Hpx Hpy Hv. unfold ecc_generate_key256. rewrite !key_read by done. prog_run.
  rewrite !load_key_enc by (apply Hsk || apply Hpx || apply Hpy). by rewrite Hv.
Qed.

(** The abort removes and frees the first multiplication of the task. *)
Lemma abort_loop_found s a e post task : forall mid pre fuel, env_rep s (pre ++ mid ++ (a, e) :: post) ->
  Forall (fun ae => client_id ae.2 <> task) mid -> client_id e = task -> (length mid < fuel)%nat ->
  exists s', abort_loop CFG_DBG fuel task (last (pre.*1)) (head ((mid ++ (a, e) :: post).*1)) s = Done (tt, s') /\
    env_rep s' (pre ++ mid ++ post) /\ sent s' = sent s /\ elts s' = delete a (elts s).
Proof.
  induction mid as [|[b eb] mid IH]; intros pre fuel [HL HE Hev] Hm Hc Hfuel; (destruct fuel as [|fuel]; [cbn in Hfuel; lia|]); cbn [app fmap list_fmap head fst abort_loop].
  - cbn [app] in *. pose proof HE as HE'. apply Forall_app in HE as [HEp HEq]. apply Forall_cons in HEq as [Ea HEq]. cbn in Ea.
    unfold mbind at 1, prog_bind, get_elt. rewrite Ea. cbn [deref mbind outcome_bind]. rewrite (proj2 (Z.eqb_eq _ _) Hc).
    rewrite fmap_app in HL. cbn [fmap list_fmap fst] in HL. pose proof HL as [_ Hnd _ _].
    destruct (extract_after_spec CFG_DBG _ _ _ _ _ HL) as (h' & l' & Ex & HL' & Hfr).
    assert (E1 : mul_extract_after CFG_DBG (last pre.*1) (Some a) s = Done (tt, set_list l' (set_links h' s))) by (unfold mul_extract_after; by rewrite Ex).
    rewrite (run_bind _ _ _ _ _ E1). unfold kernel_free. prog_run. cbn [ongoing_mul set_list set_links set_elts links elts].
    assert (Hna : (a ∉ pre.*1) /\ (a ∉ post.*1)) by (apply NoDup_middle in Hnd; tauto).
    assert (HLd : list_rep CFG_DBG (delete a h') l' ((pre ++ post).*1)).
    { rewrite fmap_app. eapply list_rep_frame; [|exact HL']. intros x Hx. apply lookup_delete_ne. intros ->.
      apply elem_of_app in Hx. tauto. }
    assert (HEd : Forall (fun ae => delete a (elts s) !! ae.1 = Some ae.2) (pre ++ post)).
    { apply (elts_frame (elts s) _ _ a); [intros x Hx; apply lookup_delete_ne; congruence| |by apply Forall_app].
      rewrite fmap_app, elem_of_app. tauto. }
    pose proof HLd as [Hs _ _ _]. rewrite (empty_iff _ _ _ Hs). destruct (pre ++ post) as [|p0 r0] eqn:Epp; cbn.
    + eexists. split; [done|]. by split_and!.
    + eexists. split; [done|]. split_and!; [|done..]. split; [done|done|]. cbn. rewrite Hev. cbn. by destruct pre.
  - pose proof HE as HE'. apply Forall_app in HE as [_ HEq]. cbn [app] in HEq. apply Forall_cons in HEq as [Eb _]. cbn in Eb.
    apply Forall_cons in Hm as [Hb Hm]. cbn in Hb. apply Z.eqb_neq in Hb.
    unfold mbind at 1, prog_bind at 1, get_elt at 1. rewrite Eb. cbn [deref mbind outcome_bind]. rewrite Hb.
    pose proof HL as [Hseg _ _ _]. rewrite fmap_app in Hseg. apply lseg_app in Hseg as (m & _ & Hseg). cbn [app fmap list_fmap fst lseg] in Hseg.
    destruct Hseg as (-> & nx & En & Hseg). prog_run. rewrite (get_next_in _ _ _ En). prog_run.
    apply lseg_head in Hseg. rewrite Hseg.
    destruct (IH (pre ++ [(b, eb)]) fuel) as (s' & E & Hrep & Hsent & Hel); [by rewrite <- app_assoc|done|done|cbn in Hfuel; lia|].
    rewrite fmap_app in E. cbn [fmap list_fmap fst] in E. rewrite last_snoc in E. exists s'. rewrite <- app_assoc in Hrep. by split_and!.
Qed.

Lemma abort_loop_absent s task : forall rest pre fuel, env_rep s (pre ++ rest) ->
  Forall (fun ae => client_id ae.2 <> task) rest -> (length rest <= fuel)%nat ->
  abort_loop CFG_DBG fuel task (last (pre.*1)) (head (rest.*1)) s = Done (tt, s).
Proof.
  induction rest as [|[b eb] rest IH]; intros pre fuel [HL HE Hev] Hm Hfuel; [by destruct fuel|].
  destruct fuel as [|fuel]; [cbn in Hfuel; lia|]. cbn [fmap list_fmap head fst abort_loop].
  pose proof HE as HE'. apply Forall_app in HE as [_ HEq]. apply Forall_cons in HEq as [Eb _]. cbn in Eb.
  apply Forall_cons in Hm as [Hb Hm]. cbn in Hb. apply Z.eqb_neq in Hb.
  unfold mbind at 1, prog_bind at 1, get_elt at 1. rewrite Eb. cbn [deref mbind outcome_bind]. rewrite Hb.
  pose proof HL as [Hseg _ _ _]. rewrite fmap_app in Hseg. apply lseg_app in Hseg as (m & _ & Hseg). cbn [fmap list_fmap fst lseg] in Hseg.
  destruct Hseg as (-> & nx & En & Hseg). prog_run. rewrite (get_next_in _ _ _ En). prog_run.
  apply lseg_head in Hseg. rewrite Hseg.
  pose proof (IH (pre ++ [(b, eb)]) fuel) as E. rewrite fmap_app in E. cbn [fmap list_fmap fst] in E. rewrite last_snoc in E.
  apply E; [by rewrite <- app_assoc|done|cbn in Hfuel; lia].
Qed.

Lemma queue_turns s q : env_rep s q -> (length q < turns (links s))%nat.
Proof. intros [[Hs Hnd _ _] _ _]. pose proof (lseg_length _ _ _ _ Hnd Hs) as H. by rewrite length_fmap in H. Qed.

(** The reset frees every multiplication. *)
Lemma free_loop_all (q : queue) : forall s fuel, list_rep CFG_DBG (links s) (ongoing_mul s) (q.*1) -> (length q <= fuel)%nat ->
  exists s', free_loop CFG_DBG fuel s = Done (tt, s') /\ event s' = event s /\ sent s' = sent s /\
    (forall b, links s' !! b = if bool_decide (b ∈ q.*1) then None else links s !! b) /\
    (forall b, elts s' !! b = if bool_decide (b ∈ q.*1) then None else elts s !! b).
Proof.
  induction q as [|[a e] q IH]; intros s fuel HL Hfuel.
  - pose proof HL as [Hs _ _ _]. exists s. split; [|done]. destruct fuel; cbn [free_loop]; prog_run; by rewrite (empty_iff _ _ _ Hs).
  - destruct fuel as [|fuel]; [cbn in Hfuel; lia|]. pose proof HL as [Hs Hnd _ _]. cbn in Hnd. apply NoDup_cons in Hnd as [Hna _].
    cbn [free_loop]. prog_run. rewrite (empty_iff _ _ _ Hs). cbn [fmap list_fmap negb].
    destruct (pop_front_spec CFG_DBG _ _ _ HL) as (l1 & Ep & HL1). cbn in Ep, HL1.
    unfold mul_pop_front at 1, mbind at 1, prog_bind at 1. rewrite Ep. cbn [mbind outcome_bind deref]. prog_run. unfold kernel_free. prog_run.
    destruct (IH (set_links (delete a (links s)) (set_elts (delete a (elts s)) (set_list l1 s))) fuel) as (s' & E & He & Hsent & Hli & Hel);
      [|cbn in Hfuel; lia|].
    { cbn. eapply list_rep_frame; [|exact HL1]. intros b Hb. apply lookup_delete_ne. by intros ->. }
    exists s'. split_and!; [exact E|done|done| |].
    + intros b. rewrite Hli. cbn. destruct (decide (b = a)) as [->|Hne].
      * rewrite lookup_delete_eq. rewrite (bool_decide_true (a ∈ a :: _)) by left. by destruct (bool_decide _).
      * rewrite lookup_delete_ne by congruence. rewrite (bool_decide_ext (b ∈ a :: q.*1) (b ∈ q.*1)); [done|]. rewrite elem_of_cons. naive_solver.
    + intros b. rewrite Hel. cbn. destruct (decide (b = a)) as [->|Hne].
      * rewrite lookup_delete_eq. rewrite (bool_decide_true (a ∈ a :: _)) by left. by destruct (bool_decide _).
      * rewrite lookup_delete_ne by congruence. rewrite (bool_decide_ext (b ∈ a :: q.*1) (b ∈ q.*1)); [done|]. rewrite elem_of_cons. naive_solver.
Qed.

End Queue.

(* ------------------------------------------------------------------ *)
(** ** The key zero *)

Section Zero.
Context (CFG_DBG : bool) (al : algo) (junk : bigHex256).

Lemma half_zero : half_words al 0 (replicate (ELEMENTS_BIG_HEX256 al) 0) = replicate (ELEMENTS_BIG_HEX256 al) 0.
Proof. destruct al; by vm_compute. Qed.

(** Halving zero never ends. *)
Lemma halve_zero fuel : forall u A, num u = replicate (ELEMENTS_BIG_HEX256 al) 0 -> halve_loop al fuel junk u A = Spin.
Proof.
  induction fuel as [|fuel IH]; intros u A Hu; cbn [halve_loop].
  - assert (E : ISBIGHEXEVEN256 al u = true) by (unfold ISBIGHEXEVEN256; rewrite Hu; destruct al; by vm_compute). by rewrite E.
  - assert (E : ISBIGHEXEVEN256 al u = true) by (unfold ISBIGHEXEVEN256; rewrite Hu; destruct al; by vm_compute). rewrite E.
    apply IH. unfold divideByTwo256, setBigNumberLength256. cbn [num]. rewrite Hu. apply half_zero.
Qed.

Lemma inverse_of_start_spins : bigHexInversion256 al junk (jz (GF_Setup_Jacobian_Infinity_Point256 al)) = Spin.
Proof.
  unfold bigHexInversion256. cbv zeta. generalize (eq_refl OUTER_FUEL). generalize OUTER_FUEL at 1 3. intros fuel Hf.
  destruct fuel as [|fuel]; [discriminate Hf|]. cbn [inversion_loop].
  assert (El : negb (len (copyBigHex256 (with_sign (jz (GF_Setup_Jacobian_Infinity_Point256 al)) 0)) =? 0) = true) by (destruct al; by vm_compute).
  rewrite El, (halve_zero INNER_FUEL (copyBigHex256 (with_sign (jz (GF_Setup_Jacobian_Infinity_Point256 al)) 0))) by (destruct al; by vm_compute).
  reflexivity.
Qed.

Lemma zero_key_steps m : forall s a e i, env_rep CFG_DBG s [(a, e)] -> 0 <= i -> i + Z.of_nat m <= key_bits al -> at_bit al 0 i e ->
  Jacobian_PointQ256 e = GF_Setup_Jacobian_Infinity_Point256 al ->
  exists s' e', events CFG_DBG al junk m s = Done (tt, s') /\ env_rep CFG_DBG s' [(a, e')] /\ at_bit al 0 (i + Z.of_nat m) e' /\
    Jacobian_PointQ256 e' = GF_Setup_Jacobian_Infinity_Point256 al /\ client_id e' = client_id e.
Proof.
  induction m as [|m IH]; intros s a e i Hrep Hi Hm He HQ.
  - exists s, e. rewrite Z.add_0_r. by split_and!.
  - assert (Hil : 0 <= i < key_bits al) by lia. destruct (step_control al junk 0 i e Hil He) as (e1 & Es & He1 & _ & Ec & EQ & _).
    rewrite Z.bits_0 in EQ. destruct (handler_step CFG_DBG al junk s a e [] e1 Hrep (word_pos al _ _ _ He Hil) Es) as (s1 & E1 & Hrep1 & _).
    destruct (IH s1 a e1 (i + 1) Hrep1 ltac:(lia) ltac:(lia) He1 ltac:(by rewrite EQ)) as (s2 & e2 & E2 & Hrep2 & He2 & HQ2 & Ec2).
    exists s2, e2. cbn [events]. rewrite (run_bind _ _ _ _ _ E1). split_and!; [done..| |done|congruence].
    by replace (i + Z.of_nat (S m)) with (i + 1 + Z.of_nat m) by lia.
Qed.
End Zero.

(* ------------------------------------------------------------------ *)
(** ** What key generation promises *)

Section Properties.
Context (CFG_DBG : bool) (al : algo) (junk : bigHex256).

(** C28: Keys are delivered.  From any environment whose queued
    multiplications promise a result each after some number of steps, a request
    with a secret key of 32 bytes and a public point of the curve (for which the
    products of the check are exact) is accepted.  If moreover [mul_field] gives
    the product of key and point, that is if the key is not zero, the result is
    not the infinity, every product it depends on is exact, no shortcut of the
    addition goes wrong and the last inversion does not borrow, then as many
    kernel events as there are bits left in the queue, and one more for each
    multiplication, send every result exactly once and leave the queue empty,
    and the result of the request is the secret key's double and add of the
    point, under the law of the curve, its coordinates least significant byte
    first. *)
Theorem ecc_keys_delivered s q ps a sk px py msg task :
  env_rep CFG_DBG s q -> Forall2 (fun ae p => promises al junk p.1 ae.2 p.2) q ps -> a ∉ q.*1 ->
  key_bytes sk -> key_bytes px -> key_bytes py -> task <> TASK_BLE_NONE ->
  oncurve (Aff (of_le px) (of_le py)) -> valid_field al (of_le px) (of_le py) <> None ->
  exists s1, ecc_generate_key256 CFG_DBG al junk sk px py msg task (Some a) s = Done (COMMON_ERROR_NO_ERROR, s1) /\ sent s1 = sent s /\
    forall rx ry, mul_field al junk (of_le sk) (of_le px) (of_le py) = Some (rx, ry) ->
      let left := list_sum (map (fun p => S p.1) ps) in
      exists s2 out, events CFG_DBG al junk (left + S (Z.to_nat (key_bits al))) s1 = Done (tt, s2) /\ env_rep CFG_DBG s2 [] /\
        sent s2 = sent s ++ out /\ out ≡ₚ map snd ps ++ [mk_ind msg task (le_bytes 32 rx) (le_bytes 32 ry)] /\
        exists k, of_le sk = Zpos k /\ double_and_add k Inf (Aff (of_le px) (of_le py)) (Aff rx ry).
Proof.
  intros Hrep Hps Ha Hsk Hpx Hpy Htask Hon Hvalid. destruct (valid_field al (of_le px) (of_le py)) as [b|] eqn:Ev; [|done]. clear Hvalid.
  pose proof Hon as (Hx & Hy & _).
  assert (Hb : b = true) by (apply (valid_oncurve al _ _ b Hx Hy Ev); exact Hon). subst b.
  pose proof (valid_enc al junk _ _ _ Hx Hy Ev) as Hv.
  destruct (generate_spec CFG_DBG al junk s q a sk px py msg task Hrep Ha Hsk Hpx Hpy Hv) as (s1 & E & Hrep1 & Hs1).
  exists s1. split_and!; [done|done|]. intros rx ry Hm. cbv zeta.
  pose proof (key_range al sk Hsk) as Hkr. unfold mul_field in Hm. destruct (of_le sk) as [|k|] eqn:Ek; [done| |done].
  destruct (daa_field _ _ _ _) as [T|] eqn:Ed; [|done]. cbn [mbind option_bind] in Hm.
  destruct (affine_point _ _ Hon) as [FR HR].
  destruct (daa_law al _ _ _ _ _ _ infinity_field FR (eq_refl : stands infinity Inf) HR I Hon Ed) as (FT & t & Ht & Hd & _).
  pose proof (affine_stands al junk T t rx ry Ht Hm FT) as ->.
  assert (Hp : promises al junk (Z.to_nat (key_bits al)) (new_elt al junk sk (of_le px) (of_le py) msg task)
    (mk_ind msg task (le_bytes 32 rx) (le_bytes 32 ry))).
  { apply (field_promises al junk (of_le sk) k _ 0 (new_elt al junk sk (of_le px) (of_le py) msg task) infinity (of_le px, of_le py, 1) T); try done.
    - by rewrite Ek.
    - unfold key_bits. pose proof (bits_pos al). rewrite Z2Nat.id; nia.
    - apply new_at_bit.
    - by rewrite Z.pow_0_r, Z.div_1_r.
    - by right. }
  destruct (drain CFG_DBG al junk (list_sum (map (fun p => S p.1) (ps ++ [(Z.to_nat (key_bits al), mk_ind msg task (le_bytes 32 rx) (le_bytes 32 ry))]))) s1
    (q ++ [(a, new_elt al junk sk (of_le px) (of_le py) msg task)]) (ps ++ [(Z.to_nat (key_bits al), mk_ind msg task (le_bytes 32 rx) (le_bytes 32 ry))]) Hrep1)
    as (s2 & out & E2 & Hrep2 & Hs2 & Hperm); [|done|].
  { apply Forall2_app; [done|]. by constructor. }
  exists s2, out. rewrite map_app, list_sum_app in E2. rewrite map_app in Hperm. cbn [map list_sum foldr fst snd] in E2, Hperm.
  rewrite Nat.add_0_r in E2. split_and!; [done|done|by rewrite Hs2, Hs1|done|by exists k].
Qed.

(** C34: The secret key zero, which a forced key may be as its check is
    commented out, hangs the stack: the request is accepted, every bit of the
    key is worked through, and then the inversion of the denominator 0, whose
    length field says 1, halves zero for ever, whatever bound is put on its
    turns. *)
Theorem ecc_zero_key_hangs s a sk px py msg task : env_rep CFG_DBG s [] -> key_bytes sk -> key_bytes px -> key_bytes py ->
  task <> TASK_BLE_NONE -> of_le sk = 0 ->
  ecc_is_valid_point al junk (enc al 0 (of_le px)) (enc al 0 (of_le py)) = true ->
  exists s1 s2, ecc_generate_key256 CFG_DBG al junk sk px py msg task (Some a) s = Done (COMMON_ERROR_NO_ERROR, s1) /\
    events CFG_DBG al junk (Z.to_nat (key_bits al)) s1 = Done (tt, s2) /\ event s2 = true /\
    ecc_multiplication_event_handler CFG_DBG al junk s2 = Spin /\
    (forall fuel A, halve_loop al fuel junk (jz (GF_Setup_Jacobian_Infinity_Point256 al)) A = Spin).
Proof.
  intros Hrep Hsk Hpx Hpy Htask H0 Hv.
  destruct (generate_spec CFG_DBG al junk s [] a sk px py msg task Hrep ltac:(by apply not_elem_of_nil) Hsk Hpx Hpy Hv) as (s1 & E & Hrep1 & _).
  pose proof (new_at_bit al junk sk (of_le px) (of_le py) msg task) as Hat. rewrite H0 in Hat.
  assert (Hb : 0 <= key_bits al) by (unfold key_bits; pose proof (bits_pos al); nia).
  destruct (zero_key_steps CFG_DBG al junk (Z.to_nat (key_bits al)) s1 a _ 0 Hrep1 ltac:(lia) ltac:(lia) Hat eq_refl) as (s2 & e2 & E2 & Hrep2 & He2 & HQ2 & Ec2).
  exists s1, s2. split_and!; [done|done|by destruct Hrep2 as [_ _ ->]| |].
  - apply (handler_spins CFG_DBG al junk s2 a e2 [] Hrep2).
    + destruct He2 as [-> _ _ _]. rewrite Z.add_0_l, Z2Nat.id by done. unfold key_bits. pose proof (bits_pos al). rewrite Z.div_mul; lia.
    + by rewrite Ec2.
    + rewrite HQ2. unfold GF_Point_Jacobian_To_Affine256. by rewrite inverse_of_start_spins.
  - intros fuel A. apply halve_zero. destruct al; by vm_compute.
Qed.

(** Aborting removes and frees the first multiplication of the task and
    no other, and does nothing when the task has none; a reset frees every
    multiplication, whatever their number, and leaves the queue empty and the
    event clear. *)
Theorem ecc_abort_and_reset s q task : env_rep CFG_DBG s q ->
  (forall pre a e post, q = pre ++ (a, e) :: post -> Forall (fun ae => client_id ae.2 <> task) pre -> client_id e = task ->
     exists s', ecc_abort_key256_generation CFG_DBG task s = Done (tt, s') /\ env_rep CFG_DBG s' (pre ++ post) /\
       sent s' = sent s /\ elts s' = delete a (elts s)) /\
  (Forall (fun ae => client_id ae.2 <> task) q -> ecc_abort_key256_generation CFG_DBG task s = Done (tt, s)) /\
  (exists s', ecc_init CFG_DBG true s = Done (tt, s') /\ env_rep CFG_DBG s' [] /\ sent s' = sent s /\
     forall b, elts s' !! b = if bool_decide (b ∈ q.*1) then None else elts s !! b).
Proof.
  intros Hrep. pose proof (queue_turns CFG_DBG s q Hrep) as Hturns. pose proof Hrep as [[Hseg Hnd Hlast Hcnt] HE Hev].
  assert (Ehd : cl_first (ongoing_mul s) = head (q.*1)) by (by apply lseg_head in Hseg).
  split_and!.
  - intros pre a e post -> Hpre Hc. unfold ecc_abort_key256_generation. prog_run. rewrite Ehd.
    apply (abort_loop_found CFG_DBG s a e post task pre [] (turns (links s)) Hrep Hpre Hc). rewrite length_app in Hturns. cbn in Hturns. lia.
  - intros Hq. unfold ecc_abort_key256_generation. prog_run. rewrite Ehd.
    apply (abort_loop_absent CFG_DBG s task q [] (turns (links s)) Hrep Hq). lia.
  - unfold ecc_init. prog_run.
    destruct (free_loop_all CFG_DBG q (set_event false s) (turns (links s))) as (s' & E & He & Hsent & Hli & Hel); [by split|lia|].
    rewrite (run_bind _ _ _ _ _ E). prog_run. eexists. split; [done|]. split_and!; [|done|done].
    split; cbn; [apply init_rep|by constructor|done].
Qed.
End Properties.

Definition quiet : ecc_env_tag := mk_env ∅ ∅ (mk_cl NULL NULL 0 0 0) false [].

Lemma quiet_rep : env_rep true quiet [].
Proof. split; [|by constructor|done]. split; cbn; [done|constructor|done|done]. Qed.

Ltac bytes_closed := split; [reflexivity|repeat constructor; by vm_compute].

(** A queue with a multiplication that has no bit left, whose result is the
    base point, and the key 3. *)
Definition finished : ecc_elt :=
  mk_elt 0 (jenc ALGO32 (BASE_X, BASE_Y, 1)) (jenc ALGO32 (BASE_X, BASE_Y, 1)) (initBigNumber256 ALGO32) 11 12 0 0.

Definition waiting : ecc_env_tag :=
  mk_env {[6%positive := NULL]} {[6%positive := finished]} (mk_cl (Some 6%positive) (Some 6%positive) 1 1 0) true [].

Lemma waiting_rep : env_rep true waiting [(6%positive, finished)].
Proof.
  split; [|by repeat constructor|done]. split; cbn; [|apply NoDup_singleton|done|done].
  split; [done|]. by exists NULL.
Qed.

Definition base_ind : ecc_result_ind := mk_ind 11 12 (le_bytes 32 BASE_X) (le_bytes 32 BASE_Y).

Lemma finished_promise : promises ALGO32 (initBigNumber256 ALGO32) 0 finished base_ind.
Proof. split_and!; [done|done|]. exists (enc ALGO32 0 BASE_X), (enc ALGO32 0 BASE_Y). split; by vm_compute. Qed.

Definition KEY3 : list Z := 3 :: replicate 31 0.
Definition POINT3_X : Z := 0x5ecbe4d1a6330a44c8f7ef951d4bf165e6c6b721efada985fb41661bc6e7fd6c.
Definition POINT3_Y : Z := 0x8734640c4998ff7e374b06ce1a64a2ecd82ab036384fb83d9a79b127a27d5032.

Lemma ecc_keys_delivered_witness :
  exists s1 s2 out,
    ecc_generate_key256 true ALGO32 (initBigNumber256 ALGO32) KEY3 BasePoint_x_256 BasePoint_y_256 7 8 (Some 5%positive) waiting
      = Done (COMMON_ERROR_NO_ERROR, s1) /\
    events true ALGO32 (initBigNumber256 ALGO32) (1 + S (Z.to_nat (key_bits ALGO32))) s1 = Done (tt, s2) /\ env_rep true s2 [] /\
    sent s2 = [] ++ out /\ out ≡ₚ [base_ind; mk_ind 7 8 (le_bytes 32 POINT3_X) (le_bytes 32 POINT3_Y)] /\
    exists k, of_le KEY3 = Zpos k /\ double_and_add k Inf (Aff (of_le BasePoint_x_256) (of_le BasePoint_y_256)) (Aff POINT3_X POINT3_Y).
Proof.
  destruct (ecc_keys_delivered true ALGO32 (initBigNumber256 ALGO32) waiting [(6%positive, finished)] [(O, base_ind)] 5%positive
    KEY3 BasePoint_x_256 BasePoint_y_256 7 8) as (s1 & E1 & _ & H).
  - exact waiting_rep.
  - constructor; [exact finished_promise|constructor].
  - cbn. set_solver.
  - bytes_closed.
  - bytes_closed.
  - bytes_closed.
  - by vm_compute.
  - exact base_oncurve.
  - by vm_compute.
  - destruct (H POINT3_X POINT3_Y) as (s2 & out & H2); [by vm_compute|]. exists s1, s2, out. split; [exact E1|exact H2].
Defined.

Lemma ecc_zero_key_hangs_witness :
  exists s1 s2, ecc_generate_key256 true ALGO32 (initBigNumber256 ALGO32) (replicate 32 0) BasePoint_x_256 BasePoint_y_256 7 8 (Some 5%positive) quiet
      = Done (COMMON_ERROR_NO_ERROR, s1) /\
    events true ALGO32 (initBigNumber256 ALGO32) (Z.to_nat (key_bits ALGO32)) s1 = Done (tt, s2) /\ event s2 = true /\
    ecc_multiplication_event_handler true ALGO32 (initBigNumber256 ALGO32) s2 = Spin /\
    (forall fuel A, halve_loop ALGO32 fuel (initBigNumber256 ALGO32) (jz (GF_Setup_Jacobian_Infinity_Point256 ALGO32)) A = Spin).
Proof.
  apply (ecc_zero_key_hangs true ALGO32 (initBigNumber256 ALGO32) quiet).
  - exact quiet_rep.
  - bytes_closed.
  - bytes_closed.
  - bytes_closed.
  - by vm_compute.
  - by vm_compute.
  - by vm_compute.
Defined.

(** Two queued multiplications. *)
Definition elt_of (task : Z) : ecc_elt := new_elt ALGO32 (initBigNumber256 ALGO32) DebugE256SecretKey BASE_X BASE_Y 7 task.

Definition busy : ecc_env_tag :=
  mk_env {[5%positive := Some 6%positive; 6%positive := NULL]} {[5%positive := elt_of 8; 6%positive := elt_of 9]}
    (mk_cl (Some 5%positive) (Some 6%positive) 2 2 0) true [].

Lemma busy_rep : env_rep true busy [(5%positive, elt_of 8); (6%positive, elt_of 9)].
Proof.
  split; [|by repeat constructor|done]. split; cbn.
  - split; [done|]. exists (Some 6%positive). split; [done|]. split; [done|]. by exists NULL.
  - apply NoDup_cons. split; [by rewrite list_elem_of_singleton|apply NoDup_singleton].
  - done.
  - done.
Qed.

Lemma ecc_abort_and_reset_witness :
  (forall pre a e post, [(5%positive, elt_of 8); (6%positive, elt_of 9)] = pre ++ (a, e) :: post ->
     Forall (fun ae => client_id ae.2 <> 9) pre -> client_id e = 9 ->
     exists s', ecc_abort_key256_generation true 9 busy = Done (tt, s') /\ env_rep true s' (pre ++ post) /\
       sent s' = sent busy /\ elts s' = delete a (elts busy)) /\
  (Forall (fun ae => client_id ae.2 <> 9) [(5%positive, elt_of 8); (6%positive, elt_of 9)] ->
     ecc_abort_key256_generation true 9 busy = Done (tt, busy)) /\
  (exists s', ecc_init true true busy = Done (tt, s') /\ env_rep true s' [] /\ sent s' = sent busy /\
     forall b, elts s' !! b = if bool_decide (b ∈ [(5%positive, elt_of 8); (6%positive, elt_of 9)].*1) then None else elts busy !! b).
Proof. apply (ecc_abort_and_reset true busy _ 9 busy_rep). Defined.

(* ------------------------------------------------------------------ *)
(** ** Secret keys are in range *)

Lemma of_le_snoc l x : of_le (l ++ [x]) = of_le l + 256 ^ zlen l * x.
Proof.
  induction l as [|b l IH]; [cbn [app of_le foldr]; change (256 ^ zlen []) with 1; lia|]. cbn [app of_le foldr]. fold (of_le (l ++ [x])) (of_le l). rewrite IH.
  replace (zlen (b :: l)) with (Z.succ (zlen l)) by (rewrite zlen_cons; lia). rewrite Z.pow_succ_r by (unfold zlen; lia). ring.
Qed.

(** Comparing from the most significant byte compares the numbers. *)
Lemma key_compare_le l : forall m, length l = length m -> Forall is_byte l -> Forall is_byte m ->
  key_compare (rev l) (rev m) = if of_le l <=? of_le m then 1 else 0.
Proof.
  induction l as [|a l IH] using rev_ind; intros m Hl Hbl Hbm; [by destruct m|].
  destruct m as [|b m _] using rev_ind; [rewrite length_app in Hl; cbn in Hl; lia|].
  rewrite !length_app in Hl. cbn in Hl. apply Forall_app in Hbl as [Hbl Ha]. apply Forall_app in Hbm as [Hbm Hb].
  apply Forall_cons in Ha as [Ha _], Hb as [Hb _]. rewrite !rev_app_distr, !of_le_snoc. cbn [rev app key_compare].
  assert (El : zlen m = zlen l) by (unfold zlen; lia). rewrite El.
  pose proof (of_le_range l Hbl) as Rl. pose proof (of_le_range m Hbm) as Rm. rewrite El in Rm. unfold is_byte in *.
  set (w := 256 ^ zlen l) in *. destruct (Z.gtb_spec a b) as [Hgt|Hle]; [rewrite (proj2 (Z.leb_gt _ _)) by nia; done|].
  destruct (Z.ltb_spec a b) as [Hlt|Hge]; [rewrite (proj2 (Z.leb_le _ _)) by nia; done|].
  assert (a = b) as -> by lia. rewrite IH by (done || lia).
  destruct (Z.leb_spec (of_le l) (of_le m)), (Z.leb_spec (of_le l + w * b) (of_le m + w * b)); lia.
Qed.

Lemma all_zero_le l : Forall is_byte l -> forallb (Z.eqb 0) l = (of_le l =? 0).
Proof.
  induction l as [|a l IH]; intros Hl; [done|]. apply Forall_cons in Hl as [Ha Hl]. cbn [forallb of_le foldr]. fold (of_le l).
  rewrite IH by done. pose proof (of_le_range l Hl). unfold is_byte in *.
  destruct (Z.eqb_spec 0 a), (Z.eqb_spec (of_le l) 0), (Z.eqb_spec (a + 256 * of_le l) 0); cbn; lia.
Qed.

Definition MAX_KEY : Z := 0x7fffffff800000007fffffffffffffffde737d56d38bcf4279dce5617e3192a8.

Lemma random_key_bytes rand k : key_bytes (random_key rand k).
Proof.
  unfold random_key, key_bytes. cbn [seq flat_map app]. split; [done|].
  repeat match goal with |- Forall is_byte (le32 _ ++ _) => apply Forall_app; split; [apply le32_bytes|] end. constructor.
Qed.

Lemma valid_key_run sk : key_bytes sk ->
  isValidSecretKey_256 sk = Done (if (0 <? of_le sk) && (of_le sk <=? MAX_KEY) then 1 else 0).
Proof.
  intros Hsk. unfold isValidSecretKey_256. rewrite key_read by done. cbn [mbind outcome_bind]. destruct Hsk as [Hl Hb].
  rewrite all_zero_le by done. pose proof (of_le_range sk Hb) as HR.
  destruct (Z.eqb_spec (of_le sk) 0) as [->|Hne]; [done|]. rewrite (proj2 (Z.ltb_lt 0 (of_le sk))) by lia. cbn [andb].
  rewrite key_compare_le; [|by rewrite Hl|done|repeat constructor; by vm_compute].
  replace (of_le maxSecretKey_256) with MAX_KEY by (by vm_compute). by destruct (_ <=? _).
Qed.

Lemma new_key_turn fuel rand k : new_key_loop (S fuel) rand k =
  if (0 <? of_le (random_key rand k)) && (of_le (random_key rand k) <=? MAX_KEY)
  then Done (random_key rand k, (k + 8)%nat) else new_key_loop fuel rand (k + 8).
Proof. cbn [new_key_loop]. cbv zeta. rewrite valid_key_run by apply random_key_bytes. by destruct (_ && _). Qed.

(** A secret key of 32 bytes is valid exactly when it stands for a number
    from 1 to the bound, half the order of the base point; and drawing a new
    key ends with the first valid draw of the generator and returns it. *)
Theorem secret_key_range :
  (forall sk, key_bytes sk -> isValidSecretKey_256 sk = Done (if (0 <? of_le sk) && (of_le sk <=? MAX_KEY) then 1 else 0)) /\
  (forall rand k t old, 0 < of_le (random_key rand (k + 8 * t)) <= MAX_KEY ->
     (forall i, (i < t)%nat -> ~ 0 < of_le (random_key rand (k + 8 * i)) <= MAX_KEY) ->
     ecc_gen_new_secret_key (S t) rand k old false = Done (random_key rand (k + 8 * t), (k + 8 * S t)%nat)).
Proof.
  split; [apply valid_key_run|]. intros rand k t old. cbn [ecc_gen_new_secret_key]. revert k.
  induction t as [|t IH]; intros k Hok Hbad; rewrite new_key_turn.
  - rewrite Nat.mul_0_r, Nat.add_0_r in *. rewrite (proj2 (Z.ltb_lt _ _)), (proj2 (Z.leb_le _ _)) by lia. done.
  - pose proof (Hbad O ltac:(lia)) as H0. rewrite Nat.mul_0_r, Nat.add_0_r in H0.
    replace ((0 <? of_le (random_key rand k)) && (of_le (random_key rand k) <=? MAX_KEY)) with false.
    2: { symmetry. apply andb_false_iff. destruct (Z.ltb_spec 0 (of_le (random_key rand k))); [right; apply Z.leb_gt; lia|by left]. }
    replace (k + 8 * S t)%nat with (k + 8 + 8 * t)%nat in * by lia. rewrite IH; [do 2 f_equal; lia|done|].
    intros i Hi. replace (k + 8 + 8 * i)%nat with (k + 8 * S i)%nat by lia. apply Hbad. lia.
Qed.
