(* ===== verification/Tftp.v ===== *)
(** The TFTP firmware update: beken378/app/tftp/tftpclient.c (and its header)
    of a build with [CFG_SUPPORT_OTA_TFTP].

    The client asks a server for [BootFile], acknowledges its blocks, and
    writes each one to the flash through the driver of [Flash].  Every block
    starts with a header that says where the image goes; the last one ends
    with a checksum, and when that agrees the boot loader's header is
    written.  [co_crc32] is in a binary library and is an argument; so is the
    answer of the allocator.  A session is a sequence of received datagrams
    and timer ticks. *)

From S2P Require Import Prelude Flash.

Definition TFTP_RRQ : Z := 1.
Definition TFTP_DATA : Z := 3.
Definition TFTP_ACK : Z := 4.
Definition TFTP_ERROR : Z := 5.
Definition TFTP_OACK : Z := 6.

Definition STATE_RRQ : Z := 1.
Definition STATE_DATA : Z := 2.
Definition STATE_TOO_LARGE : Z := 3.
Definition STATE_BAD_MAGIC : Z := 4.
Definition STATE_OACK : Z := 5.

Definition WELL_KNOWN_PORT : Z := 69.
Definition TIMEOUT_COUNT : Z := 10.
Definition TFTP_BLOCK_SIZE : Z := 512.
Definition TFTP_SEQUENCE_SIZE : Z := 2 ^ 16.
Definition TFTP_LEN : Z := 1600.
Definition TFTP_PKT_HD_LEN : Z := 24.
Definition TFTP_ALL_CRC_LEN : Z := 4.
Definition OS1_FLASH_ADDR : Z := 0x8C000.

(** [htons] of a word, as the two bytes in memory. *)
Definition be16 (x : Z) : list Z := [u8 (Z.shiftr x 8); u8 x].

Record SEND_PTK_HD := mk_hd {
  total_len : Z;
  seq : Z;
  total_seq : Z;
  os0_ex_addr : Z;
  os_hd_addr : Z;
  os0_flash_addr : Z;
  os1_flash_addr : Z
}.

(** The structure in memory, and the one 24 bytes hold. *)
Definition hd_bytes (h : SEND_PTK_HD) : list Z :=
  le32 (total_len h) ++ le16 (seq h) ++ le16 (total_seq h) ++ le32 (os0_ex_addr h) ++
  le32 (os_hd_addr h) ++ le32 (os0_flash_addr h) ++ le32 (os1_flash_addr h).

Definition hd_of (bs : list Z) : SEND_PTK_HD :=
  mk_hd (of_le (slice bs 0 4)) (of_le (slice bs 4 2)) (of_le (slice bs 6 2)) (of_le (slice bs 8 4))
        (of_le (slice bs 12 4)) (of_le (slice bs 16 4)) (of_le (slice bs 20 4)).

Record IMG_HEAD := mk_img {
  bkup_addr : Z;
  bkup_len : Z;
  ex_addr : Z;
  os_addr : Z;
  hd_addr : Z;
  crc : Z;
  status : Z;
  bk : Z
}.

Definition img_bytes (i : IMG_HEAD) : list Z :=
  le32 (bkup_addr i) ++ le32 (bkup_len i) ++ le32 (ex_addr i) ++ le32 (os_addr i) ++
  le32 (hd_addr i) ++ le32 (crc i) ++ le32 (status i) ++ le32 (bk i).

(** What [tftp_buf] points to. *)
Inductive buffer := Null | Freed | Live (bytes : list Z).

(** The statics of the protocol. *)
Record session := mk_session {
  TftpServerPort : Z;
  TftpOurPort : Z;
  TftpTimeoutCount : Z;
  TftpBlock : Z;
  TftpLastBlock : Z;
  TftpBlockWrap : Z;
  TftpBlockWrapOffset : Z;
  TftpState : Z;
  TftpBlkSize : Z
}.

Definition set_state (v : Z) (s : session) : session :=
  mk_session (TftpServerPort s) (TftpOurPort s) (TftpTimeoutCount s) (TftpBlock s) (TftpLastBlock s)
             (TftpBlockWrap s) (TftpBlockWrapOffset s) v (TftpBlkSize s).
Definition set_port (v : Z) (s : session) : session :=
  mk_session v (TftpOurPort s) (TftpTimeoutCount s) (TftpBlock s) (TftpLastBlock s)
             (TftpBlockWrap s) (TftpBlockWrapOffset s) (TftpState s) (TftpBlkSize s).
Definition set_timeouts (v : Z) (s : session) : session :=
  mk_session (TftpServerPort s) (TftpOurPort s) v (TftpBlock s) (TftpLastBlock s)
             (TftpBlockWrap s) (TftpBlockWrapOffset s) (TftpState s) (TftpBlkSize s).
Definition set_block (v : Z) (s : session) : session :=
  mk_session (TftpServerPort s) (TftpOurPort s) (TftpTimeoutCount s) v (TftpLastBlock s)
             (TftpBlockWrap s) (TftpBlockWrapOffset s) (TftpState s) (TftpBlkSize s).
Definition set_last (v : Z) (s : session) : session :=
  mk_session (TftpServerPort s) (TftpOurPort s) (TftpTimeoutCount s) (TftpBlock s) v
             (TftpBlockWrap s) (TftpBlockWrapOffset s) (TftpState s) (TftpBlkSize s).
Definition set_wrap (w o : Z) (s : session) : session :=
  mk_session (TftpServerPort s) (TftpOurPort s) (TftpTimeoutCount s) (TftpBlock s) (TftpLastBlock s)
             w o (TftpState s) (TftpBlkSize s).
Definition set_blksize (v : Z) (s : session) : session :=
  mk_session (TftpServerPort s) (TftpOurPort s) (TftpTimeoutCount s) (TftpBlock s) (TftpLastBlock s)
             (TftpBlockWrap s) (TftpBlockWrapOffset s) (TftpState s) v.

Section Code.
Variable c : flash_config_t.
Context {F : Type} `{Nor c F}.
(** [co_crc32] on a byte region and the checksum so far. *)
Variable co_crc32 : list Z -> Z -> Z.
(** The file's name, without its NUL. *)
Variable BootFile : list Z.

(* ------------------------------------------------------------------ *)
(** ** Storing a block *)

(** The globals of the update and the chip. *)
Record ota := mk_ota {
  send_hd : SEND_PTK_HD;
  send_hd_bk : SEND_PTK_HD;
  os_data_addr : Z;
  tftp_crc : Z;
  img_hd : IMG_HEAD;
  flash : F
}.

(** The last block: the checksum, and the boot loader's header when it
    agrees. *)
Definition finish_image (h : SEND_PTK_HD) (crc0 : Z) (img : IMG_HEAD) (f : F)
    (p : list Z) (src len : Z) : outcome (Z * IMG_HEAD * F) :=
  or_crc ← mem_read p (src + len - TFTP_ALL_CRC_LEN) TFTP_ALL_CRC_LEN;
  let or_crc := of_le or_crc in
  bs ← mem_read p src (u32 (len - TFTP_ALL_CRC_LEN));
  let crc1 := co_crc32 bs crc0 in
  if crc1 =? or_crc then
    let img := mk_img (os1_flash_addr h) (total_len h) (os0_ex_addr h) (os0_flash_addr h)
                      (os_hd_addr h) or_crc 1 (bk img) in
    let f := flash_erase_sector c f (os_hd_addr h) in
    f ← flash_write_data c f (img_bytes img) (os_hd_addr h) 32;
    Done (crc1, img, f)
  else Done (crc1, img, f).

(** Reading the block back into an allocation of 1024 bytes, when there is
    one; what the comparison finds is only printed. *)
Definition read_back (alloc : bool) (f : F) (p : list Z) (src addr n : Z) : outcome unit :=
  if alloc then
    if 1024 <? n then Wild else
    _ ← flash_read_data c f addr n;
    _ ← mem_read p (src + TFTP_PKT_HD_LEN) n;
    Done tt
  else Done tt.

(** [src] is an offset into the receive buffer [p].  The comparisons of the
    header with the sequence number and with the last header only print. *)
Definition store_block (alloc : bool) (s : ota) (block : Z) (p : list Z) (src len : Z) : outcome ota :=
  hd ← mem_read p src TFTP_PKT_HD_LEN;
  let h := hd_of hd in
  let '(addr, crc0) := if negb (block =? 0) then (os_data_addr s, tftp_crc s) else (os1_flash_addr h, 0) in
  let f := if addr mod 0x1000 =? 0 then flash_erase_sector c (flash s) addr else flash s in
  if (0x200000 <=? addr) || (addr <? 0x27000) then Done (mk_ota h h addr crc0 (img_hd s) f) else
  if addr <? 0x400000 then
    let n := u32 (len - TFTP_PKT_HD_LEN) in
    f ← flash_write_data c f (drop (Z.to_nat (src + TFTP_PKT_HD_LEN)) p) addr n;
    _ ← read_back alloc f p src addr n;
    '(crc1, img, f) ←
      (if negb (seq h =? total_seq h) then
         bs ← mem_read p src len;
         Done (co_crc32 bs crc0, img_hd s, f)
       else finish_image h crc0 (img_hd s) f p src len);
    Done (mk_ota h h (u32 (addr + n)) crc1 img f)
  else Done (mk_ota h h addr crc0 (img_hd s) f).

(* ------------------------------------------------------------------ *)
(** ** The protocol *)

(** The client: its statics, the peer's address (host and port as received),
    the receive buffer, what it has sent, the update. *)
Record tftp := mk_tftp {
  sess : session;
  server_addr : Z * Z;
  tftp_buf : buffer;
  alive : bool;
  sent : list ((Z * Z) * list Z);
  store : ota
}.

Abbreviation client := (prog tftp).

Definition on_sess (f : session -> session) (s : tftp) : tftp :=
  mk_tftp (f (sess s)) (server_addr s) (tftp_buf s) (alive s) (sent s) (store s).
Definition on_store (o : ota) (s : tftp) : tftp :=
  mk_tftp (sess s) (server_addr s) (tftp_buf s) (alive s) (sent s) o.
Definition set_buf (b : buffer) (s : tftp) : tftp :=
  mk_tftp (sess s) (server_addr s) b (alive s) (sent s) (store s).
Definition set_addr (a : Z * Z) (s : tftp) : tftp :=
  mk_tftp (sess s) a (tftp_buf s) (alive s) (sent s) (store s).
Definition set_alive (b : bool) (s : tftp) : tftp :=
  mk_tftp (sess s) (server_addr s) (tftp_buf s) b (sent s) (store s).
Definition log (pkt : list Z) (s : tftp) : tftp :=
  mk_tftp (sess s) (server_addr s) (tftp_buf s) (alive s) (sent s ++ [(server_addr s, pkt)]) (store s).

Definition getss {A} (f : session -> A) : client A := gets (fun s => f (sess s)).
Definition setss (f : session -> session) : client unit := modify (on_sess f).

(** The characters of octet, timeout, 5, blksize, 1048. *)
Definition str_octet : list Z := [111; 99; 116; 101; 116].
Definition str_timeout : list Z := [116; 105; 109; 101; 111; 117; 116].
Definition str_blksize : list Z := [98; 108; 107; 115; 105; 122; 101].
Definition str_1048 : list Z := [49; 48; 52; 56].
Definition str_too_large : list Z := [70; 105; 108; 101; 32; 116; 111; 111; 32; 108; 97; 114; 103; 101].
Definition str_bad_magic : list Z :=
  [70; 105; 108; 101; 32; 104; 97; 115; 32; 98; 97; 100; 32; 109; 97; 103; 105; 99].

(** The packet of the current state. *)
Definition packet (s : session) : list Z :=
  if TftpState s =? STATE_RRQ then
    be16 TFTP_RRQ ++ BootFile ++ [0] ++ str_octet ++ [0] ++ str_timeout ++ [0] ++ [53] ++ [0] ++
    str_blksize ++ [0] ++ str_1048 ++ [0]
  else if (TftpState s =? STATE_OACK) || (TftpState s =? STATE_DATA) then
    be16 TFTP_ACK ++ be16 (TftpBlock s)
  else if TftpState s =? STATE_TOO_LARGE then be16 TFTP_ERROR ++ be16 3 ++ str_too_large ++ [0]
  else if TftpState s =? STATE_BAD_MAGIC then be16 TFTP_ERROR ++ be16 2 ++ str_bad_magic ++ [0]
  else [].

Definition TftpSend : client unit := pkt ← getss packet; modify (log pkt).

(** [os_free] and the pointer after it. *)
Definition free (b : buffer) : outcome unit :=
  match b with Live _ => Done tt | _ => Wild end.

Definition is_null (b : buffer) : bool := match b with Null => true | _ => false end.

(** The timer, the socket and the thread go; so does the code that runs in
    the thread. *)
Definition Tftp_Uninit : client unit :=
  b ← gets tftp_buf;
  _ ← when (negb (is_null b)) (_ ← lift (free b); modify (set_buf Null));
  modify (set_alive false).

(** [os_strcmp(pkt + i, lit) == 0]: it stops at the first difference. *)
Fixpoint strcmp_eq (p : list Z) (i : Z) (lit : list Z) : outcome bool :=
  match lit with
  | [] => Done true
  | ch :: lit' => b ← aget p i; if b =? ch then strcmp_eq p (i + 1) lit' else Done false
  end.

Fixpoint strlen (fuel : nat) (p : list Z) (i : Z) : outcome Z :=
  match fuel with
  | O => Wild
  | S fuel' => b ← aget p i; if b =? 0 then Done 0 else n ← strlen fuel' p (i + 1); Done (n + 1)
  end.

(** [strtoul(s, NULL, 10)] of the C library. *)
Fixpoint skip_space (fuel : nat) (p : list Z) (i : Z) : outcome Z :=
  match fuel with
  | O => Wild
  | S fuel' => b ← aget p i; if (b =? 32) || ((9 <=? b) && (b <=? 13)) then skip_space fuel' p (i + 1) else Done i
  end.

Fixpoint digits (fuel : nat) (p : list Z) (i acc : Z) : outcome Z :=
  match fuel with
  | O => Wild
  | S fuel' =>
      b ← aget p i;
      if (48 <=? b) && (b <=? 57) then digits fuel' p (i + 1) (acc * 10 + (b - 48)) else Done acc
  end.

Definition strtoul (p : list Z) (i : Z) : outcome Z :=
  i ← skip_space (S (length p)) p i;
  b ← aget p i;
  v ← digits (S (length p)) p (if (b =? 45) || (b =? 43) then i + 1 else i) 0;
  Done (if 0xFFFFFFFF <? v then 0xFFFFFFFF else if b =? 45 then u32 (- v) else v).

(** The search for the blksize option from [pkt + i]. *)
Fixpoint option_scan (fuel : nat) (p : list Z) (pkt i len blksize : Z) : outcome Z :=
  if i + 8 <? len then
    match fuel with
    | O => Spin
    | S fuel' =>
        eq ← strcmp_eq p (pkt + i) (str_blksize ++ [0]);
        if eq : bool then v ← strtoul p (pkt + i + 8); Done (u16 v)
        else option_scan fuel' p pkt (i + 1) len blksize
    end
  else Done blksize.

(** The trace of the options goes to [os_null_printf], a function: its
    arguments, one of them a [strlen], are computed. *)
Definition handle_oack (p : list Z) (len port : Z) : client unit :=
  _ ← lift (strlen (S (length p)) p 2);
  _ ← setss (set_state STATE_OACK);
  _ ← setss (set_port port);
  bs ← getss TftpBlkSize;
  v ← lift (option_scan (S (length p)) p 2 0 len bs);
  _ ← setss (set_blksize v);
  TftpSend.

(** [len] counts the bytes after the operation code. *)
Definition handle_data (alloc : bool) (p : list Z) (len port : Z) : client unit :=
  if len <? 2 then mret tt else
  let len := len - 2 in
  bs ← lift (mem_read p 2 2);
  let block := bswap16 (of_le bs) in
  _ ← setss (set_block block);
  _ ← when (block =? 0)
        (s ← gets sess;
         setss (set_wrap (u64 (TftpBlockWrap s + 1))
                         (u64 (TftpBlockWrapOffset s + u64 (TftpBlkSize s * TFTP_SEQUENCE_SIZE)))));
  st ← getss TftpState;
  let first := (st =? STATE_RRQ) || (st =? STATE_OACK) in
  _ ← when first
        (_ ← setss (set_state STATE_DATA);
         _ ← setss (set_port port);
         _ ← setss (set_last 0);
         setss (set_wrap 0 0));
  if first && negb (block =? 1) then mret tt else
  last ← getss TftpLastBlock;
  if block =? last then TftpSend else
  _ ← setss (set_last block);
  o ← gets store;
  o ← lift (store_block alloc o (u32 (block - 1)) p 4 len);
  _ ← modify (on_store o);
  _ ← TftpSend;
  bsz ← getss TftpBlkSize;
  when (len <? bsz) Tftp_Uninit.

Definition TftpHandler (alloc : bool) (len port : Z) : client unit :=
  s ← gets sess;
  if negb (TftpState s =? STATE_RRQ) && negb (port =? TftpServerPort s) then mret tt else
  if len <? 2 then mret tt else
  let len := len - 2 in
  b ← gets tftp_buf;
  p ← lift (match b with Live p => Done p | _ => Wild end);
  proto ← lift (mem_read p 0 2);
  let proto := bswap16 (of_le proto) in
  if proto =? TFTP_OACK then handle_oack p len port
  else if proto =? TFTP_DATA then handle_data alloc p len port
  else mret tt.

Definition TftpTimeout : client unit :=
  n ← getss TftpTimeoutCount;
  _ ← setss (set_timeouts (n + 1));
  if TIMEOUT_COUNT <? n + 1 then mret tt else TftpSend.

(** [tick] is [fclk_get_tick()]. *)
Definition TftpStart (tick : Z) : client unit :=
  o ← gets store;
  _ ← modify (on_store (mk_ota (send_hd o) (send_hd_bk o) (os_data_addr o) 0 (img_hd o) (flash o)));
  _ ← setss (set_port WELL_KNOWN_PORT);
  _ ← setss (set_timeouts 0);
  _ ← setss (set_state STATE_RRQ);
  _ ← setss (fun s => mk_session (TftpServerPort s) (1024 + tick mod 3072) (TftpTimeoutCount s)
                        (TftpBlock s) (TftpLastBlock s) (TftpBlockWrap s) (TftpBlockWrapOffset s)
                        (TftpState s) (TftpBlkSize s));
  _ ← setss (set_block 0);
  setss (set_blksize TFTP_BLOCK_SIZE).

Definition protect (type : PROTECT_TYPE) : client unit :=
  o ← gets store;
  modify (on_store (mk_ota (send_hd o) (send_hd_bk o) (os_data_addr o) (tftp_crc o) (img_hd o)
                           (set_flash_protect c (flash o) type))).

(** The thread until its loop: the allocation's bytes, whether there is a
    socket, the server's address. *)
Definition tftp_server_start (mem : option (list Z)) (sock : bool) (ip tick : Z) : client unit :=
  _ ← modify (set_buf (match mem with Some m => Live m | None => Null end));
  match mem, sock with
  | Some _, true =>
      _ ← modify (set_addr (ip, bswap16 WELL_KNOWN_PORT));
      _ ← TftpStart tick;
      _ ← modify (set_alive true);
      protect FLASH_PROTECT_NONE
  | _, _ =>
      b ← gets tftp_buf;
      _ ← when (negb (is_null b)) (_ ← lift (free b); modify (set_buf Freed));
      _ ← protect FLASH_UNPROTECT_LAST_BLOCK;
      modify (set_alive false)
  end.

(** A turn of the loop: [None] is the -1 of [recvfrom], which then changes
    neither the buffer nor the address. *)
Definition tftp_receive (alloc : bool) (r : option ((Z * Z) * list Z)) : client unit :=
  match r with
  | Some (from, bytes) =>
      let bytes := take (Z.to_nat TFTP_LEN) bytes in
      b ← gets tftp_buf;
      p ← lift (match b with Live p => mem_write p 0 bytes | _ => Wild end);
      _ ← modify (set_buf (Live p));
      _ ← modify (set_addr from);
      TftpHandler alloc (zlen bytes) (snd from)
  | None =>
      a ← gets server_addr;
      TftpHandler alloc (u32 (-1)) (snd a)
  end.

(** What can happen to a running client; after [Tftp_Uninit] nothing does. *)
Inductive event :=
  | Recv (alloc : bool) (r : option ((Z * Z) * list Z))
  | Tick.

Definition tftp_event (e : event) : client unit :=
  live ← gets alive;
  when live (match e with Recv alloc r => tftp_receive alloc r | Tick => TftpTimeout end).

Fixpoint tftp_events (es : list event) : client unit :=
  match es with
  | [] => mret tt
  | e :: es' => _ ← tftp_event e; tftp_events es'
  end.

(** [created] tells whether the thread could be created; it runs
    [tftp_server_process]. *)
Definition tftp_start (created : bool) (mem : option (list Z)) (sock : bool) (ip tick : Z) : client unit :=
  _ ← Tftp_Uninit;
  when created (tftp_server_start mem sock ip tick).
End Code.

(* ------------------------------------------------------------------ *)
(** ** Packets *)

Lemma of_le_le16 x : is_u16 x -> of_le (le16 x) = x.
Proof.
  unfold is_u16, of_le, le16, u8. intros Hx. cbn [foldr]. rewrite Z.shiftr_div_pow2 by lia.
  change (2 ^ 8) with 256. rewrite (Z.mod_small (x / 256)) by (Z.to_euclidean_division_equations; lia).
  pose proof (Z.div_mod x 256). lia.
Qed.

(** [ntohs] of a word in network order. *)
Lemma bswap16_be16 x : is_u16 x -> bswap16 (of_le (be16 x)) = x.
Proof.
  unfold is_u16. intros Hx. rewrite <- (bswap16_involutive x) at 2 by done. f_equal.
  unfold of_le, be16, bswap16, u8. cbn [foldr].
  assert (E : Z.land (Z.shiftl x 8) 0xff00 = Z.shiftl (x mod 256) 8).
  { change 256 with (2 ^ 8). rewrite <- Z.land_ones by lia. change 0xff00 with (Z.shiftl (Z.ones 8) 8).
    by rewrite Z.shiftl_land. }
  rewrite E, Z.lor_comm, Z.shiftr_div_pow2 by lia. change (2 ^ 8) with 256.
  assert (0 <= x / 256 < 256) by (Z.to_euclidean_division_equations; lia).
  rewrite lor_shift by (change (2 ^ 8) with 256; Z.to_euclidean_division_equations; lia).
  rewrite u16_small by (change (2 ^ 8) with 256; Z.to_euclidean_division_equations; lia).
  rewrite (Z.mod_small (x / 256)) by lia. change (2 ^ 8) with 256. lia.
Qed.

Record hd_wf (h : SEND_PTK_HD) : Prop := {
  wf_total_len : is_u32 (total_len h);
  wf_seq : is_u16 (seq h);
  wf_total_seq : is_u16 (total_seq h);
  wf_ex : is_u32 (os0_ex_addr h);
  wf_hd : is_u32 (os_hd_addr h);
  wf_os0 : is_u32 (os0_flash_addr h);
  wf_os1 : is_u32 (os1_flash_addr h)
}.

Lemma hd_of_bytes h : hd_wf h -> hd_of (hd_bytes h) = h.
Proof.
  intros [H1 H2 H3 H4 H5 H6 H7]. destruct h as [t s n ex hd o0 o1]. cbn [total_len seq total_seq os0_ex_addr
    os_hd_addr os0_flash_addr os1_flash_addr] in *.
  change (hd_of (hd_bytes (mk_hd t s n ex hd o0 o1))) with
    (mk_hd (of_le (le32 t)) (of_le (le16 s)) (of_le (le16 n)) (of_le (le32 ex)) (of_le (le32 hd))
           (of_le (le32 o0)) (of_le (le32 o1))).
  by rewrite !of_le_le32, !of_le_le16.
Qed.

Lemma hd_bytes_split h (m : list Z) : slice (hd_bytes h ++ m) 0 24 = hd_bytes h.
Proof. reflexivity. Qed.

(* ------------------------------------------------------------------ *)
(** ** An image on the chip *)

Section Image.
Context {c : flash_config_t} {F : Type} `{Nor c F}.
Implicit Types (f : F).

(** The end of the sector the byte before [a] is in. *)
Definition up (a : Z) : Z := (a + 4095) / 4096 * 4096.

(** The chip of [f] with [data] written from the sector [base] on, in
    sectors erased before. *)
Definition image_at (f : F) (base : Z) (data : list Z) (x : Z) : Z :=
  if (base <=? x) && (x <? base + zlen data) then nth (Z.to_nat (x - base)) data 0
  else if (base <=? x) && (x <? up (base + zlen data)) then 255 else cell f x.

Definition holds (f0 f : F) (base : Z) (data : list Z) : Prop :=
  rdsr f = rdsr f0 /\ rdsr2 f = rdsr2 f0 /\ forall x, cell f x = image_at f0 base data x.

Lemma up_bounds a : a <= up a < a + 4096 /\ up a mod 4096 = 0.
Proof. unfold up. Z.to_euclidean_division_equations; lia. Qed.

Lemma holds_nil f base : base mod 4096 = 0 -> holds f f base [].
Proof.
  intros Hb. split_and!; [done..|]. intros x. unfold image_at. rewrite zlen_nil.
  destruct (up_bounds (base + 0)) as [Hu Hm].
  assert (up (base + 0) = base) by (Z.to_euclidean_division_equations; lia).
  repeat zcase; lia.
Qed.
Context (Hchip : flash_size c <= CHIP) (Hsize : flash_size c mod SECTOR = 0).

(** Erasing the sector at the end of the data makes room for more. *)
Definition ready (f0 f : F) (base : Z) (data : list Z) (n : Z) : Prop :=
  rdsr f = rdsr f0 /\ rdsr2 f = rdsr2 f0 /\ forall x, cell f x =
    if (base <=? x) && (x <? base + zlen data) then nth (Z.to_nat (x - base)) data 0
    else if (base <=? x) && (x <? up (base + zlen data + n)) then 255 else cell f0 x.

Lemma erase_ready f0 f base data n :
  unprotected f0 -> 0 <= base -> base mod 4096 = 0 -> holds f0 f base data ->
  0 < n -> (base + zlen data) mod 4096 + n <= 4096 -> base + zlen data + n <= flash_size c ->
  ready f0 (if (base + zlen data) mod 0x1000 =? 0 then flash_erase_sector c f (base + zlen data) else f) base data n.
Proof.
  intros Hu Hb Hm (H1 & H2 & H3) Hn Hs Hin. pose proof (zlen_nonneg data). set (a := base + zlen data) in *.
  destruct (Z.eqb_spec (a mod 4096) 0) as [E|E].
  - destruct (flash_erase_sector_run f a) as (E1 & E2 & E3); [by apply (unprotected_status f0)|done|lia|done|].
    split_and!; [congruence..|]. intros x. rewrite E3. unfold erased, SECTOR. rewrite H3. unfold image_at. fold a.
    assert (up a = a) by (unfold up; Z.to_euclidean_division_equations; lia).
    assert (up (a + n) = a + 4096) by (unfold up; Z.to_euclidean_division_equations; lia).
    repeat zcase.
  - split_and!; [done..|]. intros x. rewrite H3. unfold image_at. fold a.
    assert (Eu : up (a + n) = up a) by (unfold up; Z.to_euclidean_division_equations; lia).
    by rewrite Eu.
Qed.

Lemma nth_byte (l : list Z) i : Forall is_byte l -> is_byte (nth i l 0).
Proof.
  intros Hl. destruct (lt_dec i (length l)) as [Hi|Hi].
  - rewrite nth_lookup. destruct (lookup_lt_is_Some_2 l i Hi) as [b Hb]. rewrite Hb.
    by apply (Forall_lookup_1 _ _ _ _ Hl Hb).
  - rewrite nth_overflow by lia. unfold is_byte. lia.
Qed.

Lemma land_255 b : is_byte b -> Z.land 255 b = b.
Proof.
  intros Hb. rewrite Z.land_comm. change 255 with (Z.ones 8). rewrite Z.land_ones by lia. by apply Z.mod_small.
Qed.

Lemma program_ready f0 f f' base data chunk :
  0 <= base -> ready f0 f base data (zlen chunk) -> Forall is_byte chunk -> 0 < zlen chunk ->
  programs f f' (base + zlen data) chunk -> holds f0 f' base (data ++ chunk).
Proof.
  intros Hb (H1 & H2 & H3) Hc Hn (E1 & E2 & E3). split_and!; [congruence..|].
  intros x. rewrite E3. unfold programmed, image_at. rewrite H3, zlen_app, Z.add_assoc.
  pose proof (zlen_nonneg data). destruct (up_bounds (base + zlen data + zlen chunk)) as [Hup _].
  destruct (decide (base + zlen data <= x < base + zlen data + zlen chunk)) as [Hx|Hx].
  - rewrite (proj2 (Z.leb_le (base + zlen data) x)), (proj2 (Z.ltb_lt x (base + zlen data + zlen chunk))),
      (proj2 (Z.leb_le base x)), (proj2 (Z.ltb_ge x (base + zlen data))),
      (proj2 (Z.ltb_lt x (up _))) by lia. cbn [andb].
    rewrite app_nth2 by (unfold zlen in *; lia).
    replace (Z.to_nat (x - base) - length data)%nat with (Z.to_nat (x - (base + zlen data))) by (unfold zlen; lia).
    apply land_255. by apply nth_byte.
  - replace ((base + zlen data <=? x) && (x <? base + zlen data + zlen chunk)) with false
      by (symmetry; apply andb_false_iff; rewrite Z.leb_gt, Z.ltb_ge; lia).
    destruct (Z.leb_spec base x) as [Hl|Hl]; cbn [andb]; [|done].
    destruct (Z.ltb_spec x (base + zlen data)) as [Hd|Hd].
    + rewrite (proj2 (Z.ltb_lt x (base + zlen data + zlen chunk))) by lia. by rewrite app_nth1 by (unfold zlen in *; lia).
    + by rewrite (proj2 (Z.ltb_ge x (base + zlen data + zlen chunk))) by lia.
Qed.

(** One block: erase when a sector begins, write. *)
Lemma write_block f0 f base data chunk buf :
  unprotected f0 -> 0 <= base -> base mod 4096 = 0 -> holds f0 f base data ->
  Forall is_byte chunk -> 0 < zlen chunk -> (base + zlen data) mod 4096 + zlen chunk <= 4096 ->
  base + zlen data + zlen chunk <= flash_size c ->
  zlen chunk <= zlen buf -> slice buf 0 (zlen chunk) = chunk ->
  let a := base + zlen data in
  exists f', flash_write_data c (if a mod 0x1000 =? 0 then flash_erase_sector c f a else f) buf a (zlen chunk) = Done f' /\
    holds f0 f' base (data ++ chunk).
Proof.
  intros Hu Hb Hm Hh Hc Hn Hs Hin Hz Hsl a. pose proof (zlen_nonneg data).
  pose proof (erase_ready f0 f base data (zlen chunk) Hu Hb Hm Hh Hn Hs Hin) as Hr. fold a in Hr.
  destruct (write_prefix (if a mod 0x1000 =? 0 then flash_erase_sector c f a else f) buf a (zlen chunk))
    as (f' & E & Hp); [|done|lia..|].
  { destruct Hr as (H1 & H2 & _). by apply (unprotected_status f0). }
  exists f'. split; [done|]. rewrite Hsl in Hp. by eapply program_ready.
Qed.

(** The header's sector: erased, then the header written at its start. *)
Lemma write_header f a hd :
  unprotected f -> 0 <= a -> a mod 4096 = 0 -> a < flash_size c -> zlen hd = 32 -> Forall is_byte hd ->
  exists f', flash_write_data c (flash_erase_sector c f a) hd a 32 = Done f' /\
    rdsr f' = rdsr f /\ rdsr2 f' = rdsr2 f /\
    forall x, cell f' x = if (a <=? x) && (x <? a + 4096) then (if x <? a + 32 then nth (Z.to_nat (x - a)) hd 0 else 255)
                          else cell f x.
Proof.
  intros Hu Ha Hm Hlt Hz Hb. destruct (flash_erase_sector_run f a) as (E1 & E2 & E3); [done|done|lia|done|].
  destruct (write_exact (flash_erase_sector c f a) hd a 32) as (f' & E & P1 & P2 & P3);
    [by apply (unprotected_status f)|done..|unfold SECTOR in Hsize; Z.to_euclidean_division_equations; lia|lia|].
  exists f'. split_and!; [done|congruence..|]. intros x. rewrite P3. unfold programmed. rewrite E3, Hz.
  unfold erased, SECTOR.
  destruct ((a <=? x) && (x <? a + 4096)) eqn:Ex.
  - zbool. rewrite (proj2 (Z.leb_le a x)) by lia. cbn [andb].
    destruct (x <? a + 32); [|done]. apply land_255. by apply nth_byte.
  - apply andb_false_iff in Ex. rewrite Z.leb_gt, Z.ltb_ge in Ex.
    replace ((a <=? x) && (x <? a + 32)) with false; [done|].
    symmetry; apply andb_false_iff; rewrite Z.leb_gt, Z.ltb_ge; lia.
Qed.

Lemma read_back_ok alloc f p src addr n :
  0 <= addr -> 0 <= n <= 1024 -> addr + n <= CHIP -> 0 <= src -> src + 24 + n <= zlen p ->
  read_back c alloc f p src addr n = Done tt.
Proof.
  intros Ha Hn Hin Hs Hp. unfold read_back, TFTP_PKT_HD_LEN. destruct alloc; [|done].
  rewrite (proj2 (Z.ltb_ge _ _)), read_exact by lia. cbn [mbind outcome_bind]. by rewrite mem_read_in by lia.
Qed.

(** What the bytes of a block at [src] look like to the code. *)
Lemma block_reads h chunk (p : list Z) src :
  0 <= src -> src + 24 + zlen chunk <= zlen p ->
  slice p src (24 + zlen chunk) = hd_bytes h ++ chunk ->
  mem_read p src 24 = Done (hd_bytes h) /\
  mem_read p src (24 + zlen chunk) = Done (hd_bytes h ++ chunk) /\
  slice (drop (Z.to_nat (src + 24)) p) 0 (zlen chunk) = chunk /\
  zlen chunk <= zlen (drop (Z.to_nat (src + 24)) p).
Proof.
  intros Hs Hp E. pose proof (zlen_nonneg chunk).
  rewrite !mem_read_in, E by lia. split_and!; [|done| |].
  - replace src with (src + 0) by lia. rewrite <- (slice_slice p src (24 + zlen chunk) 0 24), E by lia. done.
  - transitivity (slice (slice p src (24 + zlen chunk)) 24 (zlen chunk)).
    + rewrite slice_slice by lia. done.
    + rewrite E. unfold slice. rewrite drop_app_ge by reflexivity. cbn [length hd_bytes app]. apply take_ge. unfold zlen; cbn; lia.
  - unfold zlen in *. rewrite length_drop. lia.
Qed.
End Image.

(* ------------------------------------------------------------------ *)
(** ** A transfer *)

Section Transfer.
Context {c : flash_config_t} {F : Type} `{Nor c F}.
Context (Hchip : flash_size c <= CHIP) (Hsize : flash_size c mod SECTOR = 0).
Context (co_crc32 : list Z -> Z -> Z) (BootFile : list Z).

Lemma store_block_spec alloc (o : ota (F := F)) block h (p : list Z) chunk f0 base data crc0 :
  unprotected f0 -> 0 <= base -> base mod 4096 = 0 -> holds f0 (flash o) base data ->
  hd_wf h -> Forall is_byte chunk -> 0 < zlen chunk <= 1024 -> (base + zlen data) mod 4096 + zlen chunk <= 4096 ->
  base + zlen data + zlen chunk <= flash_size c -> 0x27000 <= base -> base + zlen data < 0x200000 ->
  28 + zlen chunk <= zlen p -> slice p 4 (24 + zlen chunk) = hd_bytes h ++ chunk ->
  (if negb (block =? 0) then (os_data_addr o, tftp_crc o) else (os1_flash_addr h, 0)) = (base + zlen data, crc0) ->
  exists f', holds f0 f' base (data ++ chunk) /\
    store_block c co_crc32 alloc o block p 4 (24 + zlen chunk) =
      ('(crc1, img, f) ← (if negb (seq h =? total_seq h) then Done (co_crc32 (hd_bytes h ++ chunk) crc0, img_hd o, f')
                          else finish_image c co_crc32 h crc0 (img_hd o) f' p 4 (24 + zlen chunk));
       Done (mk_ota h h (base + zlen data + zlen chunk) crc1 img f)).
Proof.
  intros Hu Hb Hm Hh Hw Hc Hn Hs Hin Hlo Hhi Hp Hsl Hst. pose proof (zlen_nonneg data). unfold CHIP in *.
  destruct (block_reads h chunk p 4) as (R1 & R2 & R3 & R4); [lia|lia|done|].
  destruct (write_block Hchip Hsize f0 (flash o) base data chunk (drop (Z.to_nat (4 + 24)) p)) as (f' & E & Hf);
    [done..|lia|done|done|done|done|]. cbv zeta in E.
  exists f'. split; [done|]. unfold store_block, TFTP_PKT_HD_LEN. rewrite R1. cbn [mbind outcome_bind].
  rewrite hd_of_bytes, Hst by done. cbn beta iota zeta.
  rewrite (proj2 (Z.leb_gt 0x200000 (base + zlen data))), (proj2 (Z.ltb_ge (base + zlen data) 0x27000)),
    (proj2 (Z.ltb_lt (base + zlen data) 0x400000)) by lia. cbn [orb].
  replace (24 + zlen chunk - 24) with (zlen chunk) by lia.
  rewrite (u32_small (zlen chunk)), (u32_small (base + _ + _)) by lia.
  rewrite E. cbn [mbind outcome_bind]. rewrite read_back_ok by (unfold CHIP; lia). cbn [mbind outcome_bind].
  destruct (negb (seq h =? total_seq h)); [|done]. by rewrite R2.
Qed.

(** The checksum and the trailer of the last block. *)
Definition last_crc (blk : list Z) (crc0 : Z) : Z := co_crc32 (slice blk 0 (zlen blk - 4)) crc0.
Definition trailer (blk : list Z) : Z := of_le (slice blk (zlen blk - 4) 4).

Definition header_of (h : SEND_PTK_HD) (crc1 bk0 : Z) : IMG_HEAD :=
  mk_img (os1_flash_addr h) (total_len h) (os0_ex_addr h) (os0_flash_addr h) (os_hd_addr h) crc1 1 bk0.

Lemma img_bytes_bytes i : Forall is_byte (img_bytes i).
Proof. unfold img_bytes. rewrite !Forall_app. split_and!; apply le32_bytes. Qed.

(** The chip after the last block: the header when the checksum agrees. *)
Definition finished (f1 f2 : F) (h : SEND_PTK_HD) (img : IMG_HEAD) (ok : bool) : Prop :=
  rdsr f2 = rdsr f1 /\ rdsr2 f2 = rdsr2 f1 /\ forall x,
  cell f2 x = if ok && (os_hd_addr h <=? x) && (x <? os_hd_addr h + 4096)
              then (if x <? os_hd_addr h + 32 then nth (Z.to_nat (x - os_hd_addr h)) (img_bytes img) 0 else 255)
              else cell f1 x.

Lemma finish_image_spec h crc0 img0 f1 (p : list Z) chunk :
  unprotected f1 -> hd_wf h -> 4 <= zlen chunk -> zlen chunk <= 1024 -> 28 + zlen chunk <= zlen p ->
  slice p 4 (24 + zlen chunk) = hd_bytes h ++ chunk ->
  os_hd_addr h mod 4096 = 0 -> os_hd_addr h < flash_size c ->
  let blk := hd_bytes h ++ chunk in
  let crc1 := last_crc blk crc0 in
  let ok := crc1 =? trailer blk in
  let img := if ok then header_of h crc1 (bk img0) else img0 in
  exists f2, finish_image c co_crc32 h crc0 img0 f1 p 4 (24 + zlen chunk) = Done (crc1, img, f2) /\
    finished f1 f2 h img ok.
Proof.
  intros Hu Hw Hn Hn' Hp Hsl Hhm Hhs blk crc1 ok img.
  assert (Hz : zlen blk = 24 + zlen chunk) by (unfold blk; by rewrite zlen_app).
  assert (E1 : slice p (4 + (24 + zlen chunk) - 4) 4 = slice blk (zlen blk - 4) 4).
  { unfold blk at 1. rewrite Hz, <- Hsl, slice_slice by lia. f_equal. lia. }
  assert (E2 : slice p 4 (24 + zlen chunk - 4) = slice blk 0 (zlen blk - 4)).
  { unfold blk at 1. rewrite Hz, <- Hsl, slice_slice by lia. f_equal. }
  unfold finish_image, TFTP_ALL_CRC_LEN. rewrite (mem_read_in p (4 + (24 + zlen chunk) - 4)), E1 by lia. cbn [mbind outcome_bind].
  rewrite u32_small by lia. rewrite (mem_read_in p 4), E2 by lia. cbn [mbind outcome_bind].
  fold (trailer blk) (last_crc blk crc0). fold crc1. fold ok. unfold img. destruct ok eqn:Eok.
  - apply Z.eqb_eq in Eok. rewrite <- Eok. fold (header_of h crc1 (bk img0)).
    destruct (write_header Hchip Hsize f1 (os_hd_addr h) (img_bytes (header_of h crc1 (bk img0))))
      as (f2 & E & H1 & H2 & H3); [done|apply Hw|done|done|done|apply img_bytes_bytes|].
    exists f2. rewrite E. split; [done|]. split_and!; [done..|]. exact H3.
  - exists f1. split; [done|]. by split_and!.
Qed.

(** What the server sends: the fields common to all headers, and the pieces
    of the image. *)
Record upgrade := mk_upgrade {
  u_total_len : Z;
  u_ex : Z;
  u_hd : Z;
  u_os0 : Z;
  u_os1 : Z;
  u_chunks : list (list Z)
}.

Definition count (u : upgrade) : Z := zlen (u_chunks u).
Definition header (u : upgrade) (k : Z) : SEND_PTK_HD :=
  mk_hd (u_total_len u) k (count u) (u_ex u) (u_hd u) (u_os0 u) (u_os1 u).
Definition chunk_of (u : upgrade) (k : Z) : list Z := nth (Z.to_nat (k - 1)) (u_chunks u) [].
Definition block_of (u : upgrade) (k : Z) : list Z := hd_bytes (header u k) ++ chunk_of u k.
Definition data_packet (u : upgrade) (k : Z) : list Z := be16 TFTP_DATA ++ be16 k ++ block_of u k.
Definition ack_packet (k : Z) : list Z := be16 TFTP_ACK ++ be16 k.

(** The image after [k] blocks, and the checksum of their bytes. *)
Definition image (u : upgrade) (k : Z) : list Z := concat (take (Z.to_nat k) (u_chunks u)).
Definition crc_upto (u : upgrade) (k : Z) : Z :=
  foldl (fun acc i => co_crc32 (block_of u i) acc) 0 (seqZ 1 k).

(** A transfer the code is made for: blocks of [B] payload bytes that divide
    a sector and fit the buffer they are read back into, a last block that is
    shorter, an image on sector boundaries in the area the code accepts, a
    header sector outside it. *)
Record good (u : upgrade) (B : Z) : Prop := {
  g_count : 0 < count u < 2 ^ 16;
  g_size : 0 < B <= 1024;
  g_sector : 4096 mod B = 0;
  g_full : forall k, 0 < k < count u -> zlen (chunk_of u k) = B;
  g_last : 4 <= zlen (chunk_of u (count u)) < B;
  g_bytes : Forall (Forall is_byte) (u_chunks u);
  g_total_len : is_u32 (u_total_len u);
  g_ex : is_u32 (u_ex u);
  g_os0 : is_u32 (u_os0 u);
  g_os1 : u_os1 u mod 4096 = 0;
  g_low : 0x27000 <= u_os1 u;
  g_high : u_os1 u + zlen (image u (count u)) <= 0x200000;
  g_chip : u_os1 u + zlen (image u (count u)) <= flash_size c;
  g_hd : 0 <= u_hd u < flash_size c;
  g_hd_sector : u_hd u mod 4096 = 0;
  g_apart : u_hd u + 4096 <= u_os1 u \/ up (u_os1 u + zlen (image u (count u))) <= u_hd u
}.

Lemma image_S u k : 0 <= k < count u -> image u (k + 1) = image u k ++ chunk_of u (k + 1).
Proof.
  unfold image, chunk_of, count, zlen. intros Hk. rewrite Z2Nat.inj_add by lia.
  change (Z.to_nat 1) with 1%nat. rewrite Nat.add_1_r, Z.add_simpl_r.
  destruct (lookup_lt_is_Some_2 (u_chunks u) (Z.to_nat k)) as [ch E]; [lia|].
  rewrite (take_S_r _ _ _ E), concat_app, nth_lookup, E. cbn. by rewrite app_nil_r.
Qed.

Lemma crc_upto_S u k : 0 <= k -> crc_upto u (k + 1) = co_crc32 (block_of u (k + 1)) (crc_upto u k).
Proof.
  intros Hk. unfold crc_upto. rewrite seqZ_app, foldl_app by lia.
  replace (seqZ (1 + k) 1) with [k + 1]; [done|]. rewrite Z.add_comm. reflexivity.
Qed.

Lemma chunk_bytes u B k : good u B -> Forall is_byte (chunk_of u k).
Proof.
  intros G. unfold chunk_of. rewrite nth_lookup. destruct (u_chunks u !! _) eqn:E; [|constructor].
  exact (Forall_lookup_1 _ _ _ _ (g_bytes u B G) E).
Qed.

Lemma image_length u B k : good u B -> 0 <= k < count u -> zlen (image u k) = k * B.
Proof.
  intros G. destruct (Z_lt_le_dec k 0); [lia|]. pattern k. apply natlike_ind; [done| |done].
  intros x Hx IH Hlt. rewrite <- Z.add_1_r in *. rewrite image_S, zlen_app, IH, (g_full u B) by (done || lia). lia.
Qed.

Lemma image_grows u k : 0 <= k <= count u -> zlen (image u k) <= zlen (image u (count u)).
Proof.
  intros Hk. assert (E : image u (count u) = image u k ++ concat (drop (Z.to_nat k) (u_chunks u))).
  { unfold image, count, zlen. rewrite Nat2Z.id, take_ge by lia. by rewrite <- concat_app, take_drop. }
  rewrite E, zlen_app. pose proof (zlen_nonneg (concat (drop (Z.to_nat k) (u_chunks u)))). lia.
Qed.

Lemma header_wf u B k : good u B -> 0 < k <= count u -> hd_wf (header u k).
Proof.
  intros G Hk. pose proof (g_count u B G). pose proof (g_high u B G). pose proof (g_low u B G).
  pose proof (g_hd u B G). unfold CHIP in *. pose proof (zlen_nonneg (image u (count u))).
  split; cbn; first [apply G | unfold is_u16, is_u32; lia].
Qed.

(** The client after [k] blocks, waiting for the next one. *)
Record at_block (u : upgrade) (B port : Z) (f0 : F) (bk0 : Z) (k : Z) (s : tftp (F := F)) : Prop := {
  at_alive : alive s = true;
  at_buf : exists p, tftp_buf s = Live p /\ zlen p = TFTP_LEN;
  at_state : TftpState (sess s) = if k =? 0 then STATE_OACK else STATE_DATA;
  at_port : TftpServerPort (sess s) = port;
  at_size : TftpBlkSize (sess s) = 24 + B;
  at_last : 0 < k -> TftpLastBlock (sess s) = k;
  at_addr : 0 < k -> os_data_addr (store s) = u_os1 u + zlen (image u k);
  at_crc : 0 < k -> tftp_crc (store s) = crc_upto u k;
  at_flash : holds f0 (flash (store s)) (u_os1 u) (image u k);
  at_bk : bk (img_hd (store s)) = bk0
}.

(** A datagram in the buffer. *)
Definition arrived (from : Z * Z) (p bytes : list Z) (s : tftp (F := F)) : tftp (F := F) :=
  set_addr from (set_buf (Live (splice p 0 bytes)) s).

Lemma receive_run alloc from bytes (s : tftp (F := F)) p :
  alive s = true -> tftp_buf s = Live p -> zlen p = TFTP_LEN ->
  let bytes' := take (Z.to_nat TFTP_LEN) bytes in
  tftp_event c co_crc32 BootFile (Recv alloc (Some (from, bytes))) s =
  TftpHandler c co_crc32 BootFile alloc (zlen bytes') (snd from) (arrived from p bytes' s).
Proof.
  intros Ha Hb Hp bytes'. unfold tftp_event. prog_run. rewrite Ha. cbn [when]. unfold tftp_receive. fold bytes'.
  prog_run. rewrite Hb. rewrite mem_write_in; [|lia|].
  - prog_run. reflexivity.
  - unfold bytes', zlen in *. rewrite length_take, Hp. lia.
Qed.

Lemma take_short (bytes : list Z) : zlen bytes <= TFTP_LEN -> take (Z.to_nat TFTP_LEN) bytes = bytes.
Proof. unfold zlen. intros Hz. apply take_ge. lia. Qed.

(** Reading the datagram out of the buffer. *)
Lemma arrived_read (p bytes : list Z) off n :
  0 <= off -> 0 <= n -> off + n <= zlen bytes -> zlen bytes <= zlen p ->
  mem_read (splice p 0 bytes) off n = Done (slice bytes off n).
Proof.
  intros Ho Hn Hl Hp. rewrite mem_read_in by (rewrite ?zlen_splice; lia). f_equal.
  replace off with (0 + off) at 1 by lia. rewrite <- (slice_slice _ 0 (zlen bytes)) by lia.
  by rewrite slice_splice_same by lia.
Qed.

(** The handler on a datagram of the server. *)
Lemma handler_run alloc from p bytes op (s : tftp (F := F)) :
  zlen p = TFTP_LEN -> 2 <= zlen bytes <= TFTP_LEN -> slice bytes 0 2 = be16 op -> is_u16 op ->
  (TftpState (sess s) = STATE_RRQ \/ TftpServerPort (sess s) = snd from) ->
  TftpHandler c co_crc32 BootFile alloc (zlen bytes) (snd from) (arrived from p bytes s) =
  (if op =? TFTP_OACK then handle_oack BootFile (splice p 0 bytes) (zlen bytes - 2) (snd from)
   else if op =? TFTP_DATA then handle_data c co_crc32 BootFile alloc (splice p 0 bytes) (zlen bytes - 2) (snd from)
   else mret tt) (arrived from p bytes s).
Proof.
  intros Hp Hb Hd Hop Hport. unfold TftpHandler. prog_run. cbn [sess arrived set_addr set_buf].
  replace (negb (TftpState (sess s) =? STATE_RRQ) && negb (snd from =? TftpServerPort (sess s))) with false.
  2:{ symmetry. apply andb_false_iff. rewrite !negb_false_iff, !Z.eqb_eq. destruct Hport; [by left|right; done]. }
  rewrite (proj2 (Z.ltb_ge (zlen bytes) 2)) by lia. prog_run. cbn [tftp_buf arrived set_addr set_buf].
  prog_run. rewrite arrived_read, Hd by lia. prog_run. by rewrite bswap16_be16.
Qed.

Definition is_first (s : session) : bool := (TftpState s =? STATE_RRQ) || (TftpState s =? STATE_OACK).

(** The statics when a block with a number other than 0 has been noted. *)
Definition noted (blk port : Z) (s : session) : session :=
  let s := set_block blk s in
  if is_first s then set_wrap 0 0 (set_last 0 (set_port port (set_state STATE_DATA s))) else s.

Lemma handle_data_noted alloc p len port (s : tftp (F := F)) blk :
  2 <= len -> mem_read p 2 2 = Done (be16 blk) -> 0 < blk < 2 ^ 16 -> (is_first (sess s) = true -> blk = 1) ->
  handle_data c co_crc32 BootFile alloc p len port s =
  (if blk =? TftpLastBlock (noted blk port (sess s)) then TftpSend BootFile else
   _ ← setss (set_last blk);
   o ← gets store;
   o ← lift (store_block c co_crc32 alloc o (u32 (blk - 1)) p 4 (len - 2));
   _ ← modify (on_store o);
   _ ← TftpSend BootFile;
   bsz ← getss TftpBlkSize;
   when (len - 2 <? bsz) Tftp_Uninit) (on_sess (fun _ => noted blk port (sess s)) s).
Proof.
  intros Hl Hr Hb Hf. unfold handle_data, setss, getss. rewrite (proj2 (Z.ltb_ge _ _)) by lia. rewrite Hr.
  prog_run. rewrite bswap16_be16 by (unfold is_u16; lia). rewrite (proj2 (Z.eqb_neq blk 0)) by lia. prog_run.
  cbn [sess on_sess]. fold (is_first (set_block blk (sess s))). unfold noted.
  change (is_first (set_block blk (sess s))) with (is_first (sess s)).
  destruct (is_first (sess s)); prog_run.
  - rewrite Hf by done. cbn [negb andb Z.eqb Pos.eqb]. prog_run. reflexivity.
  - reflexivity.
Qed.

Lemma send_run (s : tftp (F := F)) : TftpSend BootFile s = Done (tt, log (packet BootFile (sess s)) s).
Proof. reflexivity. Qed.

Lemma handle_data_new alloc p len port (s : tftp (F := F)) blk o :
  2 <= len -> mem_read p 2 2 = Done (be16 blk) -> 0 < blk < 2 ^ 16 -> (is_first (sess s) = true -> blk = 1) ->
  blk <> TftpLastBlock (noted blk port (sess s)) -> TftpState (noted blk port (sess s)) = STATE_DATA ->
  store_block c co_crc32 alloc (store s) (blk - 1) p 4 (len - 2) = Done o ->
  let s' := log (ack_packet blk) (on_store o (on_sess (fun _ => set_last blk (noted blk port (sess s))) s)) in
  handle_data c co_crc32 BootFile alloc p len port s =
    (if len - 2 <? TftpBlkSize (sess s) then Tftp_Uninit s' else Done (tt, s')).
Proof.
  intros Hl Hr Hb Hf Hn Hst Ho s'. rewrite (handle_data_noted _ _ _ _ _ blk) by done.
  rewrite (proj2 (Z.eqb_neq _ _) Hn). unfold setss, getss. prog_run. rewrite (u32_small (blk - 1)) by lia.
  cbn [store on_sess]. rewrite Ho. prog_run.
  erewrite run_bind by apply send_run.
  assert (E : packet BootFile (sess (on_store o (on_sess (set_last blk) (on_sess (fun _ => noted blk port (sess s)) s)))) = ack_packet blk).
  { unfold packet, noted in *. cbn [sess on_store on_sess] in *. destruct (is_first _); cbn in *;
      rewrite ?Hst; reflexivity. }
  rewrite E. fold s'. prog_run.
  assert (E2 : TftpBlkSize (sess s') = TftpBlkSize (sess s)) by (unfold s', noted; cbn; by destruct (is_first _)).
  change (log _ _) with s'. rewrite E2. by destruct (_ <? _).
Qed.

Lemma zlen_packet u k : zlen (data_packet u k) = 28 + zlen (chunk_of u k).
Proof.
  unfold data_packet, block_of. rewrite !zlen_app. change (zlen (be16 _)) with 2.
  change (zlen (hd_bytes _)) with 24. lia.
Qed.

Lemma chunk_small u B k : good u B -> 0 < k <= count u -> 0 < zlen (chunk_of u k) <= B.
Proof.
  intros G Hk. pose proof (g_size u B G). pose proof (g_last u B G). pose proof (g_full u B G k).
  destruct (decide (k = count u)) as [->|]; lia.
Qed.

Lemma noted_block u B port f0 bk0 k (s : tftp (F := F)) port' :
  at_block u B port f0 bk0 k s -> 0 <= k -> port' = port ->
  let ss := noted (k + 1) port' (sess s) in
  (is_first (sess s) = true -> k + 1 = 1) /\ TftpLastBlock ss = k /\ TftpState ss = STATE_DATA /\
  TftpServerPort ss = port /\ TftpBlkSize ss = 24 + B.
Proof.
  intros A Hk -> ss. destruct A as [_ _ Hs Hp Hz Hl _ _ _ _].
  assert (Ef : is_first (sess s) = (k =? 0)) by (unfold is_first; rewrite Hs; by destruct (k =? 0)).
  unfold ss, noted. change (is_first (set_block (k + 1) (sess s))) with (is_first (sess s)). rewrite Ef.
  destruct (Z.eqb_spec k 0) as [->|Hk0]; [by split_and!|]. split_and!; [done|cbn; apply Hl; lia|done..].
Qed.

(** What the server's next packet makes the code store. *)
Lemma store_next u B port f0 bk0 k alloc (s : tftp (F := F)) (p : list Z) :
  good u B -> unprotected f0 -> at_block u B port f0 bk0 k s -> 0 <= k < count u -> zlen p = TFTP_LEN ->
  let ch := chunk_of u (k + 1) in
  exists f1, holds f0 f1 (u_os1 u) (image u (k + 1)) /\
    store_block c co_crc32 alloc (store s) (k + 1 - 1) (splice p 0 (data_packet u (k + 1))) 4 (24 + zlen ch) =
    ('(crc1, img, f) ← (if negb (k + 1 =? count u) then Done (crc_upto u (k + 1), img_hd (store s), f1)
                        else finish_image c co_crc32 (header u (k + 1)) (crc_upto u k) (img_hd (store s)) f1
                               (splice p 0 (data_packet u (k + 1))) 4 (24 + zlen ch));
     Done (mk_ota (header u (k + 1)) (header u (k + 1)) (u_os1 u + zlen (image u (k + 1))) crc1 img f)).
Proof.
  intros G Hu A Hk Hp ch. pose proof (zlen_packet u (k + 1)) as Hz. fold ch in Hz.
  pose proof (chunk_small u B (k + 1) G) as Hc. fold ch in Hc. pose proof (image_S u k Hk) as Hi. fold ch in Hi.
  pose proof (image_grows u (k + 1)) as Hg. pose proof (image_length u B k G Hk) as Hl.
  pose proof (g_size u B G). pose proof (g_sector u B G) as Hsec. pose proof (g_low u B G). pose proof (g_high u B G).
  pose proof (g_chip u B G). pose proof (g_os1 u B G) as Hos. pose proof (zlen_nonneg (image u k)).
  assert (Hmod : (u_os1 u + zlen (image u k)) mod 4096 + zlen ch <= 4096).
  { rewrite Hl. assert (exists q, 4096 = B * q) as [q Hq] by (exists (4096 / B); Z.to_euclidean_division_equations; lia).
    assert (E : (u_os1 u + k * B) mod 4096 = B * (k mod q)).
    { rewrite Z.add_mod, Hos, Z.add_0_l, Z.mod_mod, (Z.mul_comm k B), Hq by lia. apply Z.mul_mod_distr_l; nia. }
    rewrite E. assert (0 < q) by nia. pose proof (Z.mod_pos_bound k q). nia. }
  assert (Hlen : u_os1 u + zlen (image u k) + zlen ch = u_os1 u + zlen (image u (k + 1)))
    by (rewrite Hi, zlen_app; lia).
  unfold TFTP_LEN in *. rewrite Hi.
  destruct (store_block_spec alloc (store s) (k + 1 - 1) (header u (k + 1)) (splice p 0 (data_packet u (k + 1))) ch f0
    (u_os1 u) (image u k) (if k =? 0 then 0 else crc_upto u k)) as (f1 & Hf & E);
    [done|lia|done|apply A|by apply (header_wf u B); [|lia]|by apply (chunk_bytes u B)|lia|done|lia|done| | | | |].
  - assert (zlen (image u (k + 1)) <= zlen (image u (count u))) by (apply Hg; lia). lia.
  - rewrite zlen_splice; lia.
  - transitivity (slice (slice (splice p 0 (data_packet u (k + 1))) 0 (28 + zlen ch)) 4 (24 + zlen ch)).
    + by rewrite slice_slice by lia.
    + rewrite slice_splice_same by lia. apply take_ge. unfold zlen in *. cbn. lia.
  - destruct (Z.eqb_spec k 0) as [->|Hk0].
    + cbn. by rewrite Z.add_0_r.
    + rewrite (proj2 (Z.eqb_neq (k + 1 - 1) 0)) by lia. cbn [negb].
      by rewrite (at_addr u B port f0 bk0 k s A), (at_crc u B port f0 bk0 k s A) by lia.
  - exists f1. split; [done|]. rewrite E. cbn [seq total_seq header]. rewrite Hlen, <- Hi.
    assert (Ec : (if k =? 0 then 0 else crc_upto u k) = crc_upto u k) by (destruct (Z.eqb_spec k 0) as [->|]; done).
    rewrite Ec. by rewrite crc_upto_S by lia.
Qed.

(** Whether the trailer of the image is the checksum of what came before. *)
Definition checksum_ok (u : upgrade) : bool :=
  last_crc (block_of u (count u)) (crc_upto u (count u - 1)) =? trailer (block_of u (count u)).

Definition boot_header (u : upgrade) (bk0 : Z) : IMG_HEAD :=
  header_of (header u (count u)) (last_crc (block_of u (count u)) (crc_upto u (count u - 1))) bk0.

(** The client after the transfer, its answer sent to [from]. *)
Definition ended (u : upgrade) (f0 : F) (bk0 : Z) (s : tftp (F := F)) : Prop :=
  alive s = false /\ tftp_buf s = Null /\
  (exists from, last (sent s) = Some (from, ack_packet (count u))) /\
  exists f1, holds f0 f1 (u_os1 u) (image u (count u)) /\
    finished f1 (flash (store s)) (header u (count u)) (boot_header u bk0) (checksum_ok u).

Lemma new_block_run u B port f0 bk0 k alloc from (s : tftp (F := F)) p o :
  good u B -> at_block u B port f0 bk0 k s -> 0 <= k < count u -> snd from = port ->
  tftp_buf s = Live p -> zlen p = TFTP_LEN ->
  store_block c co_crc32 alloc (store s) (k + 1 - 1) (splice p 0 (data_packet u (k + 1))) 4
    (24 + zlen (chunk_of u (k + 1))) = Done o ->
  let s1 := arrived from p (data_packet u (k + 1)) s in
  let s2 := log (ack_packet (k + 1)) (on_store o (on_sess (fun _ => set_last (k + 1) (noted (k + 1) port (sess s))) s1)) in
  tftp_event c co_crc32 BootFile (Recv alloc (Some (from, data_packet u (k + 1)))) s =
  if 24 + zlen (chunk_of u (k + 1)) <? 24 + B then Tftp_Uninit s2 else Done (tt, s2).
Proof.
  intros G A Hk Hfrom Hb Hp Ho s1 s2. pose proof (chunk_small u B (k + 1) G) as Hc. pose proof (g_count u B G).
  pose proof (g_size u B G). pose proof (zlen_packet u (k + 1)) as Hz. unfold TFTP_LEN in *.
  rewrite (receive_run _ _ _ s p); [|by apply A|done|done]. rewrite take_short by (unfold TFTP_LEN; lia).
  rewrite (handler_run _ _ _ _ TFTP_DATA);
    [|done|unfold TFTP_LEN; lia|done|done|right; by rewrite (at_port u B port f0 bk0 k s A)].
  change (TFTP_DATA =? TFTP_OACK) with false. change (TFTP_DATA =? TFTP_DATA) with true. cbn beta iota.
  destruct (noted_block u B port f0 bk0 k s (snd from) A) as (N1 & N2 & N3 & N4 & N5); [lia|done|].
  rewrite (handle_data_new alloc _ _ _ _ (k + 1) o).
  - rewrite Hz. replace (28 + _ - 2 - 2) with (24 + zlen (chunk_of u (k + 1))) by lia.
    cbn [sess arrived set_addr set_buf]. by rewrite (at_size u B port f0 bk0 k s A), Hfrom.
  - lia.
  - by rewrite arrived_read by lia.
  - lia.
  - exact N1.
  - cbn [sess arrived set_addr set_buf]. rewrite N2. lia.
  - exact N3.
  - rewrite Hz. replace (28 + _ - 2 - 2) with (24 + zlen (chunk_of u (k + 1))) by lia. exact Ho.
Qed.

Lemma arrived_buf p bytes : zlen p = TFTP_LEN -> zlen bytes <= TFTP_LEN ->
  exists p', Live (splice p 0 bytes) = Live p' /\ zlen p' = TFTP_LEN.
Proof. intros Hp Hb. exists (splice p 0 bytes). split; [done|]. by rewrite zlen_splice by lia. Qed.

Lemma step_next u B port f0 bk0 k alloc from (s : tftp (F := F)) :
  good u B -> unprotected f0 -> at_block u B port f0 bk0 k s -> 0 <= k -> k + 1 < count u -> snd from = port ->
  exists s', tftp_event c co_crc32 BootFile (Recv alloc (Some (from, data_packet u (k + 1)))) s = Done (tt, s') /\
    at_block u B port f0 bk0 (k + 1) s' /\ sent s' = sent s ++ [(from, ack_packet (k + 1))].
Proof.
  intros G Hu A Hk Hlt Hfrom. destruct (at_buf u B port f0 bk0 k s A) as (p & Hb & Hp).
  destruct (store_next u B port f0 bk0 k alloc s p) as (f1 & Hf & E); [done..|lia|done|]. cbv zeta in E.
  rewrite (proj2 (Z.eqb_neq (k + 1) (count u))) in E by lia. cbn [negb mbind outcome_bind] in E.
  rewrite (new_block_run u B port f0 bk0 k alloc from s p _ G A) by (done || lia).
  rewrite (g_full u B G) by lia. rewrite Z.ltb_irrefl. eexists. split; [reflexivity|]. split; [|done].
  destruct (noted_block u B port f0 bk0 k s port A) as (N1 & N2 & N3 & N4 & N5); [lia|done|].
  pose proof (zlen_packet u (k + 1)) as Hz. pose proof (g_full u B G (k + 1)). pose proof (g_size u B G).
  split.
  - by apply A.
  - apply arrived_buf; unfold TFTP_LEN in *; lia.
  - rewrite (proj2 (Z.eqb_neq (k + 1) 0)) by lia. exact N3.
  - exact N4.
  - exact N5.
  - done.
  - done.
  - done.
  - exact Hf.
  - by apply A.
Qed.

Lemma step_last u B port f0 bk0 k alloc from (s : tftp (F := F)) :
  good u B -> unprotected f0 -> at_block u B port f0 bk0 k s -> 0 <= k -> k + 1 = count u -> snd from = port ->
  exists s', tftp_event c co_crc32 BootFile (Recv alloc (Some (from, data_packet u (k + 1)))) s = Done (tt, s') /\
    ended u f0 bk0 s'.
Proof.
  intros G Hu A Hk Hlt Hfrom. destruct (at_buf u B port f0 bk0 k s A) as (p & Hb & Hp).
  destruct (store_next u B port f0 bk0 k alloc s p) as (f1 & Hf & E); [done..|lia|done|]. cbv zeta in E.
  rewrite (proj2 (Z.eqb_eq (k + 1) (count u))) in E by lia. cbn [negb] in E.
  pose proof (zlen_packet u (k + 1)) as Hz. pose proof (g_last u B G) as Hla. pose proof (g_size u B G).
  rewrite <- Hlt in Hla.
  destruct (finish_image_spec (header u (k + 1)) (crc_upto u k) (img_hd (store s)) f1
    (splice p 0 (data_packet u (k + 1))) (chunk_of u (k + 1))) as (f2 & E2 & Hfin).
  - destruct Hf as (H1 & H2 & _). by apply (unprotected_status f0).
  - by apply (header_wf u B); [|lia].
  - lia.
  - lia.
  - unfold TFTP_LEN in *. rewrite zlen_splice; lia.
  - unfold TFTP_LEN in *. transitivity (slice (slice (splice p 0 (data_packet u (k + 1))) 0 (28 + zlen (chunk_of u (k + 1)))) 4 (24 + zlen (chunk_of u (k + 1)))).
    + by rewrite slice_slice by lia.
    + rewrite slice_splice_same by lia. apply take_ge. unfold zlen in *. cbn. lia.
  - apply (g_hd_sector u B G).
  - apply (g_hd u B G).
  - cbv zeta in E2. rewrite E2 in E. cbn [mbind outcome_bind] in E.
    rewrite (new_block_run u B port f0 bk0 k alloc from s p _ G A) by (done || lia).
    rewrite (proj2 (Z.ltb_lt _ _)) by lia. eexists. split; [reflexivity|].
    split_and!; [done|done|exists from; cbn; by rewrite last_snoc, Hlt|].
    exists f1. rewrite <- Hlt in *. split; [done|]. cbn [store flash set_alive set_buf log on_store].
    unfold checksum_ok, boot_header. rewrite <- Hlt. replace (k + 1 - 1) with k by lia. fold (block_of u (k + 1)) in Hfin.
    destruct Hfin as (H1 & H2 & H3). split_and!; [done..|]. intros x. rewrite H3.
    rewrite (at_bk u B port f0 bk0 k s A). by destruct (_ =? _).
Qed.

(** What else may happen after [k] blocks without disturbing the transfer: a
    timer tick, a datagram from another port, one of the server that is too
    short or neither data nor an option acknowledgement, and the last block
    again. *)
Inductive quiet (port k : Z) : event -> Prop :=
  | quiet_tick : quiet port k Tick
  | quiet_stray alloc from bytes : snd from <> port -> quiet port k (Recv alloc (Some (from, bytes)))
  | quiet_short alloc from bytes : zlen bytes < 2 -> quiet port k (Recv alloc (Some (from, bytes)))
  | quiet_other alloc from bytes op :
      2 <= zlen bytes <= TFTP_LEN -> is_u16 op -> slice bytes 0 2 = be16 op -> op <> TFTP_OACK -> op <> TFTP_DATA ->
      quiet port k (Recv alloc (Some (from, bytes)))
  | quiet_again alloc from bytes :
      snd from = port -> 0 < k < 2 ^ 16 -> 4 <= zlen bytes <= TFTP_LEN ->
      slice bytes 0 2 = be16 TFTP_DATA -> slice bytes 2 2 = be16 k ->
      quiet port k (Recv alloc (Some (from, bytes))).

(** The blocks in order, each any number of times, among quiet events; after
    the last one nothing matters. *)
Inductive trace (u : upgrade) (port : Z) : Z -> list event -> Prop :=
  | trace_quiet k e es : quiet port k e -> trace u port k es -> trace u port k (e :: es)
  | trace_next k alloc from es :
      snd from = port -> k + 1 < count u -> trace u port (k + 1) es ->
      trace u port k (Recv alloc (Some (from, data_packet u (k + 1))) :: es)
  | trace_last k alloc from es :
      snd from = port -> k + 1 = count u ->
      trace u port k (Recv alloc (Some (from, data_packet u (k + 1))) :: es).

(** Only the statics the invariant does not mention have changed. *)
Lemma at_block_same u B port f0 bk0 k (s s' : tftp (F := F)) :
  at_block u B port f0 bk0 k s -> alive s' = true -> (exists p, tftp_buf s' = Live p /\ zlen p = TFTP_LEN) ->
  store s' = store s -> TftpState (sess s') = TftpState (sess s) ->
  TftpServerPort (sess s') = TftpServerPort (sess s) -> TftpBlkSize (sess s') = TftpBlkSize (sess s) ->
  TftpLastBlock (sess s') = TftpLastBlock (sess s) -> at_block u B port f0 bk0 k s'.
Proof. intros [] ? ? E1 E2 E3 E4 E5. split; rewrite ?E1, ?E2, ?E3, ?E4, ?E5; done. Qed.

Lemma handler_ignores alloc len port (s : tftp (F := F)) :
  (TftpState (sess s) <> STATE_RRQ /\ TftpServerPort (sess s) <> port \/ len < 2 \/
   exists p op, tftp_buf s = Live p /\ is_u16 op /\ mem_read p 0 2 = Done (be16 op) /\ op <> TFTP_OACK /\ op <> TFTP_DATA) ->
  TftpHandler c co_crc32 BootFile alloc len port s = Done (tt, s).
Proof.
  intros Hc. unfold TftpHandler. prog_run.
  destruct (negb (TftpState (sess s) =? STATE_RRQ) && negb (port =? TftpServerPort (sess s))) eqn:E; [done|].
  destruct (Z.ltb_spec len 2) as [El|El]; [done|].
  destruct Hc as [[Hr Hp]|[?|(p & op & Hb & Hw & Hm & H1 & H2)]]; [|lia|].
  - apply andb_false_iff in E. rewrite !negb_false_iff, !Z.eqb_eq in E. destruct E; congruence.
  - prog_run. rewrite Hb. prog_run. rewrite Hm. prog_run. rewrite bswap16_be16 by done.
    by rewrite (proj2 (Z.eqb_neq op TFTP_OACK)), (proj2 (Z.eqb_neq op TFTP_DATA)).
Qed.

Lemma again_run u B port f0 bk0 k alloc from bytes (s : tftp (F := F)) p :
  at_block u B port f0 bk0 k s -> tftp_buf s = Live p -> zlen p = TFTP_LEN ->
  snd from = port -> 0 < k < 2 ^ 16 -> 4 <= zlen bytes <= TFTP_LEN ->
  slice bytes 0 2 = be16 TFTP_DATA -> slice bytes 2 2 = be16 k ->
  let s1 := on_sess (fun _ => set_block k (sess s)) (arrived from p bytes s) in
  tftp_event c co_crc32 BootFile (Recv alloc (Some (from, bytes))) s = Done (tt, log (ack_packet k) s1).
Proof.
  intros A Hb Hp Hfrom Hk Hz H1 H2 s1. pose proof (at_state u B port f0 bk0 k s A) as Hst.
  rewrite (proj2 (Z.eqb_neq k 0)) in Hst by lia.
  assert (Ef : is_first (sess s) = false) by (unfold is_first; by rewrite Hst).
  rewrite (receive_run _ _ _ s p); [|by apply A|done|done]. rewrite take_short by lia.
  rewrite (handler_run _ _ _ _ TFTP_DATA); [|done|lia|done|done|right; by rewrite (at_port u B port f0 bk0 k s A)].
  change (TFTP_DATA =? TFTP_OACK) with false. change (TFTP_DATA =? TFTP_DATA) with true. cbn beta iota.
  rewrite (handle_data_noted _ _ _ _ _ k); [|lia|by rewrite arrived_read, H2 by lia|lia|].
  2:{ cbn [sess arrived set_addr set_buf]. by rewrite Ef. }
  cbn [sess arrived set_addr set_buf]. unfold noted.
  change (is_first (set_block k (sess s))) with (is_first (sess s)). rewrite Ef. cbn [TftpLastBlock set_block].
  rewrite (at_last u B port f0 bk0 k s A), Z.eqb_refl by lia. rewrite send_run.
  assert (Ep : packet BootFile (set_block k (sess s)) = ack_packet k)
    by (unfold packet; cbn [TftpState set_block]; by rewrite Hst).
  cbn [sess on_sess]. by rewrite Ep.
Qed.

Lemma step_quiet u B port f0 bk0 k e (s : tftp (F := F)) :
  at_block u B port f0 bk0 k s -> quiet port k e ->
  exists s', tftp_event c co_crc32 BootFile e s = Done (tt, s') /\ at_block u B port f0 bk0 k s'.
Proof.
  intros A Q. destruct (at_buf u B port f0 bk0 k s A) as (p & Hb & Hp).
  assert (Hst : TftpState (sess s) <> STATE_RRQ) by (rewrite (at_state u B port f0 bk0 k s A); by destruct (k =? 0)).
  assert (Hskip : forall alloc from bytes,
    (let bs := take (Z.to_nat TFTP_LEN) bytes in
     TftpState (sess s) <> STATE_RRQ /\ TftpServerPort (sess s) <> snd from \/ zlen bs < 2 \/
     exists p' op, tftp_buf (arrived from p bs s) = Live p' /\ is_u16 op /\ mem_read p' 0 2 = Done (be16 op) /\
                   op <> TFTP_OACK /\ op <> TFTP_DATA) ->
    exists s', tftp_event c co_crc32 BootFile (Recv alloc (Some (from, bytes))) s = Done (tt, s') /\
               at_block u B port f0 bk0 k s').
  { intros alloc from bytes Hc. rewrite (receive_run _ _ _ s p) by (done || apply A). rewrite handler_ignores by done.
    eexists. split; [reflexivity|]. apply (at_block_same _ _ _ _ _ _ s); [done|by apply A| |done..].
    apply arrived_buf; [done|]. unfold zlen, TFTP_LEN. rewrite length_take. lia. }
  destruct Q as [|alloc from bytes Hs|alloc from bytes Hs|alloc from bytes op Hz Hw Hop H1 H2|alloc from bytes Hs Hk Hz H1 H2].
  - unfold tftp_event. prog_run. rewrite (at_alive u B port f0 bk0 k s A). cbn [when]. unfold TftpTimeout, getss, setss.
    prog_run. destruct (_ <? _).
    + eexists. split; [reflexivity|]. apply (at_block_same _ _ _ _ _ _ s); [done|by apply A|by exists p|done..].
    + rewrite send_run. eexists. split; [reflexivity|].
      apply (at_block_same _ _ _ _ _ _ s); [done|by apply A|by exists p|done..].
  - apply Hskip. left. split; [done|]. by rewrite (at_port u B port f0 bk0 k s A).
  - apply Hskip. right. left. unfold zlen in *. rewrite length_take. lia.
  - apply Hskip. right. right. rewrite take_short by lia. exists (splice p 0 bytes), op.
    split_and!; [done|done|by rewrite arrived_read, Hop by lia|done|done].
  - rewrite (again_run u B port f0 bk0 k alloc from bytes s p) by done. eexists. split; [reflexivity|].
    apply (at_block_same _ _ _ _ _ _ s); [done|by apply A|by apply arrived_buf; lia|done..].
Qed.

Lemma dead_events es (s : tftp (F := F)) : alive s = false -> tftp_events c co_crc32 BootFile es s = Done (tt, s).
Proof.
  intros Ha. induction es as [|e es IH]; [done|]. cbn [tftp_events].
  rewrite (run_bind _ _ s tt s); [done|]. unfold tftp_event. prog_run. by rewrite Ha.
Qed.

Lemma trace_run u B port f0 bk0 k es (s : tftp (F := F)) :
  good u B -> unprotected f0 -> trace u port k es -> 0 <= k -> at_block u B port f0 bk0 k s ->
  exists s', tftp_events c co_crc32 BootFile es s = Done (tt, s') /\ ended u f0 bk0 s'.
Proof.
  intros G Hu T. revert s. induction T as [k e es Q T IH|k alloc from es Hf Hlt T IH|k alloc from es Hf Hlt]; intros s Hk A.
  - destruct (step_quiet u B port f0 bk0 k e s A Q) as (s1 & E & A1). cbn [tftp_events].
    rewrite (run_bind _ _ _ _ _ E). by apply IH.
  - destruct (step_next u B port f0 bk0 k alloc from s) as (s1 & E & A1 & _); [done..|]. cbn [tftp_events].
    rewrite (run_bind _ _ _ _ _ E). apply IH; [lia|done].
  - destruct (step_last u B port f0 bk0 k alloc from s) as (s1 & E & A1); [done..|]. cbn [tftp_events].
    rewrite (run_bind _ _ _ _ _ E). exists s1. split; [|done]. apply dead_events. apply A1.
Qed.

(** The server's answer to the request: it takes the block size asked for. *)
Definition oack_packet : list Z := be16 TFTP_OACK ++ str_blksize ++ [0] ++ str_1048 ++ [0].

Lemma oack_options (m : list Z) :
  let p := oack_packet ++ m in
  (exists n, strlen (S (length p)) p 2 = Done n) /\ option_scan (S (length p)) p 2 0 13 512 = Done 1048.
Proof. intros p. split; [eexists|]; reflexivity. Qed.

(** The chip after an upgrade. *)
Definition upgraded (f : F) (u : upgrade) (bk0 : Z) (x : Z) : Z :=
  if checksum_ok u && (u_hd u <=? x) && (x <? u_hd u + 4096)
  then (if x <? u_hd u + 32 then nth (Z.to_nat (x - u_hd u)) (img_bytes (boot_header u bk0)) 0 else 255)
  else image_at f (u_os1 u) (image u (count u)) x.

Lemma ended_cells u f0 f bk0 (s : tftp (F := F)) :
  ended u f0 bk0 s -> (forall x, cell f0 x = cell f x) ->
  forall x, cell (flash (store s)) x = upgraded f u bk0 x.
Proof.
  intros (_ & _ & _ & f1 & (_ & _ & H1) & _ & _ & H2) Hf x. rewrite H2. unfold upgraded. cbn [os_hd_addr header].
  destruct (_ && _); [done|]. rewrite H1. unfold image_at. by rewrite Hf.
Qed.
End Transfer.

Lemma flash_config_sizes c : c ∈ flash_config -> flash_size c <= CHIP /\ flash_size c mod SECTOR = 0.
Proof.
  intros Hin. assert (Hall : forallb (fun c => (flash_size c <=? CHIP) && (flash_size c mod SECTOR =? 0)) flash_config = true)
    by reflexivity.
  rewrite forallb_forall in Hall. pose proof (Hall c (proj1 (list_elem_of_In _ _) Hin)). by zbool.
Qed.

Section Start.
Context {c : flash_config_t} {F : Type} `{Nor c F}.
Context (co_crc32 : list Z -> Z -> Z) (BootFile : list Z).

Lemma none_unprotected (f : F) : row_ok c = true -> unprotected (set_flash_protect c f FLASH_PROTECT_NONE).
Proof.
  intros Hok. unfold unprotected. rewrite (proj1 (set_flash_protect_sr f FLASH_PROTECT_NONE Hok)).
  change (protect_none c) with (setting c FLASH_PROTECT_NONE). by apply protected_sr_value.
Qed.

(** The client once the thread reaches its loop. *)
Record started (f : F) (bk0 : Z) (s : tftp (F := F)) : Prop := {
  st_alive : alive s = true;
  st_buf : exists p, tftp_buf s = Live p /\ zlen p = TFTP_LEN;
  st_state : TftpState (sess s) = STATE_RRQ;
  st_size : TftpBlkSize (sess s) = TFTP_BLOCK_SIZE;
  st_timeouts : TftpTimeoutCount (sess s) = 0;
  st_flash : flash (store s) = f;
  st_bk : bk (img_hd (store s)) = bk0
}.

Lemma start_run (s0 : tftp (F := F)) mem ip tick :
  zlen mem = TFTP_LEN ->
  exists s1, tftp_server_start c (Some mem) true ip tick s0 = Done (tt, s1) /\
    started (set_flash_protect c (flash (store s0)) FLASH_PROTECT_NONE) (bk (img_hd (store s0))) s1.
Proof.
  intros Hm. unfold tftp_server_start, protect, TftpStart, setss. prog_run. eexists. split; [reflexivity|].
  split; try reflexivity. by exists mem.
Qed.

Lemma oack_run u f bk0 (s : tftp (F := F)) alloc from :
  good (c := c) u 1024 -> started f bk0 s ->
  exists s1, tftp_event c co_crc32 BootFile (Recv alloc (Some (from, oack_packet))) s = Done (tt, s1) /\
    at_block co_crc32 u 1024 (snd from) f bk0 0 s1.
Proof.
  intros G [Ha (p & Hb & Hp) Hs Hz _ Hf Hk].
  rewrite (receive_run _ _ _ _ _ s p) by done. rewrite take_short by (vm_compute; discriminate).
  rewrite (handler_run _ _ _ _ _ _ TFTP_OACK); [|done|by vm_compute|done|done|by left].
  change (TFTP_OACK =? TFTP_OACK) with true. change (zlen oack_packet) with 15. cbn beta iota.
  unfold handle_oack, setss, getss. change (splice p 0 oack_packet) with (oack_packet ++ drop 15 p).
  destruct (oack_options (drop 15 p)) as [[n E1] E2]. rewrite E1.
  prog_run. cbn [sess arrived set_addr set_buf on_sess TftpBlkSize set_state set_port].
  change (15 - 2) with 13. rewrite Hz. change TFTP_BLOCK_SIZE with 512. rewrite E2. prog_run. rewrite send_run.
  eexists. split; [reflexivity|]. split; try done.
  - apply (arrived_buf p oack_packet); [done|]. vm_compute; discriminate.
  - cbn. rewrite Hf. apply holds_nil. by apply (g_os1 u 1024 G).
Qed.

(** C3: An update through a well-behaved server: for every chip of the
    table, any blocks of 1024 payload bytes with a shorter last one, and any
    mixture of the blocks in order, repetitions of the last one, timer ticks
    and datagrams from elsewhere, the client ends, has acknowledged the last
    block, and the chip holds exactly the image in sectors erased before,
    the boot loader's header in its own sector when the checksum of the
    blocks agrees with the trailer, and its old bytes everywhere else. *)
Theorem tftp_image_stored u (s0 : tftp (F := F)) mem ip tick alloc from es :
  c ∈ flash_config -> good (c := c) u 1024 -> zlen mem = TFTP_LEN -> trace u (snd from) 0 es ->
  exists s' peer, (_ ← tftp_server_start c (Some mem) true ip tick;
              _ ← tftp_event c co_crc32 BootFile (Recv alloc (Some (from, oack_packet)));
              tftp_events c co_crc32 BootFile es) s0 = Done (tt, s') /\
    alive s' = false /\ last (sent s') = Some (peer, ack_packet (count u)) /\
    forall x, cell (flash (store s')) x = upgraded co_crc32 (flash (store s0)) u (bk (img_hd (store s0))) x.
Proof.
  intros Hin G Hm T. destruct (flash_config_sizes c Hin) as [Hchip Hsize]. pose proof (flash_config_ok c Hin) as Hok.
  destruct (start_run s0 mem ip tick Hm) as (s1 & E1 & S1).
  destruct (oack_run u _ _ s1 alloc from G S1) as (s2 & E2 & A).
  destruct (trace_run Hchip Hsize co_crc32 BootFile _ _ _ _ _ _ es s2 G (none_unprotected (flash (store s0)) Hok) T
    (Z.le_refl 0) A) as (s' & E & D).
  pose proof D as (D1 & _ & [peer D3] & _). exists s', peer. split_and!; [|done|done|].
  - rewrite (run_bind _ _ _ _ _ E1). by rewrite (run_bind _ _ _ _ _ E2).
  - apply (ended_cells co_crc32 u _ (flash (store s0)) _ s' D). apply (set_flash_protect_sr _ _ Hok).
Qed.
End Start.

(* ------------------------------------------------------------------ *)
(** ** Blocks the code is not made for *)

Section Overrun.
Context {c : flash_config_t} {F : Type} `{Nor c F}.
Context (co_crc32 : list Z -> Z -> Z).

(** Where a block goes. *)
Definition target (o : ota (F := F)) (block : Z) (p : list Z) : Z :=
  if block =? 0 then os1_flash_addr (hd_of (slice p 4 24)) else os_data_addr o.

(** C38: A block that goes to the area the code accepts but carries fewer
    than 24 bytes (an image whose length is a multiple of the block size ends
    with an empty one), or more than 1048, leaves its buffers: the payload
    length wraps, or exceeds the 1024 bytes it is read back into. *)
Theorem tftp_block_overruns (o : ota (F := F)) block p len :
  c ∈ flash_config -> unprotected (flash o) -> zlen p = TFTP_LEN ->
  0 <= len < 24 \/ 1048 < len <= 1596 ->
  0x27000 <= target o block p < 0x200000 -> target o block p + len <= flash_size c ->
  store_block c co_crc32 true o block p 4 len = Wild.
Proof.
  intros Hin Hu Hp Hl Ha Hs. destruct (flash_config_sizes c Hin) as [Hchip Hsize]. unfold TFTP_LEN, CHIP in *.
  unfold store_block, TFTP_PKT_HD_LEN. rewrite (mem_read_in p 4 24) by lia. cbn [mbind outcome_bind].
  cbv zeta. unfold target in *. set (h := hd_of (slice p 4 24)) in *.
  set (a := if block =? 0 then os1_flash_addr h else os_data_addr o) in *.
  assert (E : exists crc0, (if negb (block =? 0) then (os_data_addr o, tftp_crc o) else (os1_flash_addr h, 0)) = (a, crc0))
    by (unfold a; destruct (block =? 0); eauto).
  destruct E as [crc0 ->]. cbn beta iota zeta.
  rewrite (proj2 (Z.leb_gt 0x200000 a)), (proj2 (Z.ltb_ge a 0x27000)), (proj2 (Z.ltb_lt a 0x400000)) by lia. cbn [orb].
  set (f := if a mod 0x1000 =? 0 then flash_erase_sector c (flash o) a else flash o).
  assert (Hw : exists f', flash_write_data c f (drop (Z.to_nat (4 + 24)) p) a (u32 (len - 24)) = Done f').
  { destruct Hl as [Hl|Hl].
    - exists f. unfold flash_write_data. replace (u32 (len - 24)) with (2 ^ 32 + len - 24)
        by (unfold u32; Z.to_euclidean_division_equations; lia).
      rewrite (proj2 (Z.ltb_lt (flash_size c) (2 ^ 32 + len - 24))) by lia. by rewrite orb_true_r.
    - rewrite u32_small by lia. destruct (write_prefix f (drop (Z.to_nat (4 + 24)) p) a (len - 24)) as (f' & E & _);
        [|done|lia|lia|unfold zlen in *; rewrite length_drop; lia|lia|lia|by exists f'].
      unfold f. destruct (a mod 0x1000 =? 0); [|exact Hu]. unfold flash_erase_sector.
      destruct (flash_size c <=? _); [exact Hu|]. by apply unprotected_erase. }
  destruct Hw as [f' ->]. cbn [mbind outcome_bind]. unfold read_back.
  replace (1024 <? u32 (len - 24)) with true; [done|]. symmetry. apply Z.ltb_lt. destruct Hl as [Hl|Hl].
  - replace (u32 (len - 24)) with (2 ^ 32 + len - 24) by (unfold u32; Z.to_euclidean_division_equations; lia). lia.
  - rewrite u32_small by lia. lia.
Qed.

(** A thread that got no socket frees the buffer and keeps the pointer: the
    next start frees it again. *)
Theorem tftp_restart_frees_twice (BootFile : list Z) (s : tftp (F := F)) mem ip tick created mem' sock' :
  (_ ← tftp_server_start c (Some mem) false ip tick; tftp_start c created mem' sock' ip tick) s = Wild.
Proof. reflexivity. Qed.
End Overrun.

(* ------------------------------------------------------------------ *)
(** ** Witnesses *)

(** A checksum to run with: the sum of the bytes. *)
Definition sum_crc (bs : list Z) (crc0 : Z) : Z := u32 (foldl Z.add crc0 bs).

Definition demo_upgrade : upgrade :=
  mk_upgrade 8 0x10000 0x27000 0x11000 0x8C000 [[1; 2; 3; 4] ++ le32 352].

Definition zero_hd : SEND_PTK_HD := mk_hd 0 0 0 0 0 0 0.
Definition demo_client : tftp (F := chip) :=
  mk_tftp (mk_session 0 0 0 0 0 0 0 0 0) (0, 0) Null false []
    (mk_ota zero_hd zero_hd OS1_FLASH_ADDR 0 (mk_img 0 0 0 0 0 0 0 0) fresh).

Lemma tftp_image_stored_witness :
  exists s' peer, (_ ← tftp_server_start gd_25q16c (Some (replicate 1600 0)) true 7 0;
              _ ← tftp_event gd_25q16c sum_crc [102] (Recv true (Some ((7, 5000), oack_packet)));
              tftp_events gd_25q16c sum_crc [102]
                [Tick; Recv true (Some ((9, 80), [1; 2; 3])); Recv true (Some ((7, 5000), data_packet demo_upgrade 1))])
    demo_client = Done (tt, s') /\
    alive s' = false /\ last (sent s') = Some (peer, ack_packet (count demo_upgrade)) /\
    forall x, cell (c := gd_25q16c) (flash (store s')) x = upgraded (c := gd_25q16c) sum_crc fresh demo_upgrade 0 x.
Proof.
  apply (tftp_image_stored (c := gd_25q16c) sum_crc [102] demo_upgrade demo_client (replicate 1600 0) 7 0 true (7, 5000)).
  - vm_compute. repeat (first [apply list_elem_of_here | apply list_elem_of_further]).
  - split; try (vm_compute; first [reflexivity | discriminate | intuition discriminate]).
    + intros k Hk. change (count demo_upgrade) with 1 in Hk. lia.
    + repeat constructor; vm_compute; intuition discriminate.
  - reflexivity.
  - apply trace_quiet; [constructor|]. apply trace_quiet; [by constructor|]. by apply (trace_last demo_upgrade 5000 0).
Defined.

Lemma tftp_block_overruns_witness :
  store_block gd_25q16c sum_crc true (mk_ota zero_hd zero_hd 0x8D000 0 (mk_img 0 0 0 0 0 0 0 0) fresh) 4
    (replicate 1600 0) 4 0 = Wild.
Proof.
  apply (tftp_block_overruns (c := gd_25q16c) sum_crc).
  - vm_compute. repeat (first [apply list_elem_of_here | apply list_elem_of_further]).
  - reflexivity.
  - reflexivity.
  - left. lia.
  - vm_compute. intuition discriminate.
  - vm_compute. discriminate.
Defined.
