(* ===== verification/CmdLine.v ===== *)
(** The command interpreter of the debug port:
    beken378/func/uart_debug/command_line.c with the table of command_table.c,
    of a build with [CFG_UART_DEBUG].

    A line is cut at its separators, each command has its macros and escapes
    processed, is split into arguments in place and looked up by name or by an
    abbreviation.  The buffers are the two of [run_command], with bounds;
    what the commands do is an argument of the model. *)

From S2P Require Import Prelude.

Definition CONFIG_SYS_CBSIZE : Z := 128.
Definition CONFIG_SYS_MAXARGS : nat := 8.

Definition CMD_RET_SUCCESS : Z := 0.
Definition CMD_RET_FAILURE : Z := 1.
Definition CMD_RET_USAGE : Z := -1.

(** The characters the code names. *)
Definition ch_blank : Z := 32.
Definition ch_tab : Z := 9.
Definition ch_quote : Z := 39.
Definition ch_backslash : Z := 92.
Definition ch_semicolon : Z := 59.
Definition ch_dollar : Z := 36.
Definition ch_dot : Z := 46.

Definition isblank (ch : Z) : bool := (ch =? ch_blank) || (ch =? ch_tab).

(** The C string at [p], and the length [strlen] finds. *)
Fixpoint cstr (fuel : nat) (buf : list Z) (p : Z) : outcome (list Z) :=
  match fuel with
  | O => Wild
  | S fuel' => b ← aget buf p; if b =? 0 then Done [] else s ← cstr fuel' buf (p + 1); Done (b :: s)
  end.

Definition string_at (buf : list Z) (p : Z) : outcome (list Z) := cstr (S (length buf)) buf p.

(** [strncmp(a, b, n) == 0] on C strings without their NUL. *)
Fixpoint strncmp_eq (a b : list Z) (n : nat) : bool :=
  match n with
  | O => true
  | S n' =>
      match a, b with
      | [], [] => true
      | x :: a', y :: b' => (x =? y) && strncmp_eq a' b' n'
      | _, _ => false
      end
  end.

(** [strchr(s, c) - s], or the length. *)
Fixpoint strchr_or_end (s : list Z) (ch : Z) : nat :=
  match s with
  | [] => O
  | x :: s' => if x =? ch then O else S (strchr_or_end s' ch)
  end.

Section Code.
(** What the commands act on. *)
Context {W : Type}.

(** [name] and [help] may be null. *)
Record cmd_tbl_t := mk_cmd {
  name : option (list Z);
  maxargs : Z;
  repeatable : Z;
  cmd : W -> list (list Z) -> Z * W;
  help : bool
}.

(** The walk over the table: the abbreviations seen so far are [n_found],
    the last of them [temp]. *)
Fixpoint find_loop (key : list Z) (len : nat) (table : list cmd_tbl_t) (temp : option cmd_tbl_t) (n_found : Z)
    : outcome (option cmd_tbl_t) :=
  match table with
  | [] => Done (if n_found =? 1 then temp else None)
  | c :: table' =>
      let eq := match name c with
                | Some nm => Done (strncmp_eq key nm len)
                | None => if (len =? 0)%nat then Done true else Wild
                end in
      eq ← eq;
      if eq : bool then
        nm ← deref (name c);
        if (len =? length nm)%nat then Done (Some c) else find_loop key len table' (Some c) (n_found + 1)
      else find_loop key len table' temp n_found
  end.

(** A null [key] finds nothing. *)
Definition cmd_find_tbl (key : option (list Z)) (table : list cmd_tbl_t) : outcome (option cmd_tbl_t) :=
  match key with
  | None => Done None
  | Some key => find_loop key (strchr_or_end key ch_dot) table (head table) 0
  end.

(** [CONFIG_SYS_LONGHELP] is defined. *)
Definition cmd_usage (c : cmd_tbl_t) : Z := if help c then 0 else 1.

Definition cmd_process (table : list cmd_tbl_t) (argv : list (list Z)) (rep : Z) (w : W) : outcome (Z * Z * W) :=
  found ← cmd_find_tbl (head argv) table;
  match found with
  | None => Done (CMD_RET_FAILURE, rep, w)
  | Some c =>
      let rc := if maxargs c <? zlen argv then CMD_RET_USAGE else CMD_RET_SUCCESS in
      let '(rc, rep, w) :=
        (if rc =? 0 then let '(r, w) := cmd c w argv in (r, Z.land rep (repeatable c), w) else (rc, rep, w)) in
      Done (if rc =? CMD_RET_USAGE then cmd_usage c else rc, rep, w)
  end.

(* ------------------------------------------------------------------ *)
(** ** Arguments *)

Fixpoint skip_while (fuel : nat) (test : Z -> bool) (line : list Z) (p : Z) : outcome Z :=
  match fuel with
  | O => Wild
  | S fuel' => b ← aget line p; if test b then skip_while fuel' test line (p + 1) else Done p
  end.

Definition in_word (b : Z) : bool := negb (b =? 0) && negb (isblank b).

(** [n] more arguments fit; the offsets found and the line with its NULs. *)
Fixpoint parse_args (n : nat) (line : list Z) (p : Z) (argv : list Z) : outcome (list Z * list Z) :=
  match n with
  | O => Done (argv, line)
  | S n' =>
      p ← skip_while (S (length line)) isblank line p;
      b ← aget line p;
      if b =? 0 then Done (argv, line) else
      let argv := argv ++ [p] in
      q ← skip_while (S (length line)) in_word line p;
      b ← aget line q;
      if b =? 0 then Done (argv, line) else
      line ← aset line q 0;
      parse_args n' line (q + 1) argv
  end.

Definition cmd_parse_line (line : list Z) (p : Z) : outcome (list Z * list Z) :=
  parse_args CONFIG_SYS_MAXARGS line p [].

(* ------------------------------------------------------------------ *)
(** ** Macros and escapes *)

Definition full (output : list Z) : bool := CONFIG_SYS_CBSIZE <=? zlen output.

(** The [switch]: the new state and output.  A closed macro has no value. *)
Definition macro_step (state prev ch : Z) (output : list Z) : Z * list Z :=
  if state =? 0 then
    if (ch =? ch_quote) && negb (prev =? ch_backslash) then (3, output)
    else if (ch =? ch_dollar) && negb (prev =? ch_backslash) then (1, output)
    else (0, output ++ [ch])
  else if state =? 1 then
    if (ch =? 40) || (ch =? 123) then (2, output)
    else let output := output ++ [ch_dollar] in (0, if full output then output else output ++ [ch])
  else if state =? 2 then (if (ch =? 41) || (ch =? 125) then 0 else 2, output)
  else if (ch =? ch_quote) && negb (prev =? ch_backslash) then (0, output)
  else (3, output ++ [ch]).

Fixpoint macro_loop (input : list Z) (state prev : Z) (output : list Z) : list Z :=
  if full output then output else
  match input with
  | [] => output
  | ch :: rest =>
      if negb (state =? 3) && (ch =? ch_backslash) && negb (prev =? ch_backslash) then
        match rest with
        | [] => output
        | ch' :: rest' => let '(state, output) := macro_step state ch ch' output in macro_loop rest' state ch' output
        end
      else let '(state, output) := macro_step state prev ch output in macro_loop rest state ch output
  end.

(** Into the buffer [output], whose string it becomes. *)
Definition cmd_process_macros (input output : list Z) : outcome (list Z) :=
  let s := macro_loop input 0 0 [] in
  mem_write output 0 (if full s then take 127 s ++ [0] else s ++ [0]).

(* ------------------------------------------------------------------ *)
(** ** Lines *)

(** The separator search from [sep] in the command that starts at [str]. *)
Fixpoint find_sep (fuel : nat) (buf : list Z) (str sep : Z) (inquotes : bool) : outcome Z :=
  match fuel with
  | O => Wild
  | S fuel' =>
      b ← aget buf sep;
      if b =? 0 then Done sep else
      inquotes ← (if b =? ch_quote then p ← aget buf (sep - 1); Done (if p =? ch_backslash then inquotes else negb inquotes)
                  else Done inquotes);
      stop ← (if negb inquotes && (b =? ch_semicolon) && negb (sep =? str)
              then p ← aget buf (sep - 1); Done (negb (p =? ch_backslash)) else Done false);
      if stop : bool then Done sep else find_sep fuel' buf str (sep + 1) inquotes
  end.

Fixpoint strings_at (buf : list Z) (ps : list Z) : outcome (list (list Z)) :=
  match ps with
  | [] => Done []
  | p :: ps' => s ← string_at buf p; ss ← strings_at buf ps'; Done (s :: ss)
  end.

(** The loop over the commands of a line: [final] is [finaltoken]. *)
Fixpoint command_loop (fuel : nat) (table : list cmd_tbl_t) (buf : list Z) (str : Z) (final : list Z)
    (rc rep : Z) (w : W) : outcome (Z * W) :=
  b ← aget buf str;
  if b =? 0 then Done (if rc =? 0 then rep else rc, w) else
  match fuel with
  | O => Spin
  | S fuel' =>
      sep ← find_sep (S (length buf)) buf str str false;
      b ← aget buf sep;
      '(next, buf) ← (if negb (b =? 0) then buf ← aset buf sep 0; Done (sep + 1, buf) else Done (sep, buf));
      token ← string_at buf str;
      final ← cmd_process_macros token final;
      '(argv, final) ← cmd_parse_line final 0;
      match argv with
      | [] => command_loop fuel' table buf next final (-1) rep w
      | _ =>
          args ← strings_at final argv;
          '(r, rep, w) ← cmd_process table args rep w;
          command_loop fuel' table buf next final (if r =? 0 then rc else -1) rep w
      end
  end.

(** [cmdbuf] and [finaltoken] are what the stack holds. *)
Definition run_command (table : list cmd_tbl_t) (cmdbuf finaltoken : list Z) (command : list Z) (w : W)
    : outcome (Z * W) :=
  match command with
  | [] => Done (-1, w)
  | _ =>
      if CONFIG_SYS_CBSIZE <=? zlen command then Done (-1, w) else
      buf ← mem_write cmdbuf 0 (command ++ [0]);
      command_loop (length command) table buf 0 finaltoken 0 1 w
  end.
End Code.

Arguments cmd_tbl_t : clear implicits.

(* ------------------------------------------------------------------ *)
(** ** Buffers *)

Lemma aget_app_r {A} (pre l : list A) p i : p = zlen pre + i -> 0 <= i -> aget (pre ++ l) p = aget l i.
Proof.
  intros -> Hi. unfold aget, zlen. rewrite !(proj2 (Z.leb_le 0 _)) by lia. f_equal.
  rewrite lookup_app_r by lia. f_equal. lia.
Qed.

Lemma aget_at {A} (pre : list A) x l : aget (pre ++ x :: l) (zlen pre) = Done x.
Proof. by rewrite (aget_app_r _ _ _ 0) by lia. Qed.

Lemma aset_at {A} (pre : list A) x y l : aset (pre ++ x :: l) (zlen pre) y = Done (pre ++ y :: l).
Proof.
  rewrite aset_in by (unfold zlen; rewrite length_app; cbn; lia). f_equal. unfold zlen. rewrite Nat2Z.id.
  rewrite insert_app_r_alt by lia. by rewrite Nat.sub_diag.
Qed.

(** Moving past an element. *)
Lemma app_step {A} (pre : list A) x l : pre ++ x :: l = (pre ++ [x]) ++ l.
Proof. by rewrite <- app_assoc. Qed.

Definition no_nul (s : list Z) : Prop := Forall (fun b => b <> 0) s.

Lemma cstr_run s : forall fuel pre post,
  no_nul s -> (length s < fuel)%nat -> cstr fuel (pre ++ s ++ 0 :: post) (zlen pre) = Done s.
Proof.
  induction s as [|b s IH]; intros [|fuel] pre post Hs Hf; cbn in Hf; try lia; cbn [cstr app].
  - by rewrite aget_at.
  - inversion_clear Hs as [|? ? Hb Hs']. rewrite aget_at. cbn [mbind outcome_bind].
    rewrite (proj2 (Z.eqb_neq b 0)) by done. rewrite app_step, <- zlen_snoc with (x := b).
    rewrite IH by (done || lia). done.
Qed.

Lemma string_at_run pre s post : no_nul s -> string_at (pre ++ s ++ 0 :: post) (zlen pre) = Done s.
Proof. intros Hs. apply cstr_run; [done|]. rewrite !length_app. cbn. lia. Qed.

Lemma skip_run (test : Z -> bool) s : forall fuel pre post x,
  Forall (fun b => test b = true) s -> test x = false -> (length s < fuel)%nat ->
  skip_while fuel test (pre ++ s ++ x :: post) (zlen pre) = Done (zlen (pre ++ s)).
Proof.
  induction s as [|b s IH]; intros [|fuel] pre post x Hs Hx Hf; cbn in Hf; try lia; cbn [skip_while app].
  - rewrite aget_at. cbn [mbind outcome_bind]. by rewrite Hx, app_nil_r.
  - inversion_clear Hs as [|? ? Hb Hs']. rewrite aget_at. cbn [mbind outcome_bind]. rewrite Hb.
    rewrite (app_step pre b), <- (zlen_snoc b pre), IH by (done || lia). by rewrite <- (app_step pre b s).
Qed.

(* ------------------------------------------------------------------ *)
(** ** Looking a command up *)

Lemma strncmp_prefix a : forall b n, (n <= length a)%nat -> strncmp_eq a b n = bool_decide (take n a `prefix_of` b).
Proof.
  induction a as [|x a IH]; intros b [|n] Hn; cbn in *; try lia.
  - symmetry. apply bool_decide_eq_true. apply prefix_nil.
  - symmetry. apply bool_decide_eq_true. apply prefix_nil.
  - destruct b as [|y b].
    + symmetry. apply bool_decide_eq_false. intros Hp. by apply prefix_nil_not in Hp.
    + rewrite IH by lia. destruct (Z.eqb_spec x y) as [->|Hne]; cbn [andb].
      * apply bool_decide_ext. split; [apply prefix_cons|apply prefix_cons_inv_2].
      * symmetry. apply bool_decide_eq_false. intros Hp. by apply prefix_cons_inv_1 in Hp.
Qed.

Lemma strchr_le s ch : (strchr_or_end s ch <= length s)%nat.
Proof. induction s as [|x s IH]; cbn; [lia|]. destruct (_ =? _); lia. Qed.

Section Find.
Context {W : Type}.
Implicit Types (table : list (cmd_tbl_t W)).

(** A command's name ends at a dot, behind which stands a modifier. *)
Fixpoint before_dot (key : list Z) : list Z :=
  match key with
  | [] => []
  | b :: key' => if b =? ch_dot then [] else b :: before_dot key'
  end.

Lemma take_before_dot key : take (strchr_or_end key ch_dot) key = before_dot key.
Proof. induction key as [|b key IH]; [done|]. cbn. destruct (_ =? _); [done|]. cbn. by rewrite IH. Qed.

(** The entries of a table without its terminator. *)
Definition abbreviates (key : list Z) (c : cmd_tbl_t W) : bool :=
  match name c with Some nm => bool_decide (key `prefix_of` nm) | None => false end.
Definition is_named (key : list Z) (c : cmd_tbl_t W) : bool := bool_decide (name c = Some key).

(** The command a key means: the first of that name, else the only one it
    abbreviates. *)
Definition meant (key : list Z) (table : list (cmd_tbl_t W)) : option (cmd_tbl_t W) :=
  match List.filter (is_named key) table with
  | c :: _ => Some c
  | [] => match List.filter (abbreviates key) table with [c] => Some c | _ => None end
  end.

Definition named_all table : Prop := Forall (fun c => name c <> None) table.

Lemma find_loop_run key n table : forall temp found,
  named_all table -> (n <= length key)%nat -> 0 <= found ->
  find_loop key n table temp found = Done
    (match List.filter (is_named (take n key)) table with
     | c :: _ => Some c
     | [] => match List.filter (abbreviates (take n key)) table with
             | [] => if found =? 1 then temp else None
             | [c] => if found =? 0 then Some c else None
             | _ => None
             end
     end).
Proof.
  induction table as [|c table IH]; intros temp found Ha Hn Hf; [done|].
  inversion_clear Ha as [|? ? Hc Ht]. cbn [find_loop List.filter].
  assert (E : exists nm, name c = Some nm) by (destruct (name c); [eauto|done]). destruct E as [nm En].
  assert (E1 : is_named (take n key) c = bool_decide (nm = take n key)).
  { unfold is_named. rewrite En. apply bool_decide_ext. split; congruence. }
  assert (E2 : abbreviates (take n key) c = bool_decide (take n key `prefix_of` nm)) by (unfold abbreviates; by rewrite En).
  rewrite En, E1, E2, strncmp_prefix by done. cbn [mbind outcome_bind deref]. destruct (bool_decide (_ `prefix_of` _)) eqn:Hp.
  - apply bool_decide_eq_true in Hp. destruct (Nat.eqb_spec n (length nm)) as [El|El].
    + rewrite bool_decide_eq_true_2; [done|]. symmetry. apply prefix_length_eq; [done|]. rewrite length_take. lia.
    + rewrite bool_decide_eq_false_2 by (intros ->; apply El; rewrite length_take; lia).
      rewrite IH by (done || lia). destruct (List.filter (is_named _) table); [|done].
      rewrite (proj2 (Z.eqb_neq (found + 1) 0)) by lia.
      destruct (List.filter (abbreviates _) table) as [|c2 [|c3 r]]; [|done..].
      by destruct (Z.eqb_spec (found + 1) 1), (Z.eqb_spec found 0); try lia.
  - apply bool_decide_eq_false in Hp. rewrite bool_decide_eq_false_2 by (intros ->; by apply Hp). by apply IH.
Qed.

Lemma find_tbl_run key table :
  named_all table -> cmd_find_tbl (Some key) table = Done (meant (before_dot key) table).
Proof.
  intros Ha. unfold cmd_find_tbl, meant. rewrite find_loop_run by (done || lia || apply strchr_le).
  rewrite take_before_dot. destruct (List.filter (is_named _) table); [|done].
  by destruct (List.filter (abbreviates _) table) as [|? [|? ?]].
Qed.

(** The loop up to the entry that ends the firmware's table, whose name is
    null: only a full match comes before it. *)
Lemma find_loop_null key n table last : forall temp found,
  named_all table -> (n <= length key)%nat -> name last = None ->
  find_loop key n (table ++ [last]) temp found =
    match List.filter (is_named (take n key)) table with c :: _ => Done (Some c) | [] => Wild end.
Proof.
  induction table as [|c table IH]; intros temp found Ha Hn Hl; cbn [app find_loop List.filter].
  - rewrite Hl. by destruct (n =? 0)%nat.
  - inversion_clear Ha as [|? ? Hc Ht].
    assert (E : exists nm, name c = Some nm) by (destruct (name c); [eauto|done]). destruct E as [nm En].
    assert (E1 : is_named (take n key) c = bool_decide (nm = take n key)).
    { unfold is_named. rewrite En. apply bool_decide_ext. split; congruence. }
    rewrite En, E1, strncmp_prefix by lia. cbn [mbind outcome_bind deref]. destruct (bool_decide (_ `prefix_of` _)) eqn:Hp.
    + apply bool_decide_eq_true in Hp. destruct (Nat.eqb_spec n (length nm)) as [El|El].
      * rewrite bool_decide_eq_true_2; [done|]. symmetry. apply prefix_length_eq; [done|]. rewrite length_take. lia.
      * rewrite bool_decide_eq_false_2 by (intros ->; apply El; rewrite length_take; lia). by apply IH.
    + apply bool_decide_eq_false in Hp. rewrite bool_decide_eq_false_2 by (intros ->; by apply Hp). by apply IH.
Qed.

Lemma find_tbl_null key table last :
  named_all table -> name last = None ->
  cmd_find_tbl (Some key) (table ++ [last]) =
    match List.filter (is_named (before_dot key)) table with c :: _ => Done (Some c) | [] => Wild end.
Proof.
  intros Ha Hl. unfold cmd_find_tbl. rewrite find_loop_null by (done || apply strchr_le). by rewrite take_before_dot.
Qed.

(** C36: Looking up a command in a table of named entries takes the key up to
    its first dot (what follows is a modifier) and gives the first entry of
    exactly that name, else the only entry whose name starts with it, else
    none; in the firmware's own table, which ends with an entry without a name
    that is counted too, it gives the entry of that name, and every other
    command - a mistyped one or an abbreviation - reads a name through the
    null pointer. *)
Theorem cmd_find_tbl_exact key table last :
  named_all table -> name last = None ->
  cmd_find_tbl (Some key) table = Done (meant (before_dot key) table) /\
  cmd_find_tbl (Some key) (table ++ [last]) =
    match List.filter (is_named (before_dot key)) table with c :: _ => Done (Some c) | [] => Wild end.
Proof.
  intros Ha Hl. split; [by apply find_tbl_run|]. by apply find_tbl_null.
Qed.
End Find.

(* ------------------------------------------------------------------ *)
(** ** Arguments *)

(** The words of a text: its longest pieces without blanks. *)
Fixpoint words_from (s acc : list Z) : list (list Z) :=
  match s with
  | [] => match acc with [] => [] | _ => [acc] end
  | b :: s' =>
      if isblank b then match acc with [] => words_from s' [] | _ => acc :: words_from s' [] end
      else words_from s' (acc ++ [b])
  end.
Definition words_of (s : list Z) : list (list Z) := words_from s [].

Definition blanks (s : list Z) : Prop := Forall (fun b => isblank b = true) s.
Definition solid (s : list Z) : Prop := Forall (fun b => isblank b = false) s.

Lemma words_blanks bl s : blanks bl -> words_of (bl ++ s) = words_of s.
Proof. unfold words_of. induction 1 as [|b bl Hb _ IH]; [done|]. cbn. by rewrite Hb. Qed.

Lemma words_solid w s acc : solid w -> words_from (w ++ s) acc = words_from s (acc ++ w).
Proof.
  intros Hw. revert acc. induction Hw as [|b w Hb _ IH]; intros acc; [by rewrite app_nil_r|].
  cbn. rewrite Hb, IH, <- app_assoc. done.
Qed.

Lemma words_last w : w <> [] -> solid w -> words_of w = [w].
Proof.
  intros Hn Hw. unfold words_of. rewrite <- (app_nil_r w) at 1. rewrite words_solid by done. by destruct w.
Qed.

Lemma words_cons w b s : w <> [] -> solid w -> isblank b = true -> words_of (w ++ b :: s) = w :: words_of s.
Proof. intros Hn Hw Hb. unfold words_of. rewrite words_solid by done. cbn. rewrite Hb. by destruct w. Qed.

(** A text is blank, or blanks and a word, the last or before a blank. *)
Lemma text_cases s :
  blanks s \/ exists bl w, blanks bl /\ w <> [] /\ solid w /\
    (s = bl ++ w \/ exists b t, isblank b = true /\ s = bl ++ w ++ b :: t).
Proof.
  induction s as [|b s IH]; [by left; constructor|]. destruct (isblank b) eqn:Eb.
  - destruct IH as [IH|(bl & w & Hbl & Hn & Hw & IH)]; [left; by constructor|]. right. exists (b :: bl), w.
    split_and!; [by constructor|done|done|]. destruct IH as [->|(b' & t & Hb' & ->)]; [by left|right].
    by exists b', t.
  - right. destruct s as [|b2 s].
    + exists [], [b]. split_and!; [constructor|done|by repeat constructor|by left].
    + destruct (isblank b2) eqn:Eb2.
      * exists [], [b]. split_and!; [constructor|done|by repeat constructor|]. right. by exists b2, s.
      * destruct IH as [IH|(bl & w & Hbl & Hn & Hw & IH)]; [inversion IH; congruence|].
        assert (bl = []) as ->.
        { destruct bl as [|x bl]; [done|]. inversion_clear Hbl as [|? ? Hx _].
          destruct IH as [E|(? & ? & _ & E)]; injection E as -> _; congruence. }
        exists [], (b :: w). split_and!; [constructor|done|by constructor|].
        destruct IH as [E|(b' & t & Hb' & E)]; [left; cbn in *; by rewrite E|right].
        exists b', t. split; [done|]. cbn in *. by rewrite E.
Qed.

Lemma in_word_solid w : no_nul w -> solid w -> Forall (fun b => in_word b = true) w.
Proof.
  intros Hn Hs. apply Forall_forall. intros b Hb. unfold no_nul, solid in *.
  rewrite Forall_forall in Hn, Hs. unfold in_word.
  rewrite (Hs b Hb), (proj2 (Z.eqb_neq b 0)); [done|by apply Hn].
Qed.

(** To the first letter of the next word, and to its end. *)
Lemma skip_blanks bl w pre rest :
  blanks bl -> w <> [] -> solid w ->
  skip_while (S (length (pre ++ bl ++ w ++ rest))) isblank (pre ++ bl ++ w ++ rest) (zlen pre) = Done (zlen (pre ++ bl)).
Proof.
  intros Hbl Hn Hw. destruct w as [|b w]; [done|]. inversion_clear Hw as [|? ? Hb _]. cbn [app].
  apply skip_run; [done|done|]. rewrite !length_app. cbn. lia.
Qed.

Lemma word_starts w pre rest : w <> [] -> no_nul w -> exists b, aget (pre ++ w ++ rest) (zlen pre) = Done b /\ b <> 0.
Proof. intros Hn Hw. destruct w as [|b w]; [done|]. inversion_clear Hw. exists b. split; [apply aget_at|done]. Qed.

Lemma skip_word w x pre rest :
  no_nul w -> solid w -> in_word x = false ->
  skip_while (S (length (pre ++ w ++ x :: rest))) in_word (pre ++ w ++ x :: rest) (zlen pre) = Done (zlen (pre ++ w)).
Proof. intros Hn Hw Hx. apply skip_run; [by apply in_word_solid|done|]. rewrite !length_app. cbn. lia. Qed.

(** The loop on the rest [s] of the line: the arguments are the words, and
    what stands before [s] stays. *)
Lemma parse_run n : forall pre s post argv,
  no_nul s ->
  exists offs mid, parse_args n (pre ++ s ++ 0 :: post) (zlen pre) argv = Done (argv ++ offs, pre ++ mid) /\
    length mid = length (s ++ 0 :: post) /\
    strings_at (pre ++ mid) offs = Done (take n (words_of s)) /\ length offs = length (take n (words_of s)).
Proof.
  induction n as [|n IH]; intros pre s post argv Hs; cbn [parse_args].
  { exists [], (s ++ 0 :: post). by rewrite app_nil_r. }
  destruct (text_cases s) as [Hb|(bl & w & Hbl & Hn & Hw & Hcase)].
  { rewrite skip_run; [|done|done|rewrite !length_app; cbn; lia]. cbn [mbind outcome_bind].
    rewrite (app_assoc pre s), aget_at. cbn [mbind outcome_bind Z.eqb]. rewrite <- app_assoc.
    exists [], (s ++ 0 :: post). rewrite app_nil_r.
    assert (Ew : words_of s = []) by (rewrite <- (app_nil_r s); by rewrite words_blanks).
    by rewrite Ew. }
  assert (Hlw : no_nul w).
  { unfold no_nul in *. destruct Hcase as [->|(b & t & _ & ->)]; rewrite !Forall_app in Hs; tauto. }
  destruct Hcase as [->|(b & t & Hb & ->)]; rewrite <- !(app_assoc bl), <- ?(app_assoc w).
  - rewrite skip_blanks by done. cbn [mbind outcome_bind]. rewrite (app_assoc pre bl).
    destruct (word_starts w (pre ++ bl) (0 :: post) Hn Hlw) as (b0 & -> & Hb0). cbn [mbind outcome_bind].
    rewrite (proj2 (Z.eqb_neq b0 0)), skip_word by done. cbn [mbind outcome_bind].
    rewrite (app_assoc (pre ++ bl)), aget_at. cbn [mbind outcome_bind Z.eqb].
    exists [zlen (pre ++ bl)], (bl ++ w ++ 0 :: post). rewrite words_blanks, words_last by done.
    split_and!; [by rewrite <- !app_assoc|done| |by destruct n].
    cbn [strings_at]. rewrite (app_assoc pre bl), string_at_run by done. by destruct n.
  - assert (Hbz : b <> 0) by (intros ->; discriminate Hb).
    rewrite skip_blanks by done. cbn [mbind outcome_bind]. rewrite (app_assoc pre bl).
    cbn [app]. destruct (word_starts w (pre ++ bl) (b :: t ++ 0 :: post) Hn Hlw) as (b0 & -> & Hb0).
    cbn [mbind outcome_bind].
    rewrite (proj2 (Z.eqb_neq b0 0)), skip_word by (try done; unfold in_word; by rewrite Hb, andb_false_r).
    cbn [mbind outcome_bind]. rewrite (app_assoc (pre ++ bl)), aget_at. cbn [mbind outcome_bind].
    rewrite (proj2 (Z.eqb_neq b 0)) by done. rewrite aset_at. cbn [mbind outcome_bind].
    rewrite (app_step (_ ++ w) 0), <- (zlen_snoc 0).
    destruct (IH (((pre ++ bl) ++ w) ++ [0]) t post (argv ++ [zlen (pre ++ bl)])) as (offs & mid & E & Hm & Hst & Hl).
    { unfold no_nul in *. rewrite !Forall_app in Hs. destruct Hs as (_ & _ & Hs). by inversion Hs. }
    rewrite E. exists (zlen (pre ++ bl) :: offs), (bl ++ w ++ 0 :: mid).
    rewrite words_blanks, words_cons by done. cbn [take]. split_and!.
    + by rewrite <- !app_assoc.
    + rewrite !length_app in *. cbn in *. rewrite ?length_app in *. cbn in *. lia.
    + cbn [strings_at]. rewrite (app_assoc pre bl), string_at_run by done. cbn [mbind outcome_bind].
      replace ((pre ++ bl) ++ w ++ 0 :: mid) with ((((pre ++ bl) ++ w) ++ [0]) ++ mid) by (by rewrite <- !app_assoc).
      by rewrite Hst.
    + cbn. by rewrite Hl.
Qed.

(** The arguments of a line are its first eight words, each a string of
    its own inside the line, which keeps its length; the scan ends at the
    line's NUL and never leaves the buffer. *)
Theorem cmd_parse_line_exact s post :
  no_nul s ->
  exists argv line, cmd_parse_line (s ++ 0 :: post) 0 = Done (argv, line) /\ length line = length (s ++ 0 :: post) /\
    length argv = length (take CONFIG_SYS_MAXARGS (words_of s)) /\
    strings_at line argv = Done (take CONFIG_SYS_MAXARGS (words_of s)).
Proof.
  intros Hs. destruct (parse_run CONFIG_SYS_MAXARGS [] s post [] Hs) as (offs & mid & E & Hm & Hst & Hl).
  exists offs, mid. by split_and!.
Qed.

(* ------------------------------------------------------------------ *)
(** ** Macros and escapes *)

(** Pieces of a command: a plain character, text in quotes, an escaped
    character, two or more backslashes and the character behind them, a macro
    in round or curly brackets, a dollar that opens none. *)
Inductive piece :=
  | Plain (ch : Z)
  | Quoted (q : list Z)
  | Escaped (ch : Z)
  | Slashes (k : nat) (ch : Z)
  | Macro (curly : bool) (n : list Z)
  | Dollar (ch : Z).

Definition special (ch : Z) : bool := (ch =? ch_quote) || (ch =? ch_backslash) || (ch =? ch_dollar).

(** A quote inside quotes stands behind a backslash, and the last character is
    none. *)
Fixpoint quotable (prev : Z) (q : list Z) : Prop :=
  match q with
  | [] => prev <> ch_backslash
  | b :: q' => (b = ch_quote -> prev = ch_backslash) /\ quotable b q'
  end.

Definition piece_ok (p : piece) : Prop :=
  match p with
  | Plain ch => special ch = false
  | Quoted q => quotable ch_quote q
  | Escaped ch | Slashes _ ch => ch <> ch_backslash
  | Macro _ n => Forall (fun b => b <> ch_backslash /\ b <> 41 /\ b <> 125) n
  | Dollar ch => ch <> ch_backslash /\ ch <> 40 /\ ch <> 123
  end.

Definition spelled (p : piece) : list Z :=
  match p with
  | Plain ch => [ch]
  | Quoted q => ch_quote :: q ++ [ch_quote]
  | Escaped ch => [ch_backslash; ch]
  | Slashes k ch => ch_backslash :: ch_backslash :: replicate k ch_backslash ++ [ch]
  | Macro curly n => ch_dollar :: (if curly then 123 else 40) :: n ++ [if curly then 125 else 41]
  | Dollar ch => [ch_dollar; ch]
  end.

(** One backslash is dropped from a row of them, and the character behind
    more than one has lost its meaning. *)
Definition value (p : piece) : list Z :=
  match p with
  | Plain ch => [ch]
  | Quoted q => q
  | Escaped ch => [ch]
  | Slashes k ch => ch_backslash :: replicate k ch_backslash ++ [ch]
  | Macro _ _ => []
  | Dollar ch => [ch_dollar; ch]
  end.

Lemma not_full out : zlen out < 128 -> full out = false.
Proof. intros Ho. unfold full, CONFIG_SYS_CBSIZE. apply Z.leb_gt. lia. Qed.

Lemma quoted_run q : forall rest prev out,
  quotable prev q -> zlen out + zlen q < 128 ->
  macro_loop (q ++ ch_quote :: rest) 3 prev out = macro_loop rest 0 ch_quote (out ++ q).
Proof.
  induction q as [|b q IH]; intros rest prev out Hq Hz; cbn [app macro_loop quotable] in *.
  - rewrite zlen_nil in Hz. rewrite not_full by lia. cbn [macro_step Z.eqb negb andb Pos.eqb].
    unfold macro_step. cbn [Z.eqb Pos.eqb]. rewrite (proj2 (Z.eqb_neq prev _) Hq). cbn. by rewrite app_nil_r.
  - destruct Hq as [Hb Hq']. rewrite zlen_cons in Hz. pose proof (zlen_nonneg q).
    rewrite not_full by lia. cbn [Z.eqb negb andb Pos.eqb]. unfold macro_step. cbn [Z.eqb Pos.eqb].
    assert (E : (b =? ch_quote) && negb (prev =? ch_backslash) = false)
      by (destruct (Z.eqb_spec b ch_quote) as [Eb|]; [by rewrite (Hb Eb)|done]).
    rewrite E, IH; [by rewrite <- app_assoc|done|]. rewrite zlen_snoc. lia.
Qed.

Lemma macro_run n close : forall rest prev out,
  Forall (fun b => b <> ch_backslash /\ b <> 41 /\ b <> 125) n -> close = 41 \/ close = 125 -> zlen out < 128 ->
  macro_loop (n ++ close :: rest) 2 prev out = macro_loop rest 0 close out.
Proof.
  induction n as [|b n IH]; intros rest prev out Hn Hcl Hz; cbn [app macro_loop]; rewrite not_full by lia.
  - by destruct Hcl as [->| ->].
  - inversion_clear Hn as [|? ? (Hb & H1 & H2) Hn']. cbn [Z.eqb negb andb Pos.eqb].
    rewrite (proj2 (Z.eqb_neq b _) Hb). cbn [andb]. unfold macro_step. cbn [Z.eqb Pos.eqb].
    rewrite (proj2 (Z.eqb_neq b _) H1), (proj2 (Z.eqb_neq b _) H2). cbn [orb]. by apply IH.
Qed.

(** Behind a backslash that was kept every character is literal. *)
Lemma macro_step_literal ch out : macro_step 0 ch_backslash ch out = (0, out ++ [ch]).
Proof. unfold macro_step. cbn. by rewrite !andb_false_r. Qed.

Lemma slashes_run k : forall ch rest out,
  zlen out + Z.of_nat k < 128 ->
  macro_loop (replicate k ch_backslash ++ ch :: rest) 0 ch_backslash out =
  macro_loop rest 0 ch (out ++ replicate k ch_backslash ++ [ch]).
Proof.
  induction k as [|k IH]; intros ch rest out Hz; cbn [replicate app macro_loop]; rewrite not_full by lia;
    rewrite Z.eqb_refl, andb_false_r, macro_step_literal; [done|].
  rewrite IH by (rewrite zlen_snoc; lia). by rewrite <- app_assoc.
Qed.

(** The first step of a macro, and of a dollar that opens none. *)
Lemma dollar_run ch rest prev out :
  prev <> ch_backslash -> ch <> ch_backslash -> zlen out < 128 ->
  macro_loop (ch_dollar :: ch :: rest) 0 prev out =
    let '(st, out) := macro_step 1 ch_dollar ch out in macro_loop rest st ch out.
Proof.
  intros Hprev Hch Hz. cbn [macro_loop]. rewrite not_full by lia.
  assert (E : macro_step 0 prev ch_dollar out = (1, out))
    by (unfold macro_step; rewrite (proj2 (Z.eqb_neq prev _) Hprev); done).
  change (negb (0 =? 3) && (ch_dollar =? ch_backslash) && negb (prev =? ch_backslash)) with false. cbn beta iota.
  rewrite E, not_full by lia. cbn [Z.eqb negb andb]. by rewrite (proj2 (Z.eqb_neq ch _) Hch).
Qed.

Lemma escape_run ch rest prev out :
  prev <> ch_backslash -> zlen out < 128 ->
  macro_loop (ch_backslash :: ch :: rest) 0 prev out = macro_loop rest 0 ch (out ++ [ch]).
Proof.
  intros Hprev Hz. cbn [macro_loop]. rewrite not_full by lia. cbn [Z.eqb negb andb].
  rewrite (proj2 (Z.eqb_neq prev _) Hprev). cbn [andb negb Z.eqb Pos.eqb]. by rewrite Z.eqb_refl, macro_step_literal.
Qed.

Lemma piece_run p rest prev out :
  piece_ok p -> prev <> ch_backslash -> zlen out + zlen (value p) < 128 ->
  exists prev', prev' <> ch_backslash /\
    macro_loop (spelled p ++ rest) 0 prev out = macro_loop rest 0 prev' (out ++ value p).
Proof.
  intros Hp Hprev Hz. pose proof (zlen_nonneg (value p)).
  destruct p as [ch|q|ch|k ch|curly n|ch]; cbn [spelled value piece_ok app] in *.
  - exists ch. unfold special in Hp. zbool. split; [done|]. cbn [macro_loop]. rewrite not_full by lia.
    cbn [Z.eqb negb andb]. rewrite (proj2 (Z.eqb_neq ch ch_backslash)) by done. unfold macro_step. cbn [Z.eqb].
    by rewrite (proj2 (Z.eqb_neq ch ch_quote)), (proj2 (Z.eqb_neq ch ch_dollar)) by done.
  - exists ch_quote. split; [done|]. cbn [macro_loop]. rewrite not_full by lia. cbn [Z.eqb negb andb Pos.eqb].
    unfold macro_step. cbn [Z.eqb Pos.eqb]. rewrite (proj2 (Z.eqb_neq prev _) Hprev). cbn.
    rewrite <- app_assoc. cbn [app]. by apply quoted_run.
  - exists ch. split; [done|]. apply escape_run; [done|lia].
  - exists ch. split; [done|]. rewrite zlen_cons, zlen_snoc in Hz. unfold zlen in Hz. rewrite length_replicate in Hz.
    rewrite escape_run by (done || unfold zlen; lia). rewrite <- app_assoc. cbn [app].
    rewrite slashes_run by (rewrite zlen_snoc; unfold zlen; lia). by rewrite <- (app_assoc out).
  - exists (if curly then 125 else 41). split; [by destruct curly|]. rewrite <- app_assoc, app_nil_r. cbn [app].
    rewrite dollar_run; [|done|by destruct curly|lia].
    assert (E : macro_step 1 ch_dollar (if curly then 123 else 40) out = (2, out)) by by destruct curly.
    rewrite E. apply macro_run; [done|destruct curly; auto|lia].
  - destruct Hp as (Hb & H1 & H2). exists ch. split; [done|]. rewrite dollar_run by (done || lia).
    rewrite zlen_cons, zlen_cons, zlen_nil in Hz. unfold macro_step. cbn [Z.eqb Pos.eqb].
    rewrite (proj2 (Z.eqb_neq ch 40)), (proj2 (Z.eqb_neq ch 123)) by done. cbn [orb].
    rewrite not_full by (rewrite zlen_snoc; lia). by rewrite <- app_assoc.
Qed.

Lemma pieces_run ps : forall prev out,
  Forall piece_ok ps -> prev <> ch_backslash -> zlen out + zlen (concat (map value ps)) < 128 ->
  macro_loop (concat (map spelled ps)) 0 prev out = out ++ concat (map value ps).
Proof.
  induction ps as [|p ps IH]; intros prev out Hp Hprev Hz; cbn [map concat] in *.
  - cbn. rewrite app_nil_r. by destruct (full out).
  - inversion_clear Hp as [|? ? Hp1 Hp2]. rewrite zlen_app in Hz. pose proof (zlen_nonneg (concat (map value ps))).
    destruct (piece_run p (concat (map spelled ps)) prev out) as (prev' & Hprev' & ->); [done|done|lia|].
    rewrite IH; [by rewrite <- app_assoc|done|done|]. rewrite zlen_app. lia.
Qed.



(* ------------------------------------------------------------------ *)
(** ** Lines *)

(** A command as people type it: no separator, quote, escape or macro. *)
Definition plain_char (b : Z) : Prop :=
  b <> 0 /\ b <> ch_semicolon /\ b <> ch_quote /\ b <> ch_backslash /\ b <> ch_dollar.
Definition plain_command (s : list Z) : Prop := s <> [] /\ Forall plain_char s.

Fixpoint join (cs : list (list Z)) : list Z :=
  match cs with
  | [] => []
  | [c] => c
  | c :: cs' => c ++ ch_semicolon :: join cs'
  end.

Lemma plain_no_nul s : Forall plain_char s -> no_nul s.
Proof. intros Hs. apply (Forall_impl _ _ _ Hs). by intros b (Hb & _). Qed.

(** The search passes the rest of a plain command, which may only be empty
    behind a character of it. *)
Lemma find_sep_run s : forall fuel pre last post x str,
  Forall plain_char s -> last <> ch_backslash -> str <= zlen pre -> (length s < fuel)%nat ->
  x = 0 \/ x = ch_semicolon ->
  find_sep fuel ((pre ++ [last]) ++ s ++ x :: post) str (zlen (pre ++ [last])) false = Done (zlen ((pre ++ [last]) ++ s)).
Proof.
  induction s as [|b s IH]; intros [|fuel] pre last post x str Hs Hl Hst Hf Hx; cbn in Hf; try lia; cbn [find_sep app].
  - rewrite aget_at, app_nil_r. cbn [mbind outcome_bind]. destruct Hx as [->| ->]; [done|].
    change (ch_semicolon =? 0) with false. change (ch_semicolon =? ch_quote) with false.
    change (ch_semicolon =? ch_semicolon) with true. cbn [mbind outcome_bind negb andb].
    rewrite (proj2 (Z.eqb_neq _ str)) by (rewrite zlen_snoc; lia). cbn [negb].
    rewrite zlen_snoc, Z.add_simpl_r, <- app_assoc. cbn [app]. rewrite aget_at. cbn [mbind outcome_bind].
    by rewrite (proj2 (Z.eqb_neq last _) Hl).
  - apply Forall_cons in Hs as [(B1 & B2 & B3 & B4 & _) Hs']. rewrite aget_at. cbn [mbind outcome_bind].
    rewrite (proj2 (Z.eqb_neq b 0)), (proj2 (Z.eqb_neq b ch_quote)), (proj2 (Z.eqb_neq b ch_semicolon)) by done.
    cbn [mbind outcome_bind negb andb]. rewrite (app_step (pre ++ [last]) b), <- (zlen_snoc b).
    rewrite IH; [|done|done|rewrite zlen_snoc; lia|lia|done]. by rewrite <- (app_step (pre ++ [last]) b s).
Qed.

Lemma find_sep_command c pre post x :
  plain_command c -> x = 0 \/ x = ch_semicolon ->
  find_sep (S (length (pre ++ c ++ x :: post))) (pre ++ c ++ x :: post) (zlen pre) (zlen pre) false = Done (zlen (pre ++ c)).
Proof.
  intros [Hn Hc] Hx. destruct c as [|b c]; [done|]. apply Forall_cons in Hc as [(B1 & B2 & B3 & B4 & _) Hc'].
  cbn [find_sep app]. rewrite aget_at. cbn [mbind outcome_bind].
  rewrite (proj2 (Z.eqb_neq b 0)), (proj2 (Z.eqb_neq b ch_quote)), (proj2 (Z.eqb_neq b ch_semicolon)) by done.
  cbn [mbind outcome_bind negb andb]. rewrite (app_step pre b), <- (zlen_snoc b).
  rewrite find_sep_run; [by rewrite <- (app_step pre b c)|done|done|lia| |done]. rewrite !length_app. cbn. lia.
Qed.

(** Macro processing leaves a plain command alone. *)
Lemma macros_plain c final :
  Forall plain_char c -> zlen c < 128 -> zlen final = 128 ->
  exists post, cmd_process_macros c final = Done (c ++ 0 :: post) /\ zlen (c ++ 0 :: post) = 128.
Proof.
  intros Hc Hz Hf.
  assert (Ev : concat (map value (map Plain c)) = c) by (rewrite map_map; clear; induction c; cbn in *; congruence).
  assert (Es : concat (map spelled (map Plain c)) = c) by (rewrite map_map; clear; induction c; cbn in *; congruence).
  destruct (mem_write_in final 0 (c ++ [0])); [lia|rewrite zlen_snoc; lia|].
  exists (drop (length (c ++ [0])) final).
  assert (Ef : macro_loop c 0 0 [] = c).
  { rewrite <- Es at 1. rewrite pieces_run; [by rewrite Ev| |done|rewrite Ev, zlen_nil; lia].
    apply Forall_map. apply (Forall_impl _ _ _ Hc). intros b (_ & _ & B3 & B4 & B5). cbn. unfold special.
    by rewrite !(proj2 (Z.eqb_neq b _)) by done. }
  unfold cmd_process_macros. rewrite Ef, not_full by lia.
  rewrite mem_write_in by (rewrite ?zlen_snoc; lia). unfold splice. cbn [Z.to_nat take Nat.add app].
  rewrite <- app_assoc. cbn [app]. split; [done|]. unfold zlen in *.
  rewrite length_app. cbn [length]. rewrite length_drop, length_app. cbn [length]. lia.
Qed.

Section Run.
Context {W : Type}.
Implicit Types (table : list (cmd_tbl_t W)).

(** *** What a line means *)

(** A command that was found, on its words: with too many of them, or when it
    answers -1, its usage is shown, which is a success if it has one; else it
    is called, its answer 0 is a success, and the line stays repeatable if the
    command is. *)
Definition obey (c : cmd_tbl_t W) (args : list (list Z)) (rep : Z) (w : W) : bool * Z * W :=
  if zlen args <=? maxargs c then
    let '(r, w') := cmd c w args in
    (if r =? -1 then help c else r =? 0, Z.land rep (repeatable c), w')
  else (help c, rep, w).

(** The commands of a line one after the other, [find] being what a name
    means: a blank one, an unknown one or a failure makes the result -1. *)
Fixpoint run_all (find : list Z -> outcome (option (cmd_tbl_t W))) (cs : list (list Z)) (rc rep : Z) (w : W)
    : outcome (Z * W) :=
  match cs with
  | [] => Done (if rc =? 0 then rep else rc, w)
  | c :: cs' =>
      match take CONFIG_SYS_MAXARGS (words_of c) with
      | [] => run_all find cs' (-1) rep w
      | key :: rest =>
          entry ← find (before_dot key);
          let '(ok, rep, w) := match entry with
                               | Some e => obey e (key :: rest) rep w
                               | None => (false, rep, w)
                               end in
          run_all find cs' (if ok : bool then rc else -1) rep w
      end
  end.

(** In a table of named entries; and in the firmware's, with its last entry. *)
Definition by_abbreviation table (key : list Z) : outcome (option (cmd_tbl_t W)) := Done (meant key table).
Definition by_full_name table (key : list Z) : outcome (option (cmd_tbl_t W)) :=
  match List.filter (is_named key) table with c :: _ => Done (Some c) | [] => Wild end.

(** *** The code does it *)

Lemma process_run table find key rest rep (w : W) {B} (k : bool -> Z -> W -> outcome B) :
  cmd_find_tbl (Some key) table = find (before_dot key) ->
  ('(r, rep, w) ← cmd_process table (key :: rest) rep w; k (r =? 0) rep w) =
  (entry ← find (before_dot key);
   let '(ok, rep, w) := match entry with Some e => obey e (key :: rest) rep w | None => (false, rep, w) end in
   k ok rep w).
Proof.
  intros Ef. unfold cmd_process. cbn [head]. rewrite Ef.
  destruct (find (before_dot key)) as [[e|]| | |]; [|done..]. cbn [mbind outcome_bind]. unfold obey, cmd_usage.
  rewrite Z.leb_antisym. destruct (maxargs e <? _); cbn [negb].
  - by destruct (help e).
  - change (CMD_RET_SUCCESS =? 0) with true. cbn beta iota. destruct (cmd e w (key :: rest)) as [r w']. unfold CMD_RET_USAGE.
    cbn [mbind outcome_bind]. destruct (r =? -1); [|done]. by destruct (help e).
Qed.

(** The code's loop over the texts of the commands. *)
Fixpoint process_all table (cs : list (list Z)) (rc rep : Z) (w : W) : outcome (Z * W) :=
  match cs with
  | [] => Done (if rc =? 0 then rep else rc, w)
  | c :: cs' =>
      match take CONFIG_SYS_MAXARGS (words_of c) with
      | [] => process_all table cs' (-1) rep w
      | args =>
          '(r, rep, w) ← cmd_process table args rep w;
          process_all table cs' (if r =? 0 then rc else -1) rep w
      end
  end.

Lemma process_all_run table find cs : forall rc rep w,
  (forall key, cmd_find_tbl (Some key) table = find (before_dot key)) ->
  process_all table cs rc rep w = run_all find cs rc rep w.
Proof.
  induction cs as [|c cs IH]; intros rc rep w Hf; [done|]. cbn [process_all run_all].
  destruct (take CONFIG_SYS_MAXARGS (words_of c)) as [|key rest]; [by apply IH|].
  rewrite (process_run table find key rest rep w
    (fun ok rep w => process_all table cs (if ok then rc else -1) rep w)) by apply Hf.
  destruct (find (before_dot key)) as [entry| | |]; [|done..]. cbn [mbind outcome_bind].
  destruct (match entry with Some _ => _ | None => _ end) as [[ok rep'] w']. by apply IH.
Qed.

(** One turn of the loop, and the position after it. *)
Lemma turn_run table fuel pre c x post final rc rep (w : W) :
  plain_command c -> x = 0 \/ x = ch_semicolon -> zlen c < 128 -> zlen final = 128 ->
  let next := if x =? 0 then zlen (pre ++ c) else zlen (pre ++ c) + 1 in
  exists final', zlen final' = 128 /\
  command_loop (S fuel) table (pre ++ c ++ x :: post) (zlen pre) final rc rep w =
    match take CONFIG_SYS_MAXARGS (words_of c) with
    | [] => command_loop fuel table (pre ++ c ++ 0 :: post) next final' (-1) rep w
    | args =>
        '(r, rep, w) ← cmd_process table args rep w;
        command_loop fuel table (pre ++ c ++ 0 :: post) next final' (if r =? 0 then rc else -1) rep w
    end.
Proof.
  intros Hc Hx Hz Hf next. pose proof (plain_no_nul c (proj2 Hc)) as Hnn.
  destruct (word_starts c pre (x :: post) (proj1 Hc) Hnn) as (b & Eb & Hb).
  destruct (macros_plain c final (proj2 Hc) Hz Hf) as (post' & Em & Hm).
  destruct (cmd_parse_line_exact c post' Hnn) as (argv & line & Ep & Hl & Ha & Es).
  exists line. split; [unfold zlen in *; by rewrite Hl|]. cbn [command_loop]. rewrite Eb. cbn [mbind outcome_bind].
  rewrite (proj2 (Z.eqb_neq b 0) Hb), find_sep_command by done. cbn [mbind outcome_bind].
  rewrite (app_assoc pre c), aget_at. cbn [mbind outcome_bind].
  assert (En : (if negb (x =? 0) then buf ← aset ((pre ++ c) ++ x :: post) (zlen (pre ++ c)) 0; Done (zlen (pre ++ c) + 1, buf)
                else Done (zlen (pre ++ c), (pre ++ c) ++ x :: post)) = Done (next, (pre ++ c) ++ 0 :: post)).
  { unfold next. destruct Hx as [->| ->]; [done|]. change (ch_semicolon =? 0) with false. cbn [negb]. by rewrite aset_at. }
  rewrite En. cbn [mbind outcome_bind]. rewrite <- (app_assoc pre c). rewrite string_at_run by done. cbn [mbind outcome_bind].
  rewrite Em. cbn [mbind outcome_bind]. rewrite Ep. cbn [mbind outcome_bind]. rewrite Es. cbn [mbind outcome_bind].
  destruct argv as [|a argv], (take CONFIG_SYS_MAXARGS (words_of c)) as [|u us]; cbn in Ha; try lia; done.
Qed.

Lemma loop_run table cs : forall pre post final rc rep (w : W) fuel,
  cs <> [] -> Forall plain_command cs -> zlen (join cs) < 128 -> zlen final = 128 -> (length cs <= fuel)%nat ->
  command_loop fuel table (pre ++ join cs ++ 0 :: post) (zlen pre) final rc rep w = process_all table cs rc rep w.
Proof.
  induction cs as [|c [|c2 cs] IH]; intros pre post final rc rep w fuel Hn Hc Hz Hf Hfuel; [done| |].
  - inversion_clear Hc as [|? ? Hc1 _]. cbn [join] in *. destruct fuel as [|fuel]; [cbn in Hfuel; lia|].
    destruct (turn_run table fuel pre c 0 post final rc rep w) as (final' & _ & ->); [done|by left|done|done|].
    cbn [process_all Z.eqb]. assert (Hend : forall rc rep w, command_loop fuel table (pre ++ c ++ 0 :: post) (zlen (pre ++ c)) final' rc rep w
      = Done (if rc =? 0 then rep else rc, w)).
    { intros rc' rep' w'. rewrite (app_assoc pre c). destruct fuel; cbn [command_loop]; by rewrite aget_at. }
    destruct (take CONFIG_SYS_MAXARGS (words_of c)); [apply Hend|].
    destruct (cmd_process table _ rep w) as [[[r rep'] w']| | |]; [|done..]. cbn [mbind outcome_bind]. apply Hend.
  - inversion_clear Hc as [|? ? Hc1 Hcs]. destruct fuel as [|fuel]; [cbn in Hfuel; lia|].
    change (join (c :: c2 :: cs)) with (c ++ ch_semicolon :: join (c2 :: cs)) in *.
    rewrite zlen_app, zlen_cons in Hz. pose proof (zlen_nonneg c). pose proof (zlen_nonneg (join (c2 :: cs))).
    rewrite <- app_assoc. cbn [app].
    destruct (turn_run table fuel pre c ch_semicolon (join (c2 :: cs) ++ 0 :: post) final rc rep w)
      as (final' & Hf' & ->); [done|by right|lia|done|].
    change (ch_semicolon =? 0) with false. cbn beta iota.
    assert (Hnext : forall rc rep w, command_loop fuel table (pre ++ c ++ 0 :: join (c2 :: cs) ++ 0 :: post) (zlen (pre ++ c) + 1)
      final' rc rep w = process_all table (c2 :: cs) rc rep w).
    { intros rc' rep' w'. rewrite (app_assoc pre c), (app_step (pre ++ c) 0), <- (zlen_snoc 0).
      apply IH; [done|done|lia|done|cbn in *; lia]. }
    cbn [process_all]. destruct (take CONFIG_SYS_MAXARGS (words_of c)); [apply Hnext|].
    destruct (cmd_process table _ rep w) as [[[r rep'] w']| | |]; [|done..]. cbn [mbind outcome_bind]. apply Hnext.
Qed.

Lemma join_length cs : Forall plain_command cs -> (length cs <= length (join cs))%nat.
Proof.
  induction 1 as [|c cs [Hn _] _ IH]; [cbn; lia|]. destruct cs as [|c2 cs].
  - cbn. destruct c; [done|cbn; lia].
  - change (join (c :: c2 :: cs)) with (c ++ ch_semicolon :: join (c2 :: cs)). rewrite length_app. cbn [length] in *. lia.
Qed.

(** C4: A line of plain commands separated by semicolons, shorter than the
    128 bytes of the buffer, runs exactly those commands in order ([run_all]):
    each is looked up by its first word, and if it takes that many arguments
    is called with its first eight words, else its usage is shown; the result
    says whether all succeeded and may be repeated.  In the firmware's table a
    word that is no entry's name reads through its null name.  The loop ends
    and stays inside its two buffers, whatever the stack held before. *)
Theorem run_command_runs table last cmdbuf finaltoken cs (w : W) :
  named_all table -> name last = None ->
  cs <> [] -> Forall plain_command cs -> zlen (join cs) < CONFIG_SYS_CBSIZE ->
  zlen cmdbuf = CONFIG_SYS_CBSIZE -> zlen finaltoken = CONFIG_SYS_CBSIZE ->
  run_command table cmdbuf finaltoken (join cs) w = run_all (by_abbreviation table) cs 0 1 w /\
  run_command (table ++ [last]) cmdbuf finaltoken (join cs) w = run_all (by_full_name table) cs 0 1 w.
Proof.
  unfold CONFIG_SYS_CBSIZE. intros Ha Hlast Hn Hc Hz Hb Hf. pose proof (join_length cs Hc) as Hl.
  assert (Hj : join cs <> []) by (intros Ej; rewrite Ej in Hl; destruct cs; [done|cbn in Hl; lia]).
  assert (Hs : forall t find, (forall key, cmd_find_tbl (Some key) t = find (before_dot key)) ->
    run_command t cmdbuf finaltoken (join cs) w = run_all find cs 0 1 w).
  { intros t find Hfind. rewrite <- (process_all_run t find) by done. unfold run_command, CONFIG_SYS_CBSIZE.
    destruct (join cs) as [|b l] eqn:Ej; [done|]. rewrite (proj2 (Z.leb_gt 128 _)) by lia.
    rewrite mem_write_in by (rewrite ?zlen_snoc; lia). cbn [mbind outcome_bind]. rewrite <- Ej in *.
    unfold splice. change (take (Z.to_nat 0) cmdbuf) with (@nil Z). rewrite <- app_assoc. by apply (loop_run t cs []). }
  split; apply Hs; intros key; [by apply find_tbl_run|by apply find_tbl_null].
Qed.

(** The first character of a line is compared with the one before it. *)
Theorem leading_quote_reads_before table cmdbuf finaltoken s (w : W) :
  zlen cmdbuf = CONFIG_SYS_CBSIZE -> zlen s < 127 -> run_command table cmdbuf finaltoken (ch_quote :: s) w = Wild.
Proof.
  unfold CONFIG_SYS_CBSIZE. intros Hb Hz. pose proof (zlen_nonneg s). unfold run_command, CONFIG_SYS_CBSIZE.
  rewrite (proj2 (Z.leb_gt 128 _)) by (rewrite zlen_cons; lia).
  rewrite mem_write_in by (rewrite ?zlen_snoc, ?zlen_cons; lia). reflexivity.
Qed.
End Run.

(* ------------------------------------------------------------------ *)
(** ** Witnesses *)

(** Two commands that log their arguments, and the entry that ends the
    firmware's table. *)
Definition log_cmd (n : list Z) : cmd_tbl_t (list (list (list Z))) :=
  mk_cmd (Some n) 4 1 (fun w argv => (0, w ++ [argv])) true.
Definition null_cmd : cmd_tbl_t (list (list (list Z))) := mk_cmd None 0 0 (fun w _ => (0, w)) false.
Definition demo_table : list (cmd_tbl_t (list (list (list Z)))) := [log_cmd [114; 101; 103]; log_cmd [104]].
Definition demo_lines : list (list Z) := [[114; 101; 103; 32; 45; 114; 32; 52]; [104]].

Lemma cmd_find_tbl_exact_witness :
  cmd_find_tbl (Some [114; 101; 46; 119]) demo_table = Done (Some (log_cmd [114; 101; 103])) /\
  cmd_find_tbl (Some [114; 101; 46; 119]) (demo_table ++ [null_cmd]) = Wild.
Proof.
  apply (cmd_find_tbl_exact [114; 101; 46; 119] demo_table null_cmd); [|reflexivity].
  repeat constructor; discriminate.
Defined.

Lemma cmd_parse_line_exact_witness :
  exists argv line, cmd_parse_line ([32; 97; 32; 9; 98; 99] ++ [0]) 0 = Done (argv, line) /\ length line = 7%nat /\
    length argv = 2%nat /\ strings_at line argv = Done [[97]; [98; 99]].
Proof. apply (cmd_parse_line_exact [32; 97; 32; 9; 98; 99] []). repeat constructor; discriminate. Defined.


Lemma run_command_runs_witness :
  run_command (demo_table ++ [null_cmd]) (replicate 128 7) (replicate 128 7) (join demo_lines) [] =
  Done (1, [[[114; 101; 103]; [45; 114]; [52]]; [[104]]]).
Proof.
  apply (proj2 (run_command_runs demo_table null_cmd (replicate 128 7) (replicate 128 7) demo_lines []
    ltac:(repeat constructor; discriminate) eq_refl ltac:(discriminate) ltac:(repeat constructor; discriminate)
    eq_refl eq_refl eq_refl)).
Defined.
