(* ===== verification/Video.v ===== *)
(** The video line: beken378/func/video_transfer/video_transfer.c and the
    camera interrupts of beken378/func/camera_intf/camera_intf.c, of a build
    with [CFG_USE_CAMERA_INTF], [CFG_GENERAL_DMA] and [TVIDEO_USE_HDR].

    The JPEG engine fills a ring of four nodes; an interrupt per node and a
    timer at the end of a frame copy the bytes, behind a header, into one of 25
    packets; a thread hands the packets to the network in order.  The
    interrupts come between any two steps of the thread, and the model lets
    them.  The lists of [co_list.h] are in a binary library: [CoLists] states
    what its documentation promises of a call that nothing disturbs.  The
    thread calls it with the interrupts on, so entering a call and leaving it
    are two steps, and an interrupt that uses the same list in between has no
    documented result: it is [Wild]. *)

From S2P Require Import Prelude.

Definition TVIDEO_RXNODE_SIZE_UDP : Z := 1472.
Definition TVIDEO_RXNODE_SIZE_TCP : Z := 1460.
Definition TVIDEO_RXNODE_SIZE : Z := TVIDEO_RXNODE_SIZE_UDP.
Definition TVIDEO_POOL_LEN : Z := TVIDEO_RXNODE_SIZE * 25.
Definition TVIDEO_RXBUF_LEN : Z := TVIDEO_RXNODE_SIZE_UDP * 4.
Definition TV_QITEM_COUNT : Z := 60.

Definition TV_INT_POLL : Z := 0.
Definition TV_EXIT : Z := 1.

Definition TVIDEO_SND_UDP : Z := 1.
Definition TVIDEO_SND_TCP : Z := 2.
Definition TVIDEO_SND_INTF : Z := 3.
Definition TVIDEO_SND_BUFFER : Z := 4.

Definition kNoErr : Z := 0.
Definition kGeneralErr : Z := -1.
Definition kInProgressErr : Z := 1.

(* ------------------------------------------------------------------ *)
(** ** Lists of nodes *)

Inductive co_list := Free | Ready.

(** Both lists thread the [hdr] of the same nodes, so a node may be pushed
    only while it is in none of them. *)
Class CoLists (L : Type) := {
  elems : L -> co_list -> list Z;
  co_list_init : co_list -> L -> L;
  co_list_push_back : co_list -> Z -> L -> L;
  co_list_pop_front : co_list -> L -> L;
  co_list_pick : co_list -> L -> option Z;

  elems_init w l : elems (co_list_init w l) w = [];
  elems_init_other w w' l : w' <> w -> elems (co_list_init w l) w' = elems l w';
  elems_push w x l : (forall v, x ∉ elems l v) -> elems (co_list_push_back w x l) w = elems l w ++ [x];
  elems_push_other w w' x l :
    (forall v, x ∉ elems l v) -> w' <> w -> elems (co_list_push_back w x l) w' = elems l w';
  elems_pop w l : elems (co_list_pop_front w l) w = tail (elems l w);
  elems_pop_other w w' l : w' <> w -> elems (co_list_pop_front w l) w' = elems l w';
  pick_head w l : co_list_pick w l = head (elems l w)
}.

(* ------------------------------------------------------------------ *)
(** ** State *)

(** A node: its packet's offset in the pool, and its length. *)
Record TVIDEO_ELEM_ST := mk_elem { buf_start : Z; buf_len : Z }.

(** What a header is made from; the callback writes it at the start of the
    packet. *)
Record TV_HDR_PARAM_ST := mk_hdr { ptklen : Z; hdr_frame_id : Z; is_eof : Z; frame_len : Z }.

Record TVIDEO_SETUP_DESC_ST := mk_setup {
  setup_send_type : Z;
  send_func : bool;
  setup_header_size : Z;
  add_pkt_header : option (TV_HDR_PARAM_ST -> list Z)
}.

(** The descriptor that [tvideo_st] and [ejpeg_cfg] share. *)
Record TVIDEO_DESC_ST := mk_desc { rxbuf_len : Z; rx_read_len : Z; node_len : Z }.

(** The thread between two accesses to what it shares with the interrupts;
    [T_popping] and [T_pushing] are inside a call of the list library. *)
Inductive phase :=
  | T_none
  | T_main
  | T_wait
  | T_pick
  | T_send (e : Z)
  | T_pop (e : Z)
  | T_popping (e : Z)
  | T_push (e : Z)
  | T_pushing (e : Z)
  | T_exit
  | T_deinit.

Section Code.
Context {L : Type} `{CoLists L}.
(** The setup the line was started with, the answer of [sdram_malloc], whether
    the camera's device can be opened. *)
Variables (setup : TVIDEO_SETUP_DESC_ST) (sdram : option (list Z)) (camera : bool).

Record TVIDEO_POOL_ST := mk_pool {
  pool : option (list Z);
  elem : list TVIDEO_ELEM_ST;
  lists : L;
  send_type : Z;
  frame_id : Z;
  pkt_header_size : Z
}.

(** [dma_pos] is where the engine writes next; [sent] is what the network
    took. *)
Record video := mk_video {
  tvideo_pool : TVIDEO_POOL_ST;
  tvideo_st : TVIDEO_DESC_ST;
  tvideo_rxbuf : list Z;
  tvideo_msg_que : option (list Z);
  thread : phase;
  ejpeg_hdl : bool;
  ejpeg_cfg : TVIDEO_DESC_ST;
  dma_pos : Z;
  sent : list (list Z)
}.

Definition set_pool (p : TVIDEO_POOL_ST) (s : video) : video :=
  mk_video p (tvideo_st s) (tvideo_rxbuf s) (tvideo_msg_que s) (thread s) (ejpeg_hdl s) (ejpeg_cfg s) (dma_pos s) (sent s).
Definition set_que (q : option (list Z)) (s : video) : video :=
  mk_video (tvideo_pool s) (tvideo_st s) (tvideo_rxbuf s) q (thread s) (ejpeg_hdl s) (ejpeg_cfg s) (dma_pos s) (sent s).
Definition set_thread (t : phase) (s : video) : video :=
  mk_video (tvideo_pool s) (tvideo_st s) (tvideo_rxbuf s) (tvideo_msg_que s) t (ejpeg_hdl s) (ejpeg_cfg s) (dma_pos s) (sent s).
Definition set_camera (h : bool) (d : TVIDEO_DESC_ST) (pos : Z) (s : video) : video :=
  mk_video (tvideo_pool s) (tvideo_st s) (tvideo_rxbuf s) (tvideo_msg_que s) (thread s) h d pos (sent s).
Definition set_rxbuf (m : list Z) (pos : Z) (s : video) : video :=
  mk_video (tvideo_pool s) (tvideo_st s) m (tvideo_msg_que s) (thread s) (ejpeg_hdl s) (ejpeg_cfg s) pos (sent s).
Definition set_desc (d : TVIDEO_DESC_ST) (s : video) : video :=
  mk_video (tvideo_pool s) d (tvideo_rxbuf s) (tvideo_msg_que s) (thread s) (ejpeg_hdl s) (ejpeg_cfg s) (dma_pos s) (sent s).
Definition log_sent (p : list Z) (s : video) : video :=
  mk_video (tvideo_pool s) (tvideo_st s) (tvideo_rxbuf s) (tvideo_msg_que s) (thread s) (ejpeg_hdl s) (ejpeg_cfg s) (dma_pos s)
           (sent s ++ [p]).
Definition set_lists (l : L) (p : TVIDEO_POOL_ST) : TVIDEO_POOL_ST :=
  mk_pool (pool p) (elem p) l (send_type p) (frame_id p) (pkt_header_size p).

(* ------------------------------------------------------------------ *)
(** ** Starting *)

(** A message that does not fit is only reported. *)
Definition tvideo_intfer_send_msg (msg : Z) (s : video) : video :=
  match tvideo_msg_que s with
  | Some q => if zlen q <? TV_QITEM_COUNT then set_que (Some (q ++ [msg])) s else s
  | None => s
  end.

(** [ASSERT(1)] does not stop: without memory the [memset] goes through a
    null pointer. *)
Definition tvideo_pool_init (s : video) : outcome video :=
  m ← deref (match pool (tvideo_pool s) with None => sdram | Some m => Some m end);
  m ← mem_write m 0 (replicate (Z.to_nat TVIDEO_POOL_LEN) 0);
  let l := co_list_init Ready (co_list_init Free (lists (tvideo_pool s))) in
  let nodes := seqZ 0 (TVIDEO_POOL_LEN / TVIDEO_RXNODE_SIZE) in
  Done (set_pool (mk_pool (Some m) (map (fun i => mk_elem (i * TVIDEO_RXNODE_SIZE) 0) nodes)
                   (foldl (fun l i => co_list_push_back Free i l) l nodes)
                   (setup_send_type setup) 0 (u16 (setup_header_size setup))) s).

(** The node length for a way of sending. *)
Definition node_len_for (type header : Z) : Z :=
  if type =? TVIDEO_SND_UDP then u32 (TVIDEO_RXNODE_SIZE_UDP - header)
  else if type =? TVIDEO_SND_TCP then TVIDEO_RXNODE_SIZE_TCP
  else if type =? TVIDEO_SND_INTF then u32 (TVIDEO_RXNODE_SIZE_UDP - header)
  else if type =? TVIDEO_SND_BUFFER then TVIDEO_RXNODE_SIZE_TCP
  else TVIDEO_RXNODE_SIZE_TCP.

Definition tvideo_config_desc (s : video) : video :=
  let n := node_len_for (send_type (tvideo_pool s)) (pkt_header_size (tvideo_pool s)) in
  set_desc (mk_desc (u16 (n * 4)) 0 n) s.

(** The descriptor is copied; opening the device starts the engine at the
    start of the buffer. *)
Definition camera_intfer_init (s : video) : video := set_camera camera (tvideo_st s) 0 s.

Definition camera_intfer_deinit (s : video) : video := set_camera false (mk_desc 0 0 0) (dma_pos s) s.

(** [que] and [created] are the answers of the operating system. *)
Definition video_transfer_init (que created : bool) (s : video) : Z * video :=
  match thread s, tvideo_msg_que s with
  | T_none, None =>
      if que then if created then (kNoErr, set_thread T_main (set_que (Some []) s)) else (kGeneralErr, s)
      else (kGeneralErr, s)
  | _, _ => (kInProgressErr, s)
  end.

(** [video_transfer_deinit] then waits until the thread is gone. *)
Definition video_transfer_deinit (s : video) : video := tvideo_intfer_send_msg TV_EXIT s.

(* ------------------------------------------------------------------ *)
(** ** Interrupts *)

Definition packet_count (len n : Z) : Z := len / n + (if len mod n =? 0 then 0 else 1).

(** The list the interrupted thread is in the middle of changing. *)
Definition in_call (t : phase) : option co_list :=
  match t with T_popping _ => Some Ready | T_pushing _ => Some Free | _ => None end.

(** A handler's use of a list. *)
Definition use_list (w : co_list) (s : video) : outcome unit :=
  match in_call (thread s), w with
  | Some Free, Free | Some Ready, Ready => Wild
  | _, _ => Done tt
  end.

(** [cur] is an offset into the receive buffer.  Division by zero is [Wild]. *)
Definition tvideo_rx_handler (cur newlen eof flen : Z) (s : video) : outcome video :=
  let p := tvideo_pool s in
  let n := node_len (tvideo_st s) in
  s ← (if newlen =? 0 then Done s else
       _ ← use_list Free s;
       match co_list_pick Free (lists p) with
       | None => Done s
       | Some i =>
           e ← aget (elem p) i;
           let newlen := if n <? newlen then n else newlen in
           pkt_cnt ← (if eof =? 0 then Done 0 else if n =? 0 then Wild else Done (packet_count flen n));
           m ← deref (pool p);
           m ← match add_pkt_header setup with
               | Some hdr => mem_write m (buf_start e) (hdr (mk_hdr newlen (frame_id p) eof pkt_cnt))
               | None => Done m
               end;
           bs ← mem_read (tvideo_rxbuf s) cur newlen;
           m ← mem_write m (buf_start e + pkt_header_size p) bs;
           es ← aset (elem p) i (mk_elem (buf_start e) (u32 (newlen + pkt_header_size p)));
           _ ← use_list Ready s;
           let l := co_list_push_back Ready i (co_list_pop_front Free (lists p)) in
           Done (set_pool (mk_pool (Some m) es l (send_type p) (frame_id p) (pkt_header_size p)) s)
       end);
  Done (tvideo_intfer_send_msg TV_INT_POLL s).

Definition tvideo_end_frame_handler (s : video) : video :=
  let p := tvideo_pool s in
  tvideo_intfer_send_msg TV_INT_POLL
    (set_pool (mk_pool (pool p) (elem p) (lists p) (send_type p) (u16 (frame_id p + 1)) (pkt_header_size p)) s).

Definition set_read (len : Z) (d : TVIDEO_DESC_ST) : TVIDEO_DESC_ST := mk_desc (rxbuf_len d) len (node_len d).

(** A full node. *)
Definition camera_intf_ejpeg_rx_handler (s : video) : outcome video :=
  let already_len := rx_read_len (ejpeg_cfg s) in
  let copy_len := u16 (node_len (ejpeg_cfg s)) in
  if negb (ejpeg_hdl s) then Done s else
  s ← tvideo_rx_handler already_len copy_len 0 0 s;
  let already_len := u16 (already_len + copy_len) in
  let already_len := if rxbuf_len (ejpeg_cfg s) <=? already_len then 0 else already_len in
  Done (set_camera (ejpeg_hdl s) (set_read already_len (ejpeg_cfg s)) (dma_pos s) s).

(** The end of a frame: what the engine says it has left, and the length of
    the frame.  Disabling and enabling the engine sends it back to the start
    of the buffer. *)
Definition camera_intf_delay_timer_hdl (left_len flen : Z) (s : video) : outcome video :=
  let already_len := rx_read_len (ejpeg_cfg s) in
  if negb (ejpeg_hdl s) then Done s else
  let rec_len := node_len (ejpeg_cfg s) - left_len in
  s ← (if 0 <? rec_len then tvideo_rx_handler already_len rec_len 1 flen s else Done s);
  let s := set_camera (ejpeg_hdl s) (set_read 0 (ejpeg_cfg s)) 0 s in
  Done (tvideo_end_frame_handler s).

(** The engine behind the interrupts: it writes at [dma_pos], goes back to the
    start after four nodes and counts a node down from [node_len]. *)
Definition engine_write (bs : list Z) (s : video) : outcome video :=
  m ← mem_write (tvideo_rxbuf s) (dma_pos s) bs;
  let pos := dma_pos s + zlen bs in
  Done (set_rxbuf m (if rxbuf_len (ejpeg_cfg s) <=? pos then 0 else pos) s).

Definition node_interrupt (bs : list Z) (s : video) : outcome video :=
  if ejpeg_hdl s then s ← engine_write bs s; camera_intf_ejpeg_rx_handler s else Done s.

Definition frame_interrupt (bs : list Z) (flen : Z) (s : video) : outcome video :=
  if ejpeg_hdl s then
    s ← engine_write bs s; camera_intf_delay_timer_hdl (node_len (ejpeg_cfg s) - zlen bs) flen s
  else Done s.

(* ------------------------------------------------------------------ *)
(** ** The thread *)

Definition video_transfer_main (s : video) : outcome video :=
  s ← tvideo_pool_init s;
  Done (set_thread T_wait (camera_intfer_init (tvideo_config_desc s))).

(** A step of [tvideo_poll_handler] and of the loop around it; [answer] is
    what [send_func] returns. *)
Definition thread_step (answer : Z) (s : video) : outcome video :=
  let p := tvideo_pool s in
  match thread s with
  | T_none => Done s
  | T_main => video_transfer_main s
  | T_wait =>
      match tvideo_msg_que s with
      | Some (msg :: q) =>
          let s := set_que (Some q) s in
          Done (if msg =? TV_INT_POLL then set_thread T_pick s
                else if msg =? TV_EXIT then set_thread T_exit s else s)
      | _ => Done s
      end
  | T_pick =>
      match co_list_pick Ready (lists p) with
      | None => Done (set_thread T_wait s)
      | Some i => Done (set_thread (if send_func setup then T_send i else T_pop i) s)
      end
  | T_send i =>
      e ← aget (elem p) i;
      m ← deref (pool p);
      bs ← mem_read m (buf_start e) (buf_len e);
      Done (if answer =? buf_len e then set_thread (T_pop i) (log_sent bs s) else set_thread T_wait s)
  | T_pop i => Done (set_thread (T_popping i) s)
  | T_popping i => Done (set_thread (T_push i) (set_pool (set_lists (co_list_pop_front Ready (lists p)) p) s))
  | T_push i => Done (set_thread (T_pushing i) s)
  | T_pushing i => Done (set_thread T_pick (set_pool (set_lists (co_list_push_back Free i (lists p)) p) s))
  | T_exit =>
      Done (set_thread T_deinit
              (set_pool (mk_pool None (elem p) (lists p) (send_type p) (frame_id p) (pkt_header_size p)) s))
  | T_deinit => Done (set_thread T_none (set_que None (camera_intfer_deinit s)))
  end.

Inductive event :=
  | Node (bs : list Z)
  | FrameEnd (bs : list Z) (flen : Z)
  | Thread (answer : Z)
  | Stop.

Definition step (e : event) (s : video) : outcome video :=
  match e with
  | Node bs => node_interrupt bs s
  | FrameEnd bs flen => frame_interrupt bs flen s
  | Thread answer => thread_step answer s
  | Stop => Done (video_transfer_deinit s)
  end.

Fixpoint run (es : list event) (s : video) : outcome video :=
  match es with
  | [] => Done s
  | e :: es' => s ← step e s; run es' s
  end.
End Code.

Arguments video : clear implicits.
Arguments TVIDEO_POOL_ST : clear implicits.

(* ------------------------------------------------------------------ *)
(** ** What the line promises *)

(** A queue of packets with room for 25, fed by the camera and emptied by the
    thread. *)
Inductive stage := Wait | Pick | Send | Pop | Popping | Push | Pushing.

Record line := mk_line {
  queue : list (list Z);
  taken : list (list Z);
  at_ : stage;
  frame : Z;
  msgs : nat;
  lost : Z
}.

Section Line.
Variable setup : TVIDEO_SETUP_DESC_ST.

Definition header_size : Z := u16 (setup_header_size setup).
Definition N : Z := node_len_for (setup_send_type setup) header_size.

Definition header (p : TV_HDR_PARAM_ST) : list Z :=
  match add_pkt_header setup with Some hdr => hdr p | None => [] end.

Definition packet (fid : Z) (bs : list Z) (eof cnt : Z) : list Z := header (mk_hdr (zlen bs) fid eof cnt) ++ bs.

(** A packet stays in its node until the node is back in the free list. *)
Definition occupied (t : line) : Z := zlen (queue t) + match at_ t with Wait | Pick | Send => 0 | _ => 1 end.

Definition arrive (p : list Z) (t : line) : line :=
  if occupied t <? 25 then mk_line (queue t ++ [p]) (taken t) (at_ t) (frame t) (msgs t) (lost t)
  else mk_line (queue t) (taken t) (at_ t) (frame t) (msgs t) (lost t + 1).

Definition poll (t : line) : line :=
  mk_line (queue t) (taken t) (at_ t) (frame t) (if (msgs t <? 60)%nat then S (msgs t) else msgs t) (lost t).

Definition next_frame (t : line) : line :=
  mk_line (queue t) (taken t) (at_ t) (u16 (frame t + 1)) (msgs t) (lost t).

Definition go (w : stage) (t : line) : line := mk_line (queue t) (taken t) w (frame t) (msgs t) (lost t).

Definition line_thread (answer : Z) (t : line) : line :=
  match at_ t with
  | Wait => match msgs t with
            | O => t
            | S n => mk_line (queue t) (taken t) Pick (frame t) n (lost t)
            end
  | Pick => go (match queue t with [] => Wait | _ => Send end) t
  | Send =>
      match queue t with
      | p :: q => if answer =? zlen p then mk_line q (taken t ++ [p]) Pop (frame t) (msgs t) (lost t) else go Wait t
      | [] => t
      end
  | Pop => go Popping t
  | Popping => go Push t
  | Push => go Pushing t
  | Pushing => go Pick t
  end.

Definition line_step (e : event) (t : line) : line :=
  match e with
  | Node bs => poll (arrive (packet (frame t) bs 0 0) t)
  | FrameEnd bs flen =>
      let t := if zlen bs =? 0 then t else poll (arrive (packet (frame t) bs 1 (packet_count flen N)) t) in
      poll (next_frame t)
  | Thread answer => line_thread answer t
  | Stop => t
  end.

Definition line_run (es : list event) (t : line) : line := foldl (fun t e => line_step e t) t es.

Definition line_start : line := mk_line [] [] Wait 0 0 0.

(** No interrupt brings bytes while the thread is inside a call of the list
    library. *)
Definition disturbs (e : event) (w : stage) : bool :=
  match e, w with
  | (Node bs | FrameEnd bs _), (Popping | Pushing) => negb (zlen bs =? 0)
  | _, _ => false
  end.

Fixpoint undisturbed (es : list event) (t : line) : bool :=
  match es with
  | [] => true
  | e :: es' => negb (disturbs e (at_ t)) && undisturbed es' (line_step e t)
  end.

(** A setup the buffers are made for. *)
Record line_ok : Prop := {
  lk_send : send_func setup = true;
  lk_node : 0 < N;
  lk_fits : N + header_size <= TVIDEO_RXNODE_SIZE;
  lk_header : forall p, zlen (header p) = header_size
}.

(** What the engine does: nodes are full, and the rest of a frame is shorter
    than a node. *)
Definition event_ok (e : event) : Prop :=
  match e with
  | Node bs => zlen bs = N
  | FrameEnd bs _ => zlen bs < N
  | Thread _ => True
  | Stop => False
  end.
End Line.

(* ------------------------------------------------------------------ *)
(** ** The line implements it *)

Section Stream.
Context {L : Type} `{CoLists L}.
Context (setup : TVIDEO_SETUP_DESC_ST).
Abbreviation n := (N setup).

Definition packet_at (m : list Z) (es : list TVIDEO_ELEM_ST) (i : Z) : list Z :=
  match es !! Z.to_nat i with Some e => slice m (buf_start e) (buf_len e) | None => [] end.

Definition ready (s : video L) : list Z := elems (lists (tvideo_pool s)) Ready.
Definition free (s : video L) : list Z := elems (lists (tvideo_pool s)) Free.
Definition held (s : video L) : list Z := match thread s with T_push i | T_pushing i => [i] | _ => [] end.

(** The nodes whose packets the network has not taken. *)
Definition unsent (s : video L) : list Z := match thread s with T_pop _ | T_popping _ => tail (ready s) | _ => ready s end.

Definition pending (s : video L) : list (list Z) :=
  match pool (tvideo_pool s) with Some m => map (packet_at m (elem (tvideo_pool s))) (unsent s) | None => [] end.

Definition staged (s : video L) (w : stage) : Prop :=
  match thread s, w with
  | T_wait, Wait | T_pick, Pick | T_push _, Push | T_pushing _, Pushing => True
  | T_send i, Send | T_pop i, Pop | T_popping i, Popping => head (ready s) = Some i
  | _, _ => False
  end.

Record elems_wf (es : list TVIDEO_ELEM_ST) : Prop := {
  ew_length : length es = 25%nat;
  ew_node : forall i e, 0 <= i -> es !! Z.to_nat i = Some e -> buf_start e = i * 1472 /\ 0 <= buf_len e <= 1472
}.

Record sim (s : video L) (t : line) : Prop := {
  sm_pool : exists m, pool (tvideo_pool s) = Some m /\ zlen m = TVIDEO_POOL_LEN;
  sm_queue : queue t = pending s;
  sm_elems : elems_wf (elem (tvideo_pool s));
  sm_nodes : free s ++ ready s ++ held s ≡ₚ seqZ 0 25;
  sm_stage : staged s (at_ t);
  sm_frame : frame_id (tvideo_pool s) = frame t;
  sm_header : pkt_header_size (tvideo_pool s) = header_size setup;
  sm_desc : node_len (tvideo_st s) = n;
  sm_que : tvideo_msg_que s = Some (replicate (msgs t) TV_INT_POLL);
  sm_msgs : (msgs t <= 60)%nat;
  sm_sent : sent s = taken t
}.

(** The engine and its reader, in step. *)
Record camera_wf (s : video L) : Prop := {
  cw_open : ejpeg_hdl s = true;
  cw_cfg : rxbuf_len (ejpeg_cfg s) = 4 * n /\ node_len (ejpeg_cfg s) = n;
  cw_read : exists k, 0 <= k < 4 /\ rx_read_len (ejpeg_cfg s) = k * n;
  cw_pos : dma_pos s = rx_read_len (ejpeg_cfg s);
  cw_buf : zlen (tvideo_rxbuf s) = TVIDEO_RXBUF_LEN
}.

Definition same_camera (s s' : video L) : Prop :=
  ejpeg_hdl s' = ejpeg_hdl s /\ ejpeg_cfg s' = ejpeg_cfg s /\ dma_pos s' = dma_pos s /\ tvideo_rxbuf s' = tvideo_rxbuf s.

Lemma send_msg_sim s t : sim s t -> sim (tvideo_intfer_send_msg TV_INT_POLL s) (poll t).
Proof.
  intros S. unfold tvideo_intfer_send_msg. rewrite (sm_que s t S). unfold zlen, TV_QITEM_COUNT. rewrite length_replicate.
  replace (Z.of_nat (msgs t) <? 60) with (msgs t <? 60)%nat by (apply eq_true_iff_eq; rewrite Nat.ltb_lt, Z.ltb_lt; lia).
  unfold poll. destruct (Nat.ltb_spec (msgs t) 60) as [Hl|Hl]; destruct S; split; try done.
  cbn [tvideo_msg_que set_que msgs]. by rewrite <- replicate_S_end.
Qed.

Lemma same_camera_send s msg : same_camera s (tvideo_intfer_send_msg msg s).
Proof. unfold tvideo_intfer_send_msg. destruct (tvideo_msg_que s) as [q|]; [|done]. by destruct (_ <? _). Qed.
Lemma tvideo_pool_send (s : video L) msg : tvideo_pool (tvideo_intfer_send_msg msg s) = tvideo_pool s.
Proof. unfold tvideo_intfer_send_msg. destruct (tvideo_msg_que s) as [q|]; [|done]. by destruct (_ <? _). Qed.

(** *** Nodes *)

Lemma zlen_map {A B} (f : A -> B) (l : list A) : zlen (map f l) = zlen l.
Proof. unfold zlen. by rewrite length_map. Qed.

Lemma occupied_free s t : sim s t -> occupied t = 25 - zlen (free s).
Proof.
  intros S. pose proof (Permutation_length (sm_nodes s t S)) as E. rewrite !length_app in E.
  change (length (seqZ 0 25)) with 25%nat in E. destruct (sm_pool s t S) as (m & Em & _). pose proof (sm_stage s t S) as Hs.
  unfold occupied. rewrite (sm_queue s t S). unfold pending. rewrite Em, zlen_map. unfold unsent, held, staged, zlen in *.
  destruct (thread s), (at_ t); try done; cbn [length] in *; try lia.
  all: destruct (ready s); [done|]; cbn [length tail] in *; lia.
Qed.

Lemma nodes_distinct s t : sim s t -> NoDup (free s ++ ready s ++ held s).
Proof. intros S. rewrite (sm_nodes s t S). apply NoDup_seqZ. Qed.

Lemma node_range s t i : sim s t -> i ∈ free s ++ ready s ++ held s -> 0 <= i < 25.
Proof. intros S Hi. rewrite (sm_nodes s t S), elem_of_seqZ in Hi. lia. Qed.

Lemma node_elem s t i : sim s t -> 0 <= i < 25 ->
  exists e, aget (elem (tvideo_pool s)) i = Done e /\ elem (tvideo_pool s) !! Z.to_nat i = Some e /\ buf_start e = i * 1472 /\ 0 <= buf_len e <= 1472.
Proof.
  intros S Hi. destruct (sm_elems s t S) as [Hl Hn].
  destruct (lookup_lt_is_Some_2 (elem (tvideo_pool s)) (Z.to_nat i)) as [e Ee]; [lia|].
  exists e. split_and!; [apply aget_in; [lia|done]|done|apply (Hn i e); [lia|done]..].
Qed.

(** Moving the first free node to the back of the ready list. *)
Lemma take_node (l : L) i rest :
  elems l Free = i :: rest -> i ∉ rest -> i ∉ elems l Ready ->
  let l' := co_list_push_back Ready i (co_list_pop_front Free l) in
  elems l' Free = rest /\ elems l' Ready = elems l Ready ++ [i].
Proof.
  intros Ef Hr Hy l'. unfold l'.
  assert (Hout : forall v, i ∉ elems (co_list_pop_front Free l) v).
  { intros []; [by rewrite elems_pop, Ef|by rewrite elems_pop_other]. }
  split; [by rewrite elems_push_other, elems_pop, Ef by done|by rewrite elems_push, elems_pop_other by done].
Qed.

Lemma packet_at_other m es i j e' src :
  elems_wf es -> zlen m = TVIDEO_POOL_LEN -> 0 <= i < 25 -> 0 <= j < 25 -> i <> j -> zlen src <= 1472 ->
  packet_at (splice m (i * 1472) src) (<[Z.to_nat i := e']> es) j = packet_at m es j.
Proof.
  intros [Hl Hn] Hm Hi Hj Hij Hs. unfold packet_at. rewrite list_lookup_insert_ne by lia.
  destruct (es !! Z.to_nat j) as [e|] eqn:Ee; [|done]. destruct (Hn j e) as [-> Hb]; [lia|done|].
  pose proof (zlen_nonneg src). unfold TVIDEO_POOL_LEN, TVIDEO_RXNODE_SIZE, TVIDEO_RXNODE_SIZE_UDP in Hm.
  destruct (Z.lt_ge_cases j i); [apply slice_splice_before; lia|apply slice_splice_after; lia].
Qed.

Lemma packet_at_new m es i src :
  elems_wf es -> zlen m = TVIDEO_POOL_LEN -> 0 <= i < 25 -> zlen src <= 1472 ->
  packet_at (splice m (i * 1472) src) (<[Z.to_nat i := mk_elem (i * 1472) (zlen src)]> es) i = src.
Proof.
  intros [Hl Hn] Hm Hi Hs. unfold packet_at. rewrite list_lookup_insert_eq by lia. cbn [buf_start buf_len].
  pose proof (zlen_nonneg src). unfold TVIDEO_POOL_LEN, TVIDEO_RXNODE_SIZE, TVIDEO_RXNODE_SIZE_UDP in Hm.
  apply slice_splice_same; lia.
Qed.

Lemma elems_wf_insert es i len :
  elems_wf es -> 0 <= i -> 0 <= len <= 1472 -> elems_wf (<[Z.to_nat i := mk_elem (i * 1472) len]> es).
Proof.
  intros [Hl Hn] Hi Hlen. split; [by rewrite length_insert|]. intros j e Hj He.
  destruct (decide (i = j)) as [->|Hne].
  - rewrite list_lookup_insert_Some in He. destruct He as [(_ & <- & _)|[Hd _]]; [by split|done].
  - rewrite list_lookup_insert_ne in He by lia. by apply Hn.
Qed.

Lemma write_packet m off p bs :
  line_ok setup -> 0 <= off -> off + header_size setup + zlen bs <= zlen m ->
  (m' ← match add_pkt_header setup with Some hdr => mem_write m off (hdr p) | None => Done m end;
   mem_write m' (off + header_size setup) bs) = Done (splice m off (header setup p ++ bs)).
Proof.
  intros K Ho Hb. pose proof (lk_header setup K p) as Hh. pose proof (zlen_nonneg bs). unfold header in *.
  destruct (add_pkt_header setup) as [hdr|].
  - pose proof (zlen_nonneg (hdr p)).
    rewrite mem_write_in by lia. cbn [mbind outcome_bind]. rewrite mem_write_in by (rewrite ?zlen_splice; lia).
    rewrite <- Hh. by rewrite splice_splice_next by lia.
  - rewrite zlen_nil in Hh. cbn [mbind outcome_bind]. rewrite <- Hh, Z.add_0_r. cbn [app]. apply mem_write_in; lia.
Qed.
(** *** The interrupts *)

Lemma sim_lost s t p : sim s t -> free s = [] -> sim s (arrive p t).
Proof.
  intros S Ef. unfold arrive. rewrite (occupied_free s t S), Ef. change (25 - zlen []) with 25.
  change (25 <? 25) with false. by destruct S; split.
Qed.

(** A node of the free list gets a packet and joins the ready ones. *)
Lemma sim_arrive s t i rest pkt m :
  sim s t -> free s = i :: rest -> zlen pkt <= 1472 -> pool (tvideo_pool s) = Some m -> zlen m = TVIDEO_POOL_LEN ->
  let p := tvideo_pool s in
  sim (set_pool (mk_pool (Some (splice m (i * 1472) pkt)) (<[Z.to_nat i := mk_elem (i * 1472) (zlen pkt)]> (elem p))
         (co_list_push_back Ready i (co_list_pop_front Free (lists p))) (send_type p) (frame_id p) (pkt_header_size p)) s)
      (arrive pkt t).
Proof.
  intros S Ef Hp Em Hm p. pose proof (nodes_distinct s t S) as Hnd. pose proof (occupied_free s t S) as Ho.
  pose proof (sm_nodes s t S) as Hperm. rewrite Ef in Hnd, Ho, Hperm. rewrite zlen_cons in Ho. cbn [app] in Hnd.
  apply NoDup_cons in Hnd. destruct Hnd as [Hi Hnd]. rewrite !elem_of_app in Hi.
  assert (Hr : 0 <= i < 25) by (apply (node_range s t i S); rewrite Ef; set_solver).
  destruct (take_node (lists p) i rest) as [E1 E2]; [done|tauto|unfold ready in Hi; tauto|]. fold (ready s) in E2.
  pose proof (sm_stage s t S) as Hst. pose proof (sm_elems s t S) as Hwf.
  assert (Hkeep : forall l, (forall j, j ∈ l -> j ∈ ready s) ->
    map (packet_at (splice m (i * 1472) pkt) (<[Z.to_nat i := mk_elem (i * 1472) (zlen pkt)]> (elem p))) l =
    map (packet_at m (elem p)) l).
  { intros l Hl. apply map_ext_in. intros j Hj%list_elem_of_In%Hl.
    apply packet_at_other; try done; [apply (node_range s t j S); set_solver|set_solver]. }
  assert (Hnew : packet_at (splice m (i * 1472) pkt) (<[Z.to_nat i := mk_elem (i * 1472) (zlen pkt)]> (elem p)) i = pkt)
    by by apply packet_at_new.
  unfold arrive. rewrite (proj2 (Z.ltb_lt (occupied t) 25)) by (pose proof (zlen_nonneg rest); lia).
  assert (Hun : match thread s with T_pop _ | T_popping _ => tail (ready s ++ [i]) | _ => ready s ++ [i] end = unsent s ++ [i]).
  { unfold unsent, staged in *. destruct (thread s); try done; (destruct (ready s); [by destruct (at_ t)|done]). }
  assert (Hsub : forall j, j ∈ unsent s -> j ∈ ready s).
  { unfold unsent. intros j. destruct (thread s), (ready s); cbn; set_solver. }
  subst p. destruct S; split; cbn; try done.
  - exists (splice m (i * 1472) pkt). split; [done|]. rewrite zlen_splice; [done|lia|].
    unfold TVIDEO_POOL_LEN, TVIDEO_RXNODE_SIZE, TVIDEO_RXNODE_SIZE_UDP in Hm. lia.
  - rewrite sm_queue0. unfold pending at 1. rewrite Em. unfold pending. cbn [pool tvideo_pool set_pool elem]. rewrite <- (Hkeep (unsent s) Hsub).
    unfold unsent at 2, ready. cbn. rewrite E2. fold (ready s). rewrite Hun, map_app. cbn. by rewrite Hnew.
  - apply elems_wf_insert; [done|lia|]. pose proof (zlen_nonneg pkt). lia.
  - unfold free, ready, held in *. cbn. rewrite E1, E2, <- Hperm. cbn. solve_Permutation.
  - unfold staged, ready in *. cbn. rewrite E2. destruct (thread s), (at_ t); try done;
      by destruct (elems (lists (tvideo_pool s)) Ready).
Qed.
Lemma use_list_free (s : video L) w : in_call (thread s) = None -> use_list w s = Done tt.
Proof. intros E. unfold use_list. by rewrite E. Qed.

Lemma rx_handler_sim s t cur bs eof flen :
  line_ok setup -> sim s t -> in_call (thread s) = None -> mem_read (tvideo_rxbuf s) cur (zlen bs) = Done bs -> 0 < zlen bs <= n ->
  exists s', tvideo_rx_handler setup cur (zlen bs) eof flen s = Done s' /\ same_camera s s' /\
    sim s' (poll (arrive (packet setup (frame t) bs eof (if eof =? 0 then 0 else packet_count flen n)) t)).
Proof.
  intros K S Hc Er Hb. unfold tvideo_rx_handler. rewrite (proj2 (Z.eqb_neq (zlen bs) 0)) by lia.
  rewrite !(use_list_free s _ Hc), pick_head. cbn [mbind outcome_bind]. fold (free s). rewrite (sm_desc s t S), (proj2 (Z.ltb_ge n (zlen bs))) by lia.
  destruct (free s) as [|i rest] eqn:Ef; cbn [head mbind outcome_bind].
  { eexists. split; [reflexivity|]. split; [apply same_camera_send|]. apply send_msg_sim. by apply sim_lost. }
  assert (Hi : 0 <= i < 25) by (apply (node_range s t i S); rewrite Ef; set_solver).
  destruct (node_elem s t i S Hi) as (e & Ee & El & Es & _). rewrite Ee. cbn [mbind outcome_bind].
  set (cnt := if eof =? 0 then 0 else packet_count flen n).
  assert (Ec : (if eof =? 0 then Done 0 else if n =? 0 then Wild else Done (packet_count flen n)) = Done cnt).
  { unfold cnt. destruct (eof =? 0); [done|]. by rewrite (proj2 (Z.eqb_neq n 0)) by lia. }
  rewrite Ec. destruct (sm_pool s t S) as (m & Em & Hm). rewrite Em. cbn [mbind outcome_bind deref].
  rewrite (sm_header s t S), (sm_frame s t S), Es, Er. cbn [mbind outcome_bind].
  pose proof (lk_header setup K (mk_hdr (zlen bs) (frame t) eof cnt)) as Hh. pose proof (zlen_nonneg (header setup (mk_hdr (zlen bs) (frame t) eof cnt))).
  pose proof (lk_fits setup K) as Hfit. unfold TVIDEO_POOL_LEN, TVIDEO_RXNODE_SIZE, TVIDEO_RXNODE_SIZE_UDP in *.
  pose proof (write_packet m (i * 1472) (mk_hdr (zlen bs) (frame t) eof cnt) bs K ltac:(lia) ltac:(lia)) as Ew.
  destruct (match add_pkt_header setup with Some _ => _ | None => _ end) as [m'| | |]; try discriminate Ew.
  cbn [mbind outcome_bind] in *. rewrite Ew. cbn [mbind outcome_bind].
  rewrite aset_in by (pose proof (ew_length _ (sm_elems s t S)); unfold zlen; lia). cbn [mbind outcome_bind].
  eexists. split; [reflexivity|]. split.
  { exact (same_camera_send (set_pool _ s) TV_INT_POLL). }
  apply send_msg_sim. fold (packet setup (frame t) bs eof cnt).
  assert (Hz : zlen (packet setup (frame t) bs eof cnt) = zlen bs + header_size setup) by (unfold packet; rewrite zlen_app; lia).
  rewrite u32_small by lia. rewrite <- Hz, <- (sm_header s t S).
  pose proof (sim_arrive s t i rest (packet setup (frame t) bs eof cnt) m S Ef ltac:(lia) Em Hm) as A. cbv zeta in A.
  by rewrite (sm_frame s t S) in A.
Qed.

(** *** The engine and its reader *)

Lemma sim_camera s t h d pos : sim s t -> sim (set_camera h d pos s) t.
Proof. by intros []; split. Qed.

Lemma sim_rxbuf s t m pos : sim s t -> sim (set_rxbuf m pos s) t.
Proof. by intros []; split. Qed.

(** What the engine writes is what the reader finds. *)
Lemma engine_run s bs :
  line_ok setup -> camera_wf s -> zlen bs <= n ->
  exists m, engine_write bs s = Done (set_rxbuf m (if 4 * n <=? dma_pos s + zlen bs then 0 else dma_pos s + zlen bs) s) /\
    zlen m = TVIDEO_RXBUF_LEN /\ mem_read m (rx_read_len (ejpeg_cfg s)) (zlen bs) = Done bs.
Proof.
  intros K [Ho [Hc1 Hc2] (k & Hk & Hr) Hp Hm] Hb. unfold engine_write. rewrite Hc1, Hp, Hr in *.
  pose proof (lk_fits setup K) as Hfit. pose proof (lk_node setup K). pose proof (zlen_nonneg bs).
  pose proof (zlen_nonneg (header setup (mk_hdr 0 0 0 0))) as Hh. rewrite (lk_header setup K) in Hh.
  unfold TVIDEO_RXBUF_LEN, TVIDEO_RXNODE_SIZE, TVIDEO_RXNODE_SIZE_UDP in *.
  assert (k * n + zlen bs <= 1472 * 4) by nia.
  rewrite mem_write_in by nia. cbn [mbind outcome_bind]. exists (splice (tvideo_rxbuf s) (k * n) bs).
  split; [done|]. split; [rewrite zlen_splice; nia|].
  rewrite mem_read_in by (rewrite ?zlen_splice; nia). f_equal. apply slice_splice_same; nia.
Qed.

Lemma node_small : line_ok setup -> u16 n = n /\ 0 < n <= 1472.
Proof.
  intros K. pose proof (lk_fits setup K) as Hfit. pose proof (lk_node setup K).
  pose proof (zlen_nonneg (header setup (mk_hdr 0 0 0 0))) as Hh. rewrite (lk_header setup K) in Hh.
  unfold TVIDEO_RXNODE_SIZE, TVIDEO_RXNODE_SIZE_UDP in *. split; [apply u16_small|]; lia.
Qed.

Lemma undisturbed_thread s t e bs :
  sim s t -> disturbs e (at_ t) = false -> (e = Node bs \/ exists flen, e = FrameEnd bs flen) -> 0 < zlen bs ->
  in_call (thread s) = None.
Proof.
  intros S Hd He Hb. pose proof (sm_stage s t S) as Hs. unfold staged in Hs.
  assert (Hn : negb (zlen bs =? 0) = true) by (apply negb_true_iff, Z.eqb_neq; lia).
  destruct (thread s); try done; destruct (at_ t); try done; unfold disturbs in Hd;
    destruct He as [-> | [flen ->]]; by rewrite Hn in Hd.
Qed.

Lemma node_sim s t bs :
  line_ok setup -> sim s t -> camera_wf s -> zlen bs = n -> disturbs (Node bs) (at_ t) = false ->
  exists s', node_interrupt setup bs s = Done s' /\ sim s' (line_step setup (Node bs) t) /\ camera_wf s'.
Proof.
  intros K S C Hb Hd. destruct (node_small K) as [Hn Hn2].
  assert (Hic : in_call (thread s) = None) by (apply (undisturbed_thread s t (Node bs) bs S Hd); [by left|lia]).
  destruct (engine_run s bs K C) as (m & Ew & Hm & Er); [lia|].
  destruct C as [Ho [Hc1 Hc2] (k & Hk & Hr) Hp _]. unfold node_interrupt. rewrite Ho, Ew. cbn [mbind outcome_bind].
  set (s1 := set_rxbuf m _ s). unfold camera_intf_ejpeg_rx_handler.
  change (ejpeg_hdl s1) with (ejpeg_hdl s). change (ejpeg_cfg s1) with (ejpeg_cfg s). rewrite Ho. cbn [negb].
  rewrite Hc2, Hn, <- Hb.
  destruct (rx_handler_sim s1 t (rx_read_len (ejpeg_cfg s)) bs 0 0 K) as (s2 & E & (Q1 & Q2 & Q3 & Q4) & S2);
    [by apply sim_rxbuf|done|done|lia|].
  rewrite E. cbn [mbind outcome_bind]. eexists. split; [reflexivity|]. split; [by apply sim_camera|].
  rewrite Q1, Q2, Q3 in *. cbn in Q4. change (ejpeg_cfg s1) with (ejpeg_cfg s). change (ejpeg_hdl s1) with (ejpeg_hdl s).
  unfold s1. cbn [dma_pos set_rxbuf]. rewrite Hp, Hr, Hc1, Hb.
  assert (Hk4 : k * n + n <= 4 * n) by nia. rewrite (u16_small (k * n + n)) by nia.
  split; cbn; [done|done| |done|by rewrite Q4].
  destruct (Z.leb_spec (4 * n) (k * n + n)) as [Hle|Hlt]; [by exists 0|]. exists (k + 1). split; [nia|lia].
Qed.

Lemma end_frame_sim s t : sim s t -> sim (tvideo_end_frame_handler s) (poll (next_frame t)).
Proof.
  intros S. apply send_msg_sim. destruct S; split; try done. cbn. by rewrite sm_frame0.
Qed.

Lemma frame_sim s t bs flen :
  line_ok setup -> sim s t -> camera_wf s -> zlen bs < n -> disturbs (FrameEnd bs flen) (at_ t) = false ->
  exists s', frame_interrupt setup bs flen s = Done s' /\ sim s' (line_step setup (FrameEnd bs flen) t) /\ camera_wf s'.
Proof.
  intros K S C Hb Hd. destruct (engine_run s bs K C) as (m & Ew & Hm & Er); [lia|].
  destruct C as [Ho [Hc1 Hc2] _ _ _]. unfold frame_interrupt. rewrite Ho, Ew. cbn [mbind outcome_bind].
  set (s1 := set_rxbuf m _ s). unfold camera_intf_delay_timer_hdl.
  change (ejpeg_hdl s1) with (ejpeg_hdl s). change (ejpeg_cfg s1) with (ejpeg_cfg s). rewrite Ho, Hc2. cbn [negb].
  replace (n - (n - zlen bs)) with (zlen bs) by lia.
  assert (Hx : exists s2, (if 0 <? zlen bs then tvideo_rx_handler setup (rx_read_len (ejpeg_cfg s)) (zlen bs) 1 flen s1
      else Done s1) = Done s2 /\ same_camera s1 s2 /\
    sim s2 (if zlen bs =? 0 then t else poll (arrive (packet setup (frame t) bs 1 (packet_count flen n)) t))).
  { pose proof (zlen_nonneg bs). destruct (Z.ltb_spec 0 (zlen bs)) as [Hlt|Hle].
    - rewrite (proj2 (Z.eqb_neq (zlen bs) 0)) by lia. apply (rx_handler_sim s1 t _ bs 1 flen);
        [done|by apply sim_rxbuf| |done|lia]. apply (undisturbed_thread s t _ bs S Hd); [|done]. right. by exists flen.
    - replace (zlen bs) with 0 by lia. exists s1. split; [done|]. split; [done|]. by apply sim_rxbuf. }
  destruct Hx as (s2 & -> & (Q1 & Q2 & _ & Q4) & S2). cbn [mbind outcome_bind].
  eexists. split; [reflexivity|]. split; [by apply end_frame_sim, sim_camera|].
  rewrite Q1, Q2. change (ejpeg_cfg s1) with (ejpeg_cfg s). change (ejpeg_hdl s1) with (ejpeg_hdl s).
  set (s3 := set_camera _ _ _ _).
  assert (C3 : camera_wf s3).
  { split; unfold s3; cbn; [done|done|by exists 0|done|]. by rewrite Q4. }
  unfold tvideo_end_frame_handler.
  destruct (same_camera_send (set_pool (mk_pool (pool (tvideo_pool s3)) (elem (tvideo_pool s3)) (lists (tvideo_pool s3))
    (send_type (tvideo_pool s3)) (u16 (frame_id (tvideo_pool s3) + 1)) (pkt_header_size (tvideo_pool s3))) s3) TV_INT_POLL)
    as (R1 & R2 & R3 & R4).
  destruct C3. split; rewrite ?R1, ?R2, ?R3, ?R4; done.
Qed.
(** *** The thread *)

Lemma sim_go s t w ph :
  sim s t -> unsent (set_thread ph s) = unsent s -> held (set_thread ph s) = held s -> staged (set_thread ph s) w ->
  sim (set_thread ph s) (go w t).
Proof.
  intros [] Hu Hh Hst. split; try done.
  - cbn [go queue]. rewrite sm_queue0. unfold pending. by rewrite Hu.
  - by rewrite Hh.
Qed.

Lemma pending_run s t i q :
  sim s t -> unsent s = i :: q -> 0 <= i < 25 ->
  exists m e, pool (tvideo_pool s) = Some m /\ aget (elem (tvideo_pool s)) i = Done e /\
    mem_read m (buf_start e) (buf_len e) = Done (packet_at m (elem (tvideo_pool s)) i) /\
    buf_len e = zlen (packet_at m (elem (tvideo_pool s)) i) /\
    pending s = packet_at m (elem (tvideo_pool s)) i :: map (packet_at m (elem (tvideo_pool s))) q.
Proof.
  intros S Hu Hi. destruct (sm_pool s t S) as (m & Em & Hm). destruct (node_elem s t i S Hi) as (e & Ee & El & Es & Hl).
  unfold TVIDEO_POOL_LEN, TVIDEO_RXNODE_SIZE, TVIDEO_RXNODE_SIZE_UDP in Hm.
  exists m, e. unfold pending. rewrite Em, Hu. unfold packet_at at 1 2. rewrite El.
  split_and!; [done|done|apply mem_read_in; lia|symmetry; apply zlen_slice; lia|done].
Qed.

Lemma ready_range s t i q : sim s t -> ready s = i :: q -> 0 <= i < 25.
Proof. intros S E. apply (node_range s t i S). rewrite E. set_solver. Qed.

Lemma pick_sim s t a sdram :
  line_ok setup -> sim s t -> thread s = T_pick ->
  exists s', thread_step setup sdram true a s = Done s' /\ sim s' (line_thread a t) /\ same_camera s s'.
Proof.
  intros K S Et. pose proof (sm_stage s t S) as Hst. unfold staged in Hst. rewrite Et in Hst.
  unfold thread_step, line_thread. rewrite Et. destruct (at_ t); try done. rewrite pick_head. fold (ready s).
  rewrite (lk_send setup K). destruct (sm_pool s t S) as (m & Em & _).
  assert (Hq : queue t = map (packet_at m (elem (tvideo_pool s))) (ready s)).
  { rewrite (sm_queue s t S). unfold pending. rewrite Em. unfold unsent. by rewrite Et. }
  destruct (ready s) as [|i q] eqn:Er; rewrite Hq; cbn [head map]; eexists; (split; [reflexivity|]; split; [|done]);
    apply sim_go; try done; unfold unsent, held, staged, ready in *; cbn; by rewrite ?Et, ?Er.
Qed.

Lemma send_sim s t a i sdram :
  sim s t -> thread s = T_send i ->
  exists s', thread_step setup sdram true a s = Done s' /\ sim s' (line_thread a t) /\ same_camera s s'.
Proof.
  intros S Et. pose proof (sm_stage s t S) as Hst. unfold staged in Hst. rewrite Et in Hst.
  unfold thread_step, line_thread. rewrite Et. destruct (at_ t); try done.
  destruct (ready s) as [|j q] eqn:Er; [done|]. injection Hst as ->.
  assert (Hu : unsent s = i :: q) by (unfold unsent; by rewrite Et).
  destruct (pending_run s t i q S Hu (ready_range s t i q S Er)) as (m & e & Em & Ee & Ed & El & Ep).
  rewrite Ee, Em. cbn [mbind outcome_bind deref]. rewrite Ed. cbn [mbind outcome_bind].
  rewrite (sm_queue s t S), Ep, <- El. destruct (a =? buf_len e).
  - eexists. split; [reflexivity|]. split; [|done]. destruct S; split; try done.
    + cbn [queue]. unfold pending. cbn. rewrite Em. unfold unsent. cbn. unfold ready in *. cbn. by rewrite Er.
    + cbn. unfold free, ready, held in *. cbn. by rewrite Et in sm_nodes0.
    + unfold staged, ready in *. cbn. by rewrite Er.
    + cbn. by rewrite sm_sent0.
  - eexists. split; [reflexivity|]. split; [|done]. apply sim_go; try done; unfold unsent, held; cbn; by rewrite Et.
Qed.

(** Entering a call of the list library changes nothing yet. *)
Lemma enter_sim s t a i sdram :
  sim s t -> thread s = T_pop i \/ thread s = T_push i ->
  exists s', thread_step setup sdram true a s = Done s' /\ sim s' (line_thread a t) /\ same_camera s s'.
Proof.
  intros S Et. pose proof (sm_stage s t S) as Hst. unfold staged in Hst. unfold thread_step, line_thread.
  destruct Et as [Et|Et]; rewrite Et in Hst |- *; destruct (at_ t); try done;
    eexists; (split; [reflexivity|]; split; [|done]);
    apply sim_go; try done; unfold unsent, held; cbn; by rewrite Et.
Qed.

Lemma pop_sim s t a i sdram :
  sim s t -> thread s = T_popping i ->
  exists s', thread_step setup sdram true a s = Done s' /\ sim s' (line_thread a t) /\ same_camera s s'.
Proof.
  intros S Et. pose proof (sm_stage s t S) as Hst. unfold staged in Hst. rewrite Et in Hst.
  unfold thread_step, line_thread. rewrite Et. destruct (at_ t); try done.
  destruct (ready s) as [|j q] eqn:Er; [done|]. injection Hst as ->.
  eexists. split; [reflexivity|]. split; [|done]. unfold ready in Er. destruct S; split; try done.
  - cbn [queue go]. rewrite sm_queue0. unfold pending. cbn. unfold unsent, ready. cbn. rewrite Et, elems_pop. done.
  - unfold free, ready, held in *. cbn. rewrite Et in sm_nodes0. rewrite elems_pop, elems_pop_other by done.
    rewrite <- sm_nodes0, Er. cbn. solve_Permutation.
Qed.

Lemma push_sim s t a i sdram :
  sim s t -> thread s = T_pushing i ->
  exists s', thread_step setup sdram true a s = Done s' /\ sim s' (line_thread a t) /\ same_camera s s'.
Proof.
  intros S Et. pose proof (sm_stage s t S) as Hst. unfold staged in Hst. rewrite Et in Hst.
  pose proof (nodes_distinct s t S) as Hnd. unfold held in Hnd. rewrite Et in Hnd.
  unfold thread_step, line_thread. rewrite Et. destruct (at_ t); try done.
  assert (Hout : forall v, i ∉ elems (lists (tvideo_pool s)) v).
  { rewrite app_assoc in Hnd. apply NoDup_app in Hnd. destruct Hnd as (_ & Hnd & _).
    intros v Hv. apply (Hnd i); [|set_solver]. apply elem_of_app. destruct v; [by left|by right]. }
  eexists. split; [reflexivity|]. split; [|done]. destruct S; split; try done.
  - cbn [queue go]. rewrite sm_queue0. unfold pending. cbn. unfold unsent, ready. cbn. by rewrite Et, elems_push_other.
  - unfold free, ready, held in *. cbn. rewrite Et in sm_nodes0. rewrite elems_push, elems_push_other by done.
    rewrite <- sm_nodes0. cbn. solve_Permutation.
Qed.

Lemma wait_sim s t a sdram :
  sim s t -> thread s = T_wait ->
  exists s', thread_step setup sdram true a s = Done s' /\ sim s' (line_thread a t) /\ same_camera s s'.
Proof.
  intros S Et. pose proof (sm_stage s t S) as Hst. unfold staged in Hst. rewrite Et in Hst.
  unfold thread_step, line_thread. rewrite Et. destruct (at_ t) eqn:Ea; try done. rewrite (sm_que s t S).
  destruct (msgs t) as [|k] eqn:Em; cbn [replicate]; eexists; (split; [reflexivity|]); [by split|]. split; [|done].
  change (TV_INT_POLL =? TV_INT_POLL) with true. cbn beta iota.
  destruct S; split; try done; try (cbn; lia).
  - cbn [queue]. rewrite sm_queue0. unfold pending. cbn. unfold unsent, ready. cbn. by rewrite Et.
  - unfold free, ready, held in *. cbn. by rewrite Et in sm_nodes0.
Qed.

Lemma step_sim s t e sdram :
  line_ok setup -> sim s t -> camera_wf s -> event_ok setup e -> disturbs e (at_ t) = false ->
  exists s', step setup sdram true e s = Done s' /\ sim s' (line_step setup e t) /\ camera_wf s'.
Proof.
  intros K S C He Hd. destruct e as [bs|bs flen|a|]; [by apply node_sim|by apply frame_sim| |done].
  assert (Hs : exists s', thread_step setup sdram true a s = Done s' /\ sim s' (line_thread a t) /\ same_camera s s').
  { pose proof (sm_stage s t S) as Hst. unfold staged in Hst. destruct (thread s) eqn:Et; try done.
    - by apply wait_sim.
    - by apply pick_sim.
    - by apply (send_sim s t a e).
    - apply (enter_sim s t a e); [done|by left].
    - by apply (pop_sim s t a e).
    - apply (enter_sim s t a e); [done|by right].
    - by apply (push_sim s t a e). }
  destruct Hs as (s' & E & S' & R1 & R2 & R3 & R4). exists s'. split; [done|]. split; [done|].
  destruct C. split; rewrite ?R1, ?R2, ?R3, ?R4; done.
Qed.

Lemma run_sim sdram es : forall s t,
  line_ok setup -> sim s t -> camera_wf s -> Forall (event_ok setup) es -> undisturbed setup es t = true ->
  exists s', run setup sdram true es s = Done s' /\ sim s' (line_run setup es t) /\ camera_wf s'.
Proof.
  induction es as [|e es IH]; intros s t K S C Hes Hu; [by exists s|].
  inversion_clear Hes as [|? ? He Hr]. cbn in Hu. apply andb_true_iff in Hu. destruct Hu as [Hd%negb_true_iff Hu].
  destruct (step_sim s t e sdram K S C He Hd) as (s1 & E & S1 & C1).
  cbn [run]. rewrite E. cbn [mbind outcome_bind]. by apply IH.
Qed.
(** *** The start *)

Lemma push_all nodes : forall l,
  NoDup nodes -> (forall i v, i ∈ nodes -> i ∉ elems l v) ->
  let l' := foldl (fun l i => co_list_push_back Free i l) l nodes in
  elems l' Free = elems l Free ++ nodes /\ elems l' Ready = elems l Ready.
Proof.
  induction nodes as [|i nodes IH]; intros l Hnd Hout; cbn [foldl]; [by rewrite app_nil_r|].
  apply NoDup_cons in Hnd. destruct Hnd as [Hi Hnd].
  assert (Hp : forall v, i ∉ elems l v) by (intros v; apply Hout; set_solver).
  destruct (IH (co_list_push_back Free i l) Hnd) as [E1 E2].
  { intros j v Hj. destruct v; [rewrite elems_push by done|rewrite elems_push_other by done];
      [rewrite elem_of_app, list_elem_of_singleton; intros [Hx| ->]; [|done]; revert Hx|]; apply Hout; set_solver. }
  rewrite E1, E2, elems_push, elems_push_other by done. by rewrite <- app_assoc.
Qed.

Lemma start_sim s m :
  line_ok setup -> pool (tvideo_pool s) = None -> zlen m = TVIDEO_POOL_LEN -> tvideo_msg_que s = Some [] ->
  sent s = [] -> zlen (tvideo_rxbuf s) = TVIDEO_RXBUF_LEN ->
  exists s', video_transfer_main setup (Some m) true s = Done s' /\ sim s' line_start /\ camera_wf s'.
Proof.
  intros K Hp Hm Hq Hs Hb. unfold video_transfer_main, tvideo_pool_init. rewrite Hp. cbn [deref mbind outcome_bind].
  set (z := replicate _ 0). assert (Hz : zlen z = TVIDEO_POOL_LEN).
  { unfold z, zlen. rewrite length_replicate. apply Z2Nat.id. by vm_compute. }
  clearbody z. rewrite mem_write_in by lia. cbn [mbind outcome_bind].
  change (TVIDEO_POOL_LEN / TVIDEO_RXNODE_SIZE) with 25.
  set (l0 := co_list_init Ready (co_list_init Free (lists (tvideo_pool s)))).
  assert (E0 : forall v, elems l0 v = []).
  { intros []; unfold l0; [|by rewrite elems_init]. by rewrite elems_init_other, elems_init. }
  destruct (push_all (seqZ 0 25) l0) as [E1 E2]; [apply NoDup_seqZ|intros i v _; rewrite E0; set_solver|].
  rewrite E0 in E1, E2. destruct (node_small K) as [Hn Hn2]. eexists. split; [reflexivity|].
  set (l1 := foldl _ _ _) in *. clearbody l1. split.
  - split; cbn [pool tvideo_pool set_thread camera_intfer_init set_camera tvideo_config_desc set_desc set_pool elem
      frame_id pkt_header_size sent tvideo_msg_que node_len tvideo_st].
    + eexists. split; [reflexivity|]. by rewrite zlen_splice by lia.
    + change (queue line_start) with (@nil (list Z)). unfold pending. cbn [pool tvideo_pool set_thread camera_intfer_init
        set_camera tvideo_config_desc set_desc set_pool].
      change (unsent _) with (elems l1 Ready). by rewrite E2.
    + split; [by rewrite length_map|]. intros i e Hi He. rewrite list_lookup_fmap in He.
      destruct (seqZ 0 25 !! Z.to_nat i) as [j|] eqn:Ej; [|done]. cbn in He. injection He as <-.
      apply lookup_seqZ in Ej. cbn [buf_start buf_len]. unfold TVIDEO_RXNODE_SIZE, TVIDEO_RXNODE_SIZE_UDP. lia.
    + change (elems l1 Free ++ elems l1 Ready ++ [] ≡ₚ seqZ 0 25). by rewrite E1, E2.
    + exact I.
    + reflexivity.
    + reflexivity.
    + reflexivity.
    + exact Hq.
    + apply Nat.le_0_l.
    + exact Hs.
  - split.
    + reflexivity.
    + split; [|reflexivity]. change (u16 (n * 4) = 4 * n). rewrite u16_small; lia.
    + by exists 0.
    + reflexivity.
    + exact Hb.
Qed.
End Stream.

(* ------------------------------------------------------------------ *)
(** ** The stream of packets *)

Section Packets.
Context (setup : TVIDEO_SETUP_DESC_ST).
Abbreviation n := (N setup).

(** The packets a run of camera events makes, the last of a frame marked and
    counted, and the bytes the engine produced. *)
Fixpoint camera_packets (fid : Z) (es : list event) : list (list Z) :=
  match es with
  | [] => []
  | Node bs :: es' => packet setup fid bs 0 0 :: camera_packets fid es'
  | FrameEnd bs flen :: es' =>
      (if zlen bs =? 0 then [] else [packet setup fid bs 1 (packet_count flen n)]) ++ camera_packets (u16 (fid + 1)) es'
  | _ :: es' => camera_packets fid es'
  end.

Fixpoint camera_bytes (es : list event) : list Z :=
  match es with
  | [] => []
  | (Node bs | FrameEnd bs _) :: es' => bs ++ camera_bytes es'
  | _ :: es' => camera_bytes es'
  end.

Definition payload (p : list Z) : list Z := drop (Z.to_nat (header_size setup)) p.

Lemma payload_packet fid bs eof cnt : line_ok setup -> payload (packet setup fid bs eof cnt) = bs.
Proof.
  intros K. unfold payload, packet. apply drop_app_length'.
  pose proof (lk_header setup K (mk_hdr (zlen bs) fid eof cnt)) as Hh. unfold zlen in *. lia.
Qed.

Lemma payloads_are_bytes es : line_ok setup -> forall fid, concat (map payload (camera_packets fid es)) = camera_bytes es.
Proof.
  intros K. induction es as [|[bs|bs flen|a|] es IH]; intros fid; cbn [camera_packets camera_bytes map concat app];
    rewrite ?map_app, ?concat_app, ?IH, ?payload_packet by done; try done.
  destruct (Z.eqb_spec (zlen bs) 0) as [E|E]; cbn [map concat]; rewrite ?payload_packet, ?app_nil_r by done; [|done].
  destruct bs; [done|]. rewrite zlen_cons in E. pose proof (zlen_nonneg bs). lia.
Qed.

Definition through (t : line) : list (list Z) := taken t ++ queue t.

(** What one step does to the packets that went through, given those the
    camera makes later. *)
Definition continues (t t' : line) (new : list (list Z)) : Prop :=
  (through t' = through t ++ new /\ lost t' = lost t) \/ (through t' = through t /\ lost t < lost t').

Lemma arrive_continues p t : continues t (arrive p t) [p].
Proof.
  unfold continues, arrive, through. destruct (_ <? _); cbn; [left|right; split; [done|lia]].
  by rewrite <- app_assoc.
Qed.

Lemma thread_continues a t : through (line_thread a t) = through t /\ lost (line_thread a t) = lost t.
Proof.
  unfold line_thread, through. destruct (at_ t); [by destruct (msgs t)|done| |done..].
  destruct (queue t) as [|p q] eqn:Eq; [by rewrite Eq|]. destruct (a =? zlen p); cbn; rewrite ?Eq; [|done].
  by rewrite <- app_assoc.
Qed.

Lemma frame_thread a t : frame (line_thread a t) = frame t.
Proof.
  unfold line_thread. destruct (at_ t); [by destruct (msgs t)|done| |done..].
  destruct (queue t); [done|]. by destruct (a =? _).
Qed.

Lemma frame_arrive p t : frame (arrive p t) = frame t.
Proof. unfold arrive. by destruct (_ <? _). Qed.

Lemma line_run_stream es : forall t,
  let t' := line_run setup es t in
  lost t <= lost t' /\
  through t' `sublist_of` through t ++ camera_packets (frame t) es /\
  (lost t' = lost t -> through t' = through t ++ camera_packets (frame t) es).
Proof.
  assert (Hgen : forall new t t1 es, continues t t1 new ->
    (let t' := line_run setup es t1 in
     lost t1 <= lost t' /\ through t' `sublist_of` through t1 ++ camera_packets (frame t1) es /\
     (lost t' = lost t1 -> through t' = through t1 ++ camera_packets (frame t1) es)) ->
    let t' := line_run setup es t1 in
    lost t <= lost t' /\ through t' `sublist_of` through t ++ new ++ camera_packets (frame t1) es /\
    (lost t' = lost t -> through t' = through t ++ new ++ camera_packets (frame t1) es)).
  { intros new t t1 es' Hc (H1 & H2 & H3). cbv zeta. destruct Hc as [[E1 E2]|[E1 E2]].
    - rewrite E1, <- app_assoc in H2, H3. rewrite E2 in *. done.
    - split_and!; [lia| |lia]. rewrite E1 in H2. etrans; [exact H2|]. apply sublist_app; [done|]. by apply sublist_inserts_l. }
  induction es as [|e es IH]; intros t.
  { cbn. rewrite app_nil_r. split_and!; [lia|done|done]. }
  change (line_run setup (e :: es) t) with (line_run setup es (line_step setup e t)).
  destruct e as [bs|bs flen|a|]; cbn [line_step camera_packets].
  - set (p := packet setup (frame t) bs 0 0).
    assert (Ef : frame t = frame (poll (arrive p t))) by (symmetry; apply frame_arrive). rewrite Ef.
    apply (Hgen [p] t (poll (arrive p t)) es); [apply (arrive_continues p t)|apply IH].
  - set (p := packet setup (frame t) bs 1 _).
    set (t1 := poll (next_frame (if zlen bs =? 0 then t else poll (arrive p t)))).
    assert (Ef : u16 (frame t + 1) = frame t1).
    { unfold t1. destruct (_ =? 0); cbn; by rewrite ?frame_arrive. }
    rewrite Ef. apply (Hgen (if zlen bs =? 0 then [] else [p]) t t1 es); [|apply IH].
    unfold t1. destruct (_ =? 0); [left; split; [|done]; unfold through; cbn; by rewrite app_nil_r|apply (arrive_continues p t)].
  - destruct (thread_continues a t) as [E1 E2]. pose proof (frame_thread a t) as E3.
    specialize (IH (line_thread a t)). by rewrite E1, E2, E3 in IH.
  - apply IH.
Qed.
End Packets.

(* ------------------------------------------------------------------ *)
(** ** Theorems *)

Section Theorems.
Context {L : Type} `{CoLists L}.

(** The line before its first start: no thread, no queue, no memory. *)
Record off (s : video L) : Prop := {
  of_thread : thread s = T_none;
  of_que : tvideo_msg_que s = None;
  of_pool : pool (tvideo_pool s) = None;
  of_sent : sent s = [];
  of_buf : zlen (tvideo_rxbuf s) = TVIDEO_RXBUF_LEN
}.

(** [video_transfer_init], the start of the thread and then the events. *)
Definition transfer (setup : TVIDEO_SETUP_DESC_ST) (m : list Z) (es : list event) (s : video L) : outcome (video L) :=
  run setup (Some m) true (Thread 0 :: es) (snd (video_transfer_init true true s)).

Lemma transfer_run setup m es s :
  line_ok setup -> off s -> zlen m = TVIDEO_POOL_LEN -> Forall (event_ok setup) es ->
  undisturbed setup es line_start = true ->
  exists s', transfer setup m es s = Done s' /\ sim setup s' (line_run setup es line_start) /\ camera_wf setup s'.
Proof.
  intros K [Ht Hq Hp Hs Hb] Hm Hes Hu. unfold transfer, video_transfer_init. rewrite Ht, Hq. cbn [snd].
  cbn [run step]. change (thread_step setup (Some m) true 0 (set_thread T_main (set_que (Some []) s)))
    with (video_transfer_main setup (Some m) true (set_thread T_main (set_que (Some []) s))).
  destruct (start_sim setup (set_thread T_main (set_que (Some []) s)) m K) as (s1 & E & S & C); try done.
  rewrite E. cbn [mbind outcome_bind]. by apply run_sim.
Qed.

(** C2: For a setup whose packets fit their nodes ([line_ok]), from the start
    and until the transfer is told to stop: whatever the order in which node
    and frame interrupts come between the steps of the sending thread, save
    that none brings bytes while the thread is inside a call of the list
    library, and whatever the network answers, the line stays inside its
    buffers, owns each of its 25 nodes exactly once, and what was sent and is
    still to be sent are packets of the camera in their order; when no packet
    met a full line they are all of them, and their payloads are the bytes the
    camera produced. *)
Theorem video_stream setup m es (s : video L) :
  line_ok setup -> off s -> zlen m = TVIDEO_POOL_LEN -> Forall (event_ok setup) es ->
  undisturbed setup es line_start = true ->
  let t := line_run setup es line_start in
  exists s', transfer setup m es s = Done s' /\
    sent s' = taken t /\ pending s' = queue t /\ free s' ++ ready s' ++ held s' ≡ₚ seqZ 0 25 /\
    (sent s' ++ pending s') `sublist_of` camera_packets setup 0 es /\
    (lost t = 0 -> sent s' ++ pending s' = camera_packets setup 0 es /\
                   concat (map (payload setup) (sent s' ++ pending s')) = camera_bytes es).
Proof.
  intros K O Hm Hes Hu t. destruct (transfer_run setup m es s K O Hm Hes Hu) as (s' & E & S & _). fold t in S.
  pose proof (line_run_stream setup es line_start) as (_ & H2 & H3). fold t in H2, H3.
  change (through line_start) with (@nil (list Z)) in *. change (frame line_start) with 0 in *. cbn [app] in *.
  assert (Et : sent s' ++ pending s' = through t) by (unfold through; by rewrite (sm_sent _ _ _ S), (sm_queue _ _ _ S)).
  exists s'. split_and!; [done|apply S|symmetry; apply S|apply S|by rewrite Et|].
  intros Hl. rewrite Et, H3 by done. split; [done|]. by apply payloads_are_bytes.
Qed.

(** The steps of a poll whose packets the network takes, in and out of the two
    list calls for each. *)
Fixpoint poll_steps (ps : list (list Z)) : list event :=
  match ps with
  | [] => [Thread 0]
  | p :: ps' => Thread 0 :: Thread (zlen p) :: Thread 0 :: Thread 0 :: Thread 0 :: Thread 0 :: poll_steps ps'
  end.

Definition line_threads (answers : list Z) (t : line) : line := foldl (fun t a => line_thread a t) t answers.

Lemma line_run_threads setup answers es : forall t,
  line_run setup (map Thread answers ++ es) t = line_run setup es (line_threads answers t).
Proof. induction answers as [|a answers IH]; intros t; [done|]. apply (IH (line_thread a t)). Qed.

Lemma poll_packet p q t :
  at_ t = Pick -> queue t = p :: q ->
  line_threads [0; zlen p; 0; 0; 0; 0] t =
  mk_line q (taken t ++ [p]) Pick (frame t) (msgs t) (lost t).
Proof.
  intros Ha Hq. unfold line_threads. cbn [foldl].
  assert (E1 : line_thread 0 t = go Send t) by (unfold line_thread; by rewrite Ha, Hq).
  assert (E2 : line_thread (zlen p) (go Send t) = mk_line q (taken t ++ [p]) Pop (frame t) (msgs t) (lost t))
    by (unfold line_thread, go; cbn [at_ queue]; by rewrite Hq, Z.eqb_refl).
  by rewrite E1, E2.
Qed.

Lemma poll_steps_line setup ps : forall t,
  at_ t = Pick -> queue t = ps ->
  line_run setup (poll_steps ps) t = mk_line [] (taken t ++ ps) Wait (frame t) (msgs t) (lost t).
Proof.
  induction ps as [|p ps IH]; intros t Ha Hq.
  - cbn. unfold line_thread. rewrite Ha, Hq. unfold go. by rewrite Hq, app_nil_r.
  - change (poll_steps (p :: ps)) with (map Thread [0; zlen p; 0; 0; 0; 0] ++ poll_steps ps).
    rewrite line_run_threads, (poll_packet p ps t Ha Hq), IH by done. cbn. by rewrite <- app_assoc.
Qed.

Lemma poll_steps_ok setup ps : Forall (event_ok setup) (poll_steps ps).
Proof. induction ps; cbn; repeat constructor; done. Qed.

Lemma undisturbed_thread_step setup a es t :
  undisturbed setup (Thread a :: es) t = undisturbed setup es (line_thread a t).
Proof. reflexivity. Qed.

Lemma poll_steps_undisturbed setup ps : forall t, undisturbed setup (poll_steps ps) t = true.
Proof. induction ps as [|p ps IH]; intros t; [done|]. cbn [poll_steps]. by rewrite !undisturbed_thread_step. Qed.

(** C39: Once a run of a fitting setup, undisturbed inside the list calls and
    not told to stop, has the thread at the beginning of a poll: a poll that
    no camera interrupt comes into empties the line in six steps a packet when
    the network takes what it is given.  Everything pending is sent, in order,
    all nodes are free again and the thread waits. *)
Theorem video_poll_drains setup m es (s s1 : video L) :
  line_ok setup -> off s -> zlen m = TVIDEO_POOL_LEN -> Forall (event_ok setup) es ->
  undisturbed setup es line_start = true ->
  transfer setup m es s = Done s1 -> thread s1 = T_pick ->
  exists s2, run setup (Some m) true (poll_steps (pending s1)) s1 = Done s2 /\ thread s2 = T_wait /\
    sent s2 = sent s1 ++ pending s1 /\ pending s2 = [] /\ free s2 ≡ₚ seqZ 0 25.
Proof.
  intros K O Hm Hes Hu E1 Ht. destruct (transfer_run setup m es s K O Hm Hes Hu) as (s' & E & S & C).
  rewrite E1 in E. injection E as <-. set (t := line_run setup es line_start) in *.
  pose proof (sm_stage _ _ _ S) as Hst. unfold staged in Hst. rewrite Ht in Hst. destruct (at_ t) eqn:Ea; try done.
  destruct (run_sim setup (Some m) (poll_steps (pending s1)) s1 t K S C (poll_steps_ok setup _) (poll_steps_undisturbed setup _ t)) as (s2 & E2 & S2 & _).
  exists s2. split; [done|]. rewrite poll_steps_line in S2 by (done || apply S).
  pose proof (sm_stage _ _ _ S2) as Hs2. pose proof (sm_queue _ _ _ S2) as Hq2. pose proof (sm_nodes _ _ _ S2) as Hn2.
  destruct (sm_pool _ _ _ S2) as (m2 & Em2 & _). unfold staged in Hs2. cbn in Hs2.
  destruct (thread s2) eqn:Et2; try done. split_and!; [done| |done|].
  - rewrite (sm_sent _ _ _ S2). cbn. by rewrite (sm_sent _ _ _ S).
  - cbn in Hq2. unfold pending in Hq2. rewrite Em2 in Hq2. unfold unsent in Hq2. rewrite Et2 in Hq2.
    unfold held in Hn2. rewrite Et2 in Hn2. destruct (ready s2); [|done]. by rewrite !app_nil_r in Hn2.
Qed.

(** Stopping.  The thread gives the memory back before it stops the
    camera: a node that is full in between is copied through the freed
    pointer.  And when 60 messages wait, the message that stops the thread is
    dropped, and [video_transfer_deinit] waits for a thread that goes on. *)
Theorem video_exit_unsafe setup m es (s s1 : video L) bs :
  line_ok setup -> off s -> zlen m = TVIDEO_POOL_LEN -> Forall (event_ok setup) es ->
  undisturbed setup es line_start = true -> zlen bs = N setup -> transfer setup m es s = Done s1 ->
  (thread s1 = T_wait -> tvideo_msg_que s1 = Some [] -> free s1 <> [] ->
   run setup (Some m) true [Stop; Thread 0; Thread 0; Node bs] s1 = Wild) /\
  (forall q, tvideo_msg_que s1 = Some q -> zlen q = TV_QITEM_COUNT -> step setup (Some m) true Stop s1 = Done s1).
Proof.
  intros K O Hm Hes Hu Hb E1. destruct (transfer_run setup m es s K O Hm Hes Hu) as (s' & E & S & C).
  rewrite E1 in E. injection E as <-. split.
  - intros Ht Hq Hf. set (p := tvideo_pool s1).
    set (s2 := set_thread T_deinit (set_pool (mk_pool None (elem p) (lists p) (send_type p) (frame_id p) (pkt_header_size p))
                 (set_thread T_exit (set_que (Some []) (set_que (Some [TV_EXIT]) s1))))).
    assert (Es : run setup (Some m) true [Stop; Thread 0; Thread 0; Node bs] s1 = run setup (Some m) true [Node bs] s2).
    { cbn [run step]. unfold video_transfer_deinit, tvideo_intfer_send_msg. rewrite Hq.
      change (zlen [] <? TV_QITEM_COUNT) with true. cbn [mbind outcome_bind app].
      assert (E2 : thread_step setup (Some m) true 0 (set_que (Some [TV_EXIT]) s1) =
        Done (set_thread T_exit (set_que (Some []) (set_que (Some [TV_EXIT]) s1))))
        by (unfold thread_step; cbn [thread set_que]; by rewrite Ht).
      rewrite E2. reflexivity. }
    rewrite Es. cbn [run step].
    assert (C2 : camera_wf setup s2) by (destruct C; by split).
    destruct (engine_run setup s2 bs K C2) as (m2 & Ew & _ & Er); [lia|].
    unfold node_interrupt. rewrite (cw_open _ _ C2), Ew. cbn [mbind outcome_bind].
    unfold camera_intf_ejpeg_rx_handler. cbn [ejpeg_hdl set_rxbuf ejpeg_cfg]. rewrite (cw_open _ _ C2). cbn [negb].
    destruct (cw_cfg _ _ C2) as [_ Hc2]. destruct (node_small setup K) as [Hn Hn2]. rewrite Hc2, Hn.
    unfold tvideo_rx_handler. rewrite (proj2 (Z.eqb_neq (N setup) 0)) by lia. rewrite pick_head.
    change (use_list Free _) with (Done tt). cbn [mbind outcome_bind].
    change (elems _ Free) with (free s1). destruct (free s1) as [|i rest] eqn:Ef; [done|]. cbn [head].
    destruct (node_elem setup s1 _ i S) as (e & Ee & _); [apply (node_range setup s1 _ i S); rewrite Ef; set_solver|].
    change (elem _) with (elem (tvideo_pool s1)). by rewrite Ee.
  - intros q Hq Hz. cbn [step]. unfold video_transfer_deinit, tvideo_intfer_send_msg. rewrite Hq, Hz. reflexivity.
Qed.

(** What the schedule of [video_stream] leaves out: a node that is full while
    the thread is inside [co_list_push_back(&tvideo_pool.free, ..)] has the
    handler pick and pop the list under change. *)
Theorem video_list_race setup m es (s s1 : video L) bs i :
  line_ok setup -> off s -> zlen m = TVIDEO_POOL_LEN -> Forall (event_ok setup) es ->
  undisturbed setup es line_start = true -> zlen bs = N setup ->
  transfer setup m es s = Done s1 -> thread s1 = T_pushing i ->
  step setup (Some m) true (Node bs) s1 = Wild.
Proof.
  intros K O Hm Hes Hu Hb E1 Ht. destruct (transfer_run setup m es s K O Hm Hes Hu) as (s' & E & S & C).
  rewrite E1 in E. injection E as <-. destruct (node_small setup K) as [Hn Hn2].
  destruct (engine_run setup s1 bs K C) as (m2 & Ew & _); [lia|].
  cbn [step]. unfold node_interrupt. rewrite (cw_open _ _ C), Ew. cbn [mbind outcome_bind].
  unfold camera_intf_ejpeg_rx_handler. cbn [ejpeg_hdl set_rxbuf ejpeg_cfg]. rewrite (cw_open _ _ C). cbn [negb].
  destruct (cw_cfg _ _ C) as [_ Hc2]. rewrite Hc2, Hn. unfold tvideo_rx_handler, use_list.
  rewrite (proj2 (Z.eqb_neq (N setup) 0)) by lia. cbn [thread set_rxbuf]. by rewrite Ht.
Qed.

(** C40: For a stream over TCP, or into a buffer, the node length leaves the
    header out of account: with a header over 12 bytes a full node is written
    past the end of its packet, over the beginning of the next one (whatever
    the thread is doing outside the list calls), and from the last node past
    the end of the pool. *)
Theorem video_header_overruns setup hdr cur bs eof flen (s : video L) m i len hs :
  setup_send_type setup = TVIDEO_SND_TCP \/ setup_send_type setup = TVIDEO_SND_BUFFER ->
  add_pkt_header setup = Some hdr -> (forall p, zlen (hdr p) = hs) -> 12 < hs <= TVIDEO_RXNODE_SIZE ->
  pkt_header_size (tvideo_pool s) = hs -> node_len (tvideo_st s) = node_len_for (setup_send_type setup) hs ->
  pool (tvideo_pool s) = Some m -> zlen m = TVIDEO_POOL_LEN -> zlen (elem (tvideo_pool s)) = 25 ->
  head (free s) = Some i -> 0 <= i < 25 -> elem (tvideo_pool s) !! Z.to_nat i = Some (mk_elem (i * TVIDEO_RXNODE_SIZE) len) ->
  mem_read (tvideo_rxbuf s) cur TVIDEO_RXNODE_SIZE_TCP = Done bs ->
  if i =? 24 then tvideo_rx_handler setup cur TVIDEO_RXNODE_SIZE_TCP eof flen s = Wild
  else in_call (thread s) = None ->
    exists s' m', tvideo_rx_handler setup cur TVIDEO_RXNODE_SIZE_TCP eof flen s = Done s' /\
    pool (tvideo_pool s') = Some m' /\
    slice m' ((i + 1) * TVIDEO_RXNODE_SIZE) (hs - 12) = slice bs (1472 - hs) (hs - 12).
Proof.
  unfold TVIDEO_POOL_LEN, TVIDEO_RXNODE_SIZE, TVIDEO_RXNODE_SIZE_UDP. intros Hty Eh Hh Hs Ehs En Em Hm Hel Hf Hi Ee Er.
  assert (Hn : node_len (tvideo_st s) = 1460) by (rewrite En; by destruct Hty as [-> | ->]).
  unfold tvideo_rx_handler. change (TVIDEO_RXNODE_SIZE_TCP =? 0) with false.
  assert (Hu : use_list Free s = Done tt \/ use_list Free s = Wild /\ in_call (thread s) <> None)
    by (unfold use_list; destruct (in_call (thread s)) as [[]|]; auto).
  destruct Hu as [-> |[-> Hc]]; [|by destruct (i =? 24)].
  cbn [mbind outcome_bind]. rewrite pick_head. fold (free s). rewrite Hf.
  rewrite (aget_in _ _ _ (proj1 Hi) Ee). cbn [mbind outcome_bind]. rewrite Hn. change (1460 <? TVIDEO_RXNODE_SIZE_TCP) with false.
  cbn beta iota zeta.
  assert (Ec : exists cnt, (if eof =? 0 then Done 0 else if 1460 =? 0 then Wild else Done (packet_count flen 1460)) = Done cnt)
    by (destruct (eof =? 0); by eexists).
  destruct Ec as [cnt ->]. rewrite Em. cbn [mbind outcome_bind deref buf_start]. rewrite Eh.
  set (h := hdr _). assert (Hzh : zlen h = hs) by apply Hh. clearbody h.
  rewrite mem_write_in by lia. cbn [mbind outcome_bind]. rewrite Er. cbn [mbind outcome_bind]. rewrite Ehs.
  assert (Hzb : zlen bs = 1460).
  { unfold mem_read, in_range, TVIDEO_RXNODE_SIZE_TCP in Er. destruct (_ && _) eqn:E; [|done]. zbool. injection Er as <-.
    apply zlen_slice; lia. }
  destruct (Z.eqb_spec i 24) as [->|Hne].
  - rewrite mem_write_out; [done|]. rewrite zlen_splice; lia.
  - intros Hc. rewrite mem_write_in by (rewrite ?zlen_splice; lia). cbn [mbind outcome_bind]. rewrite aset_in by lia.
    rewrite (use_list_free s Ready Hc). cbn [mbind outcome_bind]. eexists _, _. split; [reflexivity|]. rewrite tvideo_pool_send. split; [reflexivity|].
    replace ((i + 1) * 1472) with (i * 1472 + hs + (1472 - hs)) by lia.
    rewrite <- (slice_slice _ (i * 1472 + hs) 1460 (1472 - hs) (hs - 12)) by lia.
    by rewrite slice_splice_same by (rewrite ?zlen_splice; lia).
Qed.
End Theorems.

(* ------------------------------------------------------------------ *)
(** ** Witnesses *)

(** Two lists that meet the contract. *)
Definition list_of (l : list Z * list Z) (w : co_list) : list Z := match w with Free => fst l | Ready => snd l end.
Definition list_set (w : co_list) (x : list Z) (l : list Z * list Z) : list Z * list Z :=
  match w with Free => (x, snd l) | Ready => (fst l, x) end.

#[export, program] Instance two_lists : CoLists (list Z * list Z) := {|
  elems := list_of;
  co_list_init w l := list_set w [] l;
  co_list_push_back w x l := list_set w (list_of l w ++ [x]) l;
  co_list_pop_front w l := list_set w (tail (list_of l w)) l;
  co_list_pick w l := head (list_of l w)
|}.
Next Obligation. by intros []. Qed.
Next Obligation. by intros [] []. Qed.
Next Obligation. by intros []. Qed.
Next Obligation. by intros [] []. Qed.
Next Obligation. by intros []. Qed.
Next Obligation. by intros [] []. Qed.
Next Obligation. by intros []. Qed.

(** A header of four bytes: frame, end, packets, and a constant. *)
Definition demo_setup : TVIDEO_SETUP_DESC_ST :=
  mk_setup TVIDEO_SND_UDP true 4 (Some (fun p => [hdr_frame_id p; is_eof p; frame_len p; 90])).

Definition demo_off : video (list Z * list Z) :=
  mk_video (mk_pool None [] ([], []) 0 0 0) (mk_desc 0 0 0) (replicate (Z.to_nat TVIDEO_RXBUF_LEN) 0) None T_none false
           (mk_desc 0 0 0) 0 [].

Definition demo_mem : list Z := replicate (Z.to_nat TVIDEO_POOL_LEN) 0.

(** A frame of a full node and three bytes; the thread is woken and sends the
    first packet while the second arrives. *)
Definition demo_events : list event :=
  [Node (replicate 1468 7); Thread 0; Thread 0; Thread 1472; Thread 0; Thread 0; FrameEnd [1; 2; 3] 1471; Thread 0].

Lemma demo_ok : line_ok demo_setup.
Proof. by split; try (vm_compute; (reflexivity || discriminate)). Qed.

Lemma demo_is_off : off demo_off.
Proof. by split. Qed.

Lemma demo_events_ok : Forall (event_ok demo_setup) demo_events.
Proof. repeat constructor. Qed.

Lemma demo_events_undisturbed : undisturbed demo_setup demo_events line_start = true.
Proof. vm_compute. reflexivity. Qed.

Lemma demo_mem_length : zlen demo_mem = TVIDEO_POOL_LEN.
Proof. unfold demo_mem, zlen. rewrite length_replicate. by apply Z2Nat.id. Qed.

Lemma video_stream_witness :
  exists s', transfer demo_setup demo_mem demo_events demo_off = Done s' /\
    sent s' = [[0; 0; 0; 90] ++ replicate 1468 7] /\ pending s' = [[0; 1; 2; 90; 1; 2; 3]].
Proof.
  destruct (video_stream demo_setup demo_mem demo_events demo_off) as (s' & E & H1 & H2 & _).
  - apply demo_ok.
  - apply demo_is_off.
  - apply demo_mem_length.
  - apply demo_events_ok.
  - apply demo_events_undisturbed.
  - exists s'. split; [exact E|]. rewrite H1, H2. split; vm_compute; reflexivity.
Defined.

Definition poll_events : list event := [Node (replicate 1468 7); Thread 0].

Lemma video_poll_drains_witness :
  exists s1, transfer demo_setup demo_mem poll_events demo_off = Done s1 /\
  exists s2, run demo_setup (Some demo_mem) true (poll_steps (pending s1)) s1 = Done s2 /\ thread s2 = T_wait /\
    sent s2 = sent s1 ++ pending s1 /\ pending s2 = [] /\ free s2 ≡ₚ seqZ 0 25.
Proof.
  destruct (transfer_run demo_setup demo_mem poll_events demo_off) as (s1 & E & S & _);
    [apply demo_ok|apply demo_is_off|apply demo_mem_length|repeat constructor|vm_compute; reflexivity|].
  exists s1. split; [exact E|].
  apply (video_poll_drains demo_setup demo_mem poll_events demo_off).
  - apply demo_ok.
  - apply demo_is_off.
  - apply demo_mem_length.
  - repeat constructor.
  - vm_compute. reflexivity.
  - exact E.
  - pose proof (sm_stage _ _ _ S) as Hs. unfold staged in Hs. vm_compute (at_ _) in Hs. clear - Hs.
    destruct (thread s1); first [reflexivity | destruct Hs].
Defined.

Lemma video_exit_unsafe_witness :
  exists s1, transfer demo_setup demo_mem [] demo_off = Done s1 /\
    run demo_setup (Some demo_mem) true [Stop; Thread 0; Thread 0; Node (replicate 1468 7)] s1 = Wild.
Proof.
  destruct (transfer_run demo_setup demo_mem [] demo_off) as (s1 & E & S & _);
    [apply demo_ok|apply demo_is_off|apply demo_mem_length|constructor|reflexivity|].
  exists s1. split; [exact E|].
  apply (video_exit_unsafe demo_setup demo_mem [] demo_off);
    [apply demo_ok|apply demo_is_off|apply demo_mem_length|constructor|reflexivity|reflexivity|exact E| | |].
  - pose proof (sm_stage _ _ _ S) as Hs. unfold staged in Hs. vm_compute (at_ _) in Hs. clear - Hs.
    destruct (thread s1); first [reflexivity | destruct Hs].
  - exact (sm_que _ _ _ S).
  - intros Hf. pose proof (occupied_free _ _ _ S) as Ho. clear - Ho Hf. rewrite Hf in Ho. vm_compute in Ho. discriminate Ho.
Defined.

Definition tcp_setup : TVIDEO_SETUP_DESC_ST := mk_setup TVIDEO_SND_TCP true 16 (Some (fun _ => replicate 16 90)).

Definition tcp_line : video (list Z * list Z) :=
  mk_video (mk_pool (Some demo_mem) (map (fun i => mk_elem (i * TVIDEO_RXNODE_SIZE) 0) (seqZ 0 25)) ([24], seqZ 0 24) 2 0 16)
           (mk_desc 5840 0 1460) (replicate (Z.to_nat TVIDEO_RXBUF_LEN) 5) None T_none true (mk_desc 5840 0 1460) 0 [].

Lemma video_header_overruns_witness :
  tvideo_rx_handler tcp_setup 0 TVIDEO_RXNODE_SIZE_TCP 0 0 tcp_line = Wild.
Proof.
  apply (video_header_overruns tcp_setup (fun _ => replicate 16 90) 0 (replicate 1460 5) 0 0 tcp_line demo_mem 24 0 16).
  - by left.
  - reflexivity.
  - reflexivity.
  - decide_closed.
  - reflexivity.
  - reflexivity.
  - reflexivity.
  - apply demo_mem_length.
  - reflexivity.
  - reflexivity.
  - lia.
  - reflexivity.
  - vm_compute. reflexivity.
Defined.
